(* ===== verification/_CoqProject ===== *)
-Q . S2P
Prelude.v
Transitions.v
Coord.v
CoordFloat.v
CoordQ.v
Chrono.v
Geometry.v
Binary64.v
Rounding.v
Nearest.v
QuadTree.v
Samples.v
Insert.v
Invariant.v
Query.v
Traversal.v
Acceptance.v
Driver.v
History.v
Placement.v
Bounds.v
Nesting.v
Refine.v
Workload.v
Midpoint.v
Doubles.v
Examples.v
Heap.v
HeapRepr.v
HeapAbs.v
HeapRefine.v
Destructor.v
Lifetime.v
Space.v
Object.v
Main.v
Average.v
Depth.v
Machine.v
Interaction.v
