(* ===== verification/Prelude.v ===== *)
(** * A verified model of the point-region quadtree of [src/Code.cpp]

    ** The program

    [src/Code.cpp] holds three classes and a benchmark driver:

    - [Point] (lines 9-14): a pair of [double] coordinates;
    - [BoundingBox] (lines 16-27): a closed rectangle with the predicates
      [contains] and [intersects];
    - [QuadTree] (lines 29-86): a node owning a boundary, an [int]
      capacity, a [vector<Point>] buffer and four child pointers
      [nw], [ne], [sw], [se]; its operations are the constructor,
      [insert], [queryRange] and the private [subdivide];
    - [main] (lines 88-138): draws random points, inserts them one by one,
      times a number of range queries and prints an average.

    [insert] calls [BoundingBox::contains], [subdivide] and itself on the
    children; [queryRange] calls [BoundingBox::intersects],
    [BoundingBox::contains] and itself on the children; the destructor
    (lines 37-42) deletes the children.  All state is the tree, built
    of objects that [subdivide] allocates with [new]; there is no
    concurrency, and no sharing as long as no tree is copied.

    ** The two levels

    The program is modelled twice, and the two models are proved to
    agree.  On the upper level a tree is a value (an inductive type)
    and a method a function from trees to trees: this is where the
    contract of the index is proved (files [QuadTree] to [Workload]).
    On the lower level a tree is a set of objects in a heap, linked by
    pointers, and a method a function on the heap through [this], as
    the C++ is written (files [Heap] to [Interaction]): this is where
    ownership, the absence of dangling pointers, the destructor and the
    whole of [main], with its clock and its output, are treated.  The
    refinement theorems of [HeapRefine] carry the contract of the
    upper level down to the lower one.

    ** The files

    - [Prelude] (this file): the [outcome] monad in which the operations
      run ([Ok], [OutOfFuel] for a recursion that has not returned within
      the fuel given, [NullDeref] for the dereference of a null child
      pointer, [InvalidPtr] for an access through, or the [delete] of, a
      pointer to no object), its notations in [outcome_scope], the
      relations [outcome_rel] and [ok_le] between computations, the
      conversion of an [int] to [size_t] that the comparison
      [points.size() < capacity] performs, the tactics and the hint
      database [qt] of the development, and the lemmas on lists the
      components share.
    - [Transitions]: sequences of steps of a transition relation,
      the states every path leads to ([eventually]), and what
      determinism gives.
    - [Coord]: the interface of the arithmetic the program uses on
      coordinates, as a class [Coord] of operations (sum, difference,
      product, quotient, the conversion of an [int], the constants 0 and
      2, the comparisons [<=] and [<]), and the laws some theorems need
      as further classes: [CoordOrder] (transitivity of [<=], and
      [a <= b] excludes [b < a]), [CoordChain] ([<=] and [<] compose),
      [CoordTotal] ([<=] is total),
      [CoordStrict] ([<] is the negation of the converse [<=]),
      [CoordNumbers] (both, for the values that compare),
      [CoordMid] (a midpoint lies in its interval) and [CoordScale] (so
      does the point at a fraction [r / m] of it).  Theorems that need no
      law are stated over [Coord] alone and so hold of IEEE arithmetic
      with its NaNs.
    - [CoordFloat]: the instance the program runs on, binary64
      ([PrimFloat], the kernel's IEEE 754 doubles).  Its order laws are
      proved from the specification of the primitive comparisons;
      [CoordTotal] and [CoordStrict] fail (NaN) and are shown to fail;
      every comparison with NaN is false.
    - [CoordQ]: exact rational coordinates, which satisfy every law; the
      idealised arithmetic the specification has in mind.
    - [Chrono]: the arithmetic [main] does on the readings of the
      clock, at its width: the difference of two 64-bit tick counts,
      the truncating cast to microseconds, the division by [1e6]; what
      a clock may promise ([since_epoch], [steady]), and the recorded
      times of a steady clock against the time that passed.
    - [Geometry]: [Point], [BoundingBox], [contains], [intersects] and
      the four quadrants [subdivide] computes, with the facts on boxes the
      tree relies on: pruning by [intersects] loses no point and, where
      the values that compare are totally ordered, [intersects] holds
      exactly of the valid boxes that share a point; the quadrants cover the points of their parent that
      are comparable to its midpoints, and tile it when midpoints lie in
      their intervals.  The class [Covering] names what the tree needs
      of its boxes: a class of boxes closed under taking quadrants, each
      covered by its quadrants.  In a total order all boxes form one.
      The class [Halving] adds that the boxes are valid and cut
      between their bounds: then the quadrants lie within the box and
      tile it.  With exact midpoints all valid boxes form one.
    - [Binary64]: on doubles the boxes whose bounds are numbers, not
      infinities of opposite signs ([box_num]; every box with finite
      bounds is one), form a [Covering] class.  Proved from the
      specification of the primitive operations: rounding never yields
      NaN, so the midpoint of two such bounds is a number, and [<=] is
      total on numbers.
    - [Rounding]: the specification of the primitive operations on
      doubles given a meaning in the rationals: what a mantissa, an
      exponent and a place stand for, that cutting the mantissa keeps
      the place, and what float rounding returns for a cut mantissa.
    - [Nearest]: rounding to nearest is monotone and leaves the
      numbers of the format where they are: a sum, a product or a
      quotient whose exact value lies between two numbers of the
      format is rounded to a number between them, never to an infinity
      or NaN; on numbers in canonical form [<=] is the order of the
      rationals.  Proved from [Rounding], for either sign, subnormal
      numbers included.
    - [QuadTree]: the tree as an inductive record with four
      [option QuadTree] children (a null pointer is [None]), its
      induction principle, the constructor, [subdivide], [insert] and
      [queryRange], each translated statement by statement, and the
      observation functions [all_points], [height] and [node_count].
    - [Samples]: concrete binary64 points, boxes and trees, and the runs
      of [insert] that build them; the witnesses of the theorems are
      stated on these.
    - [Insert]: the reasoning principles for [insert] (the relation
      [tried] that describes the loop over the children, the induction
      rule [insert_rule]), the shape invariant [shaped] (children all
      present or all absent), and what [insert] does on each branch: a
      point outside the boundary is refused and the node untouched, a
      point is appended to a buffer that is not full, the children are
      tried in the order NW, NE, SW, SE, an accepted point is added to
      the contents exactly once, the result does not depend on the fuel.
    - [Invariant]: the well-formedness invariant [wf] (children all
      present or all absent, capacity handed down and within [int], child
      boundaries the quadrants of the parent, a subdivided node's buffer
      is full, every buffer within its capacity), its preservation by the
      constructor, [subdivide] and [insert], the trees [reachable] by the
      operations, the absence of null dereferences, and termination of
      [insert] within a depth of [height t + 1].
    - [Query]: [queryRange] against its reference definition (filter the
      points of the subtree by the range), pruning included, and how a
      query changes after an accepted [insert]; a refused [insert]
      changes the answer of no query.
    - [Traversal]: the work of a query.  [queryRange_traced] is
      [queryRange] with a log of its calls, a ghost variable the code
      does not have; erasing the log gives [queryRange] back.  On a tree
      whose regions are nested the nodes scanned are exactly the nodes
      whose region meets the range, in pre-order; a call makes at most
      one call plus four per scanned node and at most capacity tests of
      [contains] per scanned node.  Well-formed trees over a valid root
      are nested when midpoints are exact.
    - [Acceptance]: when [insert] accepts.  Over a [Covering] class of
      boxes a point inside the boundary is always accepted and goes to
      the first quadrant that contains it, and capacity 0 diverges; a
      negative capacity never subdivides; [insert] as the specification
      words it (with a leaf test, [insert_spec]) agrees with the code on
      well-formed trees.  The rational samples and the behaviour of an
      unbounded root on binary64 are here too.
    - [Driver]: the part of [main] that builds the index and runs a
      query ([insert_all], [build], [query_box], [run_query]) with the
      data as a parameter, and the contract of build-then-query: the
      answer is, up to order, the data points in the root region and in
      the range.
    - [History]: a tree only grows.  The relation [extends] between an
      earlier and a later tree (regions and capacities fixed, buffers
      extended at the end, children kept) is a preorder, and every call
      of [insert] that returns, the insertion loop and every reachable
      tree respect it: no stored point is ever moved or lost, and the
      height never decreases.
    - [Placement]: where a point is stored.  Over a [Covering] class
      the points stored under a child are those whose first quadrant,
      in the order NW, NE, SW, SE, is that child's; this invariant
      [placed] holds of every tree built by insertions from the empty
      root, so the path to a stored point is determined by its
      coordinates.
    - [Bounds]: the size of the tree.  Every subdivided node of a
      well-formed tree holds [capacity] points of its own, which bounds
      the number of nodes and the height by the number of points, in any
      arithmetic; over a [Covering] class a call of [insert] subdivides
      at most one node, and [n] copies of a point build a chain of
      height [1 + (n - 1) / capacity], so the bound on the height is
      attained.
    - [Nesting]: the depth of the recursion of [insert]: a call on a
      tree no higher than the fuel returns exactly when the tree it
      leaves is no higher than the fuel, in any arithmetic and on any
      tree; so the loop of insertions nests its calls exactly as deep
      as the index it builds is high.
    - [Refine]: the contract of the index as an interface (class
      [PointIndex] with its laws [PointIndexLaws]), the bag of points
      [Bag] as the specification, clients as sequences of insertions and
      queries ([run]), and the refinement: proved against the interface,
      any two lawful implementations give every client the same
      answers, so the tree, which is lawful over a [Covering] class,
      refines the bag.  The tree's [insert] is run with the fuel
      [height t + 1] ([insert_total]).
    - [Workload]: the experiment of [main] as a whole ([Params],
      [rand_coord], [gen_data], [query_loop], [experiment]): the
      parameters, the random data set with [rand()] as an arbitrary
      sequence of integers, the build and the query loop.  The
      experiment returns and every query finds the data points that lie
      in the root region and in its range.  In exact arithmetic every
      generated point lies in the root region, so none is lost although
      [main] discards what [insert] returns; on binary64 this depends
      on the parameters, and an interval is shown for which a point
      leaves it.
    - [Midpoint]: on doubles the midpoint [(a + b) / 2] of two numbers
      [a <= b] below [2 ^ 1023] in magnitude lies between them (beyond,
      the sum overflows).  So the valid boxes with such bounds form a
      [Halving] class: on doubles too the quadrants tile the box, the
      regions of a tree lie within the regions of their parents, and
      [queryRange] scans exactly the nodes whose region meets the
      range.
    - [Doubles]: the program as it is, on binary64 with the parameters
      of the source: by [Nearest] every coordinate lies in
      [[0, 1000]] whatever [rand()] returns, so no point is lost, the
      index holds the whole data set and every query finds the data
      points in its range; by [Midpoint] the regions of the index are
      nested.
    - [Examples]: the operations evaluated on binary64: the scenario of
      section 8 of the specification, points on shared edges and on the
      outer boundary, repeated points; and the one general fact on NaN,
      that a point with a NaN coordinate is refused by every tree.
    - [Heap]: the class at the level of objects and pointers: a heap
      is a finite map ([gmap]) from addresses to nodes with four
      optional addresses; [new_QuadTree] allocates at a fresh address;
      [subdivide_at], [insert_at], [queryRange_at] follow the code
      through [this]; [destructor] and [delete_ptr] are lines 37-42.
      More fuel never changes what a call returns.  The file ends with
      the heaps of the sample trees, on which the witnesses of the
      theorems on the heap are stated.
    - [HeapRepr]: the relation [repr h t this fp] between a heap and
      the tree it holds at an address, in a footprint [fp] of pairwise
      disjoint parts, with the frame lemmas: a heap that agrees on the
      footprint holds the same tree, and a child that [grows] by fresh
      addresses can be put back under its parent.
    - [HeapAbs]: the abstraction function [tree_of], which reads the
      tree off the heap; it is exact with respect to [repr].
    - [HeapRefine]: [insert_at] and [queryRange_at] implement [insert]
      and [queryRange].
    - [Destructor]: [delete] of the root releases exactly the tree, and
      its calls nest exactly as deep as the tree is high; a copied root
      leads to a double free.
    - [Lifetime]: the steps of [main] on the heap ([build_at],
      [run_query_at], [exit_scope]) against those of [Driver]; the heap
      [owns] one tree and nothing else, from construction to the end of
      the scope, which leaves it empty.
    - [Space]: the objects on the free store counted: a heap that owns
      a tree holds one object per node, a call of [insert] allocates
      four objects or none, and the build of [main] leaves at most four
      objects per [capacity] data points besides the root.
    - [Object]: the object as a client holds it, an address and the
      store, with the methods called through the address and the number
      of objects as fuel; it is a lawful instance of the interface of
      [Refine], so every client observes on it what it observes on the
      bag.
    - [Main]: [main] as one function on the heap ([main_run]): data
      set, build, queries with the clock read around each, the sum and
      average of the times, the output, the value returned and the end
      of the scope; it returns 0, with the answers of
      [Workload.experiment] and an empty heap.  In exact arithmetic and
      with a steady clock the average written is within a microsecond
      below the mean time of a query.
    - [Average]: the average query time as [main] computes it on
      binary64, with a rounding at every step: it is a number whatever
      the clock returns, and lies between any two dyadic bounds of the
      recorded times.
    - [Depth]: the depth to which the calls of [main] nest: whatever
      [rand()] returns, a run returns exactly when its fuel is at least
      the height of the index it builds; with a [rand()] that repeats
      itself this is [(num_points - 1) / capacity + 1], on doubles with
      the parameters of the source 250000.
    - [Machine]: [main] as a transition system, one [step] per
      statement or loop iteration; it is deterministic, the run of
      [Main] is its execution, every execution reaches the exit, after
      two calls of [rand()] per point and per query and two readings of
      the clock per query, and the heap holds one well-formed tree in
      every state on the way.
    - [Interaction]: [main] as an interaction tree ([main_io]) whose
      events [mainE] are its calls of the environment: [rand()], the
      clock and the insertions into [cout].  The handler [h_env]
      answers them from [g] and [clock] and records every call in
      order.  Run against it, the tree returns what [Main.main_run]
      returns, after the calls [main_calls]: two of [rand()] per point,
      then per query two of [rand()] and the clock before and after the
      query, then the items of the output line
      ([main_interaction]).

    ** Modelling choices

    - A [double] is an element of the carrier of a [Coord] instance; the
      instance [Fcoord] of [CoordFloat] is the faithful one, for a
      compiler that evaluates [double] expressions in binary64 with
      rounding to nearest (no extended precision, no fast-math).
    - [int capacity] is a [Z]; the comparison with [points.size()] goes
      through [to_size_t], the conversion to a 64-bit unsigned integer
      that C++ applies to the signed operand.
    - [vector<Point>] is a [list Point]; [push_back] appends at the end.
      The vector's maximal size and memory exhaustion are not modelled.
    - On the upper level a mutating method is a function from the node
      to the new node (and the returned value), and ownership is the
      tree structure itself.  On the lower level it is a function from
      the heap to the new heap; an address is a positive number, [new]
      takes the least address that holds no object (the theorems do not
      depend on which free address it takes), and memory never runs
      out.  The root [qtree] of [main], an object with automatic
      storage, is given an address in the same heap, released at the
      end of its scope.
    - [rand()] and [high_resolution_clock::now()] are sequences [g] and
      [clock] of integers, arbitrary in the theorems; a state counts the
      calls made.  The clock is read in ticks of a nanosecond, a
      reading is a 64-bit count, and a difference of readings that
      leaves the range of [long long], undefined in C++, is given its
      two's complement value ([Chrono.wrap64]); readings that count
      from an epoch in the past never get there
      ([Chrono.time_sub_exact]).  The output is the list of the items
      inserted into [cout].  In [Interaction] the same calls are
      events, and the order in which they reach the environment is part
      of what is proved.
    - A recursive method that may not return ([insert]) takes a fuel: the
      maximal depth of the recursion.  [Invariant.insert_terminates]
      shows that [height t + 1] is enough on every well-formed tree
      whose capacity is not zero, and [Invariant.insert_needs_height_plus_one]
      that [height t] is not; so statements with fuel lose nothing
      ([Refine.insert_total_complete]).  For capacity zero
      [Acceptance.insert_capacity_zero_diverges] shows that no fuel is
      enough.  [queryRange] is structurally recursive and needs none.
      On the heap every recursive method takes a fuel, [queryRange_at]
      and [delete_ptr] too, since a heap can hold a cycle; on a heap
      that holds a tree the height of the tree is enough for them
      ([HeapRefine.queryRange_at_refines]) and, for the destructor, no
      less is ([Destructor.delete_releases_tree]); [insert_at] runs out
      of fuel exactly when [insert] does.  The fuel is thus the depth
      to which the calls nest, a quantity of the program and not only
      of the model ([Nesting], [Depth]).  [main] returns with the fuel
      [num_points + 2] ([Main.main_returns]) and, exactly, with the
      height of its index ([Depth.main_depth_exact]); the transition
      system of
      [Machine] has no fuel: a call is a step when it returns with
      some fuel.
    - Theorems are stated for an arbitrary [Coord] instance with the
      weakest assumption that proves them.  Those that need no law, only
      [CoordOrder] or [CoordChain], or a [Covering] class of boxes hold
      of binary64, the last for root regions whose bounds are numbers, not oppositely
      infinite.  Those stated over a [Halving] class of boxes
      ([Geometry.quadrants_tile], the nesting of regions in
      [Traversal]) hold of binary64 for valid root regions with bounds
      below [2 ^ 1023] in magnitude, the root of [main] among them.
      [Geometry.intersects_iff_common_point] needs the values that
      compare to be totally ordered ([CoordNumbers]), which the
      numbers of binary64 are.  [Workload.data_set_inside] needs
      [CoordScale] and holds of the rationals and not of binary64,
      where differences round;
      [Workload.data_set_within] needs only that the generated
      coordinates stay in their interval, which [Doubles] proves of
      binary64 for the parameters of the source.  The examples of [Acceptance], [Workload] and
      [Examples] evaluate the program on binary64 at the inputs where
      this matters (NaN midpoints of an unbounded root, NaN points, the
      ends of the range of [rand()]).
    - Witnesses: each theorem with hypotheses is applied to a concrete
      input, on binary64 ([Samples]) where the theorem allows it and on
      rationals (the samples of [Geometry] and [Acceptance])
      otherwise.

    ** Behaviour the model brings out

    - capacity 0: [insert] of a point inside the boundary recurses
      without end;
    - negative capacity: converted to a huge [size_t], the node never
      subdivides;
    - the leaf test of the specification is absent from the code and
      makes no difference on well-formed trees;
    - a point on a shared quadrant edge always goes to the first
      quadrant containing it, whatever was inserted before;
    - a root region covering the whole plane has NaN midpoints on
      binary64, and [insert] refuses points after the first subdivision;
      root regions with bounds that are numbers, not oppositely
      infinite, never do this;
    - the midpoint [(min + max) / 2] lies between the bounds on binary64
      as long as the bounds are below [2 ^ 1023] in magnitude; beyond,
      the sum overflows, the midpoint is infinite and a quadrant is
      an invalid box;
    - a point with a NaN coordinate is refused by every tree;
    - the coordinate [min + (max - min) * rand() / RAND_MAX] is rounded
      three times; with the interval [[0, 1000]] of the source it stays
      in the interval, with the interval [[0.3, 0.9]] it exceeds 0.9
      when [rand()] returns [RAND_MAX], and the point is dropped
      unnoticed;
    - the depth of the tree is bounded by the number of points over the
      capacity and by nothing else: repeated points form a chain, and
      the calls of [insert] and of the destructor nest as deep as the
      chain is long;
    - [insert] and [queryRange] test only [nw] for null; on a node with
      [nw] set and another child null they dereference a null pointer.
      No operation builds such a node.
    - the class has a destructor but no copy constructor: a copy of a
      tree shares the children of the original, and destroying both
      releases them twice.  [main] copies no tree;
    - the duration of each query is truncated to whole microseconds
      before it is averaged;
    - the average is rounded at every step, a thousand and more times,
      and yet never leaves the bounds of the recorded times; with no
      query at all it is a NaN;
    - [high_resolution_clock] need not be steady: a clock set back
      during a query records a negative duration.

    ** Not modelled

    The implementation of [rand()] and of the clock (their results are
    parameters); the formatting of the [double] that is printed and the
    state of [cout]; the storage of the vectors ([data],
    [query_times], the buffers [points], [results]), which the library
    manages; the maximal size of a vector, the size of a frame of the
    call stack and of the stack itself (the depth to which calls nest
    is modelled, by the fuel), and the failure of [new] when memory is
    exhausted.  On binary64 the law of scaling ([CoordScale]) is not
    proved for arbitrary intervals: it fails when a difference rounds
    up ([Workload.rand_coord_leaves_interval]); it is proved for the
    interval of the source in [Doubles].  The average that [main]
    writes is compared with the mean time of a query in exact
    arithmetic ([Main.average_within_microsecond]); on binary64 it is
    bounded by the bounds of the recorded times ([Average]), and its
    distance to the exact average is not analysed. *)

From Stdlib Require Import ZArith List Lia Bool Permutation Morphisms.
Import ListNotations.

Set Implicit Arguments.

(** ** Outcomes of an operation *)

Inductive outcome (A : Type) : Type :=
| Ok (a : A)
| OutOfFuel
| NullDeref
| InvalidPtr.

Arguments Ok {A} a.
Arguments OutOfFuel {A}.
Arguments NullDeref {A}.
Arguments InvalidPtr {A}.

Definition bind {A B : Type} (m : outcome A) (k : A -> outcome B) : outcome B :=
  match m with
  | Ok a => k a
  | OutOfFuel => OutOfFuel
  | NullDeref => NullDeref
  | InvalidPtr => InvalidPtr
  end.

(** [*p] for a pointer [p]: the pointee, or undefined behaviour. *)
Definition deref {A : Type} (p : option A) : outcome A :=
  match p with
  | Some a => Ok a
  | None => NullDeref
  end.

Definition is_ok {A : Type} (m : outcome A) : bool :=
  match m with Ok _ => true | _ => false end.

(** [ok_le m m']: whatever [m] returns, [m'] returns. *)
Definition ok_le {A : Type} (m m' : outcome A) : Prop :=
  forall a, m = Ok a -> m' = Ok a.

(** [outcome_rel R m m']: the computations [m] and [m'] end the same
    way, and if they return, their results are related by [R]. *)
Definition outcome_rel {A B : Type} (R : A -> B -> Prop)
    (m : outcome A) (m' : outcome B) : Prop :=
  match m, m' with
  | Ok a, Ok b => R a b
  | OutOfFuel, OutOfFuel => True
  | NullDeref, NullDeref => True
  | InvalidPtr, InvalidPtr => True
  | _, _ => False
  end.

Declare Scope outcome_scope.
Delimit Scope outcome_scope with outcome.

Notation "x <- m ;; k" := (bind m (fun x => k))
  (at level 62, m at next level, right associativity) : outcome_scope.
Notation "' pat <- m ;; k" := (bind m (fun x => match x with pat => k end))
  (at level 62, pat pattern, m at next level, right associativity) : outcome_scope.

(** ** The conversion of [int] to [size_t] *)

Definition size_t_modulus : Z := 2 ^ 64.
Definition INT_MIN : Z := - 2 ^ 31.
Definition INT_MAX : Z := 2 ^ 31 - 1.

Definition int_range (c : Z) : Prop := (INT_MIN <= c <= INT_MAX)%Z.

Definition to_size_t (c : Z) : Z := (c mod size_t_modulus)%Z.

(** [size_lt n c] is the C++ test [v.size() < c] for a vector of [n]
    elements and an [int c]: [c] is converted to [size_t] first. *)
Definition size_lt (n : nat) (c : Z) : bool :=
  (Z.of_nat n <? to_size_t c)%Z.

(** ** Options *)

Definition opt_all {A : Type} (P : A -> Prop) (o : option A) : Prop :=
  match o with
  | Some a => P a
  | None => True
  end.

Definition opt_list {A B : Type} (f : A -> list B) (o : option A) : list B :=
  match o with
  | Some a => f a
  | None => []
  end.

Definition opt_nat {A : Type} (f : A -> nat) (o : option A) : nat :=
  match o with
  | Some a => f a
  | None => 0
  end.

Definition is_null {A : Type} (o : option A) : bool :=
  match o with
  | Some _ => false
  | None => true
  end.

(** [push_filter f l acc]: the loop
    [for (p : l) if (f(p)) acc.push_back(p);]. *)
Definition push_filter {A : Type} (f : A -> bool) (l acc : list A) : list A :=
  fold_left (fun r p => if f p then r ++ [p] else r) l acc.

(** [v[i] = a] on a vector [v]; the program never writes out of range,
    where C++ leaves the behaviour undefined and this function changes
    nothing. *)
Fixpoint list_set {A : Type} (l : list A) (i : nat) (a : A) : list A :=
  match l, i with
  | [], _ => []
  | _ :: l', O => a :: l'
  | b :: l', S i' => b :: list_set l' i' a
  end.

(** ** Tactics *)

Ltac inv H := inversion H; subst; clear H.

(** Case analysis on the first test or match of the goal. *)
Ltac case_goal :=
  match goal with
  | |- context [if ?b then _ else _] => destruct b eqn:?
  | |- context [match ?m with _ => _ end] => destruct m eqn:?
  end.

(** Case analysis on the first test or match of a hypothesis. *)
Ltac case_hyp H :=
  match type of H with
  | context [if ?b then _ else _] => destruct b eqn:?
  | context [match ?m with _ => _ end] => destruct m eqn:?
  end.

(** Split conjunctions and existentials of the context. *)
Ltac destruct_conjs :=
  repeat match goal with
  | H : _ /\ _ |- _ => destruct H
  | H : exists _, _ |- _ => destruct H
  end.

(** Boolean hypotheses and goals into propositions. *)
Ltac bool_to_prop :=
  repeat match goal with
  | H : (_ && _)%bool = true |- _ => apply andb_true_iff in H; destruct H
  | H : (_ || _)%bool = false |- _ => apply orb_false_iff in H; destruct H
  | H : negb _ = true |- _ => apply negb_true_iff in H
  | H : negb _ = false |- _ => apply negb_false_iff in H
  | |- (_ && _)%bool = true => apply andb_true_iff; split
  | |- (_ || _)%bool = false => apply orb_false_iff; split
  | |- negb _ = true => apply negb_true_iff
  | |- negb _ = false => apply negb_false_iff
  end.

Create HintDb qt discriminated.
Create Rewrite HintDb qt_rw.

(** ** Lemmas on outcomes *)

Lemma bind_Ok {A B : Type} (m : outcome A) (k : A -> outcome B) (b : B) :
  bind m k = Ok b -> exists a, m = Ok a /\ k a = Ok b.
Proof. destruct m; simpl; intros H; try discriminate; eauto. Qed.

Lemma bind_cong {A B : Type} (m m' : outcome A) (k k' : A -> outcome B) :
  m = m' -> (forall a, k a = k' a) -> bind m k = bind m' k'.
Proof. intros <- H. destruct m; simpl; auto. Qed.

Lemma ok_le_refl {A : Type} (m : outcome A) : ok_le m m.
Proof. intros a H. exact H. Qed.

Lemma ok_le_bind {A B : Type} (m m' : outcome A) (k k' : A -> outcome B) :
  ok_le m m' -> (forall a, ok_le (k a) (k' a)) -> ok_le (bind m k) (bind m' k').
Proof.
  intros Hm Hk b H. apply bind_Ok in H. destruct H as (a & Ha & Hb).
  rewrite (Hm a Ha). simpl. now apply Hk.
Qed.

(** Two computations below a common one return the same. *)
Lemma ok_le_join {A : Type} (m1 m2 m : outcome A) (a1 a2 : A) :
  ok_le m1 m -> ok_le m2 m -> m1 = Ok a1 -> m2 = Ok a2 -> a1 = a2.
Proof. intros H1 H2 E1 E2. apply H1 in E1. apply H2 in E2. congruence. Qed.

Lemma outcome_rel_bind {A B A' B' : Type} (R : A -> A' -> Prop) (S : B -> B' -> Prop)
    (m : outcome A) (m' : outcome A') (k : A -> outcome B) (k' : A' -> outcome B') :
  outcome_rel R m m' ->
  (forall a a', R a a' -> outcome_rel S (k a) (k' a')) ->
  outcome_rel S (bind m k) (bind m' k').
Proof. destruct m, m'; simpl; intros H Hk; auto; contradiction. Qed.

Lemma outcome_rel_map_r {A B B' : Type} (R : A -> B -> Prop) (S : A -> B' -> Prop)
    (m : outcome A) (m' : outcome B) (f : B -> B') :
  outcome_rel R m m' -> (forall a b, R a b -> S a (f b)) ->
  outcome_rel S m (bind m' (fun b => Ok (f b))).
Proof. destruct m, m'; simpl; intros H Hk; auto; contradiction. Qed.

Lemma outcome_rel_mono {A B : Type} (R S : A -> B -> Prop)
    (m : outcome A) (m' : outcome B) :
  (forall a b, R a b -> S a b) -> outcome_rel R m m' -> outcome_rel S m m'.
Proof. destruct m, m'; simpl; auto. Qed.

Lemma outcome_rel_Ok {A B : Type} (R : A -> B -> Prop)
    (m : outcome A) (m' : outcome B) (a : A) :
  outcome_rel R m m' -> m = Ok a -> exists b, m' = Ok b /\ R a b.
Proof. intros H ->. destruct m'; simpl in H; try contradiction. eauto. Qed.

Lemma deref_Some {A : Type} (p : option A) (a : A) :
  deref p = Ok a <-> p = Some a.
Proof. destruct p; simpl; split; congruence. Qed.

(** ** Lemmas on [to_size_t] *)

Lemma to_size_t_range (c : Z) : (0 <= to_size_t c < size_t_modulus)%Z.
Proof. unfold to_size_t, size_t_modulus. apply Z.mod_pos_bound. lia. Qed.

Lemma to_size_t_nonneg (c : Z) :
  int_range c -> (0 <= c)%Z -> to_size_t c = c.
Proof.
  unfold int_range, INT_MAX, to_size_t, size_t_modulus. intros H H0.
  apply Z.mod_small. lia.
Qed.

Lemma to_size_t_neg (c : Z) :
  int_range c -> (c < 0)%Z -> to_size_t c = (size_t_modulus + c)%Z.
Proof.
  unfold int_range, INT_MIN, to_size_t, size_t_modulus. intros H H0.
  symmetry. apply Z.mod_unique_pos with (q := (-1)%Z); lia.
Qed.

Lemma to_size_t_zero (c : Z) : int_range c -> to_size_t c = 0%Z <-> c = 0%Z.
Proof.
  intros H. destruct (Z.neg_nonneg_cases c) as [Hn | Hp].
  - rewrite (to_size_t_neg H Hn). unfold int_range, INT_MIN, size_t_modulus in *. lia.
  - rewrite (to_size_t_nonneg H Hp). tauto.
Qed.

Lemma size_lt_spec (n : nat) (c : Z) :
  size_lt n c = true <-> (Z.of_nat n < to_size_t c)%Z.
Proof. unfold size_lt. apply Z.ltb_lt. Qed.

Lemma size_lt_false (n : nat) (c : Z) :
  size_lt n c = false <-> (to_size_t c <= Z.of_nat n)%Z.
Proof. unfold size_lt. rewrite Z.ltb_ge. tauto. Qed.

Lemma size_lt_zero_capacity (n : nat) : size_lt n 0 = false.
Proof. apply size_lt_false. unfold to_size_t. rewrite Z.mod_0_l by discriminate. lia. Qed.

Lemma size_lt_empty (c : Z) : size_lt 0 c = negb (to_size_t c =? 0)%Z.
Proof.
  unfold size_lt. pose proof (to_size_t_range c).
  destruct (Z.eqb_spec (to_size_t c) 0); simpl; [apply Z.ltb_ge | apply Z.ltb_lt]; lia.
Qed.

(** ** Lemmas on lists *)

Lemma push_filter_spec {A : Type} (f : A -> bool) (l acc : list A) :
  push_filter f l acc = acc ++ filter f l.
Proof.
  unfold push_filter. revert acc.
  induction l as [| a l IH]; intros acc; simpl.
  - now rewrite app_nil_r.
  - rewrite IH. destruct (f a); simpl; [| reflexivity].
    now rewrite <- app_assoc.
Qed.

Lemma filter_all_false {A : Type} (f : A -> bool) (l : list A) :
  (forall a, In a l -> f a = false) -> filter f l = [].
Proof.
  induction l as [| a l IH]; simpl; intros H; [reflexivity |].
  rewrite (H a) by auto. apply IH. intros; apply H; auto.
Qed.

Lemma filter_all_true {A : Type} (f : A -> bool) (l : list A) :
  (forall a, In a l -> f a = true) -> filter f l = l.
Proof.
  induction l as [| a l IH]; simpl; intros H; [reflexivity |].
  rewrite (H a) by auto. f_equal. apply IH. intros; apply H; auto.
Qed.

Lemma Permutation_filter {A : Type} (f : A -> bool) (l l' : list A) :
  Permutation l l' -> Permutation (filter f l) (filter f l').
Proof.
  induction 1; simpl; auto.
  - destruct (f x); auto.
  - destruct (f x), (f y); auto using perm_swap.
  - eapply Permutation_trans; eauto.
Qed.

(** [filter] respects the equality of lists up to order. *)
#[export] Instance filter_Permutation_Proper {A : Type} (f : A -> bool) :
  Proper (@Permutation A ==> @Permutation A) (filter f).
Proof. intros l l' H. now apply Permutation_filter. Qed.

Lemma filter_filter {A : Type} (f g : A -> bool) (l : list A) :
  filter f (filter g l) = filter (fun a => g a && f a) l.
Proof.
  induction l as [| a l IH]; simpl; [reflexivity |].
  destruct (g a); simpl; [destruct (f a) |]; now rewrite IH.
Qed.

Lemma Permutation_cons_app_inv_l {A : Type} (a : A) (l1 l2 l : list A) :
  Permutation (a :: l) l1 -> Permutation (a :: l ++ l2) (l1 ++ l2).
Proof. intros H. change (a :: l ++ l2) with ((a :: l) ++ l2). now apply Permutation_app_tail. Qed.

Lemma list_set_app {A : Type} (pre post : list A) (b a : A) :
  list_set (pre ++ b :: post) (length pre) a = pre ++ a :: post.
Proof. induction pre as [| c pre IH]; simpl; [reflexivity | now rewrite IH]. Qed.

Lemma list_set_length {A : Type} (l : list A) (i : nat) (a : A) :
  length (list_set l i a) = length l.
Proof.
  revert i. induction l as [| b l IH]; intros [| i]; simpl; auto.
Qed.

Lemma skipn_cons_inv {A : Type} (l r : list A) (i : nat) (a : A) :
  skipn i l = a :: r -> nth_error l i = Some a /\ skipn (S i) l = r.
Proof.
  revert l. induction i as [| i IH]; intros [| b l] H; simpl in *; try discriminate.
  - inversion H. auto.
  - now apply IH.
Qed.

Lemma skipn_length_cons {A : Type} (l r : list A) (i : nat) (a : A) :
  skipn i l = a :: r -> i < length l.
Proof.
  intros H. destruct (Nat.lt_ge_cases i (length l)) as [Hlt | Hge]; [exact Hlt |].
  rewrite skipn_all2 in H by exact Hge. discriminate.
Qed.

#[export] Hint Resolve to_size_t_range size_lt_zero_capacity : qt.
#[export] Hint Rewrite @push_filter_spec : qt_rw.
