(* ===== verification/Transitions.v ===== *)
(** * Transitions: sequences of steps

    The notions on a transition relation that the model of [main] as a
    machine uses: finite sequences of steps, the states a state leads
    to on every path ([eventually]), and what determinism adds: the
    executions from a state form one path, so a state that can reach a
    final state reaches it on every path. *)

From S2P Require Import Prelude.

Section Transitions.
Variable State : Type.
Variable step : State -> State -> Prop.

(** Zero or more steps. *)
Inductive star : State -> State -> Prop :=
| star_refl s : star s s
| star_step s1 s2 s3 : step s1 s2 -> star s2 s3 -> star s1 s3.

(** No step leaves the state. *)
Definition terminal (s : State) : Prop := forall s', ~ step s s'.

(** Every path from the state leads to a state in [P]: either the
    state is in [P], or it has a step and every step from it leads to
    such a state. *)
Inductive eventually (P : State -> Prop) : State -> Prop :=
| eventually_now s : P s -> eventually P s
| eventually_step s :
    (exists s', step s s') -> (forall s', step s s' -> eventually P s') ->
    eventually P s.

Definition deterministic : Prop :=
  forall s s1 s2, step s s1 -> step s s2 -> s1 = s2.

Lemma star_one s1 s2 : step s1 s2 -> star s1 s2.
Proof. intros H. eapply star_step; [exact H | apply star_refl]. Qed.

Lemma star_trans s1 s2 s3 : star s1 s2 -> star s2 s3 -> star s1 s3.
Proof. induction 1; intros H'; [exact H' | eapply star_step; eauto]. Qed.

Lemma star_snoc s1 s2 s3 : star s1 s2 -> step s2 s3 -> star s1 s3.
Proof. intros H Hs. eapply star_trans; [exact H | now apply star_one]. Qed.

(** Induction from the last step: what holds of the first state and is
    kept by every step holds of every state reached. *)
Lemma star_invariant (I : State -> Prop) s s' :
  (forall s1 s2, I s1 -> step s1 s2 -> I s2) -> star s s' -> I s -> I s'.
Proof. intros Hstep. induction 1; eauto. Qed.

Lemma eventually_weaken (P Q : State -> Prop) s :
  (forall s', P s' -> Q s') -> eventually P s -> eventually Q s.
Proof.
  intros HPQ. induction 1 as [s Hs | s Hex _ IH];
    [apply eventually_now; auto | apply eventually_step; auto].
Qed.

Section Deterministic.
Hypothesis step_deterministic : deterministic.

(** On the one path from [s], a state in [P] that is reached is
    reached on every path. *)
Lemma star_eventually (P : State -> Prop) s s' :
  star s s' -> P s' -> eventually P s.
Proof.
  induction 1 as [s | s1 s2 s3 Hs _ IH]; intros HP; [now apply eventually_now |].
  apply eventually_step; [eauto |].
  intros s2' Hs'. rewrite <- (step_deterministic _ _ _ Hs Hs'). auto.
Qed.

(** A state on the path to a terminal state leads to it. *)
Lemma star_to_terminal s s1 s2 :
  star s s1 -> star s s2 -> terminal s2 -> star s1 s2.
Proof.
  induction 1 as [s | s a s1 Hs _ IH]; intros H2 Ht; [exact H2 |].
  inversion H2 as [| ? b ? Hb Hrest]; subst.
  - exfalso. eapply Ht; eauto.
  - pose proof (step_deterministic _ _ _ Hs Hb) as E. subst b. now apply IH.
Qed.

End Deterministic.

End Transitions.

Arguments star {State} step s s'.
Arguments terminal {State} step s.
Arguments eventually {State} step P s.
Arguments deterministic {State} step.
