(* ===== verification/Coord.v ===== *)
(** * Coord: the arithmetic of coordinates, as an interface

    [src/Code.cpp] computes with [double]: it adds, subtracts, multiplies
    and divides coordinates, converts an [int] to a [double], and
    compares coordinates with [<=], [>=], [<] and [>].  The
    class [Coord] lists these operations; the quadtree is modelled over
    an arbitrary instance.  The laws that some theorems need are stated
    as separate classes, so that each theorem names exactly the
    arithmetic facts it rests on:

    - none: the theorem holds of any arithmetic, IEEE 754 with NaN,
      infinities and rounding included;
    - [CoordOrder]: transitivity of [<=], [a <= b] excludes [b < a],
      and what compares is comparable to itself (true of binary64, see
      [CoordFloat]);
    - [CoordTotal]: any two coordinates are comparable (true of the
      rationals, see [CoordQ]; false of binary64 because of NaN);
    - [CoordStrict]: [a < b] is the negation of [b <= a] (true of the
      rationals; false of binary64 because of NaN);
    - [CoordNumbers num]: the two laws above for the values that
      satisfy [num], which every value that compares does (true of the
      rationals with all values, and of binary64 with the numbers, the
      infinities included, see [Binary64]);
    - [CoordChain]: [<=] and [<] compose ([a <= b < c] and [a < b <= c]
      give [a < c]; true of binary64 and of the rationals);
    - [CoordMid]: the midpoint of an interval lies in the interval (true
      of the rationals; false of binary64, where the sum overflows, and
      true there of the numbers below [2 ^ 1023] in magnitude, see
      [Midpoint]);
    - [CoordScale]: the point at the fraction [r / m] of an interval
      lies in the interval (true of the rationals). *)

From Stdlib Require Import Bool ZArith.
From S2P Require Import Prelude.

Class Coord : Type := {
  coord : Type;
  czero : coord;
  ctwo : coord;
  cadd : coord -> coord -> coord;
  csub : coord -> coord -> coord;
  cmul : coord -> coord -> coord;
  cdiv : coord -> coord -> coord;
  cof_int : Z -> coord;
  cleb : coord -> coord -> bool;
  cltb : coord -> coord -> bool
}.

(** [a >= b] and [a > b]: C++ evaluates them as [b <= a] and [b < a]. *)
Definition cgeb {C : Coord} (a b : coord) : bool := cleb b a.
Definition cgtb {C : Coord} (a b : coord) : bool := cltb b a.

(** [(a + b) / 2], as [subdivide] computes it. *)
Definition midpoint {C : Coord} (a b : coord) : coord := cdiv (cadd a b) ctwo.

(** [a + (b - a) * r / m] for integers [r] and [m], as [main] computes a
    random coordinate (lines 99-100 and 116-117): C++ evaluates the
    product first and converts the integers to [double]. *)
Definition scale {C : Coord} (a b : coord) (r m : Z) : coord :=
  cadd a (cdiv (cmul (csub b a) (cof_int r)) (cof_int m)).

(** The larger of two coordinates, by [<=]. *)
Definition cmax {C : Coord} (a b : coord) : coord := if cleb a b then b else a.

Declare Scope coord_scope.
Delimit Scope coord_scope with coord.
Infix "<=?" := cleb (at level 70, no associativity) : coord_scope.
Infix "<?" := cltb (at level 70, no associativity) : coord_scope.
Infix ">=?" := cgeb (at level 70, no associativity) : coord_scope.
Infix ">?" := cgtb (at level 70, no associativity) : coord_scope.

Class CoordOrder (C : Coord) : Prop := {
  cleb_trans : forall a b c : coord,
    cleb a b = true -> cleb b c = true -> cleb a c = true;
  cleb_not_cltb : forall a b : coord,
    cleb a b = true -> cltb b a = false;
  cleb_refl_of : forall a b : coord,
    cleb a b = true -> cleb a a = true /\ cleb b b = true
}.

Class CoordTotal (C : Coord) : Prop := {
  cleb_total : forall a b : coord, cleb a b = true \/ cleb b a = true
}.

Class CoordStrict (C : Coord) : Prop := {
  cltb_false_cleb : forall a b : coord, cltb a b = false -> cleb b a = true
}.

(** [num] holds of the values that compare, and on these [<=] is total
    and [<] the negation of the converse [<=]. *)
Class CoordNumbers (C : Coord) (num : coord -> Prop) : Prop := {
  cleb_num : forall a b : coord, cleb a b = true -> num a /\ num b;
  num_total : forall a b : coord, num a -> num b -> cleb a b = true \/ cleb b a = true;
  num_strict : forall a b : coord, num a -> num b -> cltb a b = false -> cleb b a = true
}.

Class CoordChain (C : Coord) : Prop := {
  cleb_cltb_trans : forall a b c : coord,
    cleb a b = true -> cltb b c = true -> cltb a c = true;
  cltb_cleb_trans : forall a b c : coord,
    cltb a b = true -> cleb b c = true -> cltb a c = true
}.

Class CoordMid (C : Coord) : Prop := {
  midpoint_between : forall a b : coord,
    cleb a b = true ->
    cleb a (midpoint a b) = true /\ cleb (midpoint a b) b = true
}.

Class CoordScale (C : Coord) : Prop := {
  scale_between : forall (a b : coord) (r m : Z),
    cleb a b = true -> (0 <= r <= m)%Z -> (0 < m)%Z ->
    cleb a (scale a b r m) = true /\ cleb (scale a b r m) b = true
}.

Section CoordFacts.
Context {C : Coord}.

Section Order.
Context {O : CoordOrder C}.

(** If some [p] lies in both [[a1, a2]] and [[b1, b2]], the intervals
    are not separated: neither [b1 > a2] nor [b2 < a1]. *)
Lemma common_point_not_separated (a1 a2 b1 b2 p : coord) :
  cgeb p a1 = true -> cleb p a2 = true ->
  cgeb p b1 = true -> cleb p b2 = true ->
  cgtb b1 a2 = false /\ cltb b2 a1 = false.
Proof.
  unfold cgeb, cgtb. intros Ha1 Ha2 Hb1 Hb2. split.
  - apply cleb_not_cltb. eapply cleb_trans; eauto.
  - apply cleb_not_cltb. eapply cleb_trans; eauto.
Qed.

End Order.

(** A point of an interval [[a, b]] that is comparable to the value [m]
    at which the interval is cut lies in [[a, m]] or in [[m, b]]. *)
Lemma cut_covers_at (a b m p : coord) :
  cleb p m = true \/ cleb m p = true ->
  cgeb p a = true -> cleb p b = true ->
  (cgeb p a && cleb p m = true) \/ (cgeb p m && cleb p b = true).
Proof.
  unfold cgeb. intros [H | H] Ha Hb; rewrite Ha, Hb, H; auto using andb_true_r.
Qed.

Section Total.
Context {T : CoordTotal C}.

(** In a total order this holds wherever the cut falls. *)
Lemma cut_covers (a b m p : coord) :
  cgeb p a = true -> cleb p b = true ->
  (cgeb p a && cleb p m = true) \/ (cgeb p m && cleb p b = true).
Proof. apply cut_covers_at, cleb_total. Qed.

(** [<=] is reflexive. *)
Lemma cleb_refl (a : coord) : cleb a a = true.
Proof. now destruct (cleb_total a a). Qed.

(** In a total order whose [<] is the negation of the converse [<=]
    every value is a number. *)
#[export] Instance Total_numbers {S : CoordStrict C} : CoordNumbers C (fun _ => True).
Proof. split; auto using cleb_total, cltb_false_cleb. Qed.

End Total.

Section Numbers.
Context {num : coord -> Prop} {N : CoordNumbers C num}.

Lemma num_refl (a : coord) : num a -> cleb a a = true.
Proof. intros H. now destruct (num_total a a H H). Qed.

Lemma cmax_l (a b : coord) : num a -> cleb a (cmax a b) = true.
Proof. intros Ha. unfold cmax. destruct (cleb a b) eqn:E; [exact E | now apply num_refl]. Qed.

Lemma cmax_r (a b : coord) : num a -> num b -> cleb b (cmax a b) = true.
Proof.
  intros Ha Hb. unfold cmax. destruct (cleb a b) eqn:E; [now apply num_refl |].
  destruct (num_total a b Ha Hb); congruence.
Qed.

Lemma cmax_le (a b c : coord) :
  cleb a c = true -> cleb b c = true -> cleb (cmax a b) c = true.
Proof. unfold cmax. destruct (cleb a b); auto. Qed.

End Numbers.
End CoordFacts.

#[export] Hint Resolve cleb_trans cleb_not_cltb : qt.
