(* ===== verification/CoordFloat.v ===== *)
(** * CoordFloat: binary64, the arithmetic [src/Code.cpp] runs on

    The instance [Fcoord] interprets [double] by the kernel's primitive
    IEEE 754 binary64 numbers: [+], [-] and [/] round to nearest even,
    and a comparison with NaN is false.  The order laws of [CoordOrder]
    and of [CoordChain] are proved from the specification [SFcompare]
    of the primitive comparisons; [CoordTotal] and [CoordStrict] do not hold, since NaN is
    comparable to nothing, itself included. *)

From Stdlib Require Import ZArith PArith Lia Bool Uint63 Floats.
From S2P Require Import Prelude Coord.

(** The conversion of an [int] to a [double]; it is exact, an [int]
    having fewer than 53 bits. *)
Definition float_of_int (z : Z) : float :=
  if (z <? 0)%Z then PrimFloat.opp (PrimFloat.of_uint63 (Uint63.of_Z (- z)))
  else PrimFloat.of_uint63 (Uint63.of_Z z).

#[export] Instance Fcoord : Coord := {|
  coord := float;
  czero := 0%float;
  ctwo := 2%float;
  cadd := PrimFloat.add;
  csub := PrimFloat.sub;
  cmul := PrimFloat.mul;
  cdiv := PrimFloat.div;
  cof_int := float_of_int;
  cleb := PrimFloat.leb;
  cltb := PrimFloat.ltb
|}.

(** Case analysis on the integer and positive comparisons that
    [SFcompare] performs on exponents and mantissas. *)
Ltac cmp_cases :=
  repeat match goal with
  | |- context [Z.compare ?a ?b] => destruct (Z.compare_spec a b); subst
  | |- context [Pos.compare_cont Eq ?a ?b] =>
      change (Pos.compare_cont Eq a b) with (Pos.compare a b);
      destruct (Pos.compare_spec a b); subst
  end; simpl; intros; try reflexivity; try discriminate; try lia.

Lemma SFleb_trans (a b c : spec_float) :
  SFleb a b = true -> SFleb b c = true -> SFleb a c = true.
Proof.
  unfold SFleb, SFcompare.
  destruct a as [sa|sa| |sa ma ea], b as [sb|sb| |sb mb eb], c as [sc|sc| |sc mc ec];
  try destruct sa; try destruct sb; try destruct sc;
  try (intros; reflexivity || discriminate); cmp_cases.
Qed.

Lemma SFleb_not_SFltb (a b : spec_float) :
  SFleb a b = true -> SFltb b a = false.
Proof.
  unfold SFleb, SFltb, SFcompare.
  destruct a as [sa|sa| |sa ma ea], b as [sb|sb| |sb mb eb];
  try destruct sa; try destruct sb;
  try (intros; reflexivity || discriminate); cmp_cases.
Qed.

(** A comparable pair consists of numbers: [a <= b] implies [a <= a]. *)
Lemma SFleb_refl_l (a b : spec_float) : SFleb a b = true -> SFleb a a = true.
Proof.
  unfold SFleb, SFcompare.
  destruct a as [sa|sa| |sa ma ea], b as [sb|sb| |sb mb eb];
  try destruct sa; try destruct sb;
  try (intros; reflexivity || discriminate); intros _;
  rewrite Z.compare_refl;
  change (Pos.compare_cont Eq ma ma) with (Pos.compare ma ma);
  now rewrite Pos.compare_refl.
Qed.

Lemma SFleb_refl_r (a b : spec_float) : SFleb a b = true -> SFleb b b = true.
Proof.
  unfold SFleb, SFcompare.
  destruct a as [sa|sa| |sa ma ea], b as [sb|sb| |sb mb eb];
  try destruct sa; try destruct sb;
  try (intros; reflexivity || discriminate); intros _;
  rewrite Z.compare_refl;
  change (Pos.compare_cont Eq mb mb) with (Pos.compare mb mb);
  now rewrite Pos.compare_refl.
Qed.

#[export] Instance Fcoord_order : CoordOrder Fcoord.
Proof.
  split; simpl; intros *.
  - rewrite !leb_spec. apply SFleb_trans.
  - rewrite leb_spec, ltb_spec. apply SFleb_not_SFltb.
  - rewrite !leb_spec. eauto using SFleb_refl_l, SFleb_refl_r.
Qed.

Lemma SFleb_SFltb_trans (a b c : spec_float) :
  SFleb a b = true -> SFltb b c = true -> SFltb a c = true.
Proof.
  unfold SFleb, SFltb, SFcompare.
  destruct a as [sa|sa| |sa ma ea], b as [sb|sb| |sb mb eb], c as [sc|sc| |sc mc ec];
  try destruct sa; try destruct sb; try destruct sc;
  try (intros; reflexivity || discriminate); cmp_cases.
Qed.

Lemma SFltb_SFleb_trans (a b c : spec_float) :
  SFltb a b = true -> SFleb b c = true -> SFltb a c = true.
Proof.
  unfold SFleb, SFltb, SFcompare.
  destruct a as [sa|sa| |sa ma ea], b as [sb|sb| |sb mb eb], c as [sc|sc| |sc mc ec];
  try destruct sa; try destruct sb; try destruct sc;
  try (intros; reflexivity || discriminate); cmp_cases.
Qed.

#[export] Instance Fcoord_chain : CoordChain Fcoord.
Proof.
  split; simpl; intros *; rewrite leb_spec, !ltb_spec.
  - apply SFleb_SFltb_trans.
  - apply SFltb_SFleb_trans.
Qed.

(** ** NaN

    A number compares equal to itself; NaN does not, and this is how
    [is_nan] recognises it. *)

Lemma SFeqb_refl_nan (a : spec_float) : SFeqb a a = false -> a = S754_nan.
Proof.
  unfold SFeqb, SFcompare. destruct a as [s | s | | s m e]; try destruct s;
    try (intros; reflexivity || discriminate);
    rewrite Z.compare_refl;
    change (Pos.compare_cont Eq m m) with (Pos.compare m m);
    rewrite Pos.compare_refl; discriminate.
Qed.

Lemma is_nan_spec (a : float) : PrimFloat.is_nan a = true -> Prim2SF a = S754_nan.
Proof.
  unfold PrimFloat.is_nan. rewrite negb_true_iff, eqb_spec. apply SFeqb_refl_nan.
Qed.

(** Every comparison with NaN is false. *)
Lemma leb_nan_l (a b : float) : PrimFloat.is_nan a = true -> PrimFloat.leb a b = false.
Proof. intros H. now rewrite leb_spec, (is_nan_spec a H). Qed.

Lemma leb_nan_r (a b : float) : PrimFloat.is_nan b = true -> PrimFloat.leb a b = false.
Proof.
  intros H. rewrite leb_spec, (is_nan_spec b H).
  unfold SFleb, SFcompare. destruct (Prim2SF a) as [s | s | | s m e]; try destruct s; reflexivity.
Qed.

(** NaN is not below itself, so [<=] is not total on binary64. *)
Lemma Fcoord_not_total : ~ CoordTotal Fcoord.
Proof.
  intros [H]. destruct (H nan nan) as [E | E]; vm_compute in E; discriminate.
Qed.

(** NaN is not above itself either, although it is not below: [<] is
    not the negation of [<=]. *)
Lemma Fcoord_not_strict : ~ CoordStrict Fcoord.
Proof.
  intros [H]. specialize (H nan nan eq_refl). vm_compute in H. discriminate.
Qed.

(** The midpoint of the whole line is NaN. *)
Lemma midpoint_whole_line_nan :
  PrimFloat.is_nan (midpoint (C := Fcoord) neg_infinity infinity) = true.
Proof. vm_compute. reflexivity. Qed.

(** The sum of two large finite bounds overflows: their midpoint is
    infinite and lies outside the interval. *)
Lemma midpoint_overflow :
  let big := 0x1.fffffffffffffp+1023%float in
  midpoint (C := Fcoord) big big = infinity /\
  cleb (midpoint (C := Fcoord) big big) big = false.
Proof. vm_compute. split; reflexivity. Qed.
