(* ===== verification/CoordQ.v ===== *)
(** * CoordQ: exact rational coordinates

    The arithmetic the specification reasons in: no rounding, no NaN, no
    infinities.  [Qcoord] satisfies the order laws and totality, [<] is the
    negation of the converse [<=], and the midpoint of an interval lies
    inside it. *)

From Stdlib Require Import ZArith QArith Lia Lqa Bool.
From S2P Require Import Prelude Coord.

Definition Qlt_bool (a b : Q) : bool := negb (Qle_bool b a).

#[export] Instance Qcoord : Coord := {|
  coord := Q;
  czero := 0%Q;
  ctwo := 2%Q;
  cadd := Qplus;
  csub := Qminus;
  cmul := Qmult;
  cdiv := Qdiv;
  cof_int := inject_Z;
  cleb := Qle_bool;
  cltb := Qlt_bool
|}.

Lemma Qlt_bool_iff (a b : Q) : Qlt_bool a b = true <-> (a < b)%Q.
Proof.
  unfold Qlt_bool. rewrite negb_true_iff.
  destruct (Qle_bool b a) eqn:E.
  - apply Qle_bool_iff in E. split; [discriminate |].
    intros H. exfalso. exact (Qlt_not_le _ _ H E).
  - split; [| reflexivity]. intros _. apply Qnot_le_lt.
    intros H. apply Qle_bool_iff in H. congruence.
Qed.

#[export] Instance Qcoord_order : CoordOrder Qcoord.
Proof.
  split; simpl; intros *.
  - rewrite !Qle_bool_iff. apply Qle_trans.
  - intros H. unfold Qlt_bool. now rewrite H.
  - rewrite !Qle_bool_iff. auto using Qle_refl.
Qed.

#[export] Instance Qcoord_chain : CoordChain Qcoord.
Proof.
  split; simpl; intros a b c; rewrite !Qlt_bool_iff, Qle_bool_iff.
  - apply Qle_lt_trans.
  - apply Qlt_le_trans.
Qed.

#[export] Instance Qcoord_total : CoordTotal Qcoord.
Proof.
  split; simpl; intros a b. rewrite !Qle_bool_iff.
  destruct (Qlt_le_dec a b) as [H | H]; auto using Qlt_le_weak.
Qed.

#[export] Instance Qcoord_strict : CoordStrict Qcoord.
Proof.
  split; simpl; intros a b. unfold Qlt_bool. now rewrite negb_false_iff.
Qed.

(** The midpoint of a rational interval lies in the interval. *)
Lemma Qmidpoint_between (a b : Q) :
  (a <= b)%Q ->
  (a <= midpoint (C := Qcoord) a b)%Q /\ (midpoint (C := Qcoord) a b <= b)%Q.
Proof.
  unfold midpoint; simpl. intros H.
  assert (E : ((a + b) / 2 == (a + b) * (1 # 2))%Q) by (unfold Qdiv; reflexivity).
  rewrite E. split; lra.
Qed.

#[export] Instance Qcoord_mid : CoordMid Qcoord.
Proof.
  split; intros a b H. change (cleb a b) with (Qle_bool a b) in H.
  apply Qle_bool_iff in H. destruct (Qmidpoint_between a b H) as [H1 H2].
  split; apply Qle_bool_iff; assumption.
Qed.

(** The point at the fraction [r / m] of a rational interval lies in
    the interval. *)
Lemma Qscale_between (a b : Q) (r m : Z) :
  (a <= b)%Q -> (0 <= r <= m)%Z -> (0 < m)%Z ->
  (a <= scale (C := Qcoord) a b r m)%Q /\ (scale (C := Qcoord) a b r m <= b)%Q.
Proof.
  unfold scale; simpl. intros Hab [Hr0 Hrm] Hm.
  assert (0 < inject_Z m)%Q as Hm'
    by (change 0%Q with (inject_Z 0); rewrite <- Zlt_Qlt; exact Hm).
  assert (0 <= inject_Z r)%Q as Hr'
    by (change 0%Q with (inject_Z 0); rewrite <- Zle_Qle; exact Hr0).
  assert (inject_Z r <= inject_Z m)%Q as Hrm' by (rewrite <- Zle_Qle; exact Hrm).
  assert (0 <= (b - a) * inject_Z r / inject_Z m)%Q as H1
    by (apply Qle_shift_div_l; [exact Hm' | nra]).
  assert ((b - a) * inject_Z r / inject_Z m <= b - a)%Q as H2
    by (apply Qle_shift_div_r; [exact Hm' | nra]).
  split; lra.
Qed.

#[export] Instance Qcoord_scale : CoordScale Qcoord.
Proof.
  split; intros a b r m H Hr Hm. change (cleb a b) with (Qle_bool a b) in H.
  apply Qle_bool_iff in H. destruct (Qscale_between a b r m H Hr Hm) as [H1 H2].
  split; apply Qle_bool_iff; assumption.
Qed.
