(* ===== verification/Chrono.v ===== *)
(** * Chrono: the arithmetic of the clock

    [main] (lines 120-124 of [src/Code.cpp]) reads
    [high_resolution_clock::now()] before and after each query,
    subtracts the readings, casts the difference to microseconds and
    divides the count by [1e6].  A reading is a count of ticks in a
    [long long]; the period of the clock is taken to be a nanosecond,
    as in libstdc++ and libc++.  The clock itself is not code of the
    program: its readings are a parameter [clock : nat -> Z], the
    reading of the [c]-th call.

    The counts are kept at their width.  A difference that leaves the
    range of a [long long] is undefined behaviour in C++; the model
    gives it the two's complement result of the hardware ([wrap64]),
    and the theorems say when this does not happen: for readings that
    count from an epoch in the past, as every clock of the library
    does, no difference overflows.  The cast to microseconds divides by
    1000 and truncates towards zero.

    [high_resolution_clock] need not be steady.  For a pair of readings
    in order the duration recorded is the elapsed time rounded down to
    a whole microsecond; for a pair out of order (the clock was set
    back during the query) it is negative or zero, rounded up.  In
    exact arithmetic the sum of the recorded times of a steady clock
    lies within a microsecond per query below the time that passed. *)

From Stdlib Require Import ZArith List Lia QArith Lqa.
From S2P Require Import Prelude Coord CoordQ.
Import ListNotations.

#[local] Close Scope Q_scope.
#[local] Open Scope Z_scope.

(** ** Counts of 64 bits *)

Definition INT64_MIN : Z := - 2 ^ 63.
Definition INT64_MAX : Z := 2 ^ 63 - 1.

Definition int64_range (z : Z) : Prop := INT64_MIN <= z <= INT64_MAX.

(** The value of [z] in two's complement on 64 bits. *)
Definition wrap64 (z : Z) : Z := (z + 2 ^ 63) mod 2 ^ 64 - 2 ^ 63.

(** ** Durations (lines 120-124) *)

(** The ticks of [high_resolution_clock] in a microsecond. *)
Definition ticks_per_microsecond : Z := 1000.

(** [end_time - start_time] (line 123): the difference of two time
    points, a duration in ticks. *)
Definition time_sub (end_time start_time : Z) : Z := wrap64 (end_time - start_time).

(** [duration_cast<microseconds>(d).count()]: the cast truncates
    towards zero. *)
Definition duration_cast_us (d : Z) : Z := Z.quot d ticks_per_microsecond.

Definition duration_us (start_time end_time : Z) : Z :=
  duration_cast_us (time_sub end_time start_time).

(** [duration / 1e6] (line 124). *)
Definition seconds {C : Coord} (duration : Z) : coord :=
  cdiv (cof_int duration) (cof_int 1000000).

(** ** What a clock may promise *)

(** The first [n] readings count from an epoch in the past and fit a
    [long long]. *)
Definition since_epoch (clock : nat -> Z) (n : nat) : Prop :=
  forall c, (c < n)%nat -> 0 <= clock c <= INT64_MAX.

(** The clock is not set back during the first [n] readings. *)
Definition steady (clock : nat -> Z) (n : nat) : Prop :=
  forall c, (S c < n)%nat -> clock c <= clock (S c).

Section Measured.
Variable clock : nat -> Z.

(** The times of [k] queries, the first between the readings [c] and
    [c + 1] of the clock. *)
Fixpoint measured {C : Coord} (k c : nat) : list coord :=
  match k with
  | O => []
  | S k' => seconds (duration_us (clock c) (clock (S c))) :: measured k' (S (S c))
  end.

(** Their counts of microseconds, and the ticks that passed during the
    queries. *)
Fixpoint recorded_us (k c : nat) : Z :=
  match k with
  | O => 0
  | S k' => duration_us (clock c) (clock (S c)) + recorded_us k' (S (S c))
  end.

Fixpoint elapsed (k c : nat) : Z :=
  match k with
  | O => 0
  | S k' => (clock (S c) - clock c) + elapsed k' (S (S c))
  end.

End Measured.

(** ** Two's complement *)

Lemma wrap64_range (z : Z) : int64_range (wrap64 z).
Proof.
  unfold int64_range, wrap64, INT64_MIN, INT64_MAX.
  pose proof (Z.mod_pos_bound (z + 2 ^ 63) (2 ^ 64) eq_refl). lia.
Qed.

Lemma wrap64_small (z : Z) : int64_range z -> wrap64 z = z.
Proof.
  unfold int64_range, wrap64, INT64_MIN, INT64_MAX. intros H.
  rewrite Z.mod_small; lia.
Qed.

(** A sum that overflows comes out negative, [2^64] too small. *)
Lemma wrap64_overflow (z : Z) :
  INT64_MAX < z <= INT64_MAX + 2 ^ 64 -> wrap64 z = z - 2 ^ 64.
Proof.
  unfold wrap64, INT64_MAX. intros H.
  replace (z + 2 ^ 63) with (z - 2 ^ 64 + 2 ^ 63 + 1 * 2 ^ 64) by lia.
  rewrite Z.mod_add by lia. rewrite Z.mod_small; lia.
Qed.

(** ** Differences of readings *)

Lemma time_sub_exact (s e : Z) :
  0 <= s <= INT64_MAX -> 0 <= e <= INT64_MAX -> time_sub e s = e - s.
Proof.
  intros Hs He. apply wrap64_small. unfold int64_range, INT64_MIN, INT64_MAX in *. lia.
Qed.

(** ** The cast to microseconds *)

(** Truncation: the count of microseconds times 1000 is the count of
    ticks less its remainder, which has the sign of the count. *)
Lemma duration_cast_us_spec (d : Z) :
  let us := duration_cast_us d in
  (0 <= d -> 0 <= us /\ 1000 * us <= d < 1000 * (us + 1)) /\
  (d <= 0 -> us <= 0 /\ 1000 * (us - 1) < d <= 1000 * us).
Proof.
  unfold duration_cast_us, ticks_per_microsecond. cbv zeta.
  split; intros H; Z.quot_rem_to_equations; lia.
Qed.

(** The duration between two readings in order is the time that
    passed, rounded down to a whole microsecond. *)
Lemma duration_us_forward (s e : Z) :
  0 <= s <= e -> e <= INT64_MAX ->
  0 <= duration_us s e /\
  1000 * duration_us s e <= e - s < 1000 * (duration_us s e + 1).
Proof.
  intros Hs He. unfold duration_us. rewrite time_sub_exact by lia.
  apply duration_cast_us_spec. lia.
Qed.

(** Between two readings out of order it is negative or zero, rounded
    up. *)
Lemma duration_us_backward (s e : Z) :
  0 <= e <= s -> s <= INT64_MAX ->
  duration_us s e <= 0 /\
  1000 * (duration_us s e - 1) < e - s <= 1000 * duration_us s e.
Proof.
  intros He Hs. unfold duration_us. rewrite time_sub_exact by lia.
  apply duration_cast_us_spec. lia.
Qed.

(** ** The recorded times of a steady clock *)

Lemma recorded_us_bounds (clock : nat -> Z) (k c : nat) :
  since_epoch clock (c + 2 * k) -> steady clock (c + 2 * k) ->
  0 <= recorded_us clock k c /\
  1000 * recorded_us clock k c <= elapsed clock k c /\
  elapsed clock k c <= 1000 * (recorded_us clock k c + Z.of_nat k) /\
  (0 < Z.of_nat k -> elapsed clock k c < 1000 * (recorded_us clock k c + Z.of_nat k)).
Proof.
  revert c. induction k as [| k IH]; intros c Hepoch Hsteady; [simpl; lia |].
  cbn [recorded_us elapsed].
  assert (H : 0 <= clock c <= clock (S c) /\ clock (S c) <= INT64_MAX).
  { pose proof (Hepoch c). pose proof (Hepoch (S c)). pose proof (Hsteady c). lia. }
  destruct (IH (S (S c))) as (? & ? & ? & _);
    [intros i Hi; apply Hepoch; lia | intros i Hi; apply Hsteady; lia |].
  pose proof (duration_us_forward (clock c) (clock (S c))). lia.
Qed.

(** ** The recorded times in exact arithmetic *)

#[local] Open Scope Q_scope.

Lemma fold_cadd_Q (l : list Q) (a : Q) :
  fold_left (cadd (Coord := Qcoord)) l a == a + fold_right Qplus 0 l.
Proof.
  revert a. induction l as [| b l IH]; intros a; simpl; [ring |].
  rewrite IH. simpl. ring.
Qed.

Lemma sum_measured_Q (clock : nat -> Z) (k c : nat) :
  fold_right Qplus 0 (measured (C := Qcoord) clock k c) ==
  inject_Z (recorded_us clock k c) / 1000000.
Proof.
  revert c. induction k as [| k IH]; intros c; cbn [measured recorded_us fold_right].
  - reflexivity.
  - rewrite IH, inject_Z_plus. unfold seconds. simpl. field.
Qed.

(** The average of the recorded times, as [main] computes it. *)
Lemma average_Q (clock : nat -> Z) (k c : nat) (n : Z) :
  cdiv (Coord := Qcoord) (fold_left cadd (measured clock k c) czero) (cof_int n) ==
  inject_Z (recorded_us clock k c) / 1000000 / inject_Z n.
Proof. simpl. now rewrite fold_cadd_Q, sum_measured_Q, Qplus_0_l. Qed.

(** Linear arithmetic with the two constants of the conversion as
    divisors. *)
Ltac lra_consts :=
  unfold Qdiv; change (/ 1000000) with (1 # 1000000);
  change (/ 1000000000) with (1 # 1000000000); lra.

Lemma Qdiv_le_r (a b c : Q) : 0 < c -> a <= b -> a / c <= b / c.
Proof. intros Hc H. apply Qmult_le_r; [now apply Qinv_lt_0_compat | exact H]. Qed.

Lemma Qdiv_lt_r (a b c : Q) : 0 < c -> a < b -> a / c < b / c.
Proof. intros Hc H. apply Qmult_lt_r; [now apply Qinv_lt_0_compat | exact H]. Qed.

(** Counts of microseconds that are the ticks rounded down give an
    average within a microsecond below the mean. *)
Lemma mean_bounds_Q (us el n : Z) :
  (0 < n)%Z -> (1000 * us <= el < 1000 * (us + n))%Z ->
  inject_Z us / 1000000 / inject_Z n <= inject_Z el / 1000000000 / inject_Z n /\
  inject_Z el / 1000000000 / inject_Z n <
    inject_Z us / 1000000 / inject_Z n + 1 / 1000000.
Proof.
  intros Hn [Hl Hu].
  assert (HN : 0 < inject_Z n) by (change 0 with (inject_Z 0); now rewrite <- Zlt_Qlt).
  rewrite Zle_Qle, inject_Z_mult in Hl. rewrite Zlt_Qlt, inject_Z_mult, inject_Z_plus in Hu.
  change (inject_Z 1000) with 1000 in *. split.
  - apply Qdiv_le_r; [exact HN | lra_consts].
  - setoid_replace (inject_Z us / 1000000 / inject_Z n + 1 / 1000000)
      with ((inject_Z us / 1000000 + inject_Z n / 1000000) / inject_Z n)
      by (field; lra).
    apply Qdiv_lt_r; [exact HN | lra_consts].
Qed.

(** With a steady clock the average of [n] recorded times, computed as
    [main] does, is at most the mean time that passed, and less than a
    microsecond short of it. *)
Lemma steady_average_Q (clock : nat -> Z) (n : Z) :
  (0 < n)%Z ->
  since_epoch clock (2 * Z.to_nat n) -> steady clock (2 * Z.to_nat n) ->
  let avg := cdiv (Coord := Qcoord)
               (fold_left cadd (measured clock (Z.to_nat n) 0) czero) (cof_int n) in
  let mean := inject_Z (elapsed clock (Z.to_nat n) 0) / 1000000000 / inject_Z n in
  avg <= mean /\ mean < avg + 1 / 1000000.
Proof.
  intros Hn He Hs. cbv zeta. rewrite average_Q. apply mean_bounds_Q; [exact Hn |].
  destruct (recorded_us_bounds clock (Z.to_nat n) 0 He Hs) as (_ & Hl & _ & Hu).
  rewrite Z2Nat.id in Hu by lia. split; [exact Hl | apply Hu, Hn].
Qed.
