(* ===== verification/Geometry.v ===== *)
(** * Geometry: points and bounding boxes

    [Point] and [BoundingBox] of [src/Code.cpp] (lines 9-27) with the
    predicates [contains] and [intersects], and the four quadrants that
    [QuadTree::subdivide] (lines 79-84) cuts a box into.  The orientation
    follows the source: the north-west quadrant is the one with the
    small [x] and the small [y]. *)

From Stdlib Require Import Bool List QArith.
From S2P Require Import Prelude Coord CoordQ.
Import ListNotations.

#[local] Close Scope Q_scope.

#[local] Open Scope coord_scope.

Section Geometry.
Context {C : Coord}.

(** ** Point (lines 9-14) *)

Record Point : Type := mkPoint { x : coord; y : coord }.

(** The default constructor [Point()]. *)
Definition Point_default : Point := mkPoint czero czero.

(** ** BoundingBox (lines 17-27) *)

Record BoundingBox : Type := mkBoundingBox {
  x1 : coord;
  y1 : coord;
  x2 : coord;
  y2 : coord
}.

Definition contains (b : BoundingBox) (p : Point) : bool :=
  (x p >=? x1 b) && (x p <=? x2 b) && (y p >=? y1 b) && (y p <=? y2 b).

Definition intersects (b other : BoundingBox) : bool :=
  negb ((x1 other >? x2 b) || (x2 other <? x1 b) ||
        (y1 other >? y2 b) || (y2 other <? y1 b)).

(** ** The quadrants of [subdivide] (lines 79-84) *)

Definition xMid (b : BoundingBox) : coord := midpoint (x1 b) (x2 b).
Definition yMid (b : BoundingBox) : coord := midpoint (y1 b) (y2 b).

Definition quadrant_nw (b : BoundingBox) : BoundingBox :=
  mkBoundingBox (x1 b) (y1 b) (xMid b) (yMid b).
Definition quadrant_ne (b : BoundingBox) : BoundingBox :=
  mkBoundingBox (xMid b) (y1 b) (x2 b) (yMid b).
Definition quadrant_sw (b : BoundingBox) : BoundingBox :=
  mkBoundingBox (x1 b) (yMid b) (xMid b) (y2 b).
Definition quadrant_se (b : BoundingBox) : BoundingBox :=
  mkBoundingBox (xMid b) (yMid b) (x2 b) (y2 b).

(** A box whose corners are in order; the program never checks it. *)
Definition valid_box (b : BoundingBox) : bool :=
  (x1 b <=? x2 b) && (y1 b <=? y2 b).

(** [inside b outer]: the box [b] lies within the box [outer]. *)
Definition inside (b outer : BoundingBox) : bool :=
  (x1 outer <=? x1 b) && (x2 b <=? x2 outer) &&
  (y1 outer <=? y1 b) && (y2 b <=? y2 outer).

(** ** Laws that hold of any arithmetic *)

Lemma contains_spec (b : BoundingBox) (p : Point) :
  contains b p = true <->
  (x p >=? x1 b) = true /\ (x p <=? x2 b) = true /\
  (y p >=? y1 b) = true /\ (y p <=? y2 b) = true.
Proof. unfold contains. rewrite !andb_true_iff. tauto. Qed.

Lemma intersects_spec (b r : BoundingBox) :
  intersects b r = true <->
  (x1 r >? x2 b) = false /\ (x2 r <? x1 b) = false /\
  (y1 r >? y2 b) = false /\ (y2 r <? y1 b) = false.
Proof. unfold intersects. rewrite negb_true_iff, !orb_false_iff. tauto. Qed.

(** [intersects] is symmetric although its code is not: [a > b] is
    evaluated as [b < a]. *)
Lemma intersects_sym (b r : BoundingBox) : intersects b r = intersects r b.
Proof.
  unfold intersects, cgtb. f_equal.
  destruct (x2 b <? x1 r), (x2 r <? x1 b), (y2 b <? y1 r), (y2 r <? y1 b);
    reflexivity.
Qed.

(** ** Laws of an ordered arithmetic *)

Section Order.
Context {O : CoordOrder C}.

(** Two boxes with a common point intersect. *)
Lemma contains_intersects (b r : BoundingBox) (p : Point) :
  contains b p = true -> contains r p = true -> intersects b r = true.
Proof.
  rewrite !contains_spec, intersects_spec.
  intros (Hx1 & Hx2 & Hy1 & Hy2) (Rx1 & Rx2 & Ry1 & Ry2).
  destruct (common_point_not_separated _ _ _ _ _ Hx1 Hx2 Rx1 Rx2).
  destruct (common_point_not_separated _ _ _ _ _ Hy1 Hy2 Ry1 Ry2).
  auto.
Qed.

(** Pruning is sound: a box that misses the range holds no point of it. *)
Lemma not_intersects_not_contains (b r : BoundingBox) (p : Point) :
  intersects b r = false -> contains b p = true -> contains r p = false.
Proof.
  intros Hi Hb. destruct (contains r p) eqn:Hr; [| reflexivity].
  rewrite (contains_intersects _ _ _ Hb Hr) in Hi. discriminate.
Qed.

Lemma filter_contains_pruned (b r : BoundingBox) (l : list Point) :
  intersects b r = false -> Forall (fun p => contains b p = true) l ->
  filter (contains r) l = [].
Proof.
  intros Hi Hl. apply filter_all_false. intros p Hp.
  rewrite Forall_forall in Hl. eauto using not_intersects_not_contains.
Qed.

End Order.

(** ** Covering *)

(** The four quadrants cover the points of the box that are comparable
    to its two midpoints. *)
Lemma quadrants_cover_at (b : BoundingBox) (p : Point) :
  (x p <=? xMid b) = true \/ (xMid b <=? x p) = true ->
  (y p <=? yMid b) = true \/ (yMid b <=? y p) = true ->
  contains b p = true ->
  contains (quadrant_nw b) p || contains (quadrant_ne b) p ||
  contains (quadrant_sw b) p || contains (quadrant_se b) p = true.
Proof.
  rewrite contains_spec. intros Cx Cy (Hx1 & Hx2 & Hy1 & Hy2).
  unfold contains; simpl.
  destruct (cut_covers_at _ _ (xMid b) _ Cx Hx1 Hx2) as [Hx | Hx];
  destruct (cut_covers_at _ _ (yMid b) _ Cy Hy1 Hy2) as [Hy | Hy];
  apply andb_true_iff in Hx; apply andb_true_iff in Hy;
  destruct Hx as [Hxa Hxb]; destruct Hy as [Hya Hyb];
  rewrite ?Hxa, ?Hxb, ?Hya, ?Hyb; simpl; rewrite ?orb_true_r; reflexivity.
Qed.

(** A class [good] of boxes that is closed under taking quadrants and
    whose boxes are covered by their quadrants.  In a total order every
    box is good; on binary64 the boxes whose bounds are numbers, not
    infinities of opposite signs, are ([Binary64]). *)
Class Covering (good : BoundingBox -> Prop) : Prop := {
  good_nw : forall b, good b -> good (quadrant_nw b);
  good_ne : forall b, good b -> good (quadrant_ne b);
  good_sw : forall b, good b -> good (quadrant_sw b);
  good_se : forall b, good b -> good (quadrant_se b);
  good_cover : forall b p, good b -> contains b p = true ->
    contains (quadrant_nw b) p || contains (quadrant_ne b) p ||
    contains (quadrant_sw b) p || contains (quadrant_se b) p = true
}.

(** ** Laws of a total arithmetic *)

Section Total.
Context {T : CoordTotal C}.

(** The four quadrants cover the box, wherever the cut falls. *)
Lemma quadrants_cover (b : BoundingBox) (p : Point) :
  contains b p = true ->
  contains (quadrant_nw b) p || contains (quadrant_ne b) p ||
  contains (quadrant_sw b) p || contains (quadrant_se b) p = true.
Proof. apply quadrants_cover_at; apply cleb_total. Qed.

#[export] Instance Total_covering : Covering (fun _ => True).
Proof. split; auto using quadrants_cover. Qed.

End Total.

(** ** Laws of an arithmetic whose numbers are totally ordered *)

Section Numbers.
Context {num : coord -> Prop} {N : CoordNumbers C num}.

(** Two valid boxes that [intersects] does not separate share a point:
    the corner made of the larger lower bounds. *)
Lemma intersects_common_point (b r : BoundingBox) :
  valid_box b = true -> valid_box r = true -> intersects b r = true ->
  contains b (mkPoint (cmax (x1 b) (x1 r)) (cmax (y1 b) (y1 r))) = true /\
  contains r (mkPoint (cmax (x1 b) (x1 r)) (cmax (y1 b) (y1 r))) = true.
Proof.
  unfold valid_box. rewrite !andb_true_iff, intersects_spec, !contains_spec.
  unfold cgtb, cgeb; simpl. intros [Vx Vy] [Wx Wy] (Hx1 & Hx2 & Hy1 & Hy2).
  destruct (cleb_num _ _ Vx), (cleb_num _ _ Vy), (cleb_num _ _ Wx), (cleb_num _ _ Wy).
  apply num_strict in Hx1, Hx2, Hy1, Hy2; auto.
  pose proof (@cmax_l _ num N) as Hl. pose proof (@cmax_r _ num N) as Hr.
  repeat split; auto using cmax_le.
Qed.

(** [intersects] holds exactly of the valid boxes that share a
    point. *)
Lemma intersects_exact {O : CoordOrder C} (b r : BoundingBox) :
  valid_box b = true -> valid_box r = true ->
  (intersects b r = true <->
   exists p, contains b p = true /\ contains r p = true).
Proof.
  intros Vb Vr. split.
  - intros H. eexists. now apply intersects_common_point.
  - intros (p & Hb & Hr). eapply contains_intersects; eauto.
Qed.

End Numbers.

(** ** Laws of an arithmetic with exact midpoints *)

Section Mid.
Context {O : CoordOrder C} {M : CoordMid C}.

Lemma xMid_between (b : BoundingBox) :
  valid_box b = true -> (x1 b <=? xMid b) = true /\ (xMid b <=? x2 b) = true.
Proof.
  unfold valid_box. rewrite andb_true_iff. intros [H _].
  now apply midpoint_between.
Qed.

Lemma yMid_between (b : BoundingBox) :
  valid_box b = true -> (y1 b <=? yMid b) = true /\ (yMid b <=? y2 b) = true.
Proof.
  unfold valid_box. rewrite andb_true_iff. intros [_ H].
  now apply midpoint_between.
Qed.

(** Each quadrant of a valid box is a valid box inside it. *)
Lemma quadrants_valid (b : BoundingBox) :
  valid_box b = true ->
  valid_box (quadrant_nw b) = true /\ valid_box (quadrant_ne b) = true /\
  valid_box (quadrant_sw b) = true /\ valid_box (quadrant_se b) = true.
Proof.
  intros H. destruct (xMid_between _ H) as [X1 X2].
  destruct (yMid_between _ H) as [Y1 Y2].
  unfold valid_box; simpl. rewrite X1, X2, Y1, Y2. auto.
Qed.

End Mid.

(** ** Classes of boxes that are cut between their bounds *)

(** A class [good] of valid boxes that is closed under taking
    quadrants, whose boxes are covered by their quadrants and cut
    between their bounds.  In a total order with exact midpoints every
    valid box is good; on binary64 the valid boxes with bounds below
    [2 ^ 1023] in magnitude are ([Midpoint]). *)
Class Halving (good : BoundingBox -> Prop) : Prop := {
  halving_covering :: Covering good;
  good_valid : forall b, good b -> valid_box b = true;
  good_xMid : forall b, good b ->
    (x1 b <=? xMid b) = true /\ (xMid b <=? x2 b) = true;
  good_yMid : forall b, good b ->
    (y1 b <=? yMid b) = true /\ (yMid b <=? y2 b) = true
}.

#[export] Instance Mid_halving {O : CoordOrder C} {T : CoordTotal C} {M : CoordMid C} :
  Halving (fun b => valid_box b = true).
Proof.
  split; auto using xMid_between, yMid_between.
  split; try (intros b V; now destruct (quadrants_valid b V) as (? & ? & ? & ?)).
  intros b p _. apply quadrants_cover.
Qed.

Section Halving.
Context {O : CoordOrder C} {good : BoundingBox -> Prop} {H : Halving good}.

(** Each quadrant of a good box lies within it. *)
Lemma quadrants_inside_box (b : BoundingBox) :
  good b ->
  inside (quadrant_nw b) b = true /\ inside (quadrant_ne b) b = true /\
  inside (quadrant_sw b) b = true /\ inside (quadrant_se b) b = true.
Proof.
  intros G. destruct (good_xMid _ G) as [X1 X2]. destruct (good_yMid _ G) as [Y1 Y2].
  destruct (cleb_refl_of _ _ X1) as [Rx1 _]. destruct (cleb_refl_of _ _ X2) as [_ Rx2].
  destruct (cleb_refl_of _ _ Y1) as [Ry1 _]. destruct (cleb_refl_of _ _ Y2) as [_ Ry2].
  unfold inside; simpl. now rewrite X1, X2, Y1, Y2, Rx1, Rx2, Ry1, Ry2.
Qed.

Lemma quadrants_inside (b : BoundingBox) (p : Point) :
  good b ->
  contains (quadrant_nw b) p || contains (quadrant_ne b) p ||
  contains (quadrant_sw b) p || contains (quadrant_se b) p = true ->
  contains b p = true.
Proof.
  intros G. destruct (good_xMid _ G) as [X1 X2]. destruct (good_yMid _ G) as [Y1 Y2].
  rewrite !orb_true_iff, !contains_spec; simpl. unfold cgeb.
  intros [[[Hq | Hq] | Hq] | Hq]; destruct Hq as (A & B & A' & B');
    repeat split; eauto using cleb_trans.
Qed.

(** The quadrants of a good box hold the points of the box and no
    others. *)
Lemma quadrants_partition (b : BoundingBox) (p : Point) :
  good b ->
  contains b p =
  contains (quadrant_nw b) p || contains (quadrant_ne b) p ||
  contains (quadrant_sw b) p || contains (quadrant_se b) p.
Proof.
  intros G. destruct (contains b p) eqn:Hc.
  - symmetry. now apply (good_cover b p G).
  - destruct (_ || _) eqn:Hq; [| reflexivity].
    now rewrite (quadrants_inside _ _ G Hq) in Hc.
Qed.

End Halving.

(** ** Boxes within boxes *)

Section Chain.
Context {K : CoordChain C}.

(** A range that meets a box meets every box around it: a subtree whose
    region the range misses has no region below it that the range
    meets. *)
Lemma intersects_inside (b outer r : BoundingBox) :
  inside b outer = true -> intersects b r = true -> intersects outer r = true.
Proof.
  unfold inside. rewrite !andb_true_iff, !intersects_spec. unfold cgtb.
  intros [[[X1 X2] Y1] Y2] (A & B & A' & B').
  repeat split; apply not_true_is_false; intros H.
  - now rewrite (cleb_cltb_trans _ _ _ X2 H) in A.
  - now rewrite (cltb_cleb_trans _ _ _ H X1) in B.
  - now rewrite (cleb_cltb_trans _ _ _ Y2 H) in A'.
  - now rewrite (cltb_cleb_trans _ _ _ H Y1) in B'.
Qed.

End Chain.

(** ** Main theorems *)

(** C35: [intersects] is exact on valid boxes.  In an arithmetic whose
    values that compare are totally ordered (the rationals; on binary64
    the numbers, infinities included, NaN being no bound of a valid
    box), [intersects] returns [true] if and only if the two boxes have
    a point in common.  Boxes that touch at an edge or a corner
    intersect. *)
Theorem intersects_iff_common_point
    {O : CoordOrder C} {num : coord -> Prop} {N : CoordNumbers C num} (b r : BoundingBox) :
  valid_box b = true -> valid_box r = true ->
  (intersects b r = true <->
   exists p, contains b p = true /\ contains r p = true).
Proof. apply intersects_exact. Qed.


End Geometry.

Arguments Point : clear implicits.
Arguments BoundingBox : clear implicits.
Arguments Point {C}.
Arguments BoundingBox {C}.

#[export] Hint Resolve contains_intersects not_intersects_not_contains : qt.

(** ** The theorems at rational samples *)

Definition qpoint (a b : Q) : Point (C := Qcoord) := mkPoint a b.
Definition qbox (a b c d : Q) : BoundingBox (C := Qcoord) := mkBoundingBox a b c d.
Definition qunit_box : @BoundingBox Qcoord := qbox 0 0 100 100.

(** Two squares that touch at the corner (100, 100). *)
Lemma intersects_iff_common_point_witness :
  intersects qunit_box (qbox 100 100 200 200) = true <->
  exists p, contains qunit_box p = true /\ contains (qbox 100 100 200 200) p = true.
Proof.
  apply (intersects_iff_common_point qunit_box (qbox 100 100 200 200)); reflexivity.
Defined.

