(* ===== verification/Binary64.v ===== *)
(** * Binary64: boxes of numbers

    On IEEE doubles [<=] is total on numbers, and the midpoint
    [(a + b) / 2] of two numbers is a number unless they are infinities
    of opposite signs.  So the boxes whose bounds are numbers, not
    oppositely infinite, are closed under [subdivide] and covered by
    their quadrants: they form a [Covering] class, and the theorems that
    a total order gives for all boxes hold on binary64 for these, every
    box with finite bounds among them.  The facts on rounding that this
    needs are proved from the specification [SpecFloat] of the primitive
    operations: rounding a non-negative mantissa never yields NaN.  The
    numbers, infinities included, are totally ordered, so on doubles
    [intersects] is exact on valid boxes. *)

From Stdlib Require Import ZArith PArith Lia Bool Uint63 Floats.
From S2P Require Import Prelude Coord CoordFloat Geometry.

(** ** Definitions *)

(** Not NaN. *)
Definition sf_num (a : spec_float) : bool :=
  match a with
  | S754_nan => false
  | _ => true
  end.

(** Two numbers that are not infinities of opposite signs. *)
Definition sf_pair (a b : spec_float) : bool :=
  match a, b with
  | S754_nan, _ | _, S754_nan => false
  | S754_infinity s, S754_infinity s' => Bool.eqb s s'
  | _, _ => true
  end.

(** [(a + b) / 2] on specification floats. *)
Definition sf_mid (a b : spec_float) : spec_float :=
  SF64div (SF64add a b) (Prim2SF 2).

Definition pair_num (a b : float) : bool := sf_pair (Prim2SF a) (Prim2SF b).

(** A box whose sides are such pairs; every box with finite bounds is
    one. *)
Definition box_num (b : BoundingBox (C := Fcoord)) : bool :=
  pair_num (x1 b) (x2 b) && pair_num (y1 b) (y2 b).

(** ** Rounding never yields NaN *)

Lemma shr_1_nonneg (mrs : shr_record) :
  (0 <= shr_m mrs)%Z -> (0 <= shr_m (shr_1 mrs))%Z.
Proof. destruct mrs as [m r s]. destruct m as [| [p | p |] | [p | p |]]; simpl; lia. Qed.

Lemma iter_shr_1_nonneg (n : positive) : forall mrs,
  (0 <= shr_m mrs)%Z -> (0 <= shr_m (iter_pos shr_1 n mrs))%Z.
Proof. induction n; simpl; intros; auto using shr_1_nonneg. Qed.

Lemma shr_nonneg (mrs : shr_record) (e n : Z) :
  (0 <= shr_m mrs)%Z -> (0 <= shr_m (fst (shr mrs e n)))%Z.
Proof. destruct n; simpl; auto using iter_shr_1_nonneg. Qed.

Lemma shr_fexp_nonneg (m e : Z) (l : location) :
  (0 <= m)%Z -> (0 <= shr_m (fst (shr_fexp prec emax m e l)))%Z.
Proof.
  intros H. unfold shr_fexp. apply shr_nonneg.
  destruct l as [| []]; exact H.
Qed.

Lemma round_nearest_even_nonneg (m : Z) (l : location) :
  (0 <= m)%Z -> (0 <= round_nearest_even m l)%Z.
Proof. destruct l as [| []]; simpl; try destruct (Z.even m); lia. Qed.

Lemma binary_round_aux_num (s : bool) (m e : Z) (l : location) :
  (0 <= m)%Z -> sf_num (binary_round_aux prec emax s m e l) = true.
Proof.
  intros H. unfold binary_round_aux.
  pose proof (shr_fexp_nonneg m e l H) as H1.
  destruct (shr_fexp prec emax m e l) as [mrs1 e1]. simpl in H1.
  pose proof (shr_fexp_nonneg _ e1 loc_Exact
                (round_nearest_even_nonneg _ (loc_of_shr_record mrs1) H1)) as H2.
  destruct (shr_fexp prec emax _ e1 loc_Exact) as [mrs2 e2]. simpl in H2.
  destruct (shr_m mrs2); [reflexivity | | lia].
  destruct (Z.leb e2 (emax - prec)); reflexivity.
Qed.

Lemma binary_normalize_num (m e : Z) (s : bool) :
  sf_num (binary_normalize prec emax m e s) = true.
Proof.
  destruct m; simpl; [reflexivity | |]; unfold binary_round;
    destruct (shl_align _ _ _); apply binary_round_aux_num; lia.
Qed.

Lemma SFdiv_core_nonneg (m1 : positive) (e1 : Z) (m2 : positive) (e2 : Z) :
  (0 <= fst (fst (SFdiv_core_binary prec emax (Zpos m1) e1 (Zpos m2) e2)))%Z.
Proof.
  unfold SFdiv_core_binary.
  set (s := (e1 - e2 - _)%Z).
  set (m' := match s with Zpos _ => Z.shiftl (Zpos m1) s | Z0 => Zpos m1 | Zneg _ => 0%Z end).
  assert (0 <= m')%Z as Hm.
  { unfold m'. destruct s; try lia. apply Z.shiftl_nonneg. lia. }
  pose proof (Z.div_pos m' (Zpos m2) Hm ltac:(lia)) as Hq.
  unfold Z.div in Hq. destruct (Z.div_eucl m' (Zpos m2)) as [q r]. exact Hq.
Qed.

(** ** The midpoint of two numbers *)

Lemma SF64add_num (a b : spec_float) : sf_pair a b = true -> sf_num (SF64add a b) = true.
Proof.
  destruct a as [s | s | | s m e], b as [s' | s' | | s' m' e']; simpl;
    try discriminate; try reflexivity.
  - destruct s, s'; reflexivity.
  - destruct s, s'; try discriminate; reflexivity.
  - intros _. apply binary_normalize_num.
Qed.

Lemma SF64div_two_num (a : spec_float) : sf_num a = true -> sf_num (SF64div a (Prim2SF 2)) = true.
Proof.
  change (Prim2SF 2) with (S754_finite false 4503599627370496 (-51)).
  destruct a as [s | s | | s m e]; simpl; try discriminate; try reflexivity.
  intros _. pose proof (SFdiv_core_nonneg m e 4503599627370496 (-51)) as H.
  destruct (SFdiv_core_binary _ _ _ _ _ _) as [[mz ez] lz]. simpl in H.
  now apply binary_round_aux_num.
Qed.

Lemma sf_mid_num (a b : spec_float) : sf_pair a b = true -> sf_num (sf_mid a b) = true.
Proof. intros H. apply SF64div_two_num, SF64add_num, H. Qed.

(** The midpoint of an infinity and a number is that infinity. *)
Lemma sf_mid_inf_l (s : bool) (b : spec_float) :
  sf_pair (S754_infinity s) b = true -> sf_mid (S754_infinity s) b = S754_infinity s.
Proof.
  unfold sf_mid. change (Prim2SF 2) with (S754_finite false 4503599627370496 (-51)).
  destruct b as [s' | s' | | s' m' e']; simpl; try discriminate;
    destruct s; try destruct s'; try discriminate; reflexivity.
Qed.

Lemma sf_mid_inf_r (a : spec_float) (s : bool) :
  sf_pair a (S754_infinity s) = true -> sf_mid a (S754_infinity s) = S754_infinity s.
Proof.
  unfold sf_mid. change (Prim2SF 2) with (S754_finite false 4503599627370496 (-51)).
  destruct a as [s' | s' | | s' m' e']; simpl; try discriminate;
    destruct s; try destruct s'; try discriminate; reflexivity.
Qed.

Lemma sf_pair_num_l (a b : spec_float) :
  sf_num a = true -> sf_num b = true ->
  (forall s, a <> S754_infinity s) -> sf_pair a b = true.
Proof.
  destruct a as [s | s | | s m e], b as [s' | s' | | s' m' e']; simpl;
    try discriminate; try reflexivity.
  intros _ _ H. now destruct (H s).
Qed.

Lemma sf_pair_num_r (a b : spec_float) :
  sf_num a = true -> sf_num b = true ->
  (forall s, b <> S754_infinity s) -> sf_pair a b = true.
Proof.
  destruct a as [s | s | | s m e], b as [s' | s' | | s' m' e']; simpl;
    try discriminate; try reflexivity.
  intros _ _ H. now destruct (H s').
Qed.

Lemma sf_pair_num (a b : spec_float) :
  sf_pair a b = true -> sf_num a = true /\ sf_num b = true.
Proof. destruct a, b; simpl; try discriminate; auto. Qed.

(** Cutting a pair at its midpoint gives two pairs. *)
Lemma sf_mid_pair (a b : spec_float) :
  sf_pair a b = true ->
  sf_pair a (sf_mid a b) = true /\ sf_pair (sf_mid a b) b = true.
Proof.
  intros H. pose proof (sf_mid_num a b H) as Hm.
  destruct (sf_pair_num a b H) as [Ha Hb]. split.
  - destruct a as [s | s | | s m e]; try discriminate;
      try (apply sf_pair_num_l; [reflexivity | exact Hm | discriminate]).
    rewrite (sf_mid_inf_l s b H). simpl. now destruct s.
  - destruct b as [s | s | | s m e]; try discriminate;
      try (apply sf_pair_num_r; [exact Hm | reflexivity | discriminate]).
    rewrite (sf_mid_inf_r a s H). simpl. now destruct s.
Qed.

(** ** Comparisons of numbers *)

(** [<=] is total on numbers. *)
Lemma SFleb_total (a b : spec_float) :
  sf_num a = true -> sf_num b = true -> SFleb a b = true \/ SFleb b a = true.
Proof.
  unfold SFleb, SFcompare.
  destruct a as [s | s | | s m e], b as [s' | s' | | s' m' e'];
    try destruct s; try destruct s'; simpl; try discriminate; auto; intros _ _;
    rewrite (Z.compare_antisym e e');
    change (Pos.compare_cont Eq m' m) with (Pos.compare m' m);
    change (Pos.compare_cont Eq m m') with (Pos.compare m m');
    rewrite (Pos.compare_antisym m m');
    destruct (Z.compare e e'); simpl; auto;
    destruct (Pos.compare m m'); simpl; auto.
Qed.

(** On numbers [<] is the negation of the converse [<=]. *)
Lemma SFltb_false_SFleb (a b : spec_float) :
  sf_num a = true -> sf_num b = true -> SFltb a b = false -> SFleb b a = true.
Proof.
  unfold SFltb, SFleb, SFcompare.
  destruct a as [s | s | | s m e], b as [s' | s' | | s' m' e'];
    try destruct s; try destruct s'; simpl; try discriminate; auto; intros _ _;
    rewrite (Z.compare_antisym e e');
    change (Pos.compare_cont Eq m' m) with (Pos.compare m' m);
    change (Pos.compare_cont Eq m m') with (Pos.compare m m');
    rewrite (Pos.compare_antisym m m');
    destruct (Z.compare e e'); simpl; auto;
    destruct (Pos.compare m m'); simpl; auto.
Qed.

(** What compares is a number. *)
Lemma SFleb_num (a b : spec_float) :
  SFleb a b = true -> sf_num a = true /\ sf_num b = true.
Proof. destruct a, b; simpl; try discriminate; auto. Qed.

(** On doubles the values that compare are the numbers, and these are
    totally ordered. *)
#[export] Instance Fcoord_numbers : CoordNumbers Fcoord (fun a => sf_num (Prim2SF a) = true).
Proof.
  split; simpl; intros a b.
  - rewrite leb_spec. apply SFleb_num.
  - rewrite !leb_spec. apply SFleb_total.
  - rewrite ltb_spec, leb_spec. apply SFltb_false_SFleb.
Qed.

(** ** Boxes of numbers *)

Lemma midpoint_spec (a b : float) :
  Prim2SF (midpoint (C := Fcoord) a b) = sf_mid (Prim2SF a) (Prim2SF b).
Proof. unfold midpoint, sf_mid. simpl. now rewrite div_spec, add_spec. Qed.

Lemma pair_num_mid (a b : float) :
  pair_num a b = true ->
  pair_num a (midpoint (C := Fcoord) a b) = true /\
  pair_num (midpoint (C := Fcoord) a b) b = true.
Proof. unfold pair_num. rewrite midpoint_spec. apply sf_mid_pair. Qed.

Lemma box_num_quadrants (b : BoundingBox) :
  box_num b = true ->
  box_num (quadrant_nw b) = true /\ box_num (quadrant_ne b) = true /\
  box_num (quadrant_sw b) = true /\ box_num (quadrant_se b) = true.
Proof.
  unfold box_num. rewrite andb_true_iff. intros [Hx Hy].
  destruct (pair_num_mid _ _ Hx) as [X1 X2]. destruct (pair_num_mid _ _ Hy) as [Y1 Y2].
  unfold quadrant_nw, quadrant_ne, quadrant_sw, quadrant_se, xMid, yMid.
  cbn [x1 x2 y1 y2]. now rewrite X1, X2, Y1, Y2.
Qed.

(** A coordinate inside an interval is comparable to its midpoint. *)
Lemma mid_comparable (a b p : float) :
  pair_num a b = true -> cleb a p = true ->
  cleb p (midpoint (C := Fcoord) a b) = true \/ cleb (midpoint (C := Fcoord) a b) p = true.
Proof.
  intros H Hp. change (PrimFloat.leb a p = true) in Hp.
  change (PrimFloat.leb p (midpoint (C := Fcoord) a b) = true \/
          PrimFloat.leb (midpoint (C := Fcoord) a b) p = true).
  rewrite leb_spec in Hp. rewrite !leb_spec.
  apply SFleb_total; [apply (SFleb_num _ _ Hp) |].
  rewrite midpoint_spec. now apply sf_mid_num.
Qed.

Lemma box_num_cover (b : BoundingBox) (p : Point) :
  box_num b = true -> contains b p = true ->
  contains (quadrant_nw b) p || contains (quadrant_ne b) p ||
  contains (quadrant_sw b) p || contains (quadrant_se b) p = true.
Proof.
  unfold box_num. rewrite andb_true_iff. intros [Hx Hy] Hc.
  pose proof Hc as Hc'. apply contains_spec in Hc'. destruct Hc' as (X1 & _ & Y1 & _).
  apply quadrants_cover_at; [| | exact Hc]; unfold xMid, yMid; now apply mid_comparable.
Qed.

#[export] Instance Binary64_covering : Covering (fun b => box_num b = true).
Proof.
  split; try (intros b H; now apply box_num_quadrants).
  intros b p. apply box_num_cover.
Qed.

(** ** Main theorem *)

(** C21: on binary64, [subdivide] cuts a box whose bounds are numbers,
    not infinities of opposite signs, into four such boxes, whatever the
    sums and quotients round or overflow to, and every point of the box
    lies in one of the four. *)
Theorem binary64_quadrants_cover (b : BoundingBox) (p : Point) :
  box_num b = true ->
  (box_num (quadrant_nw b) = true /\ box_num (quadrant_ne b) = true /\
   box_num (quadrant_sw b) = true /\ box_num (quadrant_se b) = true) /\
  (contains b p = true ->
   contains (quadrant_nw b) p || contains (quadrant_ne b) p ||
   contains (quadrant_sw b) p || contains (quadrant_se b) p = true).
Proof. intros H. split; [now apply box_num_quadrants | now apply box_num_cover]. Qed.

(** The largest finite double as a bound: the midpoint of the upper
    half overflows to infinity, and the quadrants still cover. *)
Definition huge_box : BoundingBox (C := Fcoord) :=
  @mkBoundingBox Fcoord 0%float 0%float 0x1.fffffffffffffp+1023%float
    0x1.fffffffffffffp+1023%float.

Definition upper_box : BoundingBox (C := Fcoord) := quadrant_se huge_box.

Definition huge_point : Point (C := Fcoord) :=
  @mkPoint Fcoord 0x1.fffffffffffffp+1023%float 0x1.fffffffffffffp+1023%float.

Lemma binary64_quadrants_cover_witness :
  (box_num (quadrant_nw upper_box) = true /\ box_num (quadrant_ne upper_box) = true /\
   box_num (quadrant_sw upper_box) = true /\ box_num (quadrant_se upper_box) = true) /\
  (contains upper_box huge_point = true ->
   contains (quadrant_nw upper_box) huge_point ||
   contains (quadrant_ne upper_box) huge_point ||
   contains (quadrant_sw upper_box) huge_point ||
   contains (quadrant_se upper_box) huge_point = true).
Proof. apply (binary64_quadrants_cover upper_box huge_point). reflexivity. Defined.

Example upper_box_overflows :
  xMid upper_box = infinity /\ contains upper_box huge_point = true /\
  contains (quadrant_nw upper_box) huge_point = true.
Proof. vm_compute. repeat split; reflexivity. Qed.

(** Boxes with finite bounds are boxes of numbers, the whole plane is
    not. *)
Example box_num_samples :
  box_num (mkBoundingBox 0 0 100 100)%float = true /\
  box_num (mkBoundingBox (-1000) 0 0x1.fffffffffffffp+1023 infinity)%float = true /\
  box_num (mkBoundingBox neg_infinity neg_infinity infinity infinity)%float = false.
Proof. vm_compute. repeat split; reflexivity. Qed.

(** On doubles [intersects] holds exactly of the valid boxes that share
    a point, infinite bounds included. *)
Lemma intersects_exact_binary64 (b r : BoundingBox (C := Fcoord)) :
  valid_box b = true -> valid_box r = true ->
  (intersects b r = true <->
   exists p, contains b p = true /\ contains r p = true).
Proof. apply (intersects_exact (N := Fcoord_numbers)). Qed.
