(* ===== verification/Rounding.v ===== *)
(** * Rounding: the specification of binary64 rounding, in the rationals

    The primitive operations on doubles are specified by [SpecFloat]:
    a sum, a product or a quotient is computed exactly, as a mantissa,
    an exponent and the place of the exact result between two steps of
    the mantissa, and then rounded to nearest even by
    [binary_round_aux].  This file gives that specification a meaning
    in the rationals; [Nearest] proves from it that rounding stays
    between the numbers of the format that the exact result lies
    between, which is what the arithmetic of [src/Code.cpp] relies on
    (the midpoint of lines 79-80, the scaling of lines 99-100).

    [located V m e l] is the meaning of a place: the rational [V] lies
    in [[m 2^e, (m + 1) 2^e)] at the place [l].  Shifting the mantissa
    to the right keeps the place ([shr_fexp_located]), the mantissa so
    cut has at most 53 digits and exactly 53 above the least exponent
    ([cut_mantissa_upper], [cut_mantissa_lower]), the result of
    rounding is read off the cut mantissa ([binary_round_aux_rounded]),
    rounding to nearest never passes a number of the same exponent
    that the exact result does not pass ([round_nearest_even_below]),
    and the quotient of the mantissas computed by [SFdiv_core_binary]
    is at the place of the quotient of the numbers ([core_located]). *)

From Stdlib Require Import ZArith PArith QArith Qpower Lia Lqa Bool Floats.
From S2P Require Import Prelude Coord CoordFloat Binary64.

#[local] Open Scope Z_scope.

(** ** Definitions *)

(** The power [2 ^ e] of two, for any integer [e]. *)
Definition bpow (e : Z) : Q := (2 ^ e)%Q.

(** The number with the mantissa [m] and the exponent [e]. *)
Definition val (m e : Z) : Q := (inject_Z m * bpow e)%Q.

(** [located V m e l]: the number [V] lies in the interval
    [[m 2^e, (m + 1) 2^e)] at the place [l]: at its lower end, below,
    at or above its midpoint. *)
Definition located (V : Q) (m e : Z) (l : location) : Prop :=
  match l with
  | loc_Exact => (V == val m e)%Q
  | loc_Inexact Lt => (val m e < V)%Q /\ (2 * V < val (2 * m + 1) e)%Q
  | loc_Inexact Eq => (2 * V == val (2 * m + 1) e)%Q
  | loc_Inexact Gt => (val (2 * m + 1) e < 2 * V)%Q /\ (V < val (m + 1) e)%Q
  end.

(** The exponent of the binary64 numbers with [d] digits above the
    exponent [e - d]. *)
Definition fexp64 (x : Z) : Z := SpecFloat.fexp prec emax x.
Definition emin64 : Z := SpecFloat.emin prec emax.

(** The float with the rounded mantissa [m2] at the exponent [E]. *)
Definition rounded (m2 E : Z) : spec_float :=
  if m2 =? 0 then S754_zero false
  else if m2 <? 2 ^ 53
  then if E <=? emax - prec then S754_finite false (Z.to_pos m2) E
       else S754_infinity false
  else if E + 1 <=? emax - prec then S754_finite false (Z.to_pos (2 ^ 52)) (E + 1)
       else S754_infinity false.

(** The value of a float that is a number. *)
Definition sf_val (x : spec_float) : Q :=
  match x with
  | S754_finite false m e => val (Zpos m) e
  | S754_finite true m e => (- val (Zpos m) e)%Q
  | _ => 0%Q
  end.

(** ** Powers of two *)

Lemma bpow_pos e : (0 < bpow e)%Q.
Proof. apply Qpower_0_lt. reflexivity. Qed.

Lemma bpow_add a b : (bpow (a + b) == bpow a * bpow b)%Q.
Proof. apply Qpower_plus. discriminate. Qed.

Lemma bpow_succ e : (bpow (e + 1) == 2 * bpow e)%Q.
Proof. rewrite bpow_add. change (bpow 1) with 2%Q. ring. Qed.

Lemma bpow_le a b : a <= b -> (bpow a <= bpow b)%Q.
Proof. intros H. apply Qpower_le_compat_l; [exact H | discriminate]. Qed.

Lemma bpow_lt a b : a < b -> (bpow a < bpow b)%Q.
Proof. intros H. apply Qpower_lt_compat_l; [exact H | reflexivity]. Qed.

Lemma bpow_lt_inv a b : (bpow a < bpow b)%Q -> a < b.
Proof. intros H. apply (Qpower_lt_compat_l_inv 2); [exact H | reflexivity]. Qed.

Lemma bpow_Z n : 0 <= n -> (bpow n == inject_Z (2 ^ n))%Q.
Proof. intros H. unfold bpow. now rewrite Zpower_Qpower. Qed.

(** ** Values *)

Lemma inj_xI p : (inject_Z (Zpos p~1) == 2 * inject_Z (Zpos p) + 1)%Q.
Proof. rewrite Pos2Z.inj_xI, inject_Z_plus, inject_Z_mult. reflexivity. Qed.

Lemma inj_xO p : (inject_Z (Zpos p~0) == 2 * inject_Z (Zpos p))%Q.
Proof. rewrite Pos2Z.inj_xO, inject_Z_mult. reflexivity. Qed.

Ltac val_norm :=
  unfold val;
  repeat (rewrite inject_Z_plus || rewrite inject_Z_mult);
  repeat (rewrite inj_xI || rewrite inj_xO);
  change (inject_Z 2) with 2%Q; change (inject_Z 1) with 1%Q;
  change (inject_Z 0) with 0%Q.

Lemma val_le m m' e : m <= m' -> (val m e <= val m' e)%Q.
Proof.
  intros H. unfold val. apply Qmult_le_compat_r; [now rewrite <- Zle_Qle |].
  apply Qlt_le_weak, bpow_pos.
Qed.

Lemma val_nonneg m e : 0 <= m -> (0 <= val m e)%Q.
Proof.
  intros H. apply (val_le 0 m e) in H. revert H. unfold val.
  change (inject_Z 0) with 0%Q. lra.
Qed.

Lemma val_lt_inv m m' e : (val m e < val m' e)%Q -> m < m'.
Proof.
  intros H. destruct (Z.lt_ge_cases m m') as [Hlt | Hge]; [exact Hlt |].
  apply (val_le _ _ e) in Hge. lra.
Qed.

Lemma val_le_inv m m' e : (val m e <= val m' e)%Q -> m <= m'.
Proof.
  intros H. destruct (Z.le_gt_cases m m') as [Hle | Hgt]; [exact Hle |].
  assert (m' + 1 <= m) as Hge by lia. apply (val_le _ _ e) in Hge.
  revert Hge H. val_norm. pose proof (bpow_pos e). lra.
Qed.

Lemma val_shift m e n : 0 <= n -> (val (m * 2 ^ n) e == val m (e + n))%Q.
Proof.
  intros H. unfold val. rewrite inject_Z_mult, <- (bpow_Z n H), (Z.add_comm e n), bpow_add.
  ring.
Qed.

Lemma val_bpow e n : 0 <= n -> (val (2 ^ n) e == bpow (n + e))%Q.
Proof. intros H. unfold val. rewrite <- (bpow_Z n H), bpow_add. reflexivity. Qed.

(** ** Digits *)

Lemma digits2_pos_bounds p :
  2 ^ (Zpos (digits2_pos p) - 1) <= Zpos p < 2 ^ Zpos (digits2_pos p).
Proof.
  induction p as [p IH | p IH |]; cbn [digits2_pos];
    rewrite ?Pos2Z.inj_succ; [| | simpl; lia].
  - replace (Z.succ (Zpos (digits2_pos p)) - 1) with (Z.succ (Zpos (digits2_pos p) - 1)) by lia.
    rewrite !Z.pow_succ_r by lia. lia.
  - replace (Z.succ (Zpos (digits2_pos p)) - 1) with (Z.succ (Zpos (digits2_pos p) - 1)) by lia.
    rewrite !Z.pow_succ_r by lia. lia.
Qed.

Lemma Zdigits2_nonneg m : 0 <= Zdigits2 m.
Proof. destruct m; simpl; lia. Qed.

Lemma Zdigits2_upper m : 0 <= m -> m < 2 ^ Zdigits2 m.
Proof.
  destruct m as [| p | p]; simpl; [lia | | lia]. intros _. apply digits2_pos_bounds.
Qed.

Lemma Zdigits2_lower m : 0 < m -> 2 ^ (Zdigits2 m - 1) <= m.
Proof.
  destruct m as [| p | p]; simpl; [lia | | lia]. intros _. apply digits2_pos_bounds.
Qed.

(** [m] has at most [d] digits when it is below [2 ^ d]. *)
Lemma Zdigits2_le m d : 0 <= m -> 0 <= d -> m < 2 ^ d -> Zdigits2 m <= d.
Proof.
  intros Hm Hd H. destruct (Z.eq_dec m 0) as [-> | Hn]; [exact Hd |].
  pose proof (Zdigits2_lower m ltac:(lia)) as Hl.
  destruct (Z.le_gt_cases (Zdigits2 m) d) as [Hle | Hgt]; [exact Hle |].
  assert (2 ^ d <= 2 ^ (Zdigits2 m - 1)) by (apply Z.pow_le_mono_r; lia). lia.
Qed.

Lemma Zdigits2_ge m d : 0 <= d -> 2 ^ d <= m -> d + 1 <= Zdigits2 m.
Proof.
  intros Hd H. assert (0 < 2 ^ d) by (apply Z.pow_pos_nonneg; lia).
  pose proof (Zdigits2_upper m ltac:(lia)) as Hu. pose proof (Zdigits2_nonneg m).
  destruct (Z.le_gt_cases (d + 1) (Zdigits2 m)) as [Hle | Hgt]; [exact Hle |].
  assert (2 ^ Zdigits2 m <= 2 ^ d) by (apply Z.pow_le_mono_r; lia). lia.
Qed.

(** ** Shifting right keeps the place *)

Lemma loc_of_shr_record_of_loc m l :
  loc_of_shr_record (shr_record_of_loc m l) = l /\ shr_m (shr_record_of_loc m l) = m.
Proof. destruct l as [| []]; split; reflexivity. Qed.

Lemma shr_1_located V (rs : shr_record) e :
  0 <= shr_m rs ->
  located V (shr_m rs) e (loc_of_shr_record rs) ->
  located V (shr_m (shr_1 rs)) (e + 1) (loc_of_shr_record (shr_1 rs)).
Proof.
  destruct rs as [m r s]. cbn [shr_m]. intros Hm.
  pose proof (bpow_pos e) as Hp. pose proof (bpow_succ e) as Hs.
  destruct m as [| [p | p |] |]; [| | | | lia];
    destruct r, s; cbn [shr_1 shr_m loc_of_shr_record located orb];
    val_norm; rewrite ?Hs; intros H; lra.
Qed.

Lemma iter_shr_1_located V (k : positive) : forall (rs : shr_record) e,
  0 <= shr_m rs ->
  located V (shr_m rs) e (loc_of_shr_record rs) ->
  located V (shr_m (iter_pos shr_1 k rs)) (e + Zpos k)
    (loc_of_shr_record (iter_pos shr_1 k rs)).
Proof.
  induction k as [k IH | k IH |]; intros rs e Hm H; cbn [iter_pos].
  - replace (e + Zpos k~1) with (e + 1 + Zpos k + Zpos k) by lia.
    apply IH; [auto using iter_shr_1_nonneg, shr_1_nonneg |].
    apply IH; [auto using shr_1_nonneg |]. now apply shr_1_located.
  - replace (e + Zpos k~0) with (e + Zpos k + Zpos k) by lia.
    apply IH; [auto using iter_shr_1_nonneg |]. now apply IH.
  - now apply shr_1_located.
Qed.

(** The first step of rounding: the mantissa is cut to the exponent
    [fexp64 (digits + e)], and the number keeps its place. *)
Lemma shr_fexp_located V m e l :
  0 <= m -> located V m e l -> e <= fexp64 (Zdigits2 m + e) ->
  let rs := fst (shr_fexp prec emax m e l) in
  snd (shr_fexp prec emax m e l) = fexp64 (Zdigits2 m + e) /\
  0 <= shr_m rs /\
  located V (shr_m rs) (fexp64 (Zdigits2 m + e)) (loc_of_shr_record rs).
Proof.
  intros Hm H He. unfold shr_fexp. fold (fexp64 (Zdigits2 m + e)).
  set (E := fexp64 (Zdigits2 m + e)) in *.
  destruct (loc_of_shr_record_of_loc m l) as [El Em].
  destruct (E - e) as [| k | k] eqn:Ek; cbn [shr fst snd]; [| | lia].
  - assert (E = e) as -> by lia. rewrite El, Em. auto.
  - replace E with (e + Zpos k) by lia. split; [reflexivity |].
    split; [apply iter_shr_1_nonneg; now rewrite Em |].
    apply iter_shr_1_located; now rewrite ?El, ?Em.
Qed.

(** ** Places *)

Lemma located_lower V m e l : located V m e l -> (val m e <= V)%Q.
Proof.
  pose proof (bpow_pos e). destruct l as [| []]; cbn [located]; val_norm; lra.
Qed.

Lemma located_upper V m e l : located V m e l -> (V < val (m + 1) e)%Q.
Proof.
  pose proof (bpow_pos e). destruct l as [| []]; cbn [located]; val_norm; lra.
Qed.

Lemma located_inexact V m e c : located V m e (loc_Inexact c) -> (val m e < V)%Q.
Proof.
  pose proof (bpow_pos e). destruct c; cbn [located]; val_norm; lra.
Qed.

(** ** Rounding to nearest *)

Lemma round_nearest_even_range m l :
  m <= round_nearest_even m l <= m + 1.
Proof. destruct l as [| []]; simpl; try destruct (Z.even m); lia. Qed.

(** Rounding does not pass a number of the same exponent that the
    number rounded does not pass. *)
Lemma round_nearest_even_below V m e l c :
  located V m e l -> (V <= val c e)%Q -> round_nearest_even m l <= c.
Proof.
  intros H Hc. pose proof (round_nearest_even_range m l) as Hr.
  destruct l as [| d].
  - cbn [located] in H. simpl. apply (val_le_inv _ _ e). lra.
  - apply located_inexact in H.
    assert (m < c) by (apply (val_lt_inv _ _ e); lra). lia.
Qed.

(** ** The exponent function *)

Lemma fexp64_eq x : fexp64 x = Z.max (x - 53) (-1074).
Proof. reflexivity. Qed.

Lemma emin64_eq : emin64 = -1074.
Proof. reflexivity. Qed.

(** ** The mantissa after the first step *)

Section Cut.
Variables (V : Q) (m e : Z) (l : location).
Hypothesis Hm : 0 <= m.
Hypothesis Hl : located V m e l.
Hypothesis He : e <= fexp64 (Zdigits2 m + e).

Let E := fexp64 (Zdigits2 m + e).

Lemma cut_mantissa_upper m1 l1 : located V m1 E l1 -> m1 < 2 ^ 53.
Proof.
  intros H1. apply (val_lt_inv _ _ E).
  apply (Qle_lt_trans _ V); [now apply (located_lower _ _ _ l1) |].
  apply (Qlt_le_trans _ (val (m + 1) e)); [now apply (located_upper _ _ _ l) |].
  apply (Qle_trans _ (val (2 ^ Zdigits2 m) e));
    [apply val_le; pose proof (Zdigits2_upper m Hm); lia |].
  rewrite !val_bpow by (pose proof (Zdigits2_nonneg m); lia).
  apply bpow_le. unfold E. rewrite fexp64_eq. lia.
Qed.

Lemma cut_mantissa_lower m1 l1 :
  located V m1 E l1 -> -1074 < E -> 2 ^ 52 <= m1.
Proof.
  intros H1 HE. unfold E in *. rewrite fexp64_eq in *.
  assert (Hpos : 0 < m).
  { destruct (Z.eq_dec m 0) as [-> | ]; [simpl in *; lia | lia]. }
  assert (2 ^ 52 < m1 + 1); [| lia]. apply (val_lt_inv _ _ (Z.max (Zdigits2 m + e - 53) (-1074))).
  apply (Qle_lt_trans _ V); [| now apply (located_upper _ _ _ l1)].
  apply (Qle_trans _ (val m e)); [| now apply (located_lower _ _ _ l)].
  apply (Qle_trans _ (val (2 ^ (Zdigits2 m - 1)) e));
    [| apply val_le; now apply Zdigits2_lower].
  assert (1 <= Zdigits2 m) by (destruct m; simpl in *; lia).
  rewrite !val_bpow by lia. apply bpow_le. lia.
Qed.

End Cut.

(** ** The second step *)

Lemma shr_fexp_small m E :
  0 <= m < 2 ^ 53 -> -1074 <= E ->
  shr_fexp prec emax m E loc_Exact = ({| shr_m := m; shr_r := false; shr_s := false |}, E).
Proof.
  intros Hm HE. unfold shr_fexp. fold (fexp64 (Zdigits2 m + E)). rewrite fexp64_eq.
  pose proof (Zdigits2_le m 53 ltac:(lia) ltac:(lia) ltac:(lia)).
  destruct (Z.max (Zdigits2 m + E - 53) (-1074) - E) eqn:Ek; try reflexivity; lia.
Qed.

Lemma shr_fexp_carry E :
  -1074 <= E ->
  shr_fexp prec emax (2 ^ 53) E loc_Exact =
  ({| shr_m := 2 ^ 52; shr_r := false; shr_s := false |}, E + 1).
Proof.
  intros HE. unfold shr_fexp. fold (fexp64 (Zdigits2 (2 ^ 53) + E)). rewrite fexp64_eq.
  change (Zdigits2 (2 ^ 53)) with 54.
  replace (Z.max (54 + E - 53) (-1074) - E) with 1 by lia. reflexivity.
Qed.

(** ** The result of rounding a non-negative number *)

Lemma binary_round_aux_rounded V m e l :
  0 <= m -> located V m e l -> e <= fexp64 (Zdigits2 m + e) ->
  let rs := fst (shr_fexp prec emax m e l) in
  binary_round_aux prec emax false m e l =
  rounded (round_nearest_even (shr_m rs) (loc_of_shr_record rs))
          (fexp64 (Zdigits2 m + e)).
Proof.
  intros Hm Hl He rs.
  destruct (shr_fexp_located V m e l Hm Hl He) as (He1 & Hm1 & Hl1). fold rs in Hm1, Hl1.
  unfold binary_round_aux. subst rs.
  destruct (shr_fexp prec emax m e l) as [rs e1]. cbn [fst snd] in *. subst e1.
  set (E := fexp64 (Zdigits2 m + e)) in *.
  set (m2 := round_nearest_even (shr_m rs) (loc_of_shr_record rs)).
  pose proof (round_nearest_even_range (shr_m rs) (loc_of_shr_record rs)) as Hr. fold m2 in Hr.
  pose proof (cut_mantissa_upper V m e l Hm Hl _ _ Hl1) as Hu.
  assert (HE : -1074 <= E) by (unfold E; rewrite fexp64_eq; lia).
  unfold rounded. destruct (Z.eqb_spec m2 0) as [E0 | N0].
  - rewrite E0, shr_fexp_small by lia. reflexivity.
  - destruct (Z.ltb_spec m2 (2 ^ 53)) as [Hlt | Hge].
    + rewrite shr_fexp_small by lia. cbn [shr_m].
      destruct m2 as [| p | p]; [lia | reflexivity | lia].
    + assert (m2 = 2 ^ 53) as -> by lia. rewrite shr_fexp_carry by lia. reflexivity.
Qed.

(** ** Products *)

Lemma val_mul m1 e1 m2 e2 : (val (m1 * m2) (e1 + e2) == val m1 e1 * val m2 e2)%Q.
Proof. unfold val. rewrite inject_Z_mult, bpow_add. ring. Qed.

(** ** Quotients *)

(** What [new_location] says of a remainder [r] of a division by
    [m2]. *)
Lemma new_location_spec m2 r :
  0 <= r < m2 ->
  match new_location m2 r with
  | loc_Exact => r = 0
  | loc_Inexact Lt => 0 < r /\ 2 * r < m2
  | loc_Inexact Eq => 2 * r = m2
  | loc_Inexact Gt => m2 < 2 * r
  end.
Proof.
  intros Hr. unfold new_location, new_location_even, new_location_odd.
  destruct (Z.even m2) eqn:Ev; destruct (Z.eqb_spec r 0) as [-> | Hn]; try reflexivity.
  - destruct (Z.compare_spec (2 * r) m2); lia.
  - assert (Ho : Z.odd m2 = true) by (rewrite <- Z.negb_even, Ev; reflexivity).
    apply Z.odd_spec in Ho. destruct Ho as [k Hk].
    destruct (Z.compare_spec (2 * r + 1) m2); lia.
Qed.

Section Quotient.
Variables (m1 m2 : positive) (e1 e2 : Z).

Let core := SFdiv_core_binary prec emax (Zpos m1) e1 (Zpos m2) e2.
Let q := fst (fst core).
Let e' := snd (fst core).
Let l := snd core.
Let s := e1 - e2 - e'.
Let V := (val (Zpos m1) e1 / val (Zpos m2) e2)%Q.

Lemma core_exponent :
  e' = Z.min (fexp64 (Zdigits2 (Zpos m1) + e1 - (Zdigits2 (Zpos m2) + e2))) (e1 - e2).
Proof.
  unfold e', core, SFdiv_core_binary.
  destruct (Z.div_eucl _ _). reflexivity.
Qed.

Lemma core_shift : 0 <= s.
Proof. unfold s. rewrite core_exponent. lia. Qed.

Lemma core_division :
  exists r, Zpos m1 * 2 ^ s = Zpos m2 * q + r /\ 0 <= r < Zpos m2 /\
            l = new_location (Zpos m2) r.
Proof.
  pose proof core_shift as Hs. unfold s in Hs. rewrite core_exponent in Hs.
  unfold q, l, s. rewrite core_exponent. unfold core, SFdiv_core_binary.
  fold (fexp64 (Zdigits2 (Zpos m1) + e1 - (Zdigits2 (Zpos m2) + e2))).
  set (k := e1 - e2 - Z.min _ _) in *.
  assert (Em : match k with Zpos _ => Z.shiftl (Zpos m1) k | 0 => Zpos m1 | Zneg _ => 0 end
               = Zpos m1 * 2 ^ k).
  { destruct k eqn:Ek; [simpl; lia | now rewrite Z.shiftl_mul_pow2 | lia]. }
  rewrite Em.
  pose proof (Z_div_mod (Zpos m1 * 2 ^ k) (Zpos m2) ltac:(lia)) as Hd.
  destruct (Z.div_eucl (Zpos m1 * 2 ^ k) (Zpos m2)) as [q0 r0]. cbn [fst snd].
  exists r0. tauto.
Qed.

Lemma core_nonneg : 0 <= q.
Proof.
  destruct core_division as (r & Hd & Hr & _). pose proof core_shift.
  assert (0 <= Zpos m1 * 2 ^ s) by (apply Z.mul_nonneg_nonneg; [lia | apply Z.pow_nonneg; lia]).
  nia.
Qed.

(** The quotient of the mantissas is at the place of the quotient of
    the numbers. *)
Lemma core_located : located V q e' l.
Proof.
  destruct core_division as (r & Hd & Hr & ->). pose proof core_shift as Hs.
  pose proof (new_location_spec (Zpos m2) r Hr) as Hl.
  pose proof (bpow_pos e') as Hb. pose proof (bpow_pos e2) as Hb2.
  assert (HM : (0 < inject_Z (Zpos m2))%Q) by (now rewrite <- (Zlt_Qlt 0)).
  assert (HV : (V * inject_Z (Zpos m2) == (inject_Z q * inject_Z (Zpos m2) + inject_Z r) * bpow e')%Q).
  { unfold V, val. replace e1 with (s + (e' + e2)) by (unfold s; lia).
    rewrite !bpow_add, (bpow_Z s Hs).
    rewrite <- inject_Z_mult, <- inject_Z_plus, (Z.mul_comm q), <- Hd, inject_Z_mult.
    field. split; lra. }
  assert (Hr0 : (0 <= inject_Z r)%Q) by (rewrite <- (Zle_Qle 0); lia).
  set (R := inject_Z r) in *. set (M := inject_Z (Zpos m2)) in *.
  set (A := inject_Z q) in *.
  destruct (new_location (Zpos m2) r) as [| []]; cbn [located]; val_norm; fold A.
  - assert (R * bpow e' == 0)%Q by (unfold R; rewrite Hl; change (inject_Z 0) with 0%Q; ring).
    apply (Qmult_inj_r _ _ M); lra.
  - assert (2 * R == M)%Q as E by (unfold R, M; rewrite <- Hl, inject_Z_mult; reflexivity).
    assert (2 * R * bpow e' == M * bpow e')%Q by (now rewrite E).
    apply (Qmult_inj_r _ _ M); lra.
  - destruct Hl as [Hl1 Hl2].
    assert (0 < R)%Q by (unfold R; now rewrite <- (Zlt_Qlt 0)).
    assert (2 * R < M)%Q
      by (unfold R, M; change 2%Q with (inject_Z 2); rewrite <- inject_Z_mult, <- Zlt_Qlt; lia).
    assert (0 < R * bpow e')%Q by (apply Qmult_lt_0_compat; assumption).
    assert (2 * R * bpow e' < M * bpow e')%Q by (apply Qmult_lt_compat_r; assumption).
    split; apply (Qmult_lt_r _ _ M HM); lra.
  - assert (M < 2 * R)%Q
      by (unfold R, M; change 2%Q with (inject_Z 2); rewrite <- inject_Z_mult, <- Zlt_Qlt; lia).
    assert (R < M)%Q by (unfold R, M; rewrite <- Zlt_Qlt; lia).
    assert (M * bpow e' < 2 * R * bpow e')%Q by (apply Qmult_lt_compat_r; assumption).
    assert (R * bpow e' < M * bpow e')%Q by (apply Qmult_lt_compat_r; assumption).
    split; apply (Qmult_lt_r _ _ M HM); lra.
Qed.

(** The quotient of the mantissas is long enough: rounding it shifts
    to the right only. *)
Lemma core_side : e' <= fexp64 (Zdigits2 q + e').
Proof.
  destruct (Z.le_gt_cases e' (-1074)) as [Hle | Hgt]; [rewrite fexp64_eq; lia |].
  destruct core_division as (r & Hd & Hr & _). pose proof core_shift as Hs.
  pose proof core_exponent as He. rewrite fexp64_eq in He.
  pose proof (digits2_pos_bounds m1) as [H1 _]. pose proof (digits2_pos_bounds m2) as [_ H2].
  cbn [Zdigits2] in He.
  set (d1 := Zpos (digits2_pos m1)) in *. set (d2 := Zpos (digits2_pos m2)) in *.
  set (k := d1 - 1 - d2 + s).
  assert (Hk : 52 <= k) by (unfold k, s; lia).
  assert (Hq : 2 ^ k < q + 1).
  { apply (Z.mul_lt_mono_pos_r (Zpos m2)); [lia |].
    apply (Z.lt_le_trans _ (2 ^ k * 2 ^ d2));
      [apply Z.mul_lt_mono_pos_l; [apply Z.pow_pos_nonneg; lia | exact H2] |].
    rewrite <- Z.pow_add_r by (unfold d2; lia).
    replace (k + d2) with (d1 - 1 + s) by (unfold k; lia).
    rewrite Z.pow_add_r by (unfold d1; lia).
    assert (0 < 2 ^ s) by (apply Z.pow_pos_nonneg; lia). nia. }
  pose proof (Zdigits2_ge q k ltac:(lia) ltac:(lia)).
  rewrite fexp64_eq. unfold k, s in *. lia.
Qed.

End Quotient.

(** ** Shifting left *)

Lemma iter_xO p (d : positive) : Zpos (Pos.iter xO p d) = Zpos p * 2 ^ Zpos d.
Proof.
  induction d as [| d IH] using Pos.peano_ind.
  - simpl. lia.
  - rewrite Pos.iter_succ, Pos2Z.inj_xO, IH, Pos2Z.inj_succ, Z.pow_succ_r by lia. ring.
Qed.

Lemma shl_align_spec p e e' :
  e' <= e ->
  snd (shl_align p e e') = e' /\ Zpos (fst (shl_align p e e')) = Zpos p * 2 ^ (e - e').
Proof.
  intros H. unfold shl_align. destruct (e' - e) as [| d | d] eqn:Ed; cbn [fst snd]; [| lia |].
  - assert (e' = e) as -> by lia. rewrite Z.sub_diag. simpl. lia.
  - replace (e - e') with (Zpos d) by lia. split; [reflexivity | apply iter_xO].
Qed.
