(* ===== verification/Nearest.v ===== *)
(** * Nearest: rounding to nearest stays between numbers of the format

    [Rounding] gives the specification [SpecFloat] of the primitive
    operations on doubles a meaning in the rationals.  This file proves
    from it the property of rounding that [src/Code.cpp] relies on
    when [QuadTree::subdivide] computes the midpoint [(min + max) / 2]
    (lines 79-80) and when [main] scales [rand()] into the interval of
    its coordinates (lines 99-100): rounding to nearest is monotone
    and leaves the numbers of the format where they are, so a result
    that lies between two numbers of the format is rounded to a number
    between them.

    - [round_between]: [binary_round_aux], with any sign, on a
      mantissa, an exponent and a place that stand for a number between
      two numbers of the format, returns a number of the format between
      them: neither an infinity nor NaN;
    - [SFadd_between], [SFmul_between], [SFdiv_between]: so do the
      sum and the product of two numbers of the format and the
      quotient of a number of the format by one that is not zero;
    - [binary_normalize_int]: the conversion of an integer below
      [2 ^ 53] in magnitude is exact;
    - [SFleb_val]: on numbers in canonical form the comparison [<=] of
      the specification is the order of the rationals. *)

From Stdlib Require Import ZArith PArith QArith Qpower Lia Lqa Bool Floats Morphisms.
From S2P Require Import Prelude Coord CoordFloat Binary64 Rounding.

#[local] Open Scope Z_scope.

(** ** Definitions *)

(** The number [V] with the sign [s]. *)
Definition sgnQ (s : bool) (V : Q) : Q := if s then (- V)%Q else V.

(** The mantissa and the exponent of a binary64 number: at most 53
    digits, and exactly 53 above the least exponent. *)
Definition canonical (m : positive) (e : Z) : Prop :=
  Zpos m < 2 ^ 53 /\ -1074 <= e <= 971 /\ (-1074 < e -> 2 ^ 52 <= Zpos m).

(** A float that is zero or a number in this form. *)
Definition sf_canonical (x : spec_float) : Prop :=
  match x with
  | S754_zero _ => True
  | S754_finite _ m e => canonical m e
  | _ => False
  end.

(** A number of the format: a mantissa below [2 ^ 53] in magnitude at an
    exponent of the format, in canonical form or not. *)
Definition representable (q : Q) : Prop :=
  exists m e, - 2 ^ 53 < m < 2 ^ 53 /\ -1074 <= e <= 971 /\ (q == val m e)%Q.

(** [x] is a number of the format between [lo] and [hi]. *)
Definition sf_between (x : spec_float) (lo hi : Q) : Prop :=
  sf_canonical x /\ (lo <= sf_val x)%Q /\ (sf_val x <= hi)%Q.

(** The float [x] with the sign [s]. *)
Definition set_sign (s : bool) (x : spec_float) : spec_float :=
  match x with
  | S754_zero _ => S754_zero s
  | S754_infinity _ => S754_infinity s
  | S754_finite _ m e => S754_finite s m e
  | S754_nan => S754_nan
  end.

(** ** Values *)

#[export] Instance sgnQ_proper : Proper (eq ==> Qeq ==> Qeq) sgnQ.
Proof. intros s ? <- a b H. destruct s; cbn [sgnQ]; now rewrite H. Qed.

Lemma val_lt m m' e : m < m' -> (val m e < val m' e)%Q.
Proof.
  intros H. assert (m + 1 <= m') as H1 by lia. apply (val_le _ _ e) in H1.
  revert H1. val_norm. pose proof (bpow_pos e). lra.
Qed.

Lemma val_0 e : (val 0 e == 0)%Q.
Proof. unfold val. change (inject_Z 0) with 0%Q. ring. Qed.

Lemma val_opp m e : (val (- m) e == - val m e)%Q.
Proof. unfold val. rewrite inject_Z_opp. ring. Qed.

(** A number below [2 ^ 53] steps of [2 ^ ec], seen at a lower exponent. *)
Lemma val_at c ec E : E <= ec -> (val (c * 2 ^ (ec - E)) E == val c ec)%Q.
Proof. intros H. rewrite val_shift by lia. now replace (E + (ec - E)) with ec by lia. Qed.

Section Nearest.
Variables (V : Q) (m e : Z) (l : location).
Hypothesis Hm : 0 <= m.
Hypothesis Hl : located V m e l.
Hypothesis He : e <= fexp64 (Zdigits2 m + e).

Let E := fexp64 (Zdigits2 m + e).
Let rs := fst (shr_fexp prec emax m e l).
Let m2 := round_nearest_even (shr_m rs) (loc_of_shr_record rs).

Lemma nearest_facts :
  located V (shr_m rs) E (loc_of_shr_record rs) /\
  -1074 <= E /\ shr_m rs <= m2 <= shr_m rs + 1 /\ 0 <= shr_m rs < 2 ^ 53 /\
  (-1074 < E -> 2 ^ 52 <= shr_m rs).
Proof.
  destruct (shr_fexp_located V m e l Hm Hl He) as (_ & Hm1 & Hl1).
  fold rs in Hm1, Hl1. fold E in Hl1.
  pose proof (cut_mantissa_upper V m e l Hm Hl _ _ Hl1).
  pose proof (cut_mantissa_lower V m e l Hm Hl He _ _ Hl1).
  repeat split; try assumption; try apply round_nearest_even_range; try lia.
  unfold E. rewrite fexp64_eq. lia.
Qed.

(** A number of the format above the exact result has an exponent at
    least that of the result. *)
Lemma nearest_exponent c ec :
  c < 2 ^ 53 -> -1074 <= ec -> (V <= val c ec)%Q -> E <= ec.
Proof.
  intros Hc Hec HV. destruct nearest_facts as (Hl1 & HE & Hr & Hu & Hlow).
  destruct (Z.le_gt_cases E ec) as [Hle | Hgt]; [exact Hle | exfalso].
  apply located_lower in Hl1.
  assert (H1 : (val (2 ^ 52) E <= val (shr_m rs) E)%Q) by (apply val_le; lia).
  assert (H2 : (val c ec < val (2 ^ 53) ec)%Q) by now apply val_lt.
  rewrite val_bpow in H1, H2 by lia.
  assert (bpow (53 + ec) <= bpow (52 + E))%Q by (apply bpow_le; lia). lra.
Qed.

Lemma nearest_upper c ec :
  c < 2 ^ 53 -> -1074 <= ec -> (V <= val c ec)%Q ->
  (val m2 E <= val c ec)%Q /\ (m2 < 2 ^ 53 /\ E <= ec \/ m2 = 2 ^ 53 /\ E < ec).
Proof.
  intros Hc Hec HV. pose proof (nearest_exponent c ec Hc Hec HV) as HE.
  destruct nearest_facts as (Hl1 & _ & Hr & Hu & _).
  assert (Hb : m2 <= c * 2 ^ (ec - E)).
  { apply (round_nearest_even_below V _ E); [exact Hl1 | now rewrite val_at]. }
  split; [rewrite <- (val_at c ec E HE); now apply val_le |].
  destruct (Z.eq_dec m2 (2 ^ 53)) as [Eq | Ne]; [right | left; lia].
  split; [exact Eq |]. destruct (Z.eq_dec E ec) as [-> | ]; [| lia].
  rewrite Z.sub_diag in Hb. simpl in Hb. lia.
Qed.

Lemma nearest_lower c ec :
  c < 2 ^ 53 -> -1074 <= ec -> (val c ec <= V)%Q -> (val c ec <= val m2 E)%Q.
Proof.
  intros Hc Hec HV. destruct nearest_facts as (Hl1 & HE0 & Hr & Hu & Hlow).
  destruct (Z.le_gt_cases E ec) as [Hle | Hgt].
  - rewrite <- (val_at c ec E Hle). apply val_le.
    apply located_upper in Hl1. rewrite <- (val_at c ec E Hle) in HV.
    assert (c * 2 ^ (ec - E) < shr_m rs + 1) by (apply (val_lt_inv _ _ E); lra). lia.
  - assert (H1 : (val (2 ^ 52) E <= val m2 E)%Q) by (apply val_le; lia).
    assert (H2 : (val c ec < val (2 ^ 53) ec)%Q) by now apply val_lt.
    rewrite val_bpow in H1, H2 by lia.
    assert (bpow (53 + ec) <= bpow (52 + E))%Q by (apply bpow_le; lia). lra.
Qed.

End Nearest.

(** ** The float that rounding returns *)

Lemma binary_round_aux_sign s m e l :
  binary_round_aux prec emax s m e l = set_sign s (binary_round_aux prec emax false m e l).
Proof.
  unfold binary_round_aux. destruct (shr_fexp prec emax m e l) as [rs1 e1].
  destruct (shr_fexp prec emax _ e1 loc_Exact) as [rs2 e2].
  destruct (shr_m rs2); [reflexivity | | reflexivity].
  now destruct (e2 <=? emax - prec).
Qed.

Lemma rounded_value s m2 E :
  0 <= m2 -> -1074 <= E -> (-1074 < E -> 2 ^ 52 <= m2) ->
  m2 < 2 ^ 53 /\ E <= 971 \/ m2 = 2 ^ 53 /\ E < 971 ->
  sf_canonical (set_sign s (rounded m2 E)) /\
  (sf_val (set_sign s (rounded m2 E)) == sgnQ s (val m2 E))%Q.
Proof.
  intros H0 HE Hn Hr. unfold rounded. change (emax - prec) with 971.
  destruct (Z.eqb_spec m2 0) as [-> | N0].
  - split; [exact I |]. destruct s; cbn [set_sign sf_val sgnQ]; unfold val; simpl; ring.
  - destruct (Z.ltb_spec m2 (2 ^ 53)) as [Hlt | Hge].
    + rewrite (proj2 (Z.leb_le E 971)) by lia. cbn [set_sign sf_canonical].
      split; [unfold canonical; rewrite Z2Pos.id by lia; lia |].
      destruct s; cbn [sf_val sgnQ]; rewrite Z2Pos.id by lia; reflexivity.
    + assert (m2 = 2 ^ 53) as -> by lia.
      rewrite (proj2 (Z.leb_le (E + 1) 971)) by lia. cbn [set_sign sf_canonical].
      split; [unfold canonical; rewrite Z2Pos.id by lia; lia |].
      assert (Hv : (val (2 ^ 52) (E + 1) == val (2 ^ 53) E)%Q).
      { rewrite <- (val_shift (2 ^ 52) E 1) by lia. reflexivity. }
      destruct s; cbn [sf_val sgnQ]; rewrite Z2Pos.id, Hv by lia; reflexivity.
Qed.

Lemma representable_opp q : representable q -> representable (- q).
Proof.
  intros (c & ec & Hc & Hec & Hq). exists (- c), ec.
  repeat split; try lia. now rewrite val_opp, Hq.
Qed.

(** The result of rounding has the sign given and a magnitude between
    the numbers of the format that the exact magnitude lies between. *)
Lemma round_magnitude s V m e l lo hi :
  0 <= m -> located V m e l -> e <= fexp64 (Zdigits2 m + e) ->
  representable lo -> representable hi -> (lo <= V)%Q -> (V <= hi)%Q ->
  sf_canonical (binary_round_aux prec emax s m e l) /\
  exists r, (sf_val (binary_round_aux prec emax s m e l) == sgnQ s r)%Q /\
            (lo <= r)%Q /\ (r <= hi)%Q.
Proof.
  intros Hm Hl He (cl & el & Hcl & Hel & Hlo) (ch & eh & Hch & Heh & Hhi) H1 H2.
  rewrite binary_round_aux_sign, (binary_round_aux_rounded V m e l Hm Hl He).
  destruct (nearest_facts V m e l Hm Hl He) as (_ & HE & Hr & Hu & Hlow).
  rewrite Hhi in H2. rewrite Hlo in H1.
  destruct (nearest_upper V m e l Hm Hl He ch eh) as [Hup Hfin]; [lia | lia | exact H2 |].
  pose proof (nearest_lower V m e l Hm Hl He cl el ltac:(lia) ltac:(lia) H1) as Hdn.
  destruct (rounded_value s (round_nearest_even (shr_m (fst (shr_fexp prec emax m e l)))
                                (loc_of_shr_record (fst (shr_fexp prec emax m e l))))
              (fexp64 (Zdigits2 m + e))) as [Hc Hv]; [lia | lia | lia | lia |].
  split; [exact Hc |]. eexists. split; [exact Hv |]. rewrite Hlo, Hhi. now split.
Qed.

(** Rounding to nearest stays between the numbers of the format that
    the exact result lies between. *)
Lemma round_between s V m e l lo hi :
  0 <= m -> located V m e l -> e <= fexp64 (Zdigits2 m + e) ->
  representable lo -> representable hi ->
  (lo <= sgnQ s V)%Q -> (sgnQ s V <= hi)%Q ->
  sf_between (binary_round_aux prec emax s m e l) lo hi.
Proof.
  intros Hm Hl He Hlo Hhi H1 H2. unfold sf_between. destruct s; cbn [sgnQ] in *.
  - destruct (round_magnitude true V m e l (- hi) (- lo) Hm Hl He) as (Hc & r & Hv & Hr1 & Hr2);
      auto using representable_opp; try lra.
    cbn [sgnQ] in Hv. split; [exact Hc |]. rewrite Hv. split; lra.
  - destruct (round_magnitude false V m e l lo hi Hm Hl He) as (Hc & r & Hv & Hr1 & Hr2);
      auto.
    cbn [sgnQ] in Hv. split; [exact Hc |]. rewrite Hv. split; lra.
Qed.

(** ** Rounding after a shift to the left *)

Lemma Zdigits2_shift p k : 0 <= k -> Zdigits2 (Zpos p * 2 ^ k) = Zdigits2 (Zpos p) + k.
Proof.
  intros Hk. pose proof (digits2_pos_bounds p) as [Hl Hu]. cbn [Zdigits2].
  set (d := Zpos (digits2_pos p)) in *.
  assert (Hp : 0 < 2 ^ k) by (apply Z.pow_pos_nonneg; lia).
  assert (H1 : 2 ^ (d + k - 1) <= Zpos p * 2 ^ k).
  { replace (d + k - 1) with (d - 1 + k) by lia. rewrite Z.pow_add_r by (unfold d; lia). nia. }
  assert (H2 : Zpos p * 2 ^ k < 2 ^ (d + k)) by (rewrite Z.pow_add_r by (unfold d; lia); nia).
  assert (Hd : 1 <= d) by (unfold d; lia).
  pose proof (Zdigits2_ge (Zpos p * 2 ^ k) (d + k - 1) ltac:(lia) H1).
  pose proof (Zdigits2_le (Zpos p * 2 ^ k) (d + k) ltac:(lia) ltac:(lia) H2). lia.
Qed.

Lemma shl_align_id p e e' : e <= e' -> shl_align p e e' = (p, e).
Proof. intros H. unfold shl_align. destruct (e' - e) eqn:E; try reflexivity; lia. Qed.

(** The mantissa that [binary_round] hands to rounding is long enough,
    and has the value given. *)
Lemma shl_align_fexp_spec p e :
  let mz := fst (shl_align p e (fexp64 (Zpos (digits2_pos p) + e))) in
  let ez := snd (shl_align p e (fexp64 (Zpos (digits2_pos p) + e))) in
  (val (Zpos mz) ez == val (Zpos p) e)%Q /\ ez <= fexp64 (Zdigits2 (Zpos mz) + ez).
Proof.
  set (fe := fexp64 (Zpos (digits2_pos p) + e)).
  destruct (Z.le_gt_cases e fe) as [Hle | Hgt].
  - rewrite (shl_align_id p e fe Hle). cbn [fst snd]. split; [reflexivity | exact Hle].
  - destruct (shl_align_spec p e fe ltac:(lia)) as [Ee Em].
    destruct (shl_align p e fe) as [mz ez]. cbn [fst snd] in *. subst ez.
    split.
    + rewrite Em, val_shift by lia. now replace (fe + (e - fe)) with e by lia.
    + rewrite Em, Zdigits2_shift by lia. cbn [Zdigits2].
      replace (Zpos (digits2_pos p) + (e - fe) + fe) with (Zpos (digits2_pos p) + e) by lia.
      apply Z.le_refl.
Qed.

Lemma binary_round_between s p e lo hi :
  representable lo -> representable hi ->
  (lo <= sgnQ s (val (Zpos p) e))%Q -> (sgnQ s (val (Zpos p) e) <= hi)%Q ->
  sf_between (binary_round prec emax s p e) lo hi.
Proof.
  intros Hlo Hhi H1 H2. unfold binary_round.
  destruct (shl_align_fexp_spec p e) as [Hv Hs]. fold fexp64.
  destruct (shl_align p e _) as [mz ez]. cbn [fst snd] in *.
  apply (round_between s (val (Zpos p) e)); auto; [lia | cbn [located]; now symmetry].
Qed.

Lemma binary_normalize_between m e lo hi :
  representable lo -> representable hi ->
  (lo <= val m e)%Q -> (val m e <= hi)%Q ->
  sf_between (binary_normalize prec emax m e false) lo hi.
Proof.
  intros Hlo Hhi H1 H2. destruct m as [| p | p]; cbn [binary_normalize].
  - rewrite val_0 in H1, H2. now split.
  - now apply binary_round_between.
  - apply binary_round_between; auto; cbn [sgnQ];
      rewrite <- val_opp; exact H1 || exact H2.
Qed.

(** ** Sums, products and quotients *)

Lemma val_pos p e : (0 < val (Zpos p) e)%Q.
Proof. rewrite <- (val_0 e). now apply val_lt. Qed.

Lemma val_add m m' e : (val (m + m') e == val m e + val m' e)%Q.
Proof. unfold val. rewrite inject_Z_plus. ring. Qed.

Lemma sf_val_finite s m e :
  (sf_val (S754_finite s m e) == val (cond_Zopp s (Zpos m)) e)%Q.
Proof. destruct s; cbn [sf_val cond_Zopp]; [now rewrite <- val_opp | reflexivity]. Qed.

Lemma shl_align_val p e e' :
  e' <= e -> (val (Zpos (fst (shl_align p e e'))) e' == val (Zpos p) e)%Q.
Proof.
  intros H. destruct (shl_align_spec p e e' H) as [_ Em].
  rewrite Em, val_shift by lia. now replace (e' + (e - e')) with e by lia.
Qed.

Lemma cond_Zopp_val s m e : (val (cond_Zopp s m) e == sgnQ s (val m e))%Q.
Proof. destruct s; cbn [cond_Zopp sgnQ]; [apply val_opp | reflexivity]. Qed.

Lemma sf_val_sign s m e : (sf_val (S754_finite s m e) == sgnQ s (val (Zpos m) e))%Q.
Proof. now destruct s. Qed.

Lemma sgnQ_xorb s s' a b : (sgnQ (xorb s s') (a * b) == sgnQ s a * sgnQ s' b)%Q.
Proof. destruct s, s'; cbn [xorb sgnQ]; ring. Qed.

Lemma sgnQ_xorb_div s s' a b :
  ~ (b == 0)%Q -> (sgnQ (xorb s s') (a / b) == sgnQ s a / sgnQ s' b)%Q.
Proof. intros H. destruct s, s'; cbn [xorb sgnQ]; field; lra. Qed.

(** The sum of two numbers of the format lies between the numbers of
    the format that the exact sum lies between. *)
Lemma SFadd_between x y lo hi :
  sf_canonical x -> sf_canonical y -> representable lo -> representable hi ->
  (lo <= sf_val x + sf_val y)%Q -> (sf_val x + sf_val y <= hi)%Q ->
  sf_between (SF64add x y) lo hi.
Proof.
  intros Hx Hy Hlo Hhi H1 H2.
  destruct x as [sx | sx | | sx mx ex]; try contradiction;
    destruct y as [sy | sy | | sy my ey]; try contradiction; cbn [SF64add SFadd].
  - assert (E : sf_val (if Bool.eqb sx sy then S754_zero sx else S754_zero false) = 0%Q)
      by now destruct (Bool.eqb sx sy).
    cbn [sf_val] in H1, H2.
    replace (match sx with true => _ | false => _ end)
      with (if Bool.eqb sx sy then S754_zero sx else S754_zero false)
      by now destruct sx, sy.
    unfold sf_between. rewrite E.
    split; [now destruct (Bool.eqb sx sy) | split; lra].
  - unfold sf_between. cbn [sf_val] in H1, H2 |- *. 
    split; [exact Hy | split; destruct sy; lra].
  - unfold sf_between. cbn [sf_val] in H1, H2 |- *.
    split; [exact Hx | split; destruct sx; lra].
  - cbv zeta. apply binary_normalize_between; auto.
    + rewrite val_add, !cond_Zopp_val, !shl_align_val by lia.
      rewrite !sf_val_finite, !cond_Zopp_val in H1. exact H1.
    + rewrite val_add, !cond_Zopp_val, !shl_align_val by lia.
      rewrite !sf_val_finite, !cond_Zopp_val in H2. exact H2.
Qed.

(** The product of two mantissas in canonical form is long enough:
    rounding it shifts to the right only. *)
Lemma product_side m1 e1 m2 e2 :
  canonical m1 e1 -> canonical m2 e2 ->
  e1 + e2 <= fexp64 (Zdigits2 (Zpos (m1 * m2)) + (e1 + e2)).
Proof.
  intros (U1 & E1 & N1) (U2 & E2 & N2). rewrite fexp64_eq.
  destruct (Z.le_gt_cases (e1 + e2) (-1074)) as [Hle | Hgt]; [lia |].
  assert (2 ^ 52 <= Zpos (m1 * m2)).
  { rewrite Pos2Z.inj_mul.
    destruct (Z.eq_dec e1 (-1074)), (Z.eq_dec e2 (-1074)); try lia; nia. }
  pose proof (Zdigits2_ge (Zpos (m1 * m2)) 52 ltac:(lia) ltac:(assumption)). lia.
Qed.

(** The product of two numbers of the format lies between the numbers
    of the format that the exact product lies between. *)
Lemma SFmul_between x y lo hi :
  sf_canonical x -> sf_canonical y -> representable lo -> representable hi ->
  (lo <= sf_val x * sf_val y)%Q -> (sf_val x * sf_val y <= hi)%Q ->
  sf_between (SF64mul x y) lo hi.
Proof.
  intros Hx Hy Hlo Hhi H1 H2.
  destruct x as [sx | sx | | sx mx ex]; try contradiction;
    destruct y as [sy | sy | | sy my ey]; try contradiction; cbn [SF64mul SFmul].
  1-3: cbn [sf_val] in H1, H2; unfold sf_between; cbn [sf_canonical sf_val];
       split; [exact I | split; lra].
  rewrite !sf_val_sign, <- sgnQ_xorb, <- val_mul, <- Pos2Z.inj_mul in H1, H2.
  apply (round_between _ (val (Zpos (mx * my)) (ex + ey))); auto using product_side;
    [lia | reflexivity].
Qed.

(** The quotient of a number of the format by one that is not zero lies
    between the numbers of the format that the exact quotient lies
    between. *)
Lemma SFdiv_between x sy my ey lo hi :
  sf_canonical x -> representable lo -> representable hi ->
  (lo <= sf_val x / sf_val (S754_finite sy my ey))%Q ->
  (sf_val x / sf_val (S754_finite sy my ey) <= hi)%Q ->
  sf_between (SF64div x (S754_finite sy my ey)) lo hi.
Proof.
  intros Hx Hlo Hhi H1 H2. pose proof (val_pos my ey) as Hd.
  assert (Hy : ~ (sf_val (S754_finite sy my ey) == 0)%Q) by (destruct sy; cbn [sf_val]; lra).
  destruct x as [sx | sx | | sx mx ex]; try contradiction; cbn [SF64div SFdiv].
  - unfold sf_between. cbn [sf_canonical]. 
    assert (E : (sf_val (S754_zero sx) / sf_val (S754_finite sy my ey) == 0)%Q)
      by (cbn [sf_val]; field; exact Hy).
    rewrite E in H1, H2. now repeat split.
  - pose proof (core_located mx my ex ey) as Hl. pose proof (core_side mx my ex ey) as Hs.
    pose proof (core_nonneg mx my ex ey) as Hq. cbv zeta in Hl, Hs, Hq.
    destruct (SFdiv_core_binary prec emax (Zpos mx) ex (Zpos my) ey) as [[q e'] l].
    cbn [fst snd] in *.
    rewrite !sf_val_sign, <- sgnQ_xorb_div in H1, H2 by lra.
    now apply (round_between _ _ q e' l lo hi Hq Hl Hs Hlo Hhi).
Qed.

(** ** Integers *)

Lemma val_Z z : (val z 0 == inject_Z z)%Q.
Proof. unfold val. change (bpow 0) with 1%Q. ring. Qed.

Lemma representable_Z z : - 2 ^ 53 < z < 2 ^ 53 -> representable (inject_Z z).
Proof. intros H. exists z, 0. repeat split; try lia. symmetry. apply val_Z. Qed.

(** An integer below [2 ^ 53] in magnitude is a number of the format:
    its conversion is exact. *)
Lemma binary_normalize_int z :
  - 2 ^ 53 < z < 2 ^ 53 ->
  sf_between (binary_normalize prec emax z 0 false) (inject_Z z) (inject_Z z).
Proof.
  intros H. apply binary_normalize_between; auto using representable_Z;
    rewrite val_Z; apply Qle_refl.
Qed.

(** ** Comparisons *)

(** Numbers in canonical form are ordered by exponent, then by
    mantissa. *)
Lemma canonical_lex m1 e1 m2 e2 :
  canonical m1 e1 -> canonical m2 e2 ->
  ((val (Zpos m1) e1 <= val (Zpos m2) e2)%Q <->
   e1 < e2 \/ (e1 = e2 /\ Zpos m1 <= Zpos m2)).
Proof.
  intros (U1 & E1 & N1) (U2 & E2 & N2).
  assert (Hfar : forall ma ea mb eb, Zpos ma < 2 ^ 53 -> (-1074 < eb -> 2 ^ 52 <= Zpos mb) ->
            -1074 <= ea < eb -> (val (Zpos ma) ea < val (Zpos mb) eb)%Q).
  { intros ma ea mb eb Ua Nb Hab.
    apply (Qlt_le_trans _ (val (2 ^ 53) ea)); [now apply val_lt |].
    apply (Qle_trans _ (val (2 ^ 52) eb)); [| apply val_le; lia].
    rewrite !val_bpow by lia. apply bpow_le. lia. }
  split.
  - intros H. destruct (Z.lt_trichotomy e1 e2) as [Hlt | [-> | Hgt]]; [now left | |].
    + right. split; [reflexivity | now apply (val_le_inv _ _ e2)].
    + pose proof (Hfar m2 e2 m1 e1 U2 N1 ltac:(lia)). lra.
  - intros [Hlt | [-> Hle]]; [| now apply val_le].
    apply Qlt_le_weak, Hfar; auto; lia.
Qed.

Lemma SFleb_val x y :
  sf_canonical x -> sf_canonical y ->
  (SFleb x y = true <-> (sf_val x <= sf_val y)%Q).
Proof.
  intros Hx Hy.
  destruct x as [sx | sx | | sx mx ex]; try contradiction;
    destruct y as [sy | sy | | sy my ey]; try contradiction;
    cbn [sf_canonical] in *; unfold SFleb, SFcompare.
  - cbn [sf_val]. split; [lra | reflexivity].
  - pose proof (val_pos my ey). destruct sy; cbn [sf_val]; split; try discriminate; try reflexivity; lra.
  - pose proof (val_pos mx ex). destruct sx; cbn [sf_val]; split; try discriminate; try reflexivity; lra.
  - pose proof (val_pos mx ex). pose proof (val_pos my ey).
    pose proof (canonical_lex mx ex my ey Hx Hy) as H1.
    pose proof (canonical_lex my ey mx ex Hy Hx) as H2.
    destruct sx, sy; cbn [sf_val]; try (split; try discriminate; try reflexivity; lra).
    + change (Pos.compare_cont Eq mx my) with (Pos.compare mx my).
      destruct (Z.compare_spec ex ey); [destruct (Pos.compare_spec mx my) |..];
        cbn [CompOpp]; split; intros H'; try reflexivity; try discriminate;
        try (assert (val (Zpos my) ey <= val (Zpos mx) ex)%Q by (apply H2; lia); lra);
        try (assert (val (Zpos my) ey <= val (Zpos mx) ex)%Q as Hq by lra; apply H2 in Hq; lia).
    + change (Pos.compare_cont Eq mx my) with (Pos.compare mx my).
      destruct (Z.compare_spec ex ey); [destruct (Pos.compare_spec mx my) |..];
        split; intros H'; try reflexivity; try discriminate;
        try (apply H1; lia); try (apply H1 in H'; lia).
Qed.
