(* ===== verification/QuadTree.v ===== *)
(** * QuadTree: the tree and its operations

    The class [QuadTree] of [src/Code.cpp] (lines 29-86).  A node is a
    record of its boundary, its capacity, its buffer and four child
    pointers; a null pointer is [None].  The type allows a node with
    some children null and others not, as the C++ class does: that the
    operations never build one is a theorem ([Invariant]), and what the
    code does on one (it dereferences a null pointer) is the outcome
    [NullDeref].

    The mutating methods return the node after the call.  [insert] has
    no bound on its recursion depth in the source and takes a fuel here;
    [queryRange] recurses on the structure of the tree. *)

From Stdlib Require Import ZArith Bool List Lia.
From S2P Require Import Prelude Coord Geometry.
Import ListNotations.

#[local] Open Scope outcome_scope.

Section QuadTree.
Context {C : Coord}.

(** ** The node (lines 30-36) *)

#[local] Unset Elimination Schemes.

Inductive QuadTree : Type := mkQuadTree {
  boundary : BoundingBox;
  capacity : Z;
  points : list Point;
  nw : option QuadTree;
  ne : option QuadTree;
  sw : option QuadTree;
  se : option QuadTree
}.

#[local] Set Elimination Schemes.

(** The constructor (line 36): an empty leaf. *)
Definition QuadTree_new (boundary : BoundingBox) (capacity : Z) : QuadTree :=
  mkQuadTree boundary capacity [] None None None None.

(** ** The four child pointers, by name *)

Inductive Quadrant : Type := NW | NE | SW | SE.

Definition child (q : Quadrant) (t : QuadTree) : option QuadTree :=
  match q with
  | NW => nw t
  | NE => ne t
  | SW => sw t
  | SE => se t
  end.

(** The node after the child [q] has changed to [c]. *)
Definition set_child (q : Quadrant) (t : QuadTree) (c : QuadTree) : QuadTree :=
  match q with
  | NW => mkQuadTree (boundary t) (capacity t) (points t) (Some c) (ne t) (sw t) (se t)
  | NE => mkQuadTree (boundary t) (capacity t) (points t) (nw t) (Some c) (sw t) (se t)
  | SW => mkQuadTree (boundary t) (capacity t) (points t) (nw t) (ne t) (Some c) (se t)
  | SE => mkQuadTree (boundary t) (capacity t) (points t) (nw t) (ne t) (sw t) (Some c)
  end.

(** The box [subdivide] gives the child [q]. *)
Definition quadrant (q : Quadrant) (b : BoundingBox) : BoundingBox :=
  match q with
  | NW => quadrant_nw b
  | NE => quadrant_ne b
  | SW => quadrant_sw b
  | SE => quadrant_se b
  end.

(** The order in which [insert] and [queryRange] visit the children. *)
Definition quadrants : list Quadrant := [NW; NE; SW; SE].

(** ** subdivide (lines 78-85) *)

Definition subdivide (t : QuadTree) : QuadTree :=
  mkQuadTree (boundary t) (capacity t) (points t)
    (Some (QuadTree_new (quadrant_nw (boundary t)) (capacity t)))
    (Some (QuadTree_new (quadrant_ne (boundary t)) (capacity t)))
    (Some (QuadTree_new (quadrant_sw (boundary t)) (capacity t)))
    (Some (QuadTree_new (quadrant_se (boundary t)) (capacity t))).

(** ** insert (lines 43-59) *)

(** [points.push_back(p)] (line 48). *)
Definition push_back (t : QuadTree) (p : Point) : QuadTree :=
  mkQuadTree (boundary t) (capacity t) (points t ++ [p])
    (nw t) (ne t) (sw t) (se t).

(** Lines 54-58: [if (q->insert(p)) return true;] for each child [q] of
    [qs] in turn, then [return false].  [ins] is the recursive call. *)
Fixpoint try_children (ins : QuadTree -> outcome (bool * QuadTree))
    (qs : list Quadrant) (t : QuadTree) : outcome (bool * QuadTree) :=
  match qs with
  | [] => Ok (false, t)
  | q :: qs' =>
      c <- deref (child q t) ;;
      '(r, c') <- ins c ;;
      let t' := set_child q t c' in
      if r : bool then Ok (true, t') else try_children ins qs' t'
  end.

(** Lines 51-53: [if (nw == nullptr) subdivide();]. *)
Definition ensure_children (t : QuadTree) : QuadTree :=
  if is_null (nw t) then subdivide t else t.

Fixpoint insert (fuel : nat) (t : QuadTree) (p : Point) : outcome (bool * QuadTree) :=
  match fuel with
  | O => OutOfFuel
  | S fuel' =>
      if negb (contains (boundary t) p) then Ok (false, t)
      else if size_lt (length (points t)) (capacity t) then Ok (true, push_back t p)
      else try_children (fun c => insert fuel' c p) quadrants (ensure_children t)
  end.

(** ** queryRange (lines 60-76) *)

(** [c->queryRange(range, results)] through the pointer [c]. *)
Definition query_child (query : QuadTree -> list Point -> outcome (list Point))
    (c : option QuadTree) (results : list Point) : outcome (list Point) :=
  match c with
  | None => NullDeref
  | Some c' => query c' results
  end.

Fixpoint queryRange (t : QuadTree) (range : BoundingBox) (results : list Point)
    : outcome (list Point) :=
  if negb (intersects (boundary t) range) then Ok results
  else
    let results := push_filter (contains range) (points t) results in
    match nw t with
    | None => Ok results
    | Some c =>
        results <- queryRange c range results ;;
        results <- query_child (fun c' => queryRange c' range) (ne t) results ;;
        results <- query_child (fun c' => queryRange c' range) (sw t) results ;;
        query_child (fun c' => queryRange c' range) (se t) results
    end.

(** ** Observations of a tree *)

(** The points stored in the subtree, in the order a query visits them. *)
Fixpoint all_points (t : QuadTree) : list Point :=
  points t ++ opt_list all_points (nw t) ++ opt_list all_points (ne t) ++
  opt_list all_points (sw t) ++ opt_list all_points (se t).

(** The number of nodes on the longest path from the node to a leaf. *)
Fixpoint height (t : QuadTree) : nat :=
  S (Nat.max (Nat.max (opt_nat height (nw t)) (opt_nat height (ne t)))
             (Nat.max (opt_nat height (sw t)) (opt_nat height (se t)))).

(** The number of nodes of the subtree. *)
Fixpoint node_count (t : QuadTree) : nat :=
  S (opt_nat node_count (nw t) + opt_nat node_count (ne t) +
     opt_nat node_count (sw t) + opt_nat node_count (se t)).

(** ** Induction on trees *)

Section Induction.
Variable P : QuadTree -> Prop.
Hypothesis step : forall t,
  opt_all P (nw t) -> opt_all P (ne t) -> opt_all P (sw t) -> opt_all P (se t) ->
  P t.

Fixpoint QuadTree_ind (t : QuadTree) : P t :=
  step t
    (match nw t as o return opt_all P o with Some c => QuadTree_ind c | None => I end)
    (match ne t as o return opt_all P o with Some c => QuadTree_ind c | None => I end)
    (match sw t as o return opt_all P o with Some c => QuadTree_ind c | None => I end)
    (match se t as o return opt_all P o with Some c => QuadTree_ind c | None => I end).

End Induction.

(** Induction with the hypothesis on the children by name. *)
Lemma QuadTree_child_ind (P : QuadTree -> Prop) :
  (forall t, (forall q c, child q t = Some c -> P c) -> P t) -> forall t, P t.
Proof.
  intros H t. induction t as [t Hw He Hs Hz] using QuadTree_ind. apply H.
  intros [] c Hc; simpl in Hc;
    [rewrite Hc in Hw | rewrite Hc in He | rewrite Hc in Hs | rewrite Hc in Hz];
    assumption.
Qed.

(** ** Equations of the operations *)

Lemma insert_S (fuel : nat) (t : QuadTree) (p : Point) :
  insert (S fuel) t p =
  if negb (contains (boundary t) p) then Ok (false, t)
  else if size_lt (length (points t)) (capacity t) then Ok (true, push_back t p)
  else try_children (fun c => insert fuel c p) quadrants (ensure_children t).
Proof. reflexivity. Qed.

Lemma queryRange_eq (t : QuadTree) (range : BoundingBox) (results : list Point) :
  queryRange t range results =
  if negb (intersects (boundary t) range) then Ok results
  else
    let results := push_filter (contains range) (points t) results in
    match nw t with
    | None => Ok results
    | Some c =>
        results <- queryRange c range results ;;
        results <- query_child (fun c' => queryRange c' range) (ne t) results ;;
        results <- query_child (fun c' => queryRange c' range) (sw t) results ;;
        query_child (fun c' => queryRange c' range) (se t) results
    end.
Proof. destruct t; reflexivity. Qed.

Lemma all_points_eq (t : QuadTree) :
  all_points t =
  points t ++ opt_list all_points (nw t) ++ opt_list all_points (ne t) ++
  opt_list all_points (sw t) ++ opt_list all_points (se t).
Proof. destruct t; reflexivity. Qed.

Lemma height_eq (t : QuadTree) :
  height t =
  S (Nat.max (Nat.max (opt_nat height (nw t)) (opt_nat height (ne t)))
             (Nat.max (opt_nat height (sw t)) (opt_nat height (se t)))).
Proof. destruct t; reflexivity. Qed.

(** ** The fields after an update *)

Lemma boundary_set_child q t c : boundary (set_child q t c) = boundary t.
Proof. destruct q; reflexivity. Qed.

Lemma capacity_set_child q t c : capacity (set_child q t c) = capacity t.
Proof. destruct q; reflexivity. Qed.

Lemma points_set_child q t c : points (set_child q t c) = points t.
Proof. destruct q; reflexivity. Qed.

Lemma child_set_child_same q t c : child q (set_child q t c) = Some c.
Proof. destruct q; reflexivity. Qed.

Lemma child_set_child_other q q' t c :
  q <> q' -> child q' (set_child q t c) = child q' t.
Proof. destruct q, q'; intros H; try reflexivity; congruence. Qed.

Definition Quadrant_eq_dec (q q' : Quadrant) : {q = q'} + {q <> q'}.
Proof. decide equality. Defined.

Lemma child_set_child q q' t c :
  child q' (set_child q t c) = if Quadrant_eq_dec q q' then Some c else child q' t.
Proof.
  destruct (Quadrant_eq_dec q q') as [<- | H].
  - apply child_set_child_same.
  - now apply child_set_child_other.
Qed.

Lemma set_child_same q t c : child q t = Some c -> set_child q t c = t.
Proof. destruct t, q; simpl; intros ->; reflexivity. Qed.

Lemma child_subdivide q t :
  child q (subdivide t) = Some (QuadTree_new (quadrant q (boundary t)) (capacity t)).
Proof. destruct q; reflexivity. Qed.

Lemma boundary_ensure_children t : boundary (ensure_children t) = boundary t.
Proof. unfold ensure_children. destruct (is_null (nw t)); reflexivity. Qed.

Lemma capacity_ensure_children t : capacity (ensure_children t) = capacity t.
Proof. unfold ensure_children. destruct (is_null (nw t)); reflexivity. Qed.

Lemma points_ensure_children t : points (ensure_children t) = points t.
Proof. unfold ensure_children. destruct (is_null (nw t)); reflexivity. Qed.

Lemma nw_ensure_children t : exists c, nw (ensure_children t) = Some c.
Proof.
  unfold ensure_children. destruct (nw t) eqn:E; simpl; eauto.
Qed.

Lemma quadrants_NoDup : NoDup quadrants.
Proof. unfold quadrants. repeat constructor; simpl; intuition discriminate. Qed.

Lemma quadrants_all (q : Quadrant) : In q quadrants.
Proof. destruct q; simpl; auto. Qed.

(** ** The contents after an update *)

Lemma all_points_new b c : all_points (QuadTree_new b c) = [].
Proof. reflexivity. Qed.

Lemma all_points_push_back t p :
  all_points (push_back t p) = points t ++ p :: skipn (length (points t)) (all_points t).
Proof.
  rewrite (all_points_eq t), (all_points_eq (push_back t p)); simpl.
  rewrite skipn_app, skipn_all, Nat.sub_diag; simpl.
  now rewrite <- app_assoc.
Qed.

(** The points of a subtree form a segment of the points of the tree,
    and replacing the subtree replaces the segment. *)
Lemma all_points_set_child q t c :
  child q t = Some c ->
  exists pre post,
    all_points t = pre ++ all_points c ++ post /\
    forall c', all_points (set_child q t c') = pre ++ all_points c' ++ post.
Proof.
  intros H. rewrite (all_points_eq t).
  destruct q; simpl in H; rewrite H; simpl.
  - exists (points t), (opt_list all_points (ne t) ++ opt_list all_points (sw t) ++
                        opt_list all_points (se t)).
    split; [reflexivity |]. intros c'. now rewrite all_points_eq.
  - exists (points t ++ opt_list all_points (nw t)),
           (opt_list all_points (sw t) ++ opt_list all_points (se t)).
    split; [now rewrite <- !app_assoc |].
    intros c'. rewrite all_points_eq; simpl. now rewrite <- !app_assoc.
  - exists (points t ++ opt_list all_points (nw t) ++ opt_list all_points (ne t)),
           (opt_list all_points (se t)).
    split; [now rewrite <- !app_assoc |].
    intros c'. rewrite all_points_eq; simpl. now rewrite <- !app_assoc.
  - exists (points t ++ opt_list all_points (nw t) ++ opt_list all_points (ne t) ++
            opt_list all_points (sw t)), [].
    split; [now rewrite app_nil_r, <- !app_assoc |].
    intros c'. rewrite all_points_eq; simpl. now rewrite app_nil_r, <- !app_assoc.
Qed.

Lemma height_pos t : 0 < height t.
Proof. rewrite height_eq. lia. Qed.

Lemma height_child q t c : child q t = Some c -> height c < height t.
Proof.
  intros H. rewrite (height_eq t). destruct q; simpl in H; rewrite H; simpl; lia.
Qed.

Lemma height_new b c : height (QuadTree_new b c) = 1.
Proof. reflexivity. Qed.

(** A class of boxes closed under taking quadrants holds the box of
    every child. *)
Lemma good_quadrant {good : BoundingBox -> Prop} {Cov : Covering good}
    (b : BoundingBox) q :
  good b -> good (quadrant q b).
Proof. destruct q; simpl; [apply good_nw | apply good_ne | apply good_sw | apply good_se]. Qed.

End QuadTree.

#[export] Hint Rewrite @boundary_set_child @capacity_set_child @points_set_child
  @child_set_child_same @child_subdivide @boundary_ensure_children
  @capacity_ensure_children @points_ensure_children @all_points_new
  @height_new : qt_rw.
