(* ===== verification/Samples.v ===== *)
(** * Samples: concrete inputs on binary64

    The scenario of the specification (capacity 1, root region
    [[0,100] x [0,100]], the points (10,10), (20,20) and (90,90)) and a
    few other inputs, all on IEEE doubles.  The theorems of the later
    files are applied to them, and [Examples] evaluates the operations
    on them. *)

From Stdlib Require Import ZArith List Floats.
From S2P Require Import Prelude Coord CoordFloat Geometry QuadTree.
Import ListNotations.

#[local] Open Scope float_scope.

Definition fpoint (a b : float) : Point (C := Fcoord) := mkPoint a b.
Definition fbox (a b c d : float) : BoundingBox (C := Fcoord) := mkBoundingBox a b c d.

Definition unit_box : BoundingBox := fbox 0 0 100 100.
Definition far_box : BoundingBox := fbox 200 200 300 300.
Definition corner_box : BoundingBox := fbox 60 60 100 100.
Definition plane_box : BoundingBox := fbox neg_infinity neg_infinity infinity infinity.

Definition p10 : Point := fpoint 10 10.
Definition p20 : Point := fpoint 20 20.
Definition p90 : Point := fpoint 90 90.
Definition p_out : Point := fpoint 200 200.
Definition p_nan : Point := fpoint nan 10.

(** The centre of [unit_box], on the corner that all four quadrants
    share, and the far corner of the box. *)
Definition p50 : Point := fpoint 50 50.
Definition p100 : Point := fpoint 100 100.

(** An empty root of capacity 1. *)
Definition root1 : QuadTree := QuadTree_new unit_box 1.

(** [root1] after [insert(p10)]: a leaf with a full buffer. *)
Definition leaf1 : QuadTree := push_back root1 p10.

(** The quadrant [q] of [unit_box] as an empty leaf, or holding [p]. *)
Definition quad1 (q : Quadrant) (pts : list Point) : QuadTree :=
  mkQuadTree (quadrant q unit_box) 1 pts None None None None.

(** [leaf1] after [insert(p20)]: subdivided, [p20] in the north-west. *)
Definition tree2 : QuadTree :=
  mkQuadTree unit_box 1 [p10]
    (Some (quad1 NW [p20])) (Some (quad1 NE [])) (Some (quad1 SW [])) (Some (quad1 SE [])).

(** [tree2] after [insert(p90)]: [p90] in the south-east. *)
Definition tree3 : QuadTree :=
  mkQuadTree unit_box 1 [p10]
    (Some (quad1 NW [p20])) (Some (quad1 NE [])) (Some (quad1 SW [])) (Some (quad1 SE [p90])).

(** A node that no operation builds: only the first child is present. *)
Definition broken : QuadTree :=
  mkQuadTree unit_box 1 [p10] (Some (quad1 NW [])) None None None.

(** An empty root of capacity 0, and one of capacity -1. *)
Definition root0 : QuadTree := QuadTree_new unit_box 0.
Definition root_neg : QuadTree := QuadTree_new unit_box (-1).

(** An empty root covering the whole plane, and the same with a full
    buffer. *)
Definition plane_root : QuadTree := QuadTree_new plane_box 1.
Definition plane_leaf : QuadTree := push_back plane_root p10.

Lemma int_range_1 : int_range 1.
Proof. unfold int_range, INT_MIN, INT_MAX. split; discriminate. Qed.

Lemma int_range_0 : int_range 0.
Proof. unfold int_range, INT_MIN, INT_MAX. split; discriminate. Qed.

Lemma int_range_m1 : int_range (-1).
Proof. unfold int_range, INT_MIN, INT_MAX. split; discriminate. Qed.

Lemma insert_root1_p10 : insert 1 root1 p10 = Ok (true, leaf1).
Proof. vm_compute. reflexivity. Qed.

Lemma insert_leaf1_p20 : insert 2 leaf1 p20 = Ok (true, tree2).
Proof. vm_compute. reflexivity. Qed.

Lemma insert_tree2_p90 : insert 2 tree2 p90 = Ok (true, tree3).
Proof. vm_compute. reflexivity. Qed.
