(* ===== verification/Insert.v ===== *)
(** * Insert: reasoning principles for [insert]

    [insert] visits the children in a fixed order and stops at the first
    that accepts the point.  The relation [tried] describes one such
    pass over a list of children, [try_children_tried] shows that the
    code of lines 54-58 performs it, and [insert_rule] is the induction
    principle that results for [insert]: a property holds of every call
    that returns if it holds of the three ways a call can return
    (rejected at the boundary, stored in the buffer, handed to the
    children).  The first consequences are proved here: what [insert]
    leaves unchanged, what it does to the contents of the tree, and that
    more fuel never changes a result. *)

From Stdlib Require Import ZArith Bool List Lia Permutation.
From S2P Require Import Prelude Coord CoordFloat Geometry QuadTree Samples.
Import ListNotations.

#[local] Open Scope outcome_scope.

Section Insert.
Context {C : Coord}.
Implicit Types (t c : QuadTree) (p : Point) (q : Quadrant) (r : bool).

(** ** One pass over the children *)

(** [tried R qs t r t']: the children [qs] of [t] are handed the point
    in turn, each call related to its result by [R], until one accepts
    ([r = true]) or all have refused ([r = false]); [t'] is the node
    afterwards. *)
Inductive tried (R : QuadTree -> bool -> QuadTree -> Prop)
  : list Quadrant -> QuadTree -> bool -> QuadTree -> Prop :=
| tried_nil t : tried R [] t false t
| tried_hit q qs t c c' :
    child q t = Some c -> R c true c' ->
    tried R (q :: qs) t true (set_child q t c')
| tried_miss q qs t c c' r t' :
    child q t = Some c -> R c false c' ->
    tried R qs (set_child q t c') r t' ->
    tried R (q :: qs) t r t'.

(** [returns t p r t']: the call [t.insert(p)] returns [r] and leaves
    the node [t']. *)
Definition returns t p r t' : Prop :=
  exists fuel, insert fuel t p = Ok (r, t').

(** The contents [l'] are the contents [l] with [p] added at one place. *)
Definition inserted_at p (l l' : list Point) : Prop :=
  exists l1 l2, l = l1 ++ l2 /\ l' = l1 ++ p :: l2.

(** What a call does to the contents: an accepted point is added once,
    a refused one changes nothing. *)
Definition contents_step p t r t' : Prop :=
  if r then inserted_at p (all_points t) (all_points t')
  else all_points t' = all_points t.

(** A node whose children are all null or all present. *)
Definition children_uniform t : Prop :=
  (nw t = None /\ ne t = None /\ sw t = None /\ se t = None) \/
  (exists a b c d, nw t = Some a /\ ne t = Some b /\ sw t = Some c /\ se t = Some d).

(** The same, throughout the subtree. *)
Fixpoint shaped t : Prop :=
  children_uniform t /\
  opt_all shaped (nw t) /\ opt_all shaped (ne t) /\
  opt_all shaped (sw t) /\ opt_all shaped (se t).

(** The boolean versions, for evaluation. *)
Definition children_uniformb t : bool :=
  (is_null (nw t) && is_null (ne t) && is_null (sw t) && is_null (se t)) ||
  (negb (is_null (nw t)) && negb (is_null (ne t)) &&
   negb (is_null (sw t)) && negb (is_null (se t))).

Definition opt_forallb {A : Type} (f : A -> bool) (o : option A) : bool :=
  match o with
  | Some a => f a
  | None => true
  end.

Fixpoint shapedb t : bool :=
  children_uniformb t &&
  opt_forallb shapedb (nw t) && opt_forallb shapedb (ne t) &&
  opt_forallb shapedb (sw t) && opt_forallb shapedb (se t).

(** ** [try_children] performs a pass *)

Lemma try_children_tried ins qs t r t' :
  try_children ins qs t = Ok (r, t') ->
  tried (fun c r c' => ins c = Ok (r, c')) qs t r t'.
Proof.
  revert t. induction qs as [| q qs IH]; simpl; intros t H.
  - inv H. constructor.
  - apply bind_Ok in H. destruct H as (c & Hc & H). apply deref_Some in Hc.
    apply bind_Ok in H. destruct H as ([r0 c'] & Hi & H).
    destruct r0.
    + inv H. now apply tried_hit with c.
    + apply tried_miss with c c'; auto.
Qed.

Lemma tried_try_children ins qs t r t' :
  tried (fun c r c' => ins c = Ok (r, c')) qs t r t' ->
  try_children ins qs t = Ok (r, t').
Proof.
  induction 1 as [t | q qs t c c' Hc Hi | q qs t c c' r t' Hc Hi _ IH]; simpl.
  - reflexivity.
  - rewrite Hc; simpl. now rewrite Hi.
  - rewrite Hc; simpl. now rewrite Hi.
Qed.

Lemma tried_mono (R R' : QuadTree -> bool -> QuadTree -> Prop) qs t r t' :
  (forall c r c', R c r c' -> R' c r c') ->
  tried R qs t r t' -> tried R' qs t r t'.
Proof. intros HR. induction 1; econstructor; eauto. Qed.

(** Rule induction on a pass: [J] holds of the node as long as the
    children refuse, and [K] once one has accepted. *)
Lemma tried_rule {R : QuadTree -> bool -> QuadTree -> Prop}
    (J K : QuadTree -> Prop) {qs t r t'} :
  tried R qs t r t' ->
  J t ->
  (forall q t c c', J t -> child q t = Some c -> R c false c' ->
                    J (set_child q t c')) ->
  (forall q t c c', J t -> child q t = Some c -> R c true c' ->
                    K (set_child q t c')) ->
  if r then K t' else J t'.
Proof.
  intros H HJ Hmiss Hhit. revert HJ.
  induction H as [t | q qs t c c' Hc HR | q qs t c c' r t' Hc HR _ IH];
    intros HJ; simpl; [assumption | eapply Hhit; eassumption |].
  apply IH. eapply Hmiss; eassumption.
Qed.

(** ** The induction principle of [insert] *)

Theorem insert_rule (Q : QuadTree -> bool -> QuadTree -> Prop) p :
  (forall t, contains (boundary t) p = false -> Q t false t) ->
  (forall t, contains (boundary t) p = true ->
             size_lt (length (points t)) (capacity t) = true ->
             Q t true (push_back t p)) ->
  (forall t r t', contains (boundary t) p = true ->
             size_lt (length (points t)) (capacity t) = false ->
             returns t p r t' ->
             tried (fun c r c' => returns c p r c' /\ Q c r c')
                   quadrants (ensure_children t) r t' ->
             Q t r t') ->
  forall fuel t r t', insert fuel t p = Ok (r, t') -> Q t r t'.
Proof.
  intros Hrej Hbuf Hrec. induction fuel as [| fuel IH]; intros t r t' H.
  - discriminate.
  - pose proof H as Hret. rewrite insert_S in H.
    destruct (contains (boundary t) p) eqn:Hc; cbn [negb] in H; [| inv H; auto].
    destruct (size_lt _ _) eqn:Hs; [inv H; auto |].
    apply Hrec; auto; [exists (S fuel); exact Hret |].
    apply try_children_tried in H.
    eapply tried_mono; [| exact H]. simpl. intros c r0 c' Hi.
    split; [exists fuel; exact Hi | eauto].
Qed.

(** A pass keeps what every step keeps. *)
Lemma tried_invariant {R : QuadTree -> bool -> QuadTree -> Prop}
    (J : QuadTree -> Prop) {qs t r t'} :
  tried R qs t r t' ->
  J t ->
  (forall q t c r c', J t -> child q t = Some c -> R c r c' ->
                      J (set_child q t c')) ->
  J t'.
Proof.
  intros H HJ Hstep.
  pose proof (tried_rule J J H HJ) as HR.
  destruct r; apply HR; eauto.
Qed.

(** Two recursive calls that agree on the children of [t] give the same
    pass. *)
Lemma try_children_congr (ins ins' : QuadTree -> outcome (bool * QuadTree)) qs t :
  NoDup qs ->
  (forall q c, In q qs -> child q t = Some c -> ins c = ins' c) ->
  try_children ins qs t = try_children ins' qs t.
Proof.
  intros Hnd. revert t.
  induction Hnd as [| q qs Hq Hnd IH]; intros t H; simpl; [reflexivity |].
  destruct (child q t) as [c |] eqn:Hc; simpl; [| reflexivity].
  rewrite <- (H q c (or_introl eq_refl) Hc).
  destruct (ins c) as [[r c'] | | |]; simpl; try reflexivity.
  destruct r; [reflexivity |].
  apply IH. intros q' d Hq' Hd.
  rewrite child_set_child_other in Hd by congruence. apply (H q' d); auto. now right.
Qed.

(** A pass that ends with [false] has asked every child, and each one
    has refused. *)
Lemma tried_all_refused (R : QuadTree -> bool -> QuadTree -> Prop) qs t t' :
  NoDup qs -> tried R qs t false t' ->
  forall q, In q qs -> exists c c', child q t = Some c /\ R c false c'.
Proof.
  intros Hnd H. remember false as r eqn:Hr. revert Hnd Hr.
  induction H as [t | q0 qs t c c' Hc HR | q0 qs t c c' r t' Hc HR H IH];
    intros Hnd Hr q Hq.
  - destruct Hq.
  - discriminate.
  - inv Hnd. destruct Hq as [<- | Hq]; [eauto |].
    destruct (IH H3 eq_refl q Hq) as (d & d' & Hd & HRd).
    rewrite child_set_child_other in Hd by congruence. eauto.
Qed.

(** When the outcome of each call is decided by a test [g] on the
    position of the child, and a refusing child is left as it was, the
    pass changes exactly the first child that passes the test. *)
Lemma tried_first (R : QuadTree -> bool -> QuadTree -> Prop)
    (g : Quadrant -> bool) qs t r t' :
  tried R qs t r t' ->
  (forall q c r c', In q qs -> child q t = Some c -> R c r c' ->
     r = g q /\ (r = false -> c' = c)) ->
  match find g qs with
  | Some q => exists c c', child q t = Some c /\ R c true c' /\
                           r = true /\ t' = set_child q t c'
  | None => r = false /\ t' = t
  end.
Proof.
  induction 1 as [t | q0 qs t c c' Hc HR | q0 qs t c c' r t' Hc HR _ IH];
    intros Hg; simpl.
  - auto.
  - destruct (Hg q0 c true c' (or_introl eq_refl) Hc HR) as [<- _]. eauto 10.
  - destruct (Hg q0 c false c' (or_introl eq_refl) Hc HR) as [<- E].
    rewrite (E eq_refl), (set_child_same _ _ _ Hc) in IH.
    apply IH. intros q d r0 d' Hq. apply Hg. now right.
Qed.

(** ** More fuel never changes a result *)

Lemma try_children_ext (ins ins' : QuadTree -> outcome (bool * QuadTree)) qs t out :
  (forall c out, ins c = Ok out -> ins' c = Ok out) ->
  try_children ins qs t = Ok out -> try_children ins' qs t = Ok out.
Proof.
  intros Hext H. destruct out as [r t'].
  apply tried_try_children. apply try_children_tried in H.
  eapply tried_mono; [| exact H]. simpl. auto.
Qed.

Lemma insert_fuel_mono fuel fuel' t p out :
  insert fuel t p = Ok out -> fuel <= fuel' -> insert fuel' t p = Ok out.
Proof.
  revert fuel' t out. induction fuel as [| fuel IH]; intros fuel' t out H Hle.
  - discriminate.
  - destruct fuel' as [| fuel']; [lia |]. rewrite insert_S in *.
    destruct (negb (contains (boundary t) p)); [assumption |].
    destruct (size_lt _ _); [assumption |].
    eapply try_children_ext; [| exact H]. simpl. intros c o Ho.
    apply IH; [assumption | lia].
Qed.

(** The result of a call does not depend on the fuel it is given. *)
Lemma returns_deterministic t p r1 t1 r2 t2 :
  returns t p r1 t1 -> returns t p r2 t2 -> r1 = r2 /\ t1 = t2.
Proof.
  intros [f1 H1] [f2 H2].
  apply insert_fuel_mono with (fuel' := Nat.max f1 f2) in H1; [| lia].
  apply insert_fuel_mono with (fuel' := Nat.max f1 f2) in H2; [| lia].
  rewrite H1 in H2. now inv H2.
Qed.

(** ** What [insert] leaves unchanged *)

Lemma insert_frame fuel t p r t' :
  insert fuel t p = Ok (r, t') ->
  boundary t' = boundary t /\ capacity t' = capacity t.
Proof.
  revert fuel t r t'.
  apply (insert_rule (fun t _ t' =>
    boundary t' = boundary t /\ capacity t' = capacity t)); auto.
  intros t r t' _ _ _ H.
  apply (tried_invariant (fun t1 =>
    boundary t1 = boundary t /\ capacity t1 = capacity t) H).
  - now rewrite boundary_ensure_children, capacity_ensure_children.
  - intros q t1 c r0 c' HJ _ _.
    now rewrite boundary_set_child, capacity_set_child.
Qed.

(** Only the call that stores the point in the buffer changes the
    buffer of the node. *)
Lemma insert_points fuel t p r t' :
  insert fuel t p = Ok (r, t') ->
  points t' =
  if contains (boundary t) p && size_lt (length (points t)) (capacity t)
  then points t ++ [p] else points t.
Proof.
  revert fuel t r t'.
  apply (insert_rule (fun t _ t' => points t' =
    if contains (boundary t) p && size_lt (length (points t)) (capacity t)
    then points t ++ [p] else points t)).
  - intros t ->. reflexivity.
  - intros t -> ->. reflexivity.
  - intros t r t' -> -> _ H. simpl.
    apply (tried_invariant (fun t1 => points t1 = points t) H).
    + apply points_ensure_children.
    + intros q t1 c r0 c' HJ _ _. now rewrite points_set_child.
Qed.

(** ** Uniform children *)

Lemma shaped_eq t :
  shaped t <->
  children_uniform t /\
  opt_all shaped (nw t) /\ opt_all shaped (ne t) /\
  opt_all shaped (sw t) /\ opt_all shaped (se t).
Proof. destruct t; reflexivity. Qed.

Lemma children_uniformb_spec t : children_uniformb t = true <-> children_uniform t.
Proof.
  unfold children_uniformb, children_uniform.
  destruct (nw t), (ne t), (sw t), (se t); simpl; split; intros H;
    try discriminate; try reflexivity;
    try (destruct H as [(H1 & H2 & H3 & H4) | (a & b & c & d & H1 & H2 & H3 & H4)];
         discriminate).
  - right. do 4 eexists. repeat split; reflexivity.
  - left. repeat split; reflexivity.
Qed.

Lemma shapedb_spec t : shapedb t = true <-> shaped t.
Proof.
  induction t as [t H1 H2 H3 H4] using QuadTree_ind.
  rewrite shaped_eq, <- children_uniformb_spec.
  replace (shapedb t) with
    (children_uniformb t &&
     opt_forallb shapedb (nw t) && opt_forallb shapedb (ne t) &&
     opt_forallb shapedb (sw t) && opt_forallb shapedb (se t))
    by (destruct t; reflexivity).
  rewrite !andb_true_iff.
  destruct (nw t), (ne t), (sw t), (se t); simpl in *; tauto.
Qed.

Lemma shaped_new b k : shaped (QuadTree_new b k).
Proof. apply shaped_eq; simpl. unfold children_uniform; simpl. tauto. Qed.

Lemma shaped_child q t c : shaped t -> child q t = Some c -> shaped c.
Proof.
  rewrite shaped_eq. intros (_ & H1 & H2 & H3 & H4) Hq.
  destruct q; simpl in Hq; rewrite Hq in *; assumption.
Qed.

Lemma children_uniform_set_child q t c c' :
  children_uniform t -> child q t = Some c -> children_uniform (set_child q t c').
Proof.
  intros [(H1 & H2 & H3 & H4) | (a & b & d & e & H1 & H2 & H3 & H4)] Hq.
  - destruct q; simpl in Hq; congruence.
  - right. destruct q; simpl; eauto 10.
Qed.

Lemma shaped_set_child q t c c' :
  shaped t -> child q t = Some c -> shaped c' -> shaped (set_child q t c').
Proof.
  rewrite (shaped_eq t), (shaped_eq (set_child q t c')).
  intros (Hu & H1 & H2 & H3 & H4) Hq Hc'.
  split; [eapply children_uniform_set_child; eauto |].
  destruct q; simpl; auto.
Qed.

Lemma shaped_push_back t p : shaped t -> shaped (push_back t p).
Proof. rewrite (shaped_eq t), (shaped_eq (push_back t p)). auto. Qed.

Lemma shaped_subdivide t : shaped (subdivide t).
Proof.
  apply shaped_eq; simpl.
  split; [right; do 4 eexists; repeat split; reflexivity |].
  repeat split; apply shaped_new.
Qed.

Lemma shaped_ensure_children t : shaped t -> shaped (ensure_children t).
Proof.
  unfold ensure_children. destruct (is_null (nw t)); auto using shaped_subdivide.
Qed.

Lemma all_points_leaf t :
  children_uniform t -> nw t = None -> all_points t = points t.
Proof.
  intros [(H1 & H2 & H3 & H4) | (a & b & c & d & H1 & _)] Hn; [| congruence].
  rewrite all_points_eq, H1, H2, H3, H4; simpl. apply app_nil_r.
Qed.

(** [subdivide] on a leaf adds four empty leaves: the contents stay. *)
Lemma all_points_ensure_children t :
  children_uniform t -> all_points (ensure_children t) = all_points t.
Proof.
  intros Hu. unfold ensure_children.
  destruct (nw t) eqn:Hn; cbn [is_null]; [reflexivity |].
  rewrite (all_points_leaf t Hu Hn), all_points_eq; simpl. apply app_nil_r.
Qed.

(** ** What [insert] does to the contents *)

Lemma inserted_at_ctx p (pre post l l' : list Point) :
  inserted_at p l l' -> inserted_at p (pre ++ l ++ post) (pre ++ l' ++ post).
Proof.
  intros (l1 & l2 & -> & ->). exists (pre ++ l1), (l2 ++ post).
  now rewrite <- !app_assoc.
Qed.

Lemma inserted_at_Permutation p (l l' : list Point) :
  inserted_at p l l' -> Permutation (p :: l) l'.
Proof. intros (l1 & l2 & -> & ->). apply Permutation_middle. Qed.

Lemma inserted_at_In p (l l' : list Point) (a : Point) :
  inserted_at p l l' -> In a l' <-> a = p \/ In a l.
Proof.
  intros (l1 & l2 & -> & ->). rewrite !in_app_iff; simpl. intuition congruence.
Qed.

Lemma contents_step_push_back p t : contents_step p t true (push_back t p).
Proof.
  unfold contents_step. rewrite all_points_push_back.
  exists (points t), (skipn (length (points t)) (all_points t)). split; [| reflexivity].
  rewrite (all_points_eq t) at 1.
  rewrite all_points_eq, skipn_app, skipn_all, Nat.sub_diag. reflexivity.
Qed.

Lemma insert_shaped_contents fuel t p r t' :
  insert fuel t p = Ok (r, t') ->
  shaped t -> shaped t' /\ contents_step p t r t'.
Proof.
  revert fuel t r t'.
  apply (insert_rule (fun t r t' => shaped t -> shaped t' /\ contents_step p t r t')).
  - intros t _ Hs. split; [assumption | reflexivity].
  - intros t _ _ Hs. auto using shaped_push_back, contents_step_push_back.
  - intros t r t' _ _ _ H Hs.
    assert (Hu : children_uniform t) by (apply shaped_eq in Hs; tauto).
    pose proof (tried_rule
      (fun t1 => shaped t1 /\ all_points t1 = all_points t)
      (fun t1 => shaped t1 /\ inserted_at p (all_points t) (all_points t1)) H) as HR.
    unfold contents_step. destruct r; apply HR; clear HR H;
      auto using shaped_ensure_children, all_points_ensure_children;
      intros q t1 c c' [Hs1 He] Hq [_ HQ];
      destruct (HQ (shaped_child _ _ _ Hs1 Hq)) as [Hs' Hc'];
      (split; [eauto using shaped_set_child |]);
      destruct (all_points_set_child _ _ _ Hq) as (pre & post & E1 & E2);
      rewrite E2, <- He, E1; unfold contents_step in Hc';
      solve [now rewrite Hc' | now apply inserted_at_ctx].
Qed.

(** ** Main theorems *)

(** A point outside the boundary of the node is refused at once: the
    call returns [false] and the node is left as it was, whatever its
    shape. *)
Lemma insert_rejects_outside fuel t p :
  contains (boundary t) p = false -> insert (S fuel) t p = Ok (false, t).
Proof. intros H. rewrite insert_S, H. reflexivity. Qed.

(** A point inside the boundary of a node whose buffer holds fewer
    points than the capacity is appended to the buffer; the children are
    not looked at. *)
Lemma insert_stores_in_buffer fuel t p :
  contains (boundary t) p = true ->
  size_lt (length (points t)) (capacity t) = true ->
  insert (S fuel) t p = Ok (true, push_back t p).
Proof. intros H1 H2. rewrite insert_S, H1, H2. reflexivity. Qed.

(** When the buffer is full, the node is subdivided if it has no
    children, and the children are tried in the order NW, NE, SW, SE: the
    first that accepts the point ends the call, and a child that refuses
    keeps what the refused call did to it. *)
Lemma insert_first_fit fuel t p r t' :
  contains (boundary t) p = true ->
  size_lt (length (points t)) (capacity t) = false ->
  insert (S fuel) t p = Ok (r, t') <->
  tried (fun c r c' => insert fuel c p = Ok (r, c'))
        [NW; NE; SW; SE] (ensure_children t) r t'.
Proof.
  intros H1 H2. rewrite insert_S, H1, H2. cbn [negb].
  split; [apply try_children_tried | apply tried_try_children].
Qed.

(** C3: on a tree with uniform children, an accepted point is added to
    the contents at one place and the other points keep their order; a
    refused point leaves the contents as they were, even when the refusal
    came from the children of a node that was subdivided on the way. *)
Theorem insert_contents fuel t p r t' :
  shaped t -> insert fuel t p = Ok (r, t') ->
  if r then inserted_at p (all_points t) (all_points t') /\
            Permutation (p :: all_points t) (all_points t')
  else all_points t' = all_points t.
Proof.
  intros Hs H. destruct (insert_shaped_contents _ _ _ _ _ H Hs) as [_ Hc].
  unfold contents_step in Hc. destruct r; auto using inserted_at_Permutation.
Qed.

(** [insert] never changes the boundary or the capacity of the node,
    and changes its buffer only by appending the point, which it does
    exactly when the point is inside the boundary and the buffer is not
    full. *)
Lemma insert_keeps_node fuel t p r t' :
  insert fuel t p = Ok (r, t') ->
  boundary t' = boundary t /\ capacity t' = capacity t /\
  points t' =
    if contains (boundary t) p && size_lt (length (points t)) (capacity t)
    then points t ++ [p] else points t.
Proof.
  intros H. destruct (insert_frame _ _ _ _ _ H) as [Hb Hk].
  split; [exact Hb | split; [exact Hk | exact (insert_points _ _ _ _ _ H)]].
Qed.

(** The result of a call does not depend on the fuel: two runs that
    return agree on the returned value and on the tree. *)
Lemma insert_result_unique t p f1 f2 r1 t1 r2 t2 :
  insert f1 t p = Ok (r1, t1) -> insert f2 t p = Ok (r2, t2) ->
  r1 = r2 /\ t1 = t2.
Proof. intros H1 H2. eapply returns_deterministic; eexists; eauto. Qed.

End Insert.

Lemma insert_rejects_outside_witness : insert 1 root1 p_out = Ok (false, root1).
Proof. apply (insert_rejects_outside 0 root1 p_out). vm_compute. reflexivity. Defined.

Lemma insert_stores_in_buffer_witness : insert 1 root1 p10 = Ok (true, push_back root1 p10).
Proof.
  apply (insert_stores_in_buffer 0 root1 p10); vm_compute; reflexivity.
Defined.

Lemma insert_first_fit_witness :
  tried (fun c r c' => insert 1 c p20 = Ok (r, c'))
        [NW; NE; SW; SE] (ensure_children leaf1) true tree2.
Proof.
  apply (proj1 (insert_first_fit 1 leaf1 p20 true tree2 eq_refl eq_refl)).
  exact insert_leaf1_p20.
Defined.

Lemma insert_contents_witness :
  inserted_at p90 (all_points tree2) (all_points tree3) /\
  Permutation (p90 :: all_points tree2) (all_points tree3).
Proof.
  apply (insert_contents 2 tree2 p90 true tree3).
  - apply shapedb_spec. vm_compute. reflexivity.
  - exact insert_tree2_p90.
Defined.

Lemma insert_keeps_node_witness :
  boundary tree3 = boundary tree2 /\ capacity tree3 = capacity tree2 /\
  points tree3 =
    if contains (boundary tree2) p90 && size_lt (length (points tree2)) (capacity tree2)
    then points tree2 ++ [p90] else points tree2.
Proof. apply (insert_keeps_node 2 tree2 p90 true tree3). exact insert_tree2_p90. Defined.
