(* ===== verification/Invariant.v ===== *)
(** * Invariant: well-formed trees

    The invariant [wf] that the constructor establishes and
    [subdivide] and [insert] preserve:

    - the children are all null or all present (there is no partly
      subdivided node);
    - the capacity is an [int], and every child has the capacity of its
      parent;
    - the boundary of a child is the quadrant of its parent's boundary
      that [subdivide] computes;
    - a buffer never holds more points than the capacity (as [size_t]),
      and the buffer of a subdivided node is full;
    - every point of a subtree lies in the boundary of its root.

    Two consequences: on a tree whose children are uniform, [insert]
    never dereferences a null pointer, and on a well-formed tree of
    non-zero capacity it returns within a recursion depth of
    [height t + 1]. *)

From Stdlib Require Import ZArith Bool List Lia Permutation.
From S2P Require Import Prelude Coord CoordFloat Geometry QuadTree Samples Insert.
Import ListNotations.

#[local] Open Scope outcome_scope.

Section Invariant.
Context {C : Coord}.
Implicit Types (t c : QuadTree) (p : Point) (q : Quadrant) (r : bool).

(** ** Definitions *)

(** What the invariant says of the node itself. *)
Definition node_ok t : Prop :=
  int_range (capacity t) /\
  (Z.of_nat (length (points t)) <= to_size_t (capacity t))%Z /\
  Forall (fun p => contains (boundary t) p = true) (all_points t) /\
  (nw t <> None -> size_lt (length (points t)) (capacity t) = false).

(** What it says of the child [c] in position [q] of [t]. *)
Definition child_ok q t c : Prop :=
  boundary c = quadrant q (boundary t) /\ capacity c = capacity t.

Fixpoint wf t : Prop :=
  children_uniform t /\ node_ok t /\
  opt_all (fun c => child_ok NW t c /\ wf c) (nw t) /\
  opt_all (fun c => child_ok NE t c /\ wf c) (ne t) /\
  opt_all (fun c => child_ok SW t c /\ wf c) (sw t) /\
  opt_all (fun c => child_ok SE t c /\ wf c) (se t).

(** The trees a program can build: the constructor, then calls of
    [insert] that return. *)
Inductive reachable : QuadTree -> Prop :=
| reachable_new b k : int_range k -> reachable (QuadTree_new b k)
| reachable_insert t p r t' :
    reachable t -> returns t p r t' -> reachable t'.

(** ** The invariant, unfolded *)

Lemma wf_eq t :
  wf t <->
  children_uniform t /\ node_ok t /\
  forall q c, child q t = Some c -> child_ok q t c /\ wf c.
Proof.
  destruct t as [b k pts o1 o2 o3 o4]; simpl. split.
  - intros (Hu & Hn & H1 & H2 & H3 & H4). split; [| split]; auto.
    intros q c Hq. destruct q; simpl in Hq; subst; simpl in *; tauto.
  - intros (Hu & Hn & H). split; [exact Hu | split; [exact Hn |]].
    split; [| split; [| split]];
      match goal with |- opt_all _ ?o => destruct o; simpl; trivial end.
    + apply (H NW); reflexivity.
    + apply (H NE); reflexivity.
    + apply (H SW); reflexivity.
    + apply (H SE); reflexivity.
Qed.

Lemma wf_children_uniform t : wf t -> children_uniform t.
Proof. rewrite wf_eq. tauto. Qed.

Lemma wf_node_ok t : wf t -> node_ok t.
Proof. rewrite wf_eq. tauto. Qed.

Lemma wf_child q t c : wf t -> child q t = Some c -> child_ok q t c /\ wf c.
Proof. rewrite wf_eq. intros (_ & _ & H). apply H. Qed.

Lemma wf_shaped t : wf t -> shaped t.
Proof.
  induction t as [t H1 H2 H3 H4] using QuadTree_ind. intros Hw.
  apply shaped_eq. split; [now apply wf_children_uniform |].
  split; [| split; [| split]];
    match goal with |- opt_all _ (?f t) => destruct (f t) eqn:E; simpl in *; auto end.
  - apply H1. now apply (wf_child NW t).
  - apply H2. now apply (wf_child NE t).
  - apply H3. now apply (wf_child SW t).
  - apply H4. now apply (wf_child SE t).
Qed.

Lemma wf_capacity_range t : wf t -> int_range (capacity t).
Proof. intros H. apply wf_node_ok in H. apply H. Qed.

Lemma wf_buffer_bound t :
  wf t -> (Z.of_nat (length (points t)) <= to_size_t (capacity t))%Z.
Proof. intros H. apply wf_node_ok in H. apply H. Qed.

Lemma wf_bounded t :
  wf t -> Forall (fun p => contains (boundary t) p = true) (all_points t).
Proof. intros H. apply wf_node_ok in H. apply H. Qed.

Lemma wf_internal_full t :
  wf t -> nw t <> None -> size_lt (length (points t)) (capacity t) = false.
Proof. intros H. apply wf_node_ok in H. apply H. Qed.

(** ** The constructor establishes the invariant *)

Lemma wf_new (b : BoundingBox) (k : Z) : int_range k -> wf (QuadTree_new b k).
Proof.
  intros Hk. apply wf_eq. split; [| split].
  - left. simpl. tauto.
  - unfold node_ok; simpl. pose proof (to_size_t_range k).
    split; [exact Hk | split; [lia | split; [constructor | congruence]]].
  - intros q c Hq. destruct q; discriminate.
Qed.

(** ** [subdivide] preserves it *)

Lemma returns_frame t p r t' :
  returns t p r t' -> boundary t' = boundary t /\ capacity t' = capacity t.
Proof. intros [fuel H]. eapply insert_frame; eauto. Qed.

Lemma wf_subdivide t :
  wf t -> nw t = None -> size_lt (length (points t)) (capacity t) = false ->
  wf (subdivide t).
Proof.
  intros Hw Hn Hfull. destruct (wf_node_ok t Hw) as (Hk & Hlen & Hb & _).
  pose proof (all_points_leaf t (wf_children_uniform t Hw) Hn) as Hl.
  apply wf_eq. split; [| split].
  - right. simpl. eauto 10.
  - assert (E : all_points (subdivide t) = all_points t)
      by (rewrite Hl, all_points_eq; simpl; apply app_nil_r).
    unfold node_ok. rewrite E. simpl.
    split; [exact Hk | split; [exact Hlen | split; [exact Hb | auto]]].
  - intros q c Hq. rewrite child_subdivide in Hq. inv Hq.
    split; [split; reflexivity | now apply wf_new].
Qed.

Lemma wf_ensure_children t :
  wf t -> size_lt (length (points t)) (capacity t) = false ->
  wf (ensure_children t).
Proof.
  intros Hw Hfull. unfold ensure_children.
  destruct (nw t) eqn:Hn; cbn [is_null]; auto using wf_subdivide.
Qed.

(** ** [insert] preserves it *)

Lemma wf_push_back t p :
  wf t -> contains (boundary t) p = true ->
  size_lt (length (points t)) (capacity t) = true ->
  wf (push_back t p).
Proof.
  intros Hw Hc Hs. destruct (wf_node_ok t Hw) as (Hk & Hlen & Hb & Hfull).
  apply size_lt_spec in Hs as Hs'.
  apply wf_eq. split; [| split].
  - exact (wf_children_uniform t Hw).
  - unfold node_ok.
    change (capacity (push_back t p)) with (capacity t).
    change (points (push_back t p)) with (points t ++ [p]).
    change (boundary (push_back t p)) with (boundary t).
    change (nw (push_back t p)) with (nw t).
    rewrite length_app; simpl.
    split; [exact Hk | split; [lia | split]].
    + apply Forall_forall. intros a Ha.
      apply (inserted_at_In _ _ _ a (contents_step_push_back p t)) in Ha.
      rewrite Forall_forall in Hb. destruct Ha as [-> | Ha]; auto.
    + intros Hnw. rewrite (Hfull Hnw) in Hs. discriminate.
  - intros q c Hq. apply (wf_child q t c Hw). destruct q; exact Hq.
Qed.

(** The children of [t'] are well-formed children of a node with the
    boundary and the capacity of [t]. *)
Definition children_ok t t' : Prop :=
  forall q c, child q t' = Some c -> child_ok q t c /\ wf c.

Lemma children_ok_step t t1 q c c' r p :
  children_ok t t1 -> child q t1 = Some c ->
  returns c p r c' /\ (wf c -> wf c') ->
  children_ok t (set_child q t1 c').
Proof.
  intros HJ Hq [Hret HQ] q' d Hd. rewrite child_set_child in Hd.
  destruct (Quadrant_eq_dec q q') as [<- | Hne]; [inv Hd | now apply HJ].
  destruct (HJ q c Hq) as [[Hb Hk] Hwc].
  destruct (returns_frame c p r d Hret) as [Eb Ek].
  split; [split; congruence | auto].
Qed.

Lemma insert_wf fuel t p r t' :
  insert fuel t p = Ok (r, t') -> wf t -> wf t'.
Proof.
  revert fuel t r t'.
  apply (insert_rule (fun t r t' => wf t -> wf t')); auto using wf_push_back.
  intros t r t' Hc Hfull Hret Htried Hw.
  destruct Hret as [fuel Hins].
  destruct (insert_frame _ _ _ _ _ Hins) as [Eb Ek].
  pose proof (insert_points _ _ _ _ _ Hins) as Ep. rewrite Hc, Hfull in Ep. simpl in Ep.
  destruct (insert_shaped_contents _ _ _ _ _ Hins (wf_shaped t Hw)) as [Hs' Hcont].
  destruct (wf_node_ok t Hw) as (Hk & Hlen & Hb & _).
  apply wf_eq. split; [| split].
  - apply shaped_eq in Hs'. tauto.
  - unfold node_ok. rewrite Ek, Ep, Eb.
    split; [exact Hk | split; [exact Hlen | split; [| auto]]].
    rewrite Forall_forall in *. intros a Ha. unfold contents_step in Hcont.
    destruct r; [| rewrite Hcont in Ha; auto].
    apply (inserted_at_In _ _ _ a Hcont) in Ha. destruct Ha as [-> | Ha]; auto.
  - assert (HJ : children_ok t t').
    { apply (tried_invariant (children_ok t) Htried).
      - intros q c Hq. apply (wf_child q _ c (wf_ensure_children t Hw Hfull)) in Hq.
        destruct Hq as [[Hqb Hqk] Hqw].
        rewrite boundary_ensure_children, capacity_ensure_children in *.
        split; [split |]; assumption.
      - intros q t1 c r0 c' HJ Hq HR. eapply children_ok_step; eauto. }
    intros q c Hq. destruct (HJ q c Hq) as [[Hqb Hqk] Hqw].
    split; [split; congruence | assumption].
Qed.

(** ** No null pointer is dereferenced *)

Lemma children_present t :
  children_uniform t -> nw t <> None -> forall q, exists c, child q t = Some c.
Proof.
  intros [(H1 & _) | (a & b & c & d & H1 & H2 & H3 & H4)] Hn q; [congruence |].
  destruct q; simpl; eauto.
Qed.

Lemma nw_set_child q t c : nw t <> None -> nw (set_child q t c) <> None.
Proof. destruct q; simpl; congruence. Qed.

Lemma try_children_no_null (ins : QuadTree -> outcome (bool * QuadTree)) qs t :
  shaped t -> nw t <> None ->
  (forall c, shaped c ->
     ins c <> NullDeref /\ forall r c', ins c = Ok (r, c') -> shaped c') ->
  try_children ins qs t <> NullDeref.
Proof.
  intros Hs Hn Hins. revert t Hs Hn.
  induction qs as [| q qs IH]; intros t Hs Hn; simpl; [discriminate |].
  assert (Hu : children_uniform t) by (apply shaped_eq in Hs; tauto).
  destruct (children_present t Hu Hn q) as [c Hq]. rewrite Hq; simpl.
  destruct (Hins c (shaped_child q t c Hs Hq)) as [Hnn Hsh].
  destruct (ins c) as [[r c'] | | |]; simpl; try congruence.
  destruct r; [discriminate |].
  apply IH; eauto using shaped_set_child, nw_set_child.
Qed.

Lemma insert_not_null fuel t p :
  shaped t -> insert fuel t p <> NullDeref.
Proof.
  revert t. induction fuel as [| fuel IH]; intros t Hs; [discriminate |].
  rewrite insert_S.
  destruct (negb (contains (boundary t) p)); [discriminate |].
  destruct (size_lt _ _); [discriminate |].
  apply try_children_no_null.
  - now apply shaped_ensure_children.
  - destruct (nw_ensure_children t) as [c ->]. discriminate.
  - intros c Hc. split; [now apply IH |].
    intros r c' H. now apply (insert_shaped_contents _ _ _ _ _ H).
Qed.

(** ** The children that are handed the point *)

(** The children of a node about to hand the point down: each is
    well-formed, has the capacity of the node, the quadrant of its
    boundary, and a height below the height of the node or 1. *)
Lemma ensure_children_child t q :
  wf t -> size_lt (length (points t)) (capacity t) = false ->
  exists c, child q (ensure_children t) = Some c /\
    wf c /\ capacity c = capacity t /\ boundary c = quadrant q (boundary t) /\
    (height c < height t \/ c = QuadTree_new (quadrant q (boundary t)) (capacity t)).
Proof.
  intros Hw Hfull. pose proof (wf_ensure_children t Hw Hfull) as Hw1.
  assert (Hn : nw (ensure_children t) <> None)
    by (destruct (nw_ensure_children t) as [c ->]; discriminate).
  destruct (children_present _ (wf_children_uniform _ Hw1) Hn q) as [c Hq].
  exists c. destruct (wf_child q _ c Hw1 Hq) as [[Eb Ek] Hwc].
  rewrite boundary_ensure_children in Eb. rewrite capacity_ensure_children in Ek.
  repeat split; auto. revert Hq. unfold ensure_children.
  destruct (nw t) eqn:E; cbn [is_null]; intros Hq.
  - left. eapply height_child; eauto.
  - right. rewrite child_subdivide in Hq. now inv Hq.
Qed.

(** ** Termination *)

Lemma try_children_returns (ins : QuadTree -> outcome (bool * QuadTree)) qs t :
  NoDup qs ->
  (forall q, In q qs -> exists c, child q t = Some c /\ exists out, ins c = Ok out) ->
  exists out, try_children ins qs t = Ok out.
Proof.
  intros Hnd. revert t.
  induction Hnd as [| q qs Hq Hnd IH]; intros t H; simpl; [eauto |].
  destruct (H q (or_introl eq_refl)) as (c & Hc & [r c'] & Hi).
  rewrite Hc; simpl. rewrite Hi; simpl. destruct r; [eauto |].
  apply IH. intros q' Hq'. rewrite child_set_child_other by congruence.
  apply H. now right.
Qed.

(** A call on a fresh leaf of non-zero capacity returns at once. *)
Lemma insert_new_returns fuel b k p :
  to_size_t k <> 0%Z -> exists out, insert (S fuel) (QuadTree_new b k) p = Ok out.
Proof.
  intros Hk. rewrite insert_S; simpl.
  destruct (negb (contains b p)); [eauto |].
  rewrite size_lt_empty. destruct (Z.eqb_spec (to_size_t k) 0); [contradiction |].
  simpl. eauto.
Qed.

Lemma insert_returns fuel t p :
  wf t -> to_size_t (capacity t) <> 0%Z -> height t < fuel ->
  exists out, insert fuel t p = Ok out.
Proof.
  revert t. induction fuel as [| fuel IH]; intros t Hw Hk Hh; [lia |].
  rewrite insert_S.
  destruct (negb (contains (boundary t) p)); [eauto |].
  destruct (size_lt _ _) eqn:Hfull; [eauto |].
  apply try_children_returns; [apply quadrants_NoDup |].
  intros q _. unfold ensure_children. destruct (nw t) eqn:Hn; cbn [is_null].
  - assert (Hnn : nw t <> None) by congruence.
    destruct (children_present t (wf_children_uniform t Hw) Hnn q) as [c Hq].
    exists c. split; [exact Hq |].
    destruct (wf_child q t c Hw Hq) as [[_ Ek] Hwc].
    pose proof (height_child q t c Hq).
    apply IH; [assumption | congruence | lia].
  - rewrite child_subdivide. eexists; split; [reflexivity |].
    pose proof (height_pos t).
    destruct fuel as [| fuel]; [lia |]. now apply insert_new_returns.
Qed.

(** ** The height grows by at most one *)

Lemma height_le t (B : nat) :
  (forall q c, child q t = Some c -> height c <= B) -> height t <= S B.
Proof.
  intros H. rewrite height_eq.
  assert (forall q, opt_nat height (child q t) <= B) as Hq.
  { intros q. destruct (child q t) eqn:E; simpl; [eauto | lia]. }
  pose proof (Hq NW). pose proof (Hq NE). pose proof (Hq SW). pose proof (Hq SE).
  simpl in *. lia.
Qed.

Lemma tried_children_bound (R : QuadTree -> bool -> QuadTree -> Prop) (B : nat) qs t r t' :
  tried R qs t r t' ->
  (forall q c, child q t = Some c -> height c <= B) ->
  (forall q c, In q qs -> child q t = Some c ->
     forall r c', R c r c' -> height c' <= B) ->
  NoDup qs ->
  forall q c, child q t' = Some c -> height c <= B.
Proof.
  induction 1 as [t | q0 qs t c c' Hc HR | q0 qs t c c' r t' Hc HR _ IH];
    intros Hold Hnew Hnd q d Hd.
  - now apply (Hold q d).
  - rewrite child_set_child in Hd.
    destruct (Quadrant_eq_dec q0 q) as [<- | Hne]; [inv Hd | now apply (Hold q d)].
    apply (Hnew q0 c (or_introl eq_refl) Hc _ _ HR).
  - inv Hnd. apply IH with q; auto.
    + intros q1 c1 Hc1. rewrite child_set_child in Hc1.
      destruct (Quadrant_eq_dec q0 q1) as [<- | Hne]; [inv Hc1 | now apply (Hold q1)].
      apply (Hnew q0 c (or_introl eq_refl) Hc _ _ HR).
    + intros q1 c1 Hq1 Hc1. rewrite child_set_child_other in Hc1 by congruence.
      apply (Hnew q1 c1); auto. now right.
Qed.

Lemma insert_new_height fuel (b : BoundingBox) (k : Z) p r c' :
  to_size_t k <> 0%Z -> insert fuel (QuadTree_new b k) p = Ok (r, c') -> height c' = 1.
Proof.
  intros Hk H. destruct fuel as [| fuel]; [discriminate |].
  rewrite insert_S in H. cbn [boundary capacity points QuadTree_new length] in H.
  destruct (negb (contains b p)); [now inv H |].
  rewrite size_lt_empty in H.
  destruct (Z.eqb_spec (to_size_t k) 0); [contradiction |]. now inv H.
Qed.

Lemma insert_height fuel t p r t' :
  insert fuel t p = Ok (r, t') ->
  wf t -> to_size_t (capacity t) <> 0%Z -> height t' <= S (height t).
Proof.
  revert fuel t r t'.
  apply (insert_rule (fun t r t' =>
    wf t -> to_size_t (capacity t) <> 0%Z -> height t' <= S (height t))).
  - intros; lia.
  - intros t _ _ _ _. rewrite (height_eq (push_back t p)), (height_eq t). simpl. lia.
  - intros t r t' _ Hfull _ Htried Hw Hk.
    apply height_le.
    apply (tried_children_bound _ (height t) _ _ _ _ Htried); [| | apply quadrants_NoDup].
    + intros q c Hq.
      destruct (ensure_children_child t q Hw Hfull) as (d & Hd & _ & _ & _ & Hh).
      rewrite Hq in Hd. inv Hd. destruct Hh as [Hh | ->]; [lia |].
      rewrite height_new. pose proof (height_pos t). lia.
    + intros q c _ Hq r0 c' [[f Hret] HQ].
      destruct (ensure_children_child t q Hw Hfull) as (d & Hd & Hwd & Ek & _ & Hh).
      rewrite Hq in Hd. inv Hd. destruct Hh as [Hh | ->].
      * assert (height c' <= S (height d)) by (apply HQ; congruence). lia.
      * rewrite (insert_new_height _ _ _ _ _ _ Hk Hret). pose proof (height_pos t). lia.
Qed.

Lemma returns_wf t p r t' : returns t p r t' -> wf t -> wf t'.
Proof. intros [fuel H]. eapply insert_wf; eauto. Qed.

Lemma reachable_wf t : reachable t -> wf t.
Proof. induction 1; eauto using wf_new, returns_wf. Qed.

(** With a non-negative capacity the buffer holds at most [capacity]
    points. *)
Lemma wf_buffer_within_capacity t :
  wf t -> (0 <= capacity t)%Z -> (Z.of_nat (length (points t)) <= capacity t)%Z.
Proof.
  intros Hw Hk. pose proof (wf_buffer_bound t Hw) as H.
  now rewrite (to_size_t_nonneg (wf_capacity_range t Hw) Hk) in H.
Qed.

(** ** Main theorems *)

(** The constructor builds a well-formed tree: an empty leaf, of
    height 1, for any boundary (none is checked) and any [int]
    capacity. *)
Lemma constructor_establishes_wf (b : BoundingBox) (k : Z) :
  int_range k ->
  wf (QuadTree_new b k) /\ all_points (QuadTree_new b k) = [] /\
  height (QuadTree_new b k) = 1.
Proof. intros Hk. split; [now apply wf_new | split; reflexivity]. Qed.

(** [subdivide], called on a well-formed leaf whose buffer is full,
    yields a well-formed node with the same contents whose four
    children are empty leaves with the capacity of the node and the four
    quadrants of its boundary. *)
Lemma subdivide_preserves_wf t :
  wf t -> nw t = None -> size_lt (length (points t)) (capacity t) = false ->
  wf (subdivide t) /\ all_points (subdivide t) = all_points t /\
  forall q, child q (subdivide t) =
            Some (QuadTree_new (quadrant q (boundary t)) (capacity t)).
Proof.
  intros Hw Hn Hfull. split; [now apply wf_subdivide | split].
  - pose proof (all_points_ensure_children t (wf_children_uniform t Hw)) as H.
    unfold ensure_children in H. now rewrite Hn in H.
  - intros q. apply child_subdivide.
Qed.

(** C2: [insert] preserves well-formedness, whether it accepts the point
    or not. *)
Theorem insert_preserves_wf fuel t p r t' :
  wf t -> insert fuel t p = Ok (r, t') -> wf t'.
Proof. intros Hw H. exact (insert_wf _ _ _ _ _ H Hw). Qed.

(** C29: every tree built by the constructor and calls of [insert] is
    well-formed; in particular all the points of any of its subtrees lie
    in the boundary of the root of that subtree, and the buffer of a
    node that has children is full. *)
Theorem reachable_invariant t :
  reachable t ->
  wf t /\
  Forall (fun p => contains (boundary t) p = true) (all_points t) /\
  (nw t <> None ->
   Z.of_nat (length (points t)) = to_size_t (capacity t)).
Proof.
  intros H. apply reachable_wf in H.
  split; [exact H | split; [now apply wf_bounded |]].
  intros Hn. pose proof (wf_buffer_bound t H).
  apply (wf_internal_full t H) in Hn. apply size_lt_false in Hn. lia.
Qed.

(** C14: on a tree whose children are uniform, [insert] never
    dereferences a null child pointer, whatever the fuel. *)
Theorem insert_never_null_deref fuel t p :
  shaped t -> insert fuel t p <> NullDeref.
Proof. apply insert_not_null. Qed.

(** C11: on a well-formed tree whose capacity is not zero, [insert]
    returns, and the recursion is at most [height t + 1] calls deep. *)
Theorem insert_terminates t p :
  wf t -> to_size_t (capacity t) <> 0%Z ->
  exists r t', insert (height t + 1) t p = Ok (r, t').
Proof.
  intros Hw Hk. destruct (insert_returns (height t + 1) t p Hw Hk) as [[r t'] H];
    [lia | eauto].
Qed.

End Invariant.

(** ** The samples are well-formed *)

Lemma wf_root1 : wf root1.
Proof. apply wf_new, int_range_1. Qed.

Lemma wf_leaf1 : wf leaf1.
Proof. exact (insert_wf _ _ _ _ _ insert_root1_p10 wf_root1). Qed.

Lemma wf_tree2 : wf tree2.
Proof. exact (insert_wf _ _ _ _ _ insert_leaf1_p20 wf_leaf1). Qed.

Lemma wf_tree3 : wf tree3.
Proof. exact (insert_wf _ _ _ _ _ insert_tree2_p90 wf_tree2). Qed.

Lemma reachable_tree3 : reachable tree3.
Proof.
  apply reachable_insert with tree2 p90 true; [| exists 2; exact insert_tree2_p90].
  apply reachable_insert with leaf1 p20 true; [| exists 2; exact insert_leaf1_p20].
  apply reachable_insert with root1 p10 true; [| exists 1; exact insert_root1_p10].
  apply reachable_new, int_range_1.
Qed.

(** ** The theorems at the samples *)

Lemma constructor_establishes_wf_witness :
  wf root1 /\ all_points root1 = [] /\ height root1 = 1.
Proof. apply (constructor_establishes_wf unit_box 1). exact int_range_1. Defined.

Lemma subdivide_preserves_wf_witness :
  wf (subdivide leaf1) /\ all_points (subdivide leaf1) = all_points leaf1 /\
  forall q, child q (subdivide leaf1) =
            Some (QuadTree_new (quadrant q (boundary leaf1)) (capacity leaf1)).
Proof.
  apply (subdivide_preserves_wf leaf1); [exact wf_leaf1 | reflexivity | reflexivity].
Defined.

Lemma insert_preserves_wf_witness : wf tree3.
Proof.
  apply (insert_preserves_wf 2 tree2 p90 true tree3);
    [exact wf_tree2 | exact insert_tree2_p90].
Defined.

Lemma reachable_invariant_witness :
  wf tree3 /\
  Forall (fun p => contains (boundary tree3) p = true) (all_points tree3) /\
  (nw tree3 <> None ->
   Z.of_nat (length (points tree3)) = to_size_t (capacity tree3)).
Proof. apply (reachable_invariant tree3). exact reachable_tree3. Defined.

Lemma insert_never_null_deref_witness : insert 3 tree3 p20 <> NullDeref.
Proof.
  apply (insert_never_null_deref 3 tree3 p20).
  apply shapedb_spec. vm_compute. reflexivity.
Defined.

Lemma insert_terminates_witness :
  exists r t', insert (height tree3 + 1) tree3 p20 = Ok (r, t').
Proof.
  apply (insert_terminates tree3 p20); [exact wf_tree3 | vm_compute; discriminate].
Defined.

(** The bound of [insert_terminates] is tight: a full leaf has height 1
    and a call on it needs a depth of 2. *)
Example insert_needs_height_plus_one :
  height leaf1 = 1 /\ insert 1 leaf1 p20 = OutOfFuel /\
  insert 2 leaf1 p20 = Ok (true, tree2).
Proof. vm_compute. repeat split; reflexivity. Qed.

(** On a node with a single child, which no operation builds, the code
    dereferences the null pointer [ne]. *)
Example insert_partial_children_null_deref : insert 2 broken p90 = NullDeref.
Proof. vm_compute. reflexivity. Qed.
