(* ===== verification/Query.v ===== *)
(** * Query: [queryRange] against its reference definition

    [queryRange] appends to [results] the points of the subtree that
    lie in the range, and skips every subtree whose boundary does not
    intersect the range.  Three layers:

    - [query_ref], the list the traversal produces, defined by the same
      recursion without the accumulator: [queryRange] computes it on
      every tree with uniform children, in any arithmetic;
    - the reference definition [filter (contains range) (all_points t)],
      which never prunes: on a well-formed tree and in an ordered
      arithmetic [query_ref] agrees with it, so pruning loses nothing;
    - the consequences for a caller: a range that misses the root
      returns nothing, the root's own boundary returns everything. *)

From Stdlib Require Import ZArith Bool List Lia Permutation.
From S2P Require Import Prelude Coord CoordFloat Geometry QuadTree Samples.
From S2P Require Import Insert Invariant.
Import ListNotations.

#[local] Open Scope outcome_scope.

Section Query.
Context {C : Coord}.
Implicit Types (t c : QuadTree) (p : Point) (range : BoundingBox).

(** ** The list a traversal produces *)

Fixpoint query_ref t range : list Point :=
  if negb (intersects (boundary t) range) then []
  else
    filter (contains range) (points t) ++
    opt_list (fun c => query_ref c range) (nw t) ++
    opt_list (fun c => query_ref c range) (ne t) ++
    opt_list (fun c => query_ref c range) (sw t) ++
    opt_list (fun c => query_ref c range) (se t).

Lemma query_ref_eq t range :
  query_ref t range =
  if negb (intersects (boundary t) range) then []
  else
    filter (contains range) (points t) ++
    opt_list (fun c => query_ref c range) (nw t) ++
    opt_list (fun c => query_ref c range) (ne t) ++
    opt_list (fun c => query_ref c range) (sw t) ++
    opt_list (fun c => query_ref c range) (se t).
Proof. destruct t; reflexivity. Qed.

(** ** [queryRange] computes [query_ref] *)

Lemma queryRange_ref t range :
  shaped t ->
  forall results, queryRange t range results = Ok (results ++ query_ref t range).
Proof.
  induction t as [t H1 H2 H3 H4] using QuadTree_ind. intros Hs results.
  rewrite queryRange_eq, query_ref_eq.
  destruct (negb (intersects (boundary t) range)); [now rewrite app_nil_r |].
  cbv zeta. rewrite push_filter_spec.
  apply shaped_eq in Hs. destruct Hs as (Hu & S1 & S2 & S3 & S4).
  destruct Hu as [(E1 & E2 & E3 & E4) | (a & b & c & d & E1 & E2 & E3 & E4)].
  - rewrite E1, E2, E3, E4; simpl. now rewrite app_nil_r.
  - rewrite E1, E2, E3, E4 in *; simpl in *.
    rewrite (H1 S1); simpl. rewrite (H2 S2); simpl. rewrite (H3 S3); simpl.
    rewrite (H4 S4). now rewrite <- !app_assoc.
Qed.

(** ** [query_ref] selects points of the tree that lie in the range *)

Lemma opt_list_In {A B : Type} (f : A -> list B) (o : option A) (b : B) :
  In b (opt_list f o) <-> exists a, o = Some a /\ In b (f a).
Proof.
  destruct o; simpl; split.
  - eauto.
  - intros (a0 & E & H). now inv E.
  - tauto.
  - intros (a0 & E & _). discriminate.
Qed.

Lemma all_points_In t p :
  In p (all_points t) <->
  In p (points t) \/ exists q c, child q t = Some c /\ In p (all_points c).
Proof.
  rewrite all_points_eq, !in_app_iff, !opt_list_In. split.
  - intros [H | [H | [H | [H | H]]]]; auto; destruct H as (c & E & H); right.
    + exists NW, c; auto.
    + exists NE, c; auto.
    + exists SW, c; auto.
    + exists SE, c; auto.
  - intros [H | (q & c & E & H)]; auto. destruct q; simpl in E; eauto 10.
Qed.

Lemma query_ref_In t range p :
  In p (query_ref t range) -> contains range p = true /\ In p (all_points t).
Proof.
  induction t as [t H1 H2 H3 H4] using QuadTree_ind.
  rewrite query_ref_eq.
  destruct (negb (intersects (boundary t) range)); [intros [] |].
  rewrite !in_app_iff, filter_In, !opt_list_In, all_points_In.
  intros [[Hp Hc] | [H | [H | [H | H]]]]; auto;
    destruct H as (c & E & H); rewrite E in *; simpl in *.
  - destruct (H1 H). split; [assumption | right; exists NW, c; auto].
  - destruct (H2 H). split; [assumption | right; exists NE, c; auto].
  - destruct (H3 H). split; [assumption | right; exists SW, c; auto].
  - destruct (H4 H). split; [assumption | right; exists SE, c; auto].
Qed.

(** ** Pruning loses nothing *)

Section Order.
Context {O : CoordOrder C}.

Lemma opt_list_query_ref_filter t q range :
  wf t ->
  opt_all (fun c => wf c ->
    query_ref c range = filter (contains range) (all_points c)) (child q t) ->
  opt_list (fun c => query_ref c range) (child q t) =
  filter (contains range) (opt_list all_points (child q t)).
Proof.
  intros Hw H. destruct (child q t) as [c |] eqn:E; simpl in *; [| reflexivity].
  apply H. now apply (wf_child q t c Hw).
Qed.

Lemma query_ref_filter t range :
  wf t -> query_ref t range = filter (contains range) (all_points t).
Proof.
  induction t as [t H1 H2 H3 H4] using QuadTree_ind. intros Hw.
  rewrite query_ref_eq.
  destruct (intersects (boundary t) range) eqn:Hi; cbn [negb].
  - pose proof (opt_list_query_ref_filter t NW range Hw H1) as E1.
    pose proof (opt_list_query_ref_filter t NE range Hw H2) as E2.
    pose proof (opt_list_query_ref_filter t SW range Hw H3) as E3.
    pose proof (opt_list_query_ref_filter t SE range Hw H4) as E4.
    cbn [child] in E1, E2, E3, E4.
    now rewrite (all_points_eq t), !filter_app, E1, E2, E3, E4.
  - symmetry. eapply filter_contains_pruned; eauto using wf_bounded.
Qed.

Lemma queryRange_filter t range results :
  wf t ->
  queryRange t range results = Ok (results ++ filter (contains range) (all_points t)).
Proof.
  intros Hw. rewrite (queryRange_ref t range (wf_shaped t Hw)).
  now rewrite query_ref_filter.
Qed.

Lemma insert_filter_contents fuel t p r t' range :
  wf t -> insert fuel t p = Ok (r, t') ->
  Permutation (filter (contains range) (all_points t'))
    (if r && contains range p then p :: filter (contains range) (all_points t)
     else filter (contains range) (all_points t)).
Proof.
  intros Hw H.
  destruct (insert_shaped_contents _ _ _ _ _ H (wf_shaped t Hw)) as [_ Hc].
  unfold contents_step in Hc. destruct r; simpl; [| now rewrite Hc].
  apply inserted_at_Permutation in Hc.
  apply (Permutation_filter (contains range)) in Hc. simpl in Hc.
  symmetry. destruct (contains range p); exact Hc.
Qed.

(** ** Main theorems *)

(** C1: in an ordered arithmetic, [queryRange] on a well-formed tree
    appends to [results] exactly the points of the tree that lie in the
    range, in the order of the traversal (buffer, then NW, NE, SW, SE):
    pruning by [intersects] loses no point. *)
Theorem queryRange_correct t range results :
  wf t ->
  queryRange t range results =
  Ok (results ++ filter (contains range) (all_points t)).
Proof. apply queryRange_filter. Qed.

(** In an ordered arithmetic, a query with the boundary of the root
    as its range returns every point of a well-formed tree. *)
Lemma queryRange_root_region t :
  wf t -> queryRange t (boundary t) [] = Ok (all_points t).
Proof.
  intros Hw. rewrite queryRange_filter by assumption. simpl. f_equal.
  apply filter_all_true. apply Forall_forall. now apply wf_bounded.
Qed.

(** In an ordered arithmetic, a query after an accepted [insert]
    returns the point (if it lies in the range) and what the query
    returned before, up to order. *)
Lemma query_after_insert fuel t p t' range l l' :
  wf t -> insert fuel t p = Ok (true, t') ->
  queryRange t range [] = Ok l -> queryRange t' range [] = Ok l' ->
  Permutation l' (if contains range p then p :: l else l).
Proof.
  intros Hw Hi Hq Hq'.
  rewrite queryRange_filter in Hq by assumption.
  rewrite queryRange_filter in Hq' by eauto using insert_wf.
  inv Hq. inv Hq'. simpl.
  exact (insert_filter_contents _ _ _ _ _ range Hw Hi).
Qed.

(** In an ordered arithmetic, a refused [insert] changes the result
    of no query, although it may have subdivided nodes on its way. *)
Lemma query_after_rejected_insert fuel t p t' range results :
  wf t -> insert fuel t p = Ok (false, t') ->
  queryRange t' range results = queryRange t range results.
Proof.
  intros Hw Hi.
  rewrite (queryRange_filter t) by assumption.
  rewrite (queryRange_filter t') by eauto using insert_wf.
  destruct (insert_shaped_contents _ _ _ _ _ Hi (wf_shaped t Hw)) as [_ Hc].
  unfold contents_step in Hc. now rewrite Hc.
Qed.

(** C26: a refused point leaves no trace.  In an ordered arithmetic and
    on a well-formed tree, [insert] of a point outside the boundary
    returns [false] at once and leaves the tree as it was; and whenever
    [insert] returns [false], also after it has subdivided nodes on its
    way, the tree holds the points it held, in the same order, and
    every query returns what it returned before. *)
Theorem insert_refused_unobservable fuel t p :
  wf t ->
  (contains (boundary t) p = false -> insert (S fuel) t p = Ok (false, t)) /\
  (forall t', insert fuel t p = Ok (false, t') ->
     all_points t' = all_points t /\
     forall range results,
       queryRange t' range results = queryRange t range results).
Proof.
  intros Hw. split; [apply insert_rejects_outside |]. intros t' Hi. split.
  - now destruct (insert_shaped_contents _ _ _ _ _ Hi (wf_shaped t Hw)).
  - intros range results. eapply query_after_rejected_insert; eauto.
Qed.

End Order.

(** In any arithmetic, on a tree with uniform children,
    [queryRange] returns normally, keeps [results] as a prefix of what it
    returns, and appends only points that are stored in the tree and
    lie in the range. *)
Lemma queryRange_sound t range results :
  shaped t ->
  exists l, queryRange t range results = Ok (results ++ l) /\
    forall p, In p l -> contains range p = true /\ In p (all_points t).
Proof.
  intros Hs. exists (query_ref t range).
  split; [now apply queryRange_ref | apply query_ref_In].
Qed.

(** A range that the boundary of the node does not intersect is
    answered at the node: [results] is returned unchanged and no child
    is visited, whatever the shape of the tree. *)
Lemma queryRange_disjoint t range results :
  intersects (boundary t) range = false -> queryRange t range results = Ok results.
Proof. intros H. rewrite queryRange_eq, H. reflexivity. Qed.

End Query.

Lemma queryRange_correct_witness :
  queryRange tree3 corner_box [p10] =
  Ok ([p10] ++ filter (contains corner_box) (all_points tree3)).
Proof. apply (queryRange_correct tree3 corner_box [p10]). exact wf_tree3. Defined.

Lemma queryRange_root_region_witness :
  queryRange tree3 (boundary tree3) [] = Ok (all_points tree3).
Proof. apply (queryRange_root_region tree3). exact wf_tree3. Defined.

Lemma query_after_insert_witness :
  Permutation [p90] (if contains corner_box p90 then [p90] else []).
Proof.
  apply (query_after_insert 2 tree2 p90 tree3 corner_box [] [p90]).
  - exact wf_tree2.
  - exact insert_tree2_p90.
  - vm_compute. reflexivity.
  - vm_compute. reflexivity.
Defined.

Lemma query_after_rejected_insert_witness :
  queryRange tree3 unit_box [] = queryRange tree3 unit_box [].
Proof.
  apply (query_after_rejected_insert 3 tree3 p_out tree3 unit_box []).
  - exact wf_tree3.
  - vm_compute. reflexivity.
Defined.

Lemma queryRange_sound_witness :
  exists l, queryRange tree3 corner_box [] = Ok ([] ++ l) /\
    forall p, In p l -> contains corner_box p = true /\ In p (all_points tree3).
Proof.
  apply (queryRange_sound tree3 corner_box []).
  apply shapedb_spec. vm_compute. reflexivity.
Defined.

Lemma queryRange_disjoint_witness : queryRange tree3 far_box [p10] = Ok [p10].
Proof. apply (queryRange_disjoint tree3 far_box [p10]). vm_compute. reflexivity. Defined.

(** On a node with a single child, which no operation builds, the
    traversal dereferences the null pointer [ne]. *)
Example queryRange_partial_children_null_deref :
  queryRange broken unit_box [] = NullDeref.
Proof. vm_compute. reflexivity. Qed.

Lemma insert_refused_unobservable_witness :
  (contains (boundary tree3) p_out = false -> insert 3 tree3 p_out = Ok (false, tree3)) /\
  (forall t', insert 2 tree3 p_out = Ok (false, t') ->
     all_points t' = all_points tree3 /\
     forall range results,
       queryRange t' range results = queryRange tree3 range results).
Proof. apply (insert_refused_unobservable 2 tree3 p_out), wf_tree3. Defined.
