(* ===== verification/Traversal.v ===== *)
(** * Traversal: the calls a query makes

    [queryRange] (lines 60-76 of [src/Code.cpp]) returns at once from a
    node whose boundary the range misses, and otherwise tests every
    point of the node's buffer and calls itself on the four children.
    What it returns is the subject of [Query]; this file is about the
    work it does.

    [queryRange_traced] is [queryRange] with a log, a ghost variable
    that the code does not have: each call appends one event, [Pruned]
    for a call that returns at the first test and [Scanned] with the
    number of [contains] tests otherwise.  Erasing the log gives
    [queryRange] back on every tree, the ill-shaped ones with their
    null dereference included.

    The theorems: the log is [visits], defined by recursion on the
    tree; on a tree whose regions are nested ([nested], true of every
    well-formed tree over a root that is cut between its bounds: a
    valid root when midpoints are exact, on doubles a valid root with
    bounds below [2 ^ 1023] in magnitude) the nodes scanned are exactly
    the nodes whose region meets the range, in pre-order, so that
    pruning skips no such node and scans no other; the number of calls
    is at most one plus four per scanned node, and the number of
    [contains] tests at most the capacity per scanned node. *)

From Stdlib Require Import ZArith Bool List Lia.
From S2P Require Import Prelude Coord CoordFloat CoordQ Geometry QuadTree Samples.
From S2P Require Import Insert Invariant Query.
Import ListNotations.

#[local] Open Scope outcome_scope.

Section Traversal.
Context {C : Coord}.
Implicit Types (t c : QuadTree) (range b : BoundingBox) (results : list Point).

(** ** The log *)

Inductive Event : Type :=
| Pruned (b : BoundingBox)
| Scanned (b : BoundingBox) (tests : nat).

(** The regions of the nodes whose buffer was scanned, the number of
    [contains] tests, and the number of calls. *)
Definition scanned (tr : list Event) : list BoundingBox :=
  flat_map (fun e => match e with Scanned b _ => [b] | Pruned _ => [] end) tr.

Definition tests (tr : list Event) : nat :=
  list_sum (map (fun e => match e with Scanned _ n => n | Pruned _ => 0 end) tr).

Definition calls (tr : list Event) : nat := length tr.

(** ** [queryRange] with the log *)

Definition visit_child
    (query : QuadTree -> list Point * list Event -> outcome (list Point * list Event))
    (c : option QuadTree) (st : list Point * list Event)
    : outcome (list Point * list Event) :=
  match c with
  | None => NullDeref
  | Some c' => query c' st
  end.

Fixpoint queryRange_traced t range (st : list Point * list Event)
    : outcome (list Point * list Event) :=
  if negb (intersects (boundary t) range)
  then Ok (fst st, snd st ++ [Pruned (boundary t)])
  else
    let st := (push_filter (contains range) (points t) (fst st),
               snd st ++ [Scanned (boundary t) (length (points t))]) in
    match nw t with
    | None => Ok st
    | Some c =>
        st <- queryRange_traced c range st ;;
        st <- visit_child (fun c' => queryRange_traced c' range) (ne t) st ;;
        st <- visit_child (fun c' => queryRange_traced c' range) (sw t) st ;;
        visit_child (fun c' => queryRange_traced c' range) (se t) st
    end.

(** ** The log by recursion on the tree *)

Fixpoint visits t range : list Event :=
  if negb (intersects (boundary t) range) then [Pruned (boundary t)]
  else
    Scanned (boundary t) (length (points t)) ::
    opt_list (fun c => visits c range) (nw t) ++
    opt_list (fun c => visits c range) (ne t) ++
    opt_list (fun c => visits c range) (sw t) ++
    opt_list (fun c => visits c range) (se t).

(** The regions of the nodes of the subtree, in pre-order. *)
Fixpoint regions t : list BoundingBox :=
  boundary t ::
  opt_list regions (nw t) ++ opt_list regions (ne t) ++
  opt_list regions (sw t) ++ opt_list regions (se t).

(** Every child's region lies within its parent's. *)
Definition within t (o : option QuadTree) (rec : QuadTree -> bool) : bool :=
  match o with
  | Some c => inside (boundary c) (boundary t) && rec c
  | None => true
  end.

Fixpoint nested t : bool :=
  within t (nw t) nested && within t (ne t) nested &&
  within t (sw t) nested && within t (se t) nested.

(** ** Unfolding *)

Lemma queryRange_traced_eq t range st :
  queryRange_traced t range st =
  if negb (intersects (boundary t) range)
  then Ok (fst st, snd st ++ [Pruned (boundary t)])
  else
    let st := (push_filter (contains range) (points t) (fst st),
               snd st ++ [Scanned (boundary t) (length (points t))]) in
    match nw t with
    | None => Ok st
    | Some c =>
        st <- queryRange_traced c range st ;;
        st <- visit_child (fun c' => queryRange_traced c' range) (ne t) st ;;
        st <- visit_child (fun c' => queryRange_traced c' range) (sw t) st ;;
        visit_child (fun c' => queryRange_traced c' range) (se t) st
    end.
Proof. destruct t; reflexivity. Qed.

Lemma visits_eq t range :
  visits t range =
  if negb (intersects (boundary t) range) then [Pruned (boundary t)]
  else
    Scanned (boundary t) (length (points t)) ::
    opt_list (fun c => visits c range) (nw t) ++
    opt_list (fun c => visits c range) (ne t) ++
    opt_list (fun c => visits c range) (sw t) ++
    opt_list (fun c => visits c range) (se t).
Proof. destruct t; reflexivity. Qed.

Lemma regions_eq t :
  regions t =
  boundary t ::
  opt_list regions (nw t) ++ opt_list regions (ne t) ++
  opt_list regions (sw t) ++ opt_list regions (se t).
Proof. destruct t; reflexivity. Qed.

Lemma nested_eq t :
  nested t =
  within t (nw t) nested && within t (ne t) nested &&
  within t (sw t) nested && within t (se t) nested.
Proof. destruct t; reflexivity. Qed.

Lemma scanned_app (tr tr' : list Event) : scanned (tr ++ tr') = scanned tr ++ scanned tr'.
Proof. apply flat_map_app. Qed.

Lemma tests_app (tr tr' : list Event) : tests (tr ++ tr') = tests tr + tests tr'.
Proof. unfold tests. now rewrite map_app, list_sum_app. Qed.

(** ** Erasing the log *)

Lemma visit_child_erase range (o : option QuadTree) st results :
  opt_all (fun c => forall st results, fst st = results ->
    outcome_rel (fun st' r => fst st' = r)
      (queryRange_traced c range st) (queryRange c range results)) o ->
  fst st = results ->
  outcome_rel (fun st' r => fst st' = r)
    (visit_child (fun c' => queryRange_traced c' range) o st)
    (query_child (fun c' => queryRange c' range) o results).
Proof. destruct o; simpl; [intros H; apply H | reflexivity]. Qed.

Lemma queryRange_traced_erase t range :
  forall st results, fst st = results ->
  outcome_rel (fun st' r => fst st' = r)
    (queryRange_traced t range st) (queryRange t range results).
Proof.
  induction t as [t H1 H2 H3 H4] using QuadTree_ind. intros st results <-.
  rewrite queryRange_traced_eq, queryRange_eq.
  destruct (negb (intersects (boundary t) range)); [reflexivity |]. cbv zeta.
  destruct (nw t) as [c |]; [| reflexivity]. simpl in H1.
  repeat (eapply outcome_rel_bind; [| intros ? ? ?]);
    eauto using visit_child_erase.
Qed.

(** ** The log of a call *)

Lemma queryRange_traced_visits t range :
  shaped t ->
  forall results tr,
    queryRange_traced t range (results, tr) =
    Ok (results ++ query_ref t range, tr ++ visits t range).
Proof.
  induction t as [t H1 H2 H3 H4] using QuadTree_ind. intros Hs results tr.
  rewrite queryRange_traced_eq, query_ref_eq, visits_eq.
  destruct (negb (intersects (boundary t) range)); [now rewrite app_nil_r |].
  cbv zeta. cbn [fst snd]. rewrite push_filter_spec.
  apply shaped_eq in Hs. destruct Hs as (Hu & S1 & S2 & S3 & S4).
  destruct Hu as [(E1 & E2 & E3 & E4) | (a & b & c & d & E1 & E2 & E3 & E4)].
  - rewrite E1, E2, E3, E4; simpl. now rewrite app_nil_r.
  - rewrite E1, E2, E3, E4 in *; simpl in *.
    rewrite (H1 S1); simpl. rewrite (H2 S2); simpl. rewrite (H3 S3); simpl.
    rewrite (H4 S4). f_equal. f_equal; [now rewrite <- !app_assoc |].
    now rewrite <- !app_assoc.
Qed.

(** ** The calls: at most one plus four per scanned node *)

Lemma calls_visits t range :
  calls (visits t range) <= 1 + 4 * length (scanned (visits t range)).
Proof.
  unfold calls. induction t as [t H1 H2 H3 H4] using QuadTree_ind.
  rewrite visits_eq. destruct (negb (intersects (boundary t) range)); [simpl; lia |].
  change (scanned (?e :: ?l)) with (boundary t :: scanned l).
  cbn [length]. rewrite !scanned_app, !length_app.
  destruct (nw t), (ne t), (sw t), (se t); simpl in *; lia.
Qed.

(** ** The tests: at most the capacity per scanned node *)

Lemma opt_tests_bound t q range :
  wf t ->
  (forall c, child q t = Some c -> wf c ->
     (Z.of_nat (tests (visits c range)) <=
      to_size_t (capacity c) * Z.of_nat (length (scanned (visits c range))))%Z) ->
  (Z.of_nat (tests (opt_list (fun c => visits c range) (child q t))) <=
   to_size_t (capacity t) *
   Z.of_nat (length (scanned (opt_list (fun c => visits c range) (child q t)))))%Z.
Proof.
  intros Hw IH. destruct (child q t) as [c |] eqn:Hq; [| simpl; lia].
  destruct (wf_child _ _ _ Hw Hq) as [[_ <-] Hc]. now apply IH.
Qed.

Lemma tests_visits t range :
  wf t ->
  (Z.of_nat (tests (visits t range)) <=
   to_size_t (capacity t) * Z.of_nat (length (scanned (visits t range))))%Z.
Proof.
  induction t as [t IH] using QuadTree_child_ind. intros Hw.
  pose proof (fun q => opt_tests_bound t q range Hw (IH q)) as Hq.
  pose proof (Hq NW) as H1. pose proof (Hq NE) as H2.
  pose proof (Hq SW) as H3. pose proof (Hq SE) as H4. simpl in H1, H2, H3, H4.
  destruct (wf_node_ok _ Hw) as (_ & Hb & _).
  rewrite visits_eq. destruct (negb (intersects (boundary t) range)); [simpl; lia |].
  change (scanned (?e :: ?l)) with (boundary t :: scanned l).
  change (tests (Scanned ?b ?n :: ?l)) with (n + tests l).
  cbn [length]. rewrite !scanned_app, !tests_app, !length_app. lia.
Qed.

(** ** The nodes scanned: those whose region meets the range *)

Section Chain.
Context {K : CoordChain C}.

Lemma within_pruned t range (o : option QuadTree) :
  opt_all (fun c => nested c = true -> intersects (boundary c) range = false ->
    filter (fun b => intersects b range) (regions c) = []) o ->
  within t o nested = true -> intersects (boundary t) range = false ->
  filter (fun b => intersects b range) (opt_list regions o) = [].
Proof.
  destruct o as [c |]; simpl; [| reflexivity].
  rewrite andb_true_iff. intros IH [Hi Hn] Ht. apply IH; [exact Hn |].
  apply not_true_is_false. intros Hc.
  now rewrite (intersects_inside _ _ _ Hi Hc) in Ht.
Qed.

(** Below a node that the range misses there is no node that it meets. *)
Lemma regions_pruned t range :
  nested t = true -> intersects (boundary t) range = false ->
  filter (fun b => intersects b range) (regions t) = [].
Proof.
  induction t as [t H1 H2 H3 H4] using QuadTree_ind.
  rewrite nested_eq, !andb_true_iff. intros [[[N1 N2] N3] N4] Ht.
  rewrite regions_eq. cbn [filter]. rewrite Ht, !filter_app.
  now rewrite !(within_pruned t range) by assumption.
Qed.

Lemma within_scanned t range (o : option QuadTree) :
  opt_all (fun c => nested c = true ->
    scanned (visits c range) = filter (fun b => intersects b range) (regions c)) o ->
  within t o nested = true ->
  scanned (opt_list (fun c => visits c range) o) =
  filter (fun b => intersects b range) (opt_list regions o).
Proof.
  destruct o as [c |]; simpl; [| reflexivity].
  rewrite andb_true_iff. intros IH [_ Hn]. now apply IH.
Qed.

Lemma scanned_visits t range :
  nested t = true ->
  scanned (visits t range) = filter (fun b => intersects b range) (regions t).
Proof.
  induction t as [t H1 H2 H3 H4] using QuadTree_ind. intros Hn.
  rewrite visits_eq. destruct (intersects (boundary t) range) eqn:Ht; simpl negb; cbv iota.
  - rewrite nested_eq, !andb_true_iff in Hn. destruct Hn as [[[N1 N2] N3] N4].
    rewrite regions_eq. cbn [filter]. rewrite Ht, !filter_app.
    change (scanned (?e :: ?l)) with (boundary t :: scanned l).
    rewrite !scanned_app. now rewrite !(within_scanned t range) by assumption.
  - now rewrite regions_pruned.
Qed.

End Chain.

(** ** Well-formed trees are nested *)

Section Halving.
Context {O : CoordOrder C} {good : BoundingBox -> Prop} {H : Halving good}.

Lemma quadrant_inside q b : good b -> inside (quadrant q b) b = true.
Proof.
  intros G. destruct (quadrants_inside_box b G) as (? & ? & ? & ?).
  now destruct q.
Qed.

Lemma within_child t q :
  wf t -> good (boundary t) ->
  (forall c, child q t = Some c -> wf c -> good (boundary c) -> nested c = true) ->
  within t (child q t) nested = true.
Proof.
  intros Hw G IH. destruct (child q t) as [c |] eqn:Hq; [| reflexivity].
  destruct (wf_child _ _ _ Hw Hq) as [[Hb _] Hc]. simpl.
  rewrite Hb, (quadrant_inside q _ G). apply IH; [reflexivity | exact Hc |].
  rewrite Hb. now apply good_quadrant.
Qed.

(** A well-formed tree over a box that is cut between its bounds has
    every region within the region of its parent. *)
Lemma wf_nested t : wf t -> good (boundary t) -> nested t = true.
Proof.
  induction t as [t IH] using QuadTree_child_ind. intros Hw G.
  pose proof (fun q => within_child t q Hw G (IH q)) as Hq.
  rewrite nested_eq, !andb_true_iff.
  repeat split; [apply (Hq NW) | apply (Hq NE) | apply (Hq SW) | apply (Hq SE)].
Qed.

(** Every region of such a tree is a box of the class. *)
Lemma regions_good t : wf t -> good (boundary t) -> Forall good (regions t).
Proof.
  induction t as [t IH] using QuadTree_child_ind. intros Hw G.
  assert (Hq : forall q, Forall good (opt_list regions (child q t))).
  { intros q. destruct (child q t) as [c |] eqn:Hc; [| constructor]. simpl.
    destruct (wf_child _ _ _ Hw Hc) as [[Hb _] Hwc]. apply (IH q c Hc Hwc).
    rewrite Hb. now apply good_quadrant. }
  rewrite regions_eq. constructor; [exact G |]. rewrite !Forall_app.
  repeat split; [apply (Hq NW) | apply (Hq NE) | apply (Hq SW) | apply (Hq SE)].
Qed.

End Halving.

(** ** Main theorems *)

(** C32: [queryRange] scans the nodes whose region meets the range and
    no others.  On a tree with uniform children whose regions are
    nested, a call returns what [queryRange] returns and appends to the
    log one event per call it makes; the nodes whose buffer it scans
    are exactly the nodes of the tree whose boundary intersects the
    range, in pre-order, and it makes at most one call plus four per
    scanned node. *)
Theorem queryRange_scans_intersecting {K : CoordChain C} t range results tr :
  shaped t -> nested t = true ->
  exists res tr',
    queryRange_traced t range (results, tr) = Ok (res, tr ++ tr') /\
    queryRange t range results = Ok res /\
    scanned tr' = filter (fun b => intersects b range) (regions t) /\
    calls tr' <= 1 + 4 * length (scanned tr').
Proof.
  intros Hs Hn. exists (results ++ query_ref t range), (visits t range).
  split; [now apply queryRange_traced_visits |].
  split; [now apply queryRange_ref |].
  split; [now apply scanned_visits | apply calls_visits].
Qed.

(** C34: the [contains] tests of a query are bounded by the nodes it
    scans.  On a well-formed tree a call of [queryRange] evaluates
    [range.contains] at most capacity times per scanned node, the
    capacity read as the [size_t] it is compared as; a range that
    misses the root costs one call and no test. *)
Theorem queryRange_tests_bound t range results tr :
  wf t ->
  exists res tr',
    queryRange_traced t range (results, tr) = Ok (res, tr ++ tr') /\
    queryRange t range results = Ok res /\
    (Z.of_nat (tests tr') <=
     to_size_t (capacity t) * Z.of_nat (length (scanned tr')))%Z /\
    (intersects (boundary t) range = false ->
     res = results /\ tr' = [Pruned (boundary t)]).
Proof.
  intros Hw. pose proof (wf_shaped _ Hw) as Hs.
  exists (results ++ query_ref t range), (visits t range).
  split; [now apply queryRange_traced_visits |].
  split; [now apply queryRange_ref |].
  split; [now apply tests_visits |].
  intros Ht. rewrite query_ref_eq, visits_eq, Ht. simpl. now rewrite app_nil_r.
Qed.

End Traversal.

(** ** On the samples *)

(** The query of the specification's scenario on doubles: the range
    [[60,100] x [60,100]] on the tree of three points.  Five calls: the
    root and the south-east child are scanned, the three other children
    are pruned; two [contains] tests. *)
Example traversal_sample :
  queryRange_traced tree3 corner_box ([], []) =
  Ok ([p90],
      [Scanned unit_box 1; Pruned (quadrant NW unit_box); Pruned (quadrant NE unit_box);
       Pruned (quadrant SW unit_box); Scanned (quadrant SE unit_box) 1]).
Proof. reflexivity. Qed.

Lemma nested_tree3 : nested tree3 = true.
Proof. reflexivity. Qed.

Lemma queryRange_scans_intersecting_witness :
  exists res tr',
    queryRange_traced tree3 corner_box ([], []) = Ok (res, [] ++ tr') /\
    queryRange tree3 corner_box [] = Ok res /\
    scanned tr' = filter (fun b => intersects b corner_box) (regions tree3) /\
    calls tr' <= 1 + 4 * length (scanned tr').
Proof.
  apply queryRange_scans_intersecting;
    [apply shapedb_spec; reflexivity | exact nested_tree3].
Defined.

Lemma queryRange_tests_bound_witness :
  exists res tr',
    queryRange_traced tree3 far_box ([p10], []) = Ok (res, [] ++ tr') /\
    queryRange tree3 far_box [p10] = Ok res /\
    (Z.of_nat (tests tr') <=
     to_size_t (capacity tree3) * Z.of_nat (length (scanned tr')))%Z /\
    (intersects (boundary tree3) far_box = false ->
     res = [p10] /\ tr' = [Pruned (boundary tree3)]).
Proof. apply queryRange_tests_bound, wf_tree3. Defined.

(** On the rationals every well-formed tree over a valid root is
    nested, so the scanned nodes of any query on it are the nodes that
    meet the range. *)
Example scans_on_rationals (t : QuadTree (C := Qcoord)) range :
  wf t -> valid_box (boundary t) = true ->
  scanned (visits t range) = filter (fun b => intersects b range) (regions t).
Proof.
  intros Hw V. apply scanned_visits, (wf_nested (good := fun b => valid_box b = true)); auto.
Qed.
