(* ===== verification/Acceptance.v ===== *)
(** * Acceptance: when [insert] accepts, refuses, or does not return

    - The specification describes [insert] with a leaf test in front
      of the buffer test; the code has none.  [insert_spec] is the
      specification's version, and on well-formed trees the two agree:
      a node with children has a full buffer.
    - On a [Covering] class of boxes (all boxes when [<=] is total; on
      binary64 the boxes of numbers of [Binary64]) the four quadrants
      cover the box, so a point inside the boundary of a well-formed
      tree of non-zero capacity is always accepted; the value [insert]
      returns says whether the point is inside, and a point handed to
      the children goes to the first quadrant that contains it.
    - With capacity 0 no buffer ever takes a point: a call on a point
      inside the boundary subdivides without end and never returns.
    - A negative capacity is converted to a huge [size_t]: the buffer
      test succeeds for any realistic size and the node never
      subdivides. *)

From Stdlib Require Import ZArith Bool List Lia QArith.
From S2P Require Import Prelude Coord CoordFloat CoordQ Geometry Binary64 QuadTree Samples.
From S2P Require Import Insert Invariant.
Import ListNotations.

#[local] Close Scope Q_scope.
#[local] Open Scope outcome_scope.

Section Acceptance.
Context {C : Coord}.
Implicit Types (t c : QuadTree) (p : Point) (q : Quadrant) (r : bool).

(** ** The specification's [insert] *)

(** Section 4.3 of the specification, step 2: the point goes to the
    buffer if the node is still a leaf and the buffer is not full. *)
Fixpoint insert_spec (fuel : nat) t p : outcome (bool * QuadTree) :=
  match fuel with
  | O => OutOfFuel
  | S fuel' =>
      if negb (contains (boundary t) p) then Ok (false, t)
      else if is_null (nw t) && size_lt (length (points t)) (capacity t)
      then Ok (true, push_back t p)
      else try_children (fun c => insert_spec fuel' c p) quadrants (ensure_children t)
  end.

(** The first quadrant of [b], in the order the children are tried,
    that contains [p]. *)
Definition first_quadrant (b : BoundingBox) p : option Quadrant :=
  find (fun q => contains (quadrant q b) p) quadrants.

(** ** Lemmas *)

Lemma insert_spec_S fuel t p :
  insert_spec (S fuel) t p =
  if negb (contains (boundary t) p) then Ok (false, t)
  else if is_null (nw t) && size_lt (length (points t)) (capacity t)
  then Ok (true, push_back t p)
  else try_children (fun c => insert_spec fuel c p) quadrants (ensure_children t).
Proof. reflexivity. Qed.

Lemma wf_leaf_test t :
  wf t ->
  is_null (nw t) && size_lt (length (points t)) (capacity t) =
  size_lt (length (points t)) (capacity t).
Proof.
  intros Hw. destruct (nw t) eqn:Hn; simpl; [| reflexivity].
  symmetry. apply (wf_internal_full t Hw). congruence.
Qed.

Lemma insert_spec_insert fuel t p : wf t -> insert_spec fuel t p = insert fuel t p.
Proof.
  revert t. induction fuel as [| fuel IH]; intros t Hw; [reflexivity |].
  rewrite insert_S, insert_spec_S, (wf_leaf_test t Hw).
  destruct (negb (contains (boundary t) p)); [reflexivity |].
  destruct (size_lt _ _) eqn:Hfull; [reflexivity |].
  apply try_children_congr; [apply quadrants_NoDup |].
  intros q c _ Hq. apply IH.
  now apply (wf_child q _ c (wf_ensure_children t Hw Hfull)).
Qed.

Lemma insert_outside fuel t p :
  contains (boundary t) p = false ->
  insert fuel t p = OutOfFuel \/ insert fuel t p = Ok (false, t).
Proof.
  intros H. destruct fuel; [now left | right].
  rewrite insert_S, H. reflexivity.
Qed.

Lemma try_children_out_of_fuel (ins : QuadTree -> outcome (bool * QuadTree)) qs t :
  NoDup qs ->
  (forall q, In q qs -> exists c, child q t = Some c /\
     (ins c = OutOfFuel \/ exists c', ins c = Ok (false, c'))) ->
  (exists q c, In q qs /\ child q t = Some c /\ ins c = OutOfFuel) ->
  try_children ins qs t = OutOfFuel.
Proof.
  intros Hnd. revert t.
  induction Hnd as [| q qs Hq Hnd IH]; intros t Hall (q0 & c0 & Hin & Hc0 & Hf).
  - destruct Hin.
  - simpl. destruct (Hall q (or_introl eq_refl)) as (c & Hc & [Ho | [c' Ho]]);
      rewrite Hc; simpl; rewrite Ho; simpl; [reflexivity |].
    destruct Hin as [-> | Hin]; [congruence |].
    apply IH.
    + intros q' Hq'. rewrite child_set_child_other by congruence.
      apply Hall. now right.
    + exists q0, c0. rewrite child_set_child_other by congruence. auto.
Qed.

Lemma insert_new_accepts fuel (b : BoundingBox) k p :
  to_size_t k <> 0%Z -> contains b p = true ->
  insert (S fuel) (QuadTree_new b k) p = Ok (true, push_back (QuadTree_new b k) p).
Proof.
  intros Hk Hc. rewrite insert_S; simpl. rewrite Hc; simpl.
  rewrite size_lt_empty. destruct (Z.eqb_spec (to_size_t k) 0); [contradiction |].
  reflexivity.
Qed.

Section Covering.
Context {good : BoundingBox -> Prop} {Cov : Covering good}.

Lemma quadrant_covers (b : BoundingBox) p :
  good b -> contains b p = true -> exists q, contains (quadrant q b) p = true.
Proof.
  intros Hg H. apply (good_cover _ _ Hg) in H. rewrite !orb_true_iff in H.
  destruct H as [[[H | H] | H] | H];
    [exists NW | exists NE | exists SW | exists SE]; exact H.
Qed.

(** The children that [insert] hands a point to are well-formed nodes
    over good boxes. *)
Lemma ensure_children_good t q :
  wf t -> good (boundary t) -> size_lt (length (points t)) (capacity t) = false ->
  exists c, child q (ensure_children t) = Some c /\
    wf c /\ capacity c = capacity t /\ boundary c = quadrant q (boundary t) /\
    good (boundary c) /\
    (height c < height t \/ c = QuadTree_new (quadrant q (boundary t)) (capacity t)).
Proof.
  intros Hw Hg Hfull.
  destruct (ensure_children_child t q Hw Hfull) as (c & Hq & Hwc & Ek & Eb & Hh).
  pose proof (good_quadrant (boundary t) q Hg). exists c. rewrite Eb. auto 10.
Qed.

Lemma insert_accepts_inside fuel t p :
  wf t -> to_size_t (capacity t) <> 0%Z -> good (boundary t) ->
  contains (boundary t) p = true ->
  height t < fuel -> exists t', insert fuel t p = Ok (true, t').
Proof.
  revert t. induction fuel as [| fuel IH]; intros t Hw Hk Hg Hc Hh; [lia |].
  destruct (insert_returns (S fuel) t p Hw Hk Hh) as [[r t'] Hi].
  destruct r; [eauto | exfalso].
  pose proof Hi as Hi'. rewrite insert_S, Hc in Hi'. cbn [negb] in Hi'.
  destruct (size_lt _ _) eqn:Hfull; [discriminate |].
  apply try_children_tried in Hi'.
  destruct (quadrant_covers _ _ Hg Hc) as [q Hq].
  destruct (tried_all_refused _ _ _ _ quadrants_NoDup Hi' q (quadrants_all q))
    as (c & c' & Hcq & Hr).
  destruct (ensure_children_good t q Hw Hg Hfull) as (d & Hd & Hwd & Ek & Eb & Hgd & Hhd).
  rewrite Hcq in Hd. inv Hd.
  assert (exists d', insert fuel d p = Ok (true, d')) as [d' Hacc].
  { destruct Hhd as [Hlt | ->].
    - apply IH; [assumption | congruence | assumption | congruence | lia].
    - pose proof (height_pos t). destruct fuel as [| fuel]; [lia |].
      eexists. apply insert_new_accepts; assumption. }
  congruence.
Qed.

Lemma insert_zero_capacity fuel t p :
  wf t -> capacity t = 0%Z -> good (boundary t) -> contains (boundary t) p = true ->
  insert fuel t p = OutOfFuel.
Proof.
  revert t. induction fuel as [| fuel IH]; intros t Hw Hk Hg Hc; [reflexivity |].
  rewrite insert_S, Hc, Hk, size_lt_zero_capacity. cbn [negb].
  assert (Hfull : size_lt (length (points t)) (capacity t) = false)
    by (rewrite Hk; apply size_lt_zero_capacity).
  apply try_children_out_of_fuel; [apply quadrants_NoDup | |].
  - intros q _.
    destruct (ensure_children_good t q Hw Hg Hfull) as (c & Hq & Hwc & Ek & Eb & Hgc & _).
    exists c. split; [exact Hq |].
    destruct (contains (boundary c) p) eqn:Hcc.
    + left. apply IH; congruence.
    + destruct (insert_outside fuel c p Hcc); eauto.
  - destruct (quadrant_covers _ _ Hg Hc) as [q Hq].
    destruct (ensure_children_good t q Hw Hg Hfull) as (c & Hcq & Hwc & Ek & Eb & Hgc & _).
    exists q, c. split; [apply quadrants_all | split; [exact Hcq |]].
    apply IH; congruence.
Qed.

(** On a good box the returned value says whether the point is inside
    the boundary. *)
Lemma insert_result_contains fuel t p r t' :
  wf t -> to_size_t (capacity t) <> 0%Z -> good (boundary t) ->
  insert fuel t p = Ok (r, t') -> r = contains (boundary t) p.
Proof.
  intros Hw Hk Hg Hi. destruct (contains (boundary t) p) eqn:Hc.
  - destruct (insert_accepts_inside (S (height t)) t p Hw Hk Hg Hc) as [t2 H2]; [lia |].
    assert (returns t p r t') as R1 by (eexists; eauto).
    assert (returns t p true t2) as R2 by (eexists; eauto).
    now destruct (returns_deterministic _ _ _ _ _ _ R1 R2).
  - destruct fuel as [| fuel]; [discriminate |].
    rewrite insert_S, Hc in Hi. now inv Hi.
Qed.

Lemma insert_refused_unchanged fuel t p t' :
  wf t -> to_size_t (capacity t) <> 0%Z -> good (boundary t) ->
  insert fuel t p = Ok (false, t') -> t' = t.
Proof.
  intros Hw Hk Hg Hi. pose proof (insert_result_contains _ _ _ _ _ Hw Hk Hg Hi) as Hc.
  destruct fuel as [| fuel]; [discriminate |].
  rewrite insert_S, <- Hc in Hi. now inv Hi.
Qed.

(** The pass over the children of a full node changes the first child
    whose quadrant contains the point, and that child accepts. *)
Lemma tried_first_quadrant (Q : QuadTree -> bool -> QuadTree -> Prop) t p r t' :
  wf t -> to_size_t (capacity t) <> 0%Z -> good (boundary t) ->
  contains (boundary t) p = true ->
  size_lt (length (points t)) (capacity t) = false ->
  tried (fun c r c' => returns c p r c' /\ Q c r c') quadrants (ensure_children t) r t' ->
  exists q c c',
    first_quadrant (boundary t) p = Some q /\
    child q (ensure_children t) = Some c /\ returns c p true c' /\ Q c true c' /\
    r = true /\ t' = set_child q (ensure_children t) c'.
Proof.
  intros Hw Hk Hg Hc Hfull Hi.
  apply (tried_first _ (fun q => contains (quadrant q (boundary t)) p)) in Hi.
  - fold (first_quadrant (boundary t) p) in Hi.
    destruct (first_quadrant (boundary t) p) as [q |] eqn:Hf.
    + destruct Hi as (c & c' & Hq & [Hret HQ] & Hr & Ht'). exists q, c, c'. auto 10.
    + destruct (quadrant_covers _ _ Hg Hc) as [q Hq].
      pose proof (find_none _ _ Hf q (quadrants_all q)) as Hn. simpl in Hn. congruence.
  - intros q c r0 c' _ Hq [[fuel Hins] _].
    destruct (ensure_children_good t q Hw Hg Hfull) as (d & Hd & Hwd & Ek & Eb & Hgd & _).
    rewrite Hq in Hd. inv Hd. rewrite <- Eb. split.
    + eapply insert_result_contains; eauto. congruence.
    + intros ->. eapply insert_refused_unchanged; eauto. congruence.
Qed.

Lemma insert_first_quadrant fuel t p r t' :
  wf t -> to_size_t (capacity t) <> 0%Z -> good (boundary t) ->
  contains (boundary t) p = true ->
  size_lt (length (points t)) (capacity t) = false ->
  insert fuel t p = Ok (r, t') ->
  exists q c c',
    first_quadrant (boundary t) p = Some q /\
    child q (ensure_children t) = Some c /\ returns c p true c' /\
    r = true /\ t' = set_child q (ensure_children t) c'.
Proof.
  intros Hw Hk Hg Hc Hfull Hi. destruct fuel as [| fuel]; [discriminate |].
  rewrite insert_S, Hc, Hfull in Hi. cbn [negb] in Hi.
  apply try_children_tried in Hi.
  destruct (tried_first_quadrant (fun _ _ _ => True) t p r t' Hw Hk Hg Hc Hfull)
    as (q & c & c' & H1 & H2 & H3 & _ & H4 & H5).
  - eapply tried_mono; [| exact Hi]. simpl. intros c r0 c' H. split; [now exists fuel | exact I].
  - exists q, c, c'. auto.
Qed.

(** C37: on a covering class of boxes (all boxes in a total order; on
    binary64 the boxes whose bounds are numbers, not oppositely
    infinite), a point handed to the children of a well-formed node of
    non-zero capacity goes to the first quadrant, in the order NW, NE,
    SW, SE, whose box contains it, however full that child is; the
    other children are left untouched.  A point on a shared edge has a
    canonical place. *)
Theorem insert_canonical_quadrant fuel t p r t' :
  wf t -> to_size_t (capacity t) <> 0%Z -> good (boundary t) ->
  contains (boundary t) p = true ->
  size_lt (length (points t)) (capacity t) = false ->
  insert fuel t p = Ok (r, t') ->
  exists q c c',
    first_quadrant (boundary t) p = Some q /\
    child q (ensure_children t) = Some c /\ returns c p true c' /\
    r = true /\ t' = set_child q (ensure_children t) c'.
Proof. apply insert_first_quadrant. Qed.

(** C13: on a covering class of boxes (all boxes in a total order; on
    binary64 the boxes whose bounds are numbers, not oppositely
    infinite), a point inside the boundary of a well-formed tree of
    non-zero capacity is accepted, within a recursion depth of
    [height t + 1]: some quadrant contains it. *)
Theorem insert_accepts_contained t p :
  wf t -> to_size_t (capacity t) <> 0%Z -> good (boundary t) ->
  contains (boundary t) p = true ->
  exists t', insert (height t + 1) t p = Ok (true, t').
Proof. intros Hw Hk Hg Hc. apply insert_accepts_inside; auto. lia. Qed.

(** C15: on a covering class of boxes, with capacity 0 a call of
    [insert] on a point inside the boundary never returns: every node on
    the way is subdivided and the point handed down, without end. *)
Theorem insert_capacity_zero_diverges fuel t p :
  wf t -> capacity t = 0%Z -> good (boundary t) -> contains (boundary t) p = true ->
  insert fuel t p = OutOfFuel.
Proof. apply insert_zero_capacity. Qed.

End Covering.

Lemma size_lt_negative_capacity (n : nat) (k : Z) :
  int_range k -> (k < 0)%Z -> (Z.of_nat n < 2 ^ 63)%Z -> size_lt n k = true.
Proof.
  intros Hr Hk Hn. apply size_lt_spec. rewrite (to_size_t_neg Hr Hk).
  unfold int_range, INT_MIN, size_t_modulus in *. lia.
Qed.

(** ** Main theorems *)

(** C38: the leaf test of the specification is redundant: on a
    well-formed tree the specification's [insert] and the code's return
    the same value and the same tree, for every fuel. *)
Theorem insert_spec_agrees fuel t p :
  wf t -> insert_spec fuel t p = insert fuel t p.
Proof. apply insert_spec_insert. Qed.

(** A freshly constructed tree of non-zero capacity accepts any
    point inside its boundary, in any arithmetic, and stores it in the
    buffer of the root. *)
Lemma insert_fresh_accepts fuel (b : BoundingBox) (k : Z) p :
  to_size_t k <> 0%Z -> contains b p = true ->
  insert (S fuel) (QuadTree_new b k) p = Ok (true, push_back (QuadTree_new b k) p).
Proof. apply insert_new_accepts. Qed.

(** C39: a negative capacity makes the buffer unbounded: as long as the
    buffer holds fewer than 2^63 points, a point inside the boundary is
    appended to it and the node is never subdivided. *)
Theorem insert_negative_capacity fuel t p :
  int_range (capacity t) -> (capacity t < 0)%Z ->
  (Z.of_nat (length (points t)) < 2 ^ 63)%Z ->
  contains (boundary t) p = true ->
  insert (S fuel) t p = Ok (true, push_back t p).
Proof.
  intros Hr Hk Hn Hc. rewrite insert_S, Hc.
  now rewrite (size_lt_negative_capacity _ _ Hr Hk Hn).
Qed.

End Acceptance.

(** ** Samples on rationals *)

Definition qroot1 : @QuadTree Qcoord := QuadTree_new qunit_box 1.
Definition qleaf1 : @QuadTree Qcoord := push_back qroot1 (qpoint 10 10).
Definition qroot0 : @QuadTree Qcoord := QuadTree_new qunit_box 0.
Definition qcorner_box : @BoundingBox Qcoord := qbox 50 50 100 100.
Definition qp10 : @Point Qcoord := qpoint 10 10.
Definition qp60 : @Point Qcoord := qpoint 60 60.
Definition qp_out : @Point Qcoord := qpoint 200 200.

(** [qroot1] after the insertion of [qp10] and [qp60]. *)
Definition qtree2 : @QuadTree Qcoord :=
  mkQuadTree qunit_box 1 [qp10]
    (Some (QuadTree_new (quadrant NW qunit_box) 1))
    (Some (QuadTree_new (quadrant NE qunit_box) 1))
    (Some (QuadTree_new (quadrant SW qunit_box) 1))
    (Some (push_back (QuadTree_new (quadrant SE qunit_box) 1) qp60)).

(** A node with children and room in its buffer, which no operation
    builds. *)
Definition loose : @QuadTree Fcoord :=
  mkQuadTree unit_box 2 [p10]
    (Some (QuadTree_new (quadrant NW unit_box) 2))
    (Some (QuadTree_new (quadrant NE unit_box) 2))
    (Some (QuadTree_new (quadrant SW unit_box) 2))
    (Some (QuadTree_new (quadrant SE unit_box) 2)).

(** ** The theorems at the samples *)

Lemma insert_accepts_contained_witness :
  exists t', insert (height tree3 + 1) tree3 p50 = Ok (true, t').
Proof.
  apply (insert_accepts_contained (good := fun b => box_num b = true) tree3 p50);
    [exact wf_tree3 | vm_compute; discriminate | reflexivity | reflexivity].
Defined.

Lemma insert_capacity_zero_diverges_witness :
  insert 1000 root0 p10 = OutOfFuel.
Proof.
  apply (insert_capacity_zero_diverges (good := fun b => box_num b = true) 1000 root0 p10);
    [apply wf_new, int_range_0 | reflexivity | reflexivity | reflexivity].
Defined.

Lemma insert_canonical_quadrant_witness :
  exists q c c',
    first_quadrant (boundary tree2) p50 = Some q /\
    child q (ensure_children tree2) = Some c /\ returns c p50 true c' /\
    true = true /\
    set_child NW tree2
      (set_child SE (subdivide (quad1 NW [p20]))
         (mkQuadTree (quadrant SE (quadrant NW unit_box)) 1 [p50]
            None None None None)) =
    set_child q (ensure_children tree2) c'.
Proof.
  apply (insert_canonical_quadrant (good := fun b => box_num b = true)
           3 tree2 p50 true).
  - exact wf_tree2.
  - vm_compute. discriminate.
  - reflexivity.
  - reflexivity.
  - reflexivity.
  - vm_compute. reflexivity.
Defined.

Lemma insert_spec_agrees_witness : insert_spec 3 tree3 p20 = insert 3 tree3 p20.
Proof. apply (insert_spec_agrees 3 tree3 p20). exact wf_tree3. Defined.

Lemma insert_fresh_accepts_witness :
  insert 1 (QuadTree_new unit_box 1) p10 = Ok (true, push_back (QuadTree_new unit_box 1) p10).
Proof.
  apply (insert_fresh_accepts 0 unit_box 1 p10); [vm_compute; discriminate | reflexivity].
Defined.

Lemma insert_negative_capacity_witness :
  insert 1 root_neg p10 = Ok (true, push_back root_neg p10).
Proof.
  apply (insert_negative_capacity 0 root_neg p10);
    [exact int_range_m1 | reflexivity | reflexivity | reflexivity].
Defined.

(** Off the invariant the two differ: on a node with children and room
    in its buffer the code appends to the buffer, the specification
    hands the point to a child. *)
Example insert_spec_differs_off_invariant :
  insert 2 loose p20 = Ok (true, push_back loose p20) /\
  insert_spec 2 loose p20 <> insert 2 loose p20.
Proof. split; [reflexivity | vm_compute; discriminate]. Qed.

(** On binary64 a point inside the boundary can be refused: the root
    covering the whole plane has NaN midpoints, so no quadrant contains
    anything; the call subdivides the root and returns [false]. *)
Example insert_refuses_inside_plane :
  contains plane_box p20 = true /\
  insert 2 plane_leaf p20 = Ok (false, subdivide plane_leaf).
Proof. vm_compute. split; reflexivity. Qed.
