(* ===== verification/Driver.v ===== *)
(** * Driver: building an index and querying it

    The part of [main] (lines 104-121 of [src/Code.cpp]) that uses the
    tree: the root is constructed, the points are inserted one by one
    with the returned value discarded, and each query starts from an
    empty [results].  The data and the query ranges are parameters
    here; [Workload] adds their random generation.

    The contract of the whole: after any sequence of insertions a query
    returns, up to order, the accepted points that lie in the range;
    the accepted points are those inside the root boundary when the
    root region belongs to a covering class of boxes; and the build
    returns when the fuel exceeds the height of the tree by the number
    of points. *)

From Stdlib Require Import ZArith Bool List Lia Permutation.
From S2P Require Import Prelude Coord CoordFloat CoordQ Geometry Binary64 QuadTree Samples.
From S2P Require Import Insert Invariant Query Acceptance.
Import ListNotations.

#[local] Open Scope outcome_scope.

Section Driver.
Context {C : Coord}.
Implicit Types (t c : QuadTree) (p : Point) (data : list Point).

(** ** The driver's use of the tree *)

(** Lines 109-111: [for (i...) qtree.insert(data[i]);]. *)
Fixpoint insert_all (fuel : nat) t data : outcome QuadTree :=
  match data with
  | [] => Ok t
  | p :: rest =>
      '(_, t') <- insert fuel t p ;;
      insert_all fuel t' rest
  end.

(** Lines 105-111: the root, then the insertions. *)
Definition build (fuel : nat) (boundary : BoundingBox) (capacity : Z) data
    : outcome QuadTree :=
  insert_all fuel (QuadTree_new boundary capacity) data.

(** Line 118: the square of side [query_size] centred at [(x, y)]. *)
Definition query_box (x y query_size : coord) : BoundingBox :=
  mkBoundingBox (csub x (cdiv query_size ctwo)) (csub y (cdiv query_size ctwo))
                (cadd x (cdiv query_size ctwo)) (cadd y (cdiv query_size ctwo)).

(** Lines 119-121: a query into a fresh [results]. *)
Definition run_query t (range : BoundingBox) : outcome (list Point) :=
  queryRange t range [].

(** ** The points a build accepts *)

(** The points of [data] for which the call of [insert] returned
    [true], in order. *)
Fixpoint accepted (fuel : nat) t data : list Point :=
  match data with
  | [] => []
  | p :: rest =>
      match insert fuel t p with
      | Ok (r, t') => (if r then [p] else []) ++ accepted fuel t' rest
      | _ => []
      end
  end.

(** ** Lemmas *)

Lemma insert_all_cons fuel t p rest r t1 :
  insert fuel t p = Ok (r, t1) ->
  insert_all fuel t (p :: rest) = insert_all fuel t1 rest.
Proof. intros H. simpl. now rewrite H. Qed.

Lemma insert_all_Ok_cons fuel t p rest t' :
  insert_all fuel t (p :: rest) = Ok t' ->
  exists r t1, insert fuel t p = Ok (r, t1) /\ insert_all fuel t1 rest = Ok t'.
Proof.
  simpl. intros H. apply bind_Ok in H. destruct H as ([r t1] & Hi & H). eauto.
Qed.

Lemma insert_all_wf fuel data : forall t t',
  insert_all fuel t data = Ok t' -> wf t ->
  wf t' /\ boundary t' = boundary t /\ capacity t' = capacity t.
Proof.
  induction data as [| p rest IH]; intros t t' H Hw.
  - inv H. auto.
  - apply insert_all_Ok_cons in H. destruct H as (r & t1 & Hi & H).
    destruct (insert_frame _ _ _ _ _ Hi) as [Eb Ek].
    destruct (IH t1 t' H (insert_wf _ _ _ _ _ Hi Hw)) as (Hw' & Eb' & Ek').
    repeat split; [assumption | congruence | congruence].
Qed.

Lemma insert_all_contents fuel data : forall t t',
  insert_all fuel t data = Ok t' -> shaped t ->
  Permutation (all_points t') (all_points t ++ accepted fuel t data).
Proof.
  induction data as [| p rest IH]; intros t t' H Hs.
  - inv H. simpl. now rewrite app_nil_r.
  - apply insert_all_Ok_cons in H. destruct H as (r & t1 & Hi & H).
    destruct (insert_shaped_contents _ _ _ _ _ Hi Hs) as [Hs1 Hc].
    simpl. rewrite Hi. rewrite (IH t1 t' H Hs1).
    unfold contents_step in Hc. destruct r; simpl; [| now rewrite Hc].
    apply inserted_at_Permutation in Hc. rewrite <- Hc. simpl.
    apply Permutation_middle.
Qed.

Lemma insert_true_contains fuel t p t' :
  insert fuel t p = Ok (true, t') -> contains (boundary t) p = true.
Proof.
  destruct fuel as [| fuel]; [discriminate |]. rewrite insert_S.
  destruct (contains (boundary t) p); [reflexivity | discriminate].
Qed.

Lemma accepted_inside fuel data : forall t,
  Forall (fun p => contains (boundary t) p = true) (accepted fuel t data).
Proof.
  induction data as [| p rest IH]; intros t; simpl; [constructor |].
  destruct (insert fuel t p) as [[r t1] | | |] eqn:Hi; try constructor.
  destruct (insert_frame _ _ _ _ _ Hi) as [Eb _].
  apply Forall_app. split; [| rewrite <- Eb; apply IH].
  destruct r; [| constructor].
  constructor; [| constructor]. eapply insert_true_contains; eauto.
Qed.

Lemma insert_all_height fuel data : forall t t',
  insert_all fuel t data = Ok t' -> wf t -> to_size_t (capacity t) <> 0%Z ->
  height t' <= height t + length data.
Proof.
  induction data as [| p rest IH]; intros t t' H Hw Hk.
  - inv H. lia.
  - apply insert_all_Ok_cons in H. destruct H as (r & t1 & Hi & H).
    destruct (insert_frame _ _ _ _ _ Hi) as [_ Ek].
    pose proof (insert_height _ _ _ _ _ Hi Hw Hk).
    specialize (IH t1 t' H (insert_wf _ _ _ _ _ Hi Hw)). rewrite Ek in IH.
    specialize (IH Hk). simpl. lia.
Qed.

Lemma insert_all_returns data : forall fuel t,
  wf t -> to_size_t (capacity t) <> 0%Z -> height t + length data < fuel ->
  exists t', insert_all fuel t data = Ok t'.
Proof.
  induction data as [| p rest IH]; intros fuel t Hw Hk Hf; [simpl; eauto |].
  simpl in Hf.
  destruct (insert_returns fuel t p Hw Hk) as [[r t1] Hi]; [lia |].
  rewrite (insert_all_cons _ _ _ rest _ _ Hi).
  destruct (insert_frame _ _ _ _ _ Hi) as [_ Ek].
  pose proof (insert_height _ _ _ _ _ Hi Hw Hk).
  apply IH; [eapply insert_wf; eauto | congruence | lia].
Qed.

Lemma build_returns (b : BoundingBox) (k : Z) data :
  int_range k -> to_size_t k <> 0%Z ->
  exists t, build (length data + 2) b k data = Ok t.
Proof.
  intros Hr Hk. apply insert_all_returns;
    [now apply wf_new | assumption | rewrite height_new; lia].
Qed.

Section Covering.
Context {good : BoundingBox -> Prop} {Cov : Covering good}.

Lemma accepted_filter fuel data : forall t t',
  wf t -> to_size_t (capacity t) <> 0%Z -> good (boundary t) ->
  insert_all fuel t data = Ok t' ->
  accepted fuel t data = filter (contains (boundary t)) data.
Proof.
  induction data as [| p rest IH]; intros t t' Hw Hk Hg H; [reflexivity |].
  apply insert_all_Ok_cons in H. destruct H as (r & t1 & Hi & H).
  destruct (insert_frame _ _ _ _ _ Hi) as [Eb Ek].
  simpl. rewrite Hi, (insert_result_contains _ _ _ _ _ Hw Hk Hg Hi).
  rewrite (IH t1 t'); [| eapply insert_wf; eauto | congruence | congruence | assumption].
  rewrite Eb. destruct (contains (boundary t) p); reflexivity.
Qed.

(** The tree a build returns holds the data points that lie in the
    root boundary. *)
Lemma build_contents fuel (b : BoundingBox) (k : Z) data t :
  int_range k -> to_size_t k <> 0%Z -> good b -> build fuel b k data = Ok t ->
  wf t /\ Permutation (all_points t) (filter (contains b) data).
Proof.
  unfold build. intros Hr Hk Hg Hb. pose proof (wf_new b k Hr) as Hw0.
  destruct (insert_all_wf _ _ _ _ Hb Hw0) as (Hw & _ & _).
  split; [exact Hw |].
  rewrite (insert_all_contents _ _ _ _ Hb (wf_shaped _ Hw0)).
  now rewrite (accepted_filter _ _ _ _ Hw0 Hk Hg Hb).
Qed.

(** C10: in an ordered arithmetic and over a root region of a covering
    class (any box in a total order; on binary64 any box whose bounds
    are numbers, not oppositely infinite), a build with a non-zero
    capacity followed by a query returns, up to order, the points of
    the data that lie both in the root boundary and in the range, each
    as often as it occurs in the data. *)
Theorem index_contract {O : CoordOrder C} fuel (b : BoundingBox) (k : Z) data t range l :
  int_range k -> to_size_t k <> 0%Z -> good b ->
  build fuel b k data = Ok t -> run_query t range = Ok l ->
  Permutation l (filter (fun p => contains b p && contains range p) data).
Proof.
  unfold run_query. intros Hr Hk Hg Hb Hq.
  destruct (build_contents _ _ _ _ _ Hr Hk Hg Hb) as [Hw Hc].
  rewrite (queryRange_filter t range [] Hw) in Hq. inv Hq. simpl.
  rewrite Hc, filter_filter. apply Permutation_refl.
Qed.

(** C25: what is inserted is found.  In an ordered arithmetic, on a
    well-formed tree with a non-zero capacity whose boundary belongs to
    a covering class, [insert] of a point inside the boundary returns
    [true] within the fuel [height t + 1], and every query of the new
    tree whose range contains the point returns it; the points it
    returns besides are those the query returned before. *)
Theorem insert_then_query_finds {O : CoordOrder C} t p range :
  wf t -> to_size_t (capacity t) <> 0%Z -> good (boundary t) ->
  contains (boundary t) p = true -> contains range p = true ->
  exists t' before found,
    insert (S (height t)) t p = Ok (true, t') /\
    run_query t range = Ok before /\ run_query t' range = Ok found /\
    In p found /\ Permutation found (p :: before).
Proof.
  intros Hw Hk Hg Hc Hr.
  destruct (insert_accepts_inside (S (height t)) t p Hw Hk Hg Hc (Nat.lt_succ_diag_r _))
    as [t' Hi].
  exists t', (filter (contains range) (all_points t)),
         (filter (contains range) (all_points t')).
  unfold run_query. rewrite (queryRange_filter t range [] Hw).
  rewrite (queryRange_filter t' range [] (insert_wf _ _ _ _ _ Hi Hw)).
  pose proof (insert_filter_contents _ _ _ _ _ range Hw Hi) as Hp. rewrite Hr in Hp.
  simpl in Hp. split; [exact Hi |]. split; [reflexivity |]. split; [reflexivity |].
  split; [| exact Hp]. eapply Permutation_in; [symmetry; exact Hp | now left].
Qed.

End Covering.

(** ** Main theorems *)

(** In an ordered arithmetic, a query after a build returns, up to
    order, the accepted points that lie in the range; the accepted
    points all lie in the root boundary. *)
Lemma build_then_query {O : CoordOrder C} fuel (b : BoundingBox) (k : Z) data t range :
  int_range k -> build fuel b k data = Ok t ->
  exists l, run_query t range = Ok l /\
    Permutation l (filter (contains range) (accepted fuel (QuadTree_new b k) data)) /\
    Forall (fun p => contains b p = true) l.
Proof.
  unfold build, run_query. intros Hr Hb.
  pose proof (wf_new b k Hr) as Hw0.
  destruct (insert_all_wf _ _ _ _ Hb Hw0) as (Hw & Eb & _).
  exists (filter (contains range) (all_points t)).
  split; [now rewrite (queryRange_filter t range [] Hw) | split].
  - apply Permutation_filter.
    now rewrite (insert_all_contents _ _ _ _ Hb (wf_shaped _ Hw0)).
  - apply Forall_forall. intros p Hp. apply filter_In in Hp. destruct Hp as [Hp _].
    pose proof (wf_bounded t Hw) as Hbd. rewrite Forall_forall in Hbd.
    rewrite <- (Hbd p Hp). now rewrite Eb.
Qed.

(** A build with a non-zero capacity returns when the fuel exceeds
    the number of points by two: no call of [insert] recurses deeper
    than the height of the tree plus one, and each call raises the
    height by at most one. *)
Lemma build_terminates (b : BoundingBox) (k : Z) data :
  int_range k -> to_size_t k <> 0%Z ->
  exists t, build (length data + 2) b k data = Ok t /\ height t <= length data + 1.
Proof.
  intros Hr Hk. destruct (build_returns b k data Hr Hk) as [t Ht]. unfold build in *.
  exists t. split; [assumption |].
  pose proof (insert_all_height _ _ _ _ Ht (wf_new b k Hr) Hk) as H.
  rewrite height_new in H. lia.
Qed.

End Driver.

(** ** The theorems at the samples *)

Lemma index_contract_witness :
  Permutation [p90]
    (filter (fun p => contains unit_box p && contains corner_box p)
            [p10; p20; p_out; p_nan; p90]).
Proof.
  apply (index_contract (good := fun b => box_num b = true)
           3 unit_box 1 [p10; p20; p_out; p_nan; p90] tree3 corner_box [p90]).
  - exact int_range_1.
  - vm_compute. discriminate.
  - reflexivity.
  - vm_compute. reflexivity.
  - vm_compute. reflexivity.
Defined.

Lemma build_then_query_witness :
  exists l, run_query tree3 corner_box = Ok l /\
    Permutation l (filter (contains corner_box)
                     (accepted 3 (QuadTree_new unit_box 1) [p10; p20; p_out; p90])) /\
    Forall (fun p => contains unit_box p = true) l.
Proof.
  apply (build_then_query 3 unit_box 1 [p10; p20; p_out; p90] tree3 corner_box).
  - exact int_range_1.
  - vm_compute. reflexivity.
Defined.

Lemma build_terminates_witness :
  exists t, build (length [p10; p20; p90] + 2) unit_box 1 [p10; p20; p90] = Ok t /\
            height t <= length [p10; p20; p90] + 1.
Proof.
  apply (build_terminates unit_box 1 [p10; p20; p90]);
    [exact int_range_1 | vm_compute; discriminate].
Defined.

Lemma insert_then_query_finds_witness :
  exists t' before found,
    insert (S (height tree2)) tree2 p90 = Ok (true, t') /\
    run_query tree2 corner_box = Ok before /\ run_query t' corner_box = Ok found /\
    In p90 found /\ Permutation found (p90 :: before).
Proof.
  apply (insert_then_query_finds (good := fun b => box_num b = true) tree2 p90 corner_box);
    [exact wf_tree2 | vm_compute; discriminate | reflexivity | reflexivity | reflexivity].
Defined.
