(* ===== verification/History.v ===== *)
(** * History: a tree only grows

    Section 3 of the specification describes how a node changes over
    its life: its region and its capacity are fixed at construction,
    its buffer grows only by appending and is never emptied or
    redistributed, and its children, once created, stay.  This is a
    property of pairs of trees, an earlier and a later one: the
    relation [extends], a preorder.  Every call of [insert] that
    returns leaves a tree that extends the one it was called on, in any
    arithmetic, whether the point was accepted or not; so do the
    insertion loop of [main], and every tree an operation can reach
    extends the empty root it was constructed as.

    What [extends] keeps: every stored point stays stored and stays in
    its node, at its position in the buffer; the height and the number
    of nodes never decrease. *)

From Stdlib Require Import ZArith Bool List Lia Relations RelationClasses.
From S2P Require Import Prelude Coord CoordFloat Geometry QuadTree Samples.
From S2P Require Import Insert Invariant Driver.
Import ListNotations.

#[local] Open Scope outcome_scope.

Section History.
Context {C : Coord}.
Implicit Types (t c : QuadTree) (p : Point) (q : Quadrant).

(** ** The relation *)

(** A child that exists stays, and grows. *)
Definition opt_extends (rec : QuadTree -> QuadTree -> Prop)
    (o o' : option QuadTree) : Prop :=
  match o, o' with
  | None, _ => True
  | Some c, Some c' => rec c c'
  | Some _, None => False
  end.

Fixpoint extends t t' : Prop :=
  boundary t' = boundary t /\ capacity t' = capacity t /\
  (exists l, points t' = points t ++ l) /\
  opt_extends extends (nw t) (nw t') /\ opt_extends extends (ne t) (ne t') /\
  opt_extends extends (sw t) (sw t') /\ opt_extends extends (se t) (se t').

(** ** Unfolding *)

Lemma extends_eq t t' :
  extends t t' <->
  boundary t' = boundary t /\ capacity t' = capacity t /\
  (exists l, points t' = points t ++ l) /\
  forall q, opt_extends extends (child q t) (child q t').
Proof.
  destruct t; simpl. split.
  - intros (Hb & Hk & Hp & H1 & H2 & H3 & H4). repeat split; auto.
    intros []; assumption.
  - intros (Hb & Hk & Hp & H). repeat split; auto;
      [apply (H NW) | apply (H NE) | apply (H SW) | apply (H SE)].
Qed.

Lemma opt_extends_Some (rec : QuadTree -> QuadTree -> Prop) c (o' : option QuadTree) :
  opt_extends rec (Some c) o' <-> exists c', o' = Some c' /\ rec c c'.
Proof.
  destruct o' as [c' |]; simpl; split; try contradiction; eauto.
  - now intros (d & [= <-] & H).
  - now intros (d & [=] & _).
Qed.

(** The child [q] of the earlier tree has a later version. *)
Lemma extends_child t t' q c :
  extends t t' -> child q t = Some c ->
  exists c', child q t' = Some c' /\ extends c c'.
Proof.
  rewrite extends_eq. intros (_ & _ & _ & H) Hq. specialize (H q).
  rewrite Hq in H. now apply opt_extends_Some.
Qed.

(** ** A preorder *)

Lemma extends_refl t : extends t t.
Proof.
  induction t as [t IH] using QuadTree_child_ind. apply extends_eq.
  repeat split; [exists []; now rewrite app_nil_r |].
  intros q. destruct (child q t) as [c |] eqn:Hq; simpl; eauto.
Qed.

Lemma extends_trans t1 t2 t3 : extends t1 t2 -> extends t2 t3 -> extends t1 t3.
Proof.
  revert t2 t3. induction t1 as [t1 IH] using QuadTree_child_ind. intros t2 t3 H12 H23.
  pose proof H12 as (Hb & Hk & [l Hl] & _)%extends_eq.
  pose proof H23 as (Hb' & Hk' & [l' Hl'] & _)%extends_eq.
  apply extends_eq. repeat split; try congruence.
  - exists (l ++ l'). now rewrite Hl', Hl, app_assoc.
  - intros q. destruct (child q t1) as [c1 |] eqn:Hq; [| exact I].
    destruct (extends_child _ _ _ _ H12 Hq) as (c2 & Hq2 & Hc12).
    destruct (extends_child _ _ _ _ H23 Hq2) as (c3 & Hq3 & Hc23).
    rewrite Hq3. simpl. eauto.
Qed.

#[export] Instance extends_PreOrder : PreOrder extends.
Proof. split; [exact extends_refl | exact extends_trans]. Qed.

(** ** The steps of [insert] *)

Lemma extends_push_back t p : extends t (push_back t p).
Proof.
  apply extends_eq. repeat split; [now exists [p] |].
  intros q. change (child q (push_back t p)) with (child q t).
  destruct (child q t); simpl; [reflexivity | exact I].
Qed.

Lemma extends_ensure_children t : children_uniform t -> extends t (ensure_children t).
Proof.
  intros Hu. unfold ensure_children.
  destruct (nw t) as [c |] eqn:Hn; cbn [is_null]; [reflexivity |].
  destruct Hu as [(_ & H2 & H3 & H4) | (a & _ & _ & _ & Ha & _)]; [| congruence].
  apply extends_eq. repeat split; [exists []; simpl; now rewrite app_nil_r |].
  intros []; simpl; rewrite ?Hn, ?H2, ?H3, ?H4; exact I.
Qed.

Lemma extends_set_child t q c c' :
  child q t = Some c -> extends c c' -> extends t (set_child q t c').
Proof.
  intros Hq Hc. apply extends_eq.
  rewrite boundary_set_child, capacity_set_child, points_set_child.
  repeat split; [exists []; now rewrite app_nil_r |].
  intros q'. rewrite child_set_child.
  destruct (Quadrant_eq_dec q q') as [<- | _]; [now rewrite Hq |].
  destruct (child q' t); simpl; [reflexivity | exact I].
Qed.

(** ** [insert] extends *)

Lemma insert_extends fuel t p r t' :
  insert fuel t p = Ok (r, t') -> shaped t -> extends t t'.
Proof.
  revert fuel t r t'.
  apply (insert_rule (fun t _ t' => shaped t -> extends t t')).
  - reflexivity.
  - intros t _ _ _. apply extends_push_back.
  - intros t r t' _ _ _ H Hs.
    assert (Hu : children_uniform t) by (apply shaped_eq in Hs; tauto).
    apply (tried_invariant (fun t1 => shaped t1 /\ extends t t1) H);
      [auto using shaped_ensure_children, extends_ensure_children |].
    intros q t1 c r0 c' [Hs1 He] Hq [[f Hf] HQ].
    pose proof (shaped_child _ _ _ Hs1 Hq) as Hc.
    destruct (insert_shaped_contents _ _ _ _ _ Hf Hc) as [Hc' _].
    split; [eauto using shaped_set_child |].
    etransitivity; [exact He | eauto using extends_set_child].
Qed.

Lemma insert_all_extends fuel data : forall t t',
  insert_all fuel t data = Ok t' -> shaped t -> extends t t'.
Proof.
  induction data as [| p rest IH]; intros t t' H Hs.
  - injection H as <-. reflexivity.
  - apply insert_all_Ok_cons in H. destruct H as (r & t1 & Hi & H).
    destruct (insert_shaped_contents _ _ _ _ _ Hi Hs) as [Hs1 _].
    etransitivity; [eapply insert_extends | eapply IH]; eauto.
Qed.

(** ** What a later tree keeps *)

Lemma opt_extends_list (f : QuadTree -> list Point) (o o' : option QuadTree) a :
  opt_all (fun c => forall c', extends c c' -> In a (f c) -> In a (f c')) o ->
  opt_extends extends o o' -> In a (opt_list f o) -> In a (opt_list f o').
Proof.
  destruct o as [c |]; simpl; [| contradiction].
  intros IH (c' & -> & Hc)%opt_extends_Some. simpl. eauto.
Qed.

(** Every stored point stays stored. *)
Lemma extends_all_points (a : Point) t : forall t',
  extends t t' -> In a (all_points t) -> In a (all_points t').
Proof.
  induction t as [t H1 H2 H3 H4] using QuadTree_ind. intros t' He.
  pose proof He as (_ & _ & [l Hl] & _)%extends_eq.
  destruct t as [b k pts n1 n2 n3 n4]; simpl in *.
  destruct He as (_ & _ & _ & E1 & E2 & E3 & E4).
  pose proof (opt_extends_list all_points _ _ a H1 E1).
  pose proof (opt_extends_list all_points _ _ a H2 E2).
  pose proof (opt_extends_list all_points _ _ a H3 E3).
  pose proof (opt_extends_list all_points _ _ a H4 E4).
  rewrite (all_points_eq t'), Hl, !in_app_iff. tauto.
Qed.

Lemma opt_extends_nat (f : QuadTree -> nat) (o o' : option QuadTree) :
  opt_all (fun c => forall c', extends c c' -> f c <= f c') o ->
  opt_extends extends o o' -> opt_nat f o <= opt_nat f o'.
Proof.
  destruct o as [c |]; simpl; [| lia].
  intros IH (c' & -> & Hc)%opt_extends_Some. simpl. eauto.
Qed.

(** The height never decreases. *)
Lemma extends_height t : forall t', extends t t' -> height t <= height t'.
Proof.
  induction t as [t H1 H2 H3 H4] using QuadTree_ind. intros t' He.
  rewrite (height_eq t), (height_eq t').
  destruct t as [b k pts n1 n2 n3 n4]; simpl in *.
  destruct He as (_ & _ & _ & E1 & E2 & E3 & E4).
  pose proof (opt_extends_nat height _ _ H1 E1).
  pose proof (opt_extends_nat height _ _ H2 E2).
  pose proof (opt_extends_nat height _ _ H3 E3).
  pose proof (opt_extends_nat height _ _ H4 E4). lia.
Qed.

(** Every tree the operations reach extends the root it was
    constructed as. *)
Lemma reachable_extends t :
  reachable t -> extends (QuadTree_new (boundary t) (capacity t)) t.
Proof.
  induction 1 as [b k Hk | t p r t' Hr IH [fuel Hi]]; [reflexivity |].
  destruct (insert_frame _ _ _ _ _ Hi) as [-> ->].
  etransitivity; [exact IH |].
  eapply insert_extends; [exact Hi | now apply wf_shaped, reachable_wf].
Qed.

(** ** Main theorem *)

(** C30: a tree only grows.  In any arithmetic and on a tree with
    uniform children, a call of [insert] that returns, with [true] or
    with [false], leaves every node with the region and the capacity it
    had, every buffer with what it held as a prefix, and every child
    that existed in place; so every stored point stays stored and the
    height does not decrease. *)
Theorem insert_only_grows fuel t p r t' :
  shaped t -> insert fuel t p = Ok (r, t') ->
  extends t t' /\
  (forall a, In a (all_points t) -> In a (all_points t')) /\
  height t <= height t'.
Proof.
  intros Hs Hi. pose proof (insert_extends _ _ _ _ _ Hi Hs) as He.
  split; [exact He |]. split; [intros a; now apply extends_all_points |].
  now apply extends_height.
Qed.

End History.

(** ** The theorem at a sample *)

Lemma insert_only_grows_witness :
  extends tree2 tree3 /\
  (forall a, In a (all_points tree2) -> In a (all_points tree3)) /\
  height tree2 <= height tree3.
Proof.
  apply (insert_only_grows 2 tree2 p90 true tree3);
    [apply shapedb_spec; reflexivity | exact insert_tree2_p90].
Defined.

(** A tree that has lost a point of a buffer, or a child, extends
    nothing it came from. *)
Example extends_samples :
  extends root1 leaf1 /\ extends leaf1 tree2 /\ extends root1 tree3 /\
  ~ extends leaf1 root1 /\ ~ extends tree2 leaf1.
Proof.
  repeat split; try reflexivity; try (now exists [p10]); try (now exists []).
  - intros (_ & _ & [l Hl] & _). discriminate.
  - intros (_ & _ & _ & [] & _).
Qed.
