(* ===== verification/Placement.v ===== *)
(** * Placement: where a point is stored

    [insert] hands a point to the children in the order NW, NE, SW, SE
    and stops at the first that accepts.  The quadrants share their
    edges, so a point on an edge lies in more than one; the
    specification says that which child gets it depends on what was
    inserted before.  It does not: over a covering class of boxes a
    child accepts every point of its region, so the point goes to the
    first quadrant that contains it ([Acceptance.first_quadrant]), on
    every level.

    This file states it as an invariant of the tree, [placed]: below
    every node, the points stored under the child [q] are points whose
    first quadrant is [q].  The invariant holds of the empty root, is
    kept by [insert], and so holds of every tree [main] builds.  The
    path from the root to the node that stores a point is thus
    determined by the coordinates of the point and the depth of the
    node; only the depth depends on the history. *)

From Stdlib Require Import ZArith Bool List Lia.
From S2P Require Import Prelude Coord CoordFloat CoordQ Geometry Binary64 QuadTree Samples.
From S2P Require Import Insert Invariant Acceptance Driver.
Import ListNotations.

#[local] Open Scope outcome_scope.

Section Placement.
Context {C : Coord}.
Implicit Types (t c : QuadTree) (p a : Point) (q : Quadrant).

(** ** The invariant *)

(** The points stored under the child [q] of a node with the boundary
    [b] have [q] as their first quadrant. *)
Definition sorted_into (b : BoundingBox) q (o : option QuadTree) : Prop :=
  opt_all (fun c => Forall (fun a => first_quadrant b a = Some q) (all_points c)) o.

Fixpoint placed t : Prop :=
  (sorted_into (boundary t) NW (nw t) /\ sorted_into (boundary t) NE (ne t) /\
   sorted_into (boundary t) SW (sw t) /\ sorted_into (boundary t) SE (se t)) /\
  opt_all placed (nw t) /\ opt_all placed (ne t) /\
  opt_all placed (sw t) /\ opt_all placed (se t).

(** ** Unfolding *)

Lemma placed_eq t :
  placed t <->
  forall q c, child q t = Some c ->
    Forall (fun a => first_quadrant (boundary t) a = Some q) (all_points c) /\ placed c.
Proof.
  destruct t as [b k pts n1 n2 n3 n4]; simpl. unfold sorted_into. split.
  - intros ((S1 & S2 & S3 & S4) & P1 & P2 & P3 & P4) [] c Hc; simpl in Hc; subst;
      simpl in *; auto.
  - intros H. repeat split;
      try (destruct n1 as [c |]; [apply (H NW c eq_refl) | exact I]);
      try (destruct n2 as [c |]; [apply (H NE c eq_refl) | exact I]);
      try (destruct n3 as [c |]; [apply (H SW c eq_refl) | exact I]);
      try (destruct n4 as [c |]; [apply (H SE c eq_refl) | exact I]).
Qed.

(** ** The steps of [insert] *)

Lemma placed_new (b : BoundingBox) (k : Z) : placed (QuadTree_new b k).
Proof. apply placed_eq. intros [] c [=]. Qed.

Lemma placed_push_back t p : placed t -> placed (push_back t p).
Proof. rewrite !placed_eq. intros H q c Hq. apply (H q c Hq). Qed.

Lemma placed_subdivide t : placed (subdivide t).
Proof.
  apply placed_eq. intros [] c [= <-]; (split; [constructor | apply placed_new]).
Qed.

Lemma placed_ensure_children t : placed t -> placed (ensure_children t).
Proof.
  unfold ensure_children. destruct (is_null (nw t)); auto using placed_subdivide.
Qed.

Lemma placed_set_child t q c' :
  placed t -> placed c' ->
  Forall (fun a => first_quadrant (boundary t) a = Some q) (all_points c') ->
  placed (set_child q t c').
Proof.
  rewrite (placed_eq t), (placed_eq (set_child q t c')). intros Ht Hc' Hf q' d.
  rewrite child_set_child, boundary_set_child.
  destruct (Quadrant_eq_dec q q') as [<- | _]; [intros [= <-]; auto | apply Ht].
Qed.

(** ** [insert] keeps the invariant *)

Section Covering.
Context {good : BoundingBox -> Prop} {Cov : Covering good}.

Lemma insert_placed fuel t p r t' :
  insert fuel t p = Ok (r, t') ->
  wf t -> to_size_t (capacity t) <> 0%Z -> good (boundary t) ->
  placed t -> placed t'.
Proof.
  revert fuel t r t'.
  apply (insert_rule (fun t _ t' =>
    wf t -> to_size_t (capacity t) <> 0%Z -> good (boundary t) ->
    placed t -> placed t')); auto using placed_push_back.
  intros t r t' Hc Hfull _ H Hw Hk Hg Hp.
  destruct (tried_first_quadrant _ t p r t' Hw Hk Hg Hc Hfull H)
    as (q & c & c' & Hfq & Hq & [f Hf] & HQ & _ & ->).
  destruct (ensure_children_good t q Hw Hg Hfull) as (d & Hd & Hwd & Ek & _ & Hgd & _).
  rewrite Hq in Hd. injection Hd as <-.
  pose proof (placed_ensure_children t Hp) as Hp1.
  destruct (proj1 (placed_eq _) Hp1 q c Hq) as [Hsorted Hpc].
  destruct (insert_shaped_contents _ _ _ _ _ Hf (wf_shaped _ Hwd)) as [_ Hins].
  apply placed_set_child; [exact Hp1 | apply HQ; auto; congruence |].
  rewrite Forall_forall in *. intros a [-> | Ha]%(inserted_at_In _ _ _ _ Hins).
  - now rewrite boundary_ensure_children.
  - now apply Hsorted.
Qed.

Lemma insert_all_placed fuel data : forall t t',
  insert_all fuel t data = Ok t' ->
  wf t -> to_size_t (capacity t) <> 0%Z -> good (boundary t) ->
  placed t -> placed t'.
Proof.
  induction data as [| p rest IH]; intros t t' H Hw Hk Hg Hp.
  - now injection H as <-.
  - apply insert_all_Ok_cons in H. destruct H as (r & t1 & Hi & H).
    destruct (insert_frame _ _ _ _ _ Hi) as [Eb Ek].
    apply (IH t1 t' H); rewrite ?Eb, ?Ek;
      eauto using insert_wf, insert_placed.
Qed.

(** ** Main theorem *)

(** C31: every point has its place.  Over a covering class of boxes (all
    boxes in a total order; on binary64 the boxes whose bounds are
    numbers, not oppositely infinite) and with a capacity that is an
    [int] other than 0, in every tree that a sequence of insertions
    builds from the empty root, the points stored under a child are
    the points whose first quadrant, in the order NW, NE, SW, SE, is
    that child's, on every level of the tree. *)
Theorem build_placed fuel (b : BoundingBox) (k : Z) data t :
  int_range k -> to_size_t k <> 0%Z -> good b ->
  build fuel b k data = Ok t -> placed t.
Proof.
  intros Hr Hk Hg Hb.
  apply (insert_all_placed _ _ _ _ Hb); auto using wf_new, placed_new.
Qed.

End Covering.
End Placement.

(** ** The theorem at the samples *)

Lemma build_placed_witness : placed tree3.
Proof.
  apply (build_placed (good := fun b => box_num b = true) 2 unit_box 1 [p10; p20; p90]);
    [exact int_range_1 | vm_compute; discriminate | reflexivity | reflexivity].
Defined.

(** The centre of the root region lies in all four quadrants; its
    first quadrant is the north-west one, and the tree that
    [Examples.centre_goes_north_west] builds by inserting it is
    placed. *)
Example centre_first_quadrant :
  first_quadrant unit_box p50 = Some NW /\
  first_quadrant unit_box p90 = Some SE /\
  first_quadrant unit_box p_out = None.
Proof. vm_compute. repeat split; reflexivity. Qed.
