(* ===== verification/Bounds.v ===== *)
(** * Bounds: the size and the depth of the tree

    [subdivide] allocates four nodes and nothing ever frees one before
    the destructor.  The invariant bounds what is allocated: a node is
    subdivided only when its buffer is full and a buffer is never
    drained, so every subdivided node holds [capacity] points of its
    own.  Hence the number of nodes and the height are bounded by the
    number of stored points, in any arithmetic.  Over a covering class
    of boxes a call of [insert] subdivides at most one node, and the
    bound on the height is attained: copies of one point build a
    chain. *)

From Stdlib Require Import ZArith Bool List Lia Permutation QArith.
From S2P Require Import Prelude Coord CoordFloat CoordQ Geometry Binary64 QuadTree Samples.
From S2P Require Import Insert Invariant Acceptance Driver.
Import ListNotations.

#[local] Close Scope Q_scope.
#[local] Open Scope outcome_scope.

Section Bounds.
Context {C : Coord}.
Implicit Types (t c : QuadTree) (p : Point) (q : Quadrant) (r : bool).

(** The number of subdivided nodes of the subtree. *)
Fixpoint internal_count t : nat :=
  (if is_null (nw t) then 0 else 1) +
  (opt_nat internal_count (nw t) + opt_nat internal_count (ne t) +
   opt_nat internal_count (sw t) + opt_nat internal_count (se t)).

(** [chain p K m t]: the tree [t] of capacity [K] holds [m] points in a
    chain of full nodes that follows, at each node, the first quadrant
    containing [p], and ends in a leaf; the nodes beside the chain are
    of height 1. *)
Inductive chain p (K : nat) : nat -> QuadTree -> Prop :=
| chain_leaf m t :
    m <= K -> children_uniform t -> nw t = None -> length (points t) = m ->
    chain p K m t
| chain_node m t q c :
    K < m -> length (points t) = K ->
    first_quadrant (boundary t) p = Some q -> child q t = Some c ->
    chain p K (m - K) c ->
    (forall q' c', q' <> q -> child q' t = Some c' -> height c' = 1) ->
    chain p K m t.

(** ** Equations *)

Lemma node_count_eq t :
  node_count t =
  S (opt_nat node_count (nw t) + opt_nat node_count (ne t) +
     opt_nat node_count (sw t) + opt_nat node_count (se t)).
Proof. destruct t; reflexivity. Qed.

Lemma internal_count_eq t :
  internal_count t =
  (if is_null (nw t) then 0 else 1) +
  (opt_nat internal_count (nw t) + opt_nat internal_count (ne t) +
   opt_nat internal_count (sw t) + opt_nat internal_count (se t)).
Proof. destruct t; reflexivity. Qed.

Lemma node_count_pos t : 0 < node_count t.
Proof. rewrite node_count_eq. lia. Qed.

Lemma node_count_push_back t p : node_count (push_back t p) = node_count t.
Proof. now rewrite (node_count_eq t), (node_count_eq (push_back t p)). Qed.

Lemma node_count_leaf t : children_uniform t -> nw t = None -> node_count t = 1.
Proof.
  intros [(H1 & H2 & H3 & H4) | (a & b & c & d & H1 & _)] Hn; [| congruence].
  rewrite node_count_eq, H1, H2, H3, H4. reflexivity.
Qed.

Lemma node_count_subdivide t : node_count (subdivide t) = 5.
Proof. reflexivity. Qed.

(** Replacing a child changes the count by the difference of the
    subtrees. *)
Lemma node_count_set_child q t c c' :
  child q t = Some c ->
  node_count (set_child q t c') + node_count c = node_count t + node_count c'.
Proof.
  intros H. rewrite (node_count_eq t), (node_count_eq (set_child q t c')).
  destruct q; simpl in *; rewrite H; simpl; lia.
Qed.

(** ** Nodes, subdivided nodes and points *)

(** In a tree with uniform children every subdivided node has four
    children. *)
Lemma node_count_internal t : shaped t -> node_count t = 1 + 4 * internal_count t.
Proof.
  induction t as [t H1 H2 H3 H4] using QuadTree_ind. rewrite shaped_eq.
  intros ([(E1 & E2 & E3 & E4) | (a & b & c & d & E1 & E2 & E3 & E4)] & S1 & S2 & S3 & S4);
    rewrite node_count_eq, internal_count_eq, E1, E2, E3, E4 in *; simpl in *;
    [reflexivity |].
  rewrite (H1 S1), (H2 S2), (H3 S3), (H4 S4). lia.
Qed.

(** The longest path passes only subdivided nodes before its leaf. *)
Lemma height_internal t : shaped t -> height t <= 1 + internal_count t.
Proof.
  induction t as [t H1 H2 H3 H4] using QuadTree_ind. rewrite shaped_eq.
  intros ([(E1 & E2 & E3 & E4) | (a & b & c & d & E1 & E2 & E3 & E4)] & S1 & S2 & S3 & S4);
    rewrite height_eq, internal_count_eq, E1, E2, E3, E4 in *; simpl in *; [lia |].
  specialize (H1 S1). specialize (H2 S2). specialize (H3 S3). specialize (H4 S4). lia.
Qed.

(** Every subdivided node of a well-formed tree holds [capacity] points
    in its own buffer. *)
Lemma internal_count_points t :
  wf t ->
  (to_size_t (capacity t) * Z.of_nat (internal_count t)
   <= Z.of_nat (length (all_points t)))%Z.
Proof.
  induction t as [t H1 H2 H3 H4] using QuadTree_ind. intros Hw.
  pose proof (to_size_t_range (capacity t)) as Hk.
  assert (Hc : forall q, opt_all (fun c =>
            (to_size_t (capacity t) * Z.of_nat (internal_count c)
             <= Z.of_nat (length (all_points c)))%Z) (child q t)).
  { intros q. destruct (child q t) as [c |] eqn:Hq; simpl; [| exact I].
    destruct (wf_child q t c Hw Hq) as [[_ Ek] Hwc]. rewrite <- Ek.
    destruct q; simpl in Hq; rewrite Hq in *; simpl in *; auto. }
  pose proof (Hc NW) as C1. pose proof (Hc NE) as C2.
  pose proof (Hc SW) as C3. pose proof (Hc SE) as C4. clear Hc H1 H2 H3 H4.
  pose proof (wf_internal_full t Hw) as Hf. rewrite size_lt_false in Hf.
  rewrite internal_count_eq, all_points_eq, !length_app. cbn [child] in *.
  destruct (wf_children_uniform t Hw)
    as [(E1 & E2 & E3 & E4) | (a & b & c & d & E1 & E2 & E3 & E4)];
    rewrite E1, E2, E3, E4 in *; cbn [opt_all opt_nat opt_list is_null length] in *;
    [lia |].
  specialize (Hf ltac:(discriminate)). nia.
Qed.

(** ** Chains *)

Lemma height_leaf t : children_uniform t -> nw t = None -> height t = 1.
Proof.
  intros [(H1 & H2 & H3 & H4) | (a & b & c & d & H1 & _)] Hn; [| congruence].
  rewrite height_eq, H1, H2, H3, H4. reflexivity.
Qed.

Lemma height_one_child t q c :
  child q t = Some c ->
  (forall q' c', q' <> q -> child q' t = Some c' -> height c' <= height c) ->
  height t = S (height c).
Proof.
  intros Hq Ho.
  assert (forall q', opt_nat height (child q' t) <= height c) as Hb.
  { intros q'. destruct (Quadrant_eq_dec q' q) as [-> | Hne]; [now rewrite Hq |].
    destruct (child q' t) as [c' |] eqn:E; simpl; [eauto | lia]. }
  assert (opt_nat height (child q t) = height c) as He by now rewrite Hq.
  pose proof (Hb NW). pose proof (Hb NE). pose proof (Hb SW). pose proof (Hb SE).
  rewrite height_eq. destruct q; simpl in *; lia.
Qed.

Lemma chain_height p K m t : 0 < K -> chain p K m t -> height t = S ((m - 1) / K).
Proof.
  intros HK. induction 1 as [m t Hm Hu Hn Hl | m t q c Hm Hl Hf Hq Hc IH Ho].
  - rewrite (height_leaf t Hu Hn), Nat.div_small by lia. reflexivity.
  - rewrite (height_one_child t q c Hq).
    + rewrite IH. f_equal.
      replace (m - 1) with ((m - K - 1) + 1 * K) by lia.
      rewrite Nat.div_add by lia. lia.
    + intros q' c' Hne Hq'. rewrite (Ho q' c' Hne Hq'). pose proof (height_pos c). lia.
Qed.

Lemma size_lt_nat (m K : nat) (k : Z) :
  to_size_t k = Z.of_nat K -> size_lt m k = (m <? K).
Proof.
  intros E. unfold size_lt. rewrite E.
  destruct (Nat.ltb_spec m K); [apply Z.ltb_lt | apply Z.ltb_ge]; lia.
Qed.

(** ** The contents of a build *)

Lemma accepted_length fuel data : forall t, length (accepted fuel t data) <= length data.
Proof.
  induction data as [| p rest IH]; intros t; simpl; [lia |].
  destruct (insert fuel t p) as [[r t1] | | |]; simpl; try lia.
  rewrite length_app. specialize (IH t1). destruct r; simpl; lia.
Qed.

Lemma insert_all_length fuel data t t' :
  insert_all fuel t data = Ok t' -> shaped t ->
  length (all_points t') <= length (all_points t) + length data.
Proof.
  intros H Hs. rewrite (Permutation_length (insert_all_contents _ _ _ _ H Hs)).
  rewrite length_app. pose proof (accepted_length fuel data t). lia.
Qed.

(** ** One call subdivides at most once *)

Section Covering.
Context {good : BoundingBox -> Prop} {Cov : Covering good}.

Lemma insert_node_count fuel t p r t' :
  insert fuel t p = Ok (r, t') ->
  wf t -> to_size_t (capacity t) <> 0%Z -> good (boundary t) ->
  node_count t' = node_count t \/ node_count t' = node_count t + 4.
Proof.
  revert fuel t r t'.
  apply (insert_rule (fun t r t' =>
    wf t -> to_size_t (capacity t) <> 0%Z -> good (boundary t) ->
    node_count t' = node_count t \/ node_count t' = node_count t + 4));
    auto using node_count_push_back.
  intros t r t' Hc Hfull _ Htried Hw Hk Hg.
  destruct (tried_first_quadrant _ t p r t' Hw Hk Hg Hc Hfull Htried)
    as (q & c & c' & Hf & Hq & Hret & HQ & _ & ->).
  pose proof (node_count_set_child q _ c c' Hq) as Hn.
  destruct (ensure_children_good t q Hw Hg Hfull) as (d & Hd & Hwd & Ek & Eb & Hgd & _).
  rewrite Hq in Hd. inv Hd. rewrite <- Ek in Hk. specialize (HQ Hwd Hk Hgd).
  unfold ensure_children in *. destruct (nw t) eqn:En; cbn [is_null] in *; [lia |].
  rewrite child_subdivide in Hq. inv Hq.
  rewrite node_count_subdivide in Hn.
  rewrite (node_count_leaf t (wf_children_uniform t Hw) En).
  assert (contains (quadrant q (boundary t)) p = true) as Hcq.
  { apply find_some in Hf. apply Hf. }
  assert (returns (QuadTree_new (quadrant q (boundary t)) (capacity t)) p true
            (push_back (QuadTree_new (quadrant q (boundary t)) (capacity t)) p)) as R
    by (exists 1; now apply insert_new_accepts).
  destruct (returns_deterministic _ _ _ _ _ _ Hret R) as [_ ->].
  right. simpl in *. lia.
Qed.

(** ** Repeated points *)

(** The first copy that does not fit in a leaf subdivides it and starts
    a new leaf in the first quadrant that contains the point. *)
Lemma chain_leaf_full p K t fuel r t' :
  wf t -> to_size_t (capacity t) = Z.of_nat K -> 0 < K -> good (boundary t) ->
  contains (boundary t) p = true ->
  nw t = None -> length (points t) = K ->
  insert fuel t p = Ok (r, t') -> chain p K (S K) t'.
Proof.
  intros Hw Ek HK Hg Hc Hn Hl Hi.
  assert (to_size_t (capacity t) <> 0%Z) as Hk by lia.
  assert (size_lt (length (points t)) (capacity t) = false) as Hfull
    by (rewrite (size_lt_nat _ K _ Ek), Hl; apply Nat.ltb_irrefl).
  destruct (insert_first_quadrant _ _ _ _ _ Hw Hk Hg Hc Hfull Hi)
    as (q & c & c' & Hf & Hq & Hret & _ & ->).
  unfold ensure_children in *. rewrite Hn in *. cbn [is_null] in *.
  rewrite child_subdivide in Hq. injection Hq as <-.
  assert (returns (QuadTree_new (quadrant q (boundary t)) (capacity t)) p true
            (push_back (QuadTree_new (quadrant q (boundary t)) (capacity t)) p)) as R.
  { exists 1. apply insert_new_accepts; [exact Hk |]. apply find_some in Hf. apply Hf. }
  destruct (returns_deterministic _ _ _ _ _ _ Hret R) as [_ ->].
  apply chain_node with q (push_back (QuadTree_new (quadrant q (boundary t)) (capacity t)) p).
  - lia.
  - now rewrite points_set_child.
  - now rewrite boundary_set_child.
  - apply child_set_child_same.
  - replace (S K - K) with 1 by lia.
    apply chain_leaf; [lia | left; simpl; tauto | reflexivity | reflexivity].
  - intros q' c' Hne Hq'. rewrite child_set_child_other, child_subdivide in Hq' by congruence.
    injection Hq' as <-. reflexivity.
Qed.

Lemma chain_insert p K m t :
  chain p K m t -> forall fuel r t',
  wf t -> to_size_t (capacity t) = Z.of_nat K -> 0 < K -> good (boundary t) ->
  contains (boundary t) p = true ->
  insert fuel t p = Ok (r, t') -> chain p K (S m) t'.
Proof.
  induction 1 as [m t Hm Hu Hn Hl | m t q c Hm Hl Hf Hq Hch IH Ho];
    intros fuel r t' Hw Ek HK Hg Hc Hi.
  - destruct (Nat.eq_dec m K) as [-> | Hne]; [eapply chain_leaf_full; eauto |].
    destruct fuel as [| fuel]; [discriminate |].
    rewrite insert_S, Hc, (size_lt_nat _ K _ Ek), Hl in Hi. cbn [negb] in Hi.
    destruct (Nat.ltb_spec m K); [| lia]. injection Hi as <- <-.
    apply chain_leaf; [lia | | exact Hn | simpl; rewrite length_app; simpl; lia].
    destruct Hu as [Hu | (a & b & d & e & Hu & _)]; [left; exact Hu | congruence].
  - assert (to_size_t (capacity t) <> 0%Z) as Hk by lia.
    assert (size_lt (length (points t)) (capacity t) = false) as Hfull
      by (rewrite (size_lt_nat _ K _ Ek), Hl; apply Nat.ltb_irrefl).
    destruct (insert_first_quadrant _ _ _ _ _ Hw Hk Hg Hc Hfull Hi)
      as (q1 & c1 & c' & Hf1 & Hq1 & [fuel1 Hret] & _ & ->).
    rewrite Hf in Hf1. injection Hf1 as <-.
    destruct (ensure_children_good t q Hw Hg Hfull) as (d & Hd & Hwd & Ekd & Eb & Hgd & _).
    rewrite Hq1 in Hd. injection Hd as <-.
    assert (ensure_children t = t) as Ee.
    { unfold ensure_children. destruct (nw t) eqn:En; [reflexivity |].
      destruct (wf_children_uniform t Hw) as [(_ & H2 & H3 & H4) | (a & b & e & f & H1 & _)];
        [destruct q; simpl in Hq; congruence | congruence]. }
    rewrite Ee in *. rewrite Hq in Hq1. injection Hq1 as <-.
    apply chain_node with q c'.
    + lia.
    + now rewrite points_set_child.
    + now rewrite boundary_set_child.
    + apply child_set_child_same.
    + replace (S m - K) with (S (m - K)) by lia.
      apply (IH fuel1 true c'); auto; [congruence |].
      rewrite Eb. apply find_some in Hf. apply Hf.
    + intros q' c'' Hne Hq'. rewrite child_set_child_other in Hq' by congruence. eauto.
Qed.

Lemma chain_insert_all p K n : forall m t fuel t',
  chain p K m t ->
  wf t -> to_size_t (capacity t) = Z.of_nat K -> 0 < K -> good (boundary t) ->
  contains (boundary t) p = true ->
  insert_all fuel t (repeat p n) = Ok t' -> chain p K (m + n) t'.
Proof.
  induction n as [| n IH]; intros m t fuel t' Hch Hw Ek HK Hg Hc H.
  - simpl in H. injection H as <-. now rewrite Nat.add_0_r.
  - simpl repeat in H. apply insert_all_Ok_cons in H. destruct H as (r & t1 & Hi & H).
    destruct (insert_frame _ _ _ _ _ Hi) as [Eb Ec].
    replace (m + S n) with (S m + n) by lia.
    apply (IH (S m) t1 fuel t'); try (rewrite ?Eb, ?Ec; assumption).
    + eapply chain_insert; eauto.
    + eapply insert_wf; eauto.
Qed.

(** Whatever depth of calls lets the build of [n] copies of a point
    return, it returns a chain. *)
Lemma repeated_build_height fuel (b : BoundingBox) (k : Z) p (n : nat) t :
  int_range k -> (0 < k)%Z -> good b -> contains b p = true ->
  build fuel b k (repeat p n) = Ok t -> height t = S ((n - 1) / Z.to_nat k).
Proof.
  intros Hr Hk Hg Hc Ht.
  assert (to_size_t k = Z.of_nat (Z.to_nat k)) as Ek
    by (rewrite (to_size_t_nonneg Hr), Z2Nat.id; lia).
  apply (chain_height p); [lia |].
  change n with (0 + n).
  apply (chain_insert_all p (Z.to_nat k) n 0 (QuadTree_new b k) fuel t);
    auto using wf_new; [| lia].
  apply chain_leaf; [lia | left; simpl; tauto | reflexivity | reflexivity].
Qed.

End Covering.

(** ** Main theorems *)

(** A well-formed tree is no larger than its contents allow: the
    nodes below the root come in groups of four, one group per
    subdivided node, and every subdivided node holds [capacity] points
    of its own; the same bounds the height.  This holds in any
    arithmetic. *)
Lemma space_bound t :
  wf t ->
  (to_size_t (capacity t) * (Z.of_nat (node_count t) - 1)
   <= 4 * Z.of_nat (length (all_points t)))%Z /\
  (to_size_t (capacity t) * (Z.of_nat (height t) - 1)
   <= Z.of_nat (length (all_points t)))%Z.
Proof.
  intros Hw. pose proof (internal_count_points t Hw) as Hi.
  pose proof (node_count_internal t (wf_shaped t Hw)) as Hn.
  pose proof (height_internal t (wf_shaped t Hw)) as Hh.
  pose proof (to_size_t_range (capacity t)) as Hk. split; nia.
Qed.

(** On a covering class of boxes (all boxes in a total order; on
    binary64 the boxes whose bounds are numbers, not oppositely
    infinite), a call of [insert] on a well-formed tree of non-zero
    capacity subdivides at most one node: the tree has the same number
    of nodes afterwards, or four more. *)
Lemma insert_subdivides_once {good : BoundingBox -> Prop} {Cov : Covering good}
    fuel t p r t' :
  wf t -> to_size_t (capacity t) <> 0%Z -> good (boundary t) ->
  insert fuel t p = Ok (r, t') ->
  node_count t' = node_count t \/ node_count t' = node_count t + 4.
Proof. intros Hw Hk Hg H. exact (insert_node_count _ _ _ _ _ H Hw Hk Hg). Qed.

(** The index a build returns has at most four nodes per data
    point besides its root, for any capacity other than 0 and in any
    arithmetic. *)
Lemma build_space_bound fuel (b : BoundingBox) (k : Z) data t :
  int_range k -> to_size_t k <> 0%Z ->
  build fuel b k data = Ok t ->
  node_count t <= 1 + 4 * length data /\ height t <= 1 + length data.
Proof.
  unfold build. intros Hr Hk Hb. pose proof (wf_new b k Hr) as Hw0.
  destruct (insert_all_wf _ _ _ _ Hb Hw0) as (Hw & _ & Ek). simpl in Ek.
  pose proof (insert_all_length _ _ _ _ Hb (wf_shaped _ Hw0)) as Hl.
  pose proof (internal_count_points t Hw) as Hi.
  pose proof (node_count_internal t (wf_shaped t Hw)) as Hn.
  pose proof (height_internal t (wf_shaped t Hw)) as Hh.
  pose proof (to_size_t_range (capacity t)) as Hk'. rewrite Ek in *.
  simpl in Hl. split; nia.
Qed.

(** The bound on the height is attained.  Over a covering class of
    boxes, [n] copies of a point of the root region, inserted into a tree
    of capacity [k >= 1], build a chain: the height of the tree is
    [1 + (n - 1) / k], however small the region the copies fall in. *)
Lemma repeated_point_height {good : BoundingBox -> Prop} {Cov : Covering good}
    (b : BoundingBox) (k : Z) p (n : nat) :
  int_range k -> (0 < k)%Z -> good b -> contains b p = true ->
  exists t, build (n + 2) b k (repeat p n) = Ok t /\
            height t = S ((n - 1) / Z.to_nat k).
Proof.
  intros Hr Hk Hg Hc.
  destruct (build_returns b k (repeat p n) Hr) as [t Ht];
    [rewrite (to_size_t_nonneg Hr); lia |].
  rewrite repeat_length in Ht. exists t. split; [exact Ht |].
  eapply (repeated_build_height (good := good)); eauto.
Qed.

End Bounds.

(** ** The theorems at the samples *)

Lemma space_bound_witness :
  (to_size_t (capacity tree3) * (Z.of_nat (node_count tree3) - 1)
   <= 4 * Z.of_nat (length (all_points tree3)))%Z /\
  (to_size_t (capacity tree3) * (Z.of_nat (height tree3) - 1)
   <= Z.of_nat (length (all_points tree3)))%Z.
Proof. apply (space_bound tree3). exact wf_tree3. Defined.

Lemma insert_subdivides_once_witness :
  node_count tree2 = node_count leaf1 \/ node_count tree2 = node_count leaf1 + 4.
Proof.
  apply (insert_subdivides_once (good := fun b => box_num b = true) 2 leaf1 p20 true tree2);
    [exact wf_leaf1 | vm_compute; discriminate | reflexivity | exact insert_leaf1_p20].
Defined.

Lemma build_space_bound_witness :
  node_count tree3 <= 1 + 4 * length [p10; p20; p90] /\
  height tree3 <= 1 + length [p10; p20; p90].
Proof.
  apply (build_space_bound 3 unit_box 1 [p10; p20; p90] tree3);
    [exact int_range_1 | vm_compute; discriminate | vm_compute; reflexivity].
Defined.

(** The sample [tree2], of capacity 1: one subdivided node, five nodes,
    and two points, one more than the subdivided node holds. *)
Example space_bound_sharp :
  node_count tree2 = 5 /\ internal_count tree2 = 1 /\ height tree2 = 2 /\
  length (all_points tree2) = 2.
Proof. vm_compute. repeat split; reflexivity. Qed.

Lemma repeated_point_height_witness :
  exists t, build (4 + 2) unit_box 1 (repeat p10 4) = Ok t /\
            height t = S ((4 - 1) / Z.to_nat 1).
Proof.
  apply (repeated_point_height (good := fun b => box_num b = true) unit_box 1 p10 4);
    [exact int_range_1 | reflexivity | reflexivity | reflexivity].
Defined.
