(* ===== verification/Nesting.v ===== *)
(** * Nesting: how deep the calls of [insert] nest

    [insert] (lines 43-59 of [src/Code.cpp]) calls itself on a child,
    and nothing bounds the depth of these calls but the tree.  In the
    model the fuel of a call is the depth to which its calls may nest.
    This file shows that the depth a call needs is read off its
    result: a call on a tree no higher than the fuel returns exactly
    when the tree it leaves is no higher than the fuel, and runs out
    of fuel otherwise.  No assumption on the tree or the arithmetic is
    needed.  For the loop of insertions that builds the index it
    follows that the calls nest exactly as deep as the index is high:
    the height of the index is the stack depth of its construction. *)

From Stdlib Require Import ZArith Bool List Lia.
From S2P Require Import Prelude Coord CoordFloat Geometry Binary64 QuadTree Samples.
From S2P Require Import Insert Invariant Driver History Bounds.
Import ListNotations.

#[local] Open Scope outcome_scope.

Section Nesting.
Context {C : Coord}.
Implicit Types (t c : QuadTree) (p : Point) (q : Quadrant) (r : bool)
  (ins : QuadTree -> outcome (bool * QuadTree)).

(** The outcome of a run with the fuel [fuel] that, with enough fuel,
    returns [a] and needs the depth [need]. *)
Definition at_depth {A : Type} (need fuel : nat) (a : A) : outcome A :=
  if need <=? fuel then Ok a else OutOfFuel.

(** ** One pass over the children *)

(** A child that the pass does not ask is left alone. *)
Lemma tried_child_kept {R : QuadTree -> bool -> QuadTree -> Prop} {qs t r t' q} :
  tried R qs t r t' -> ~ In q qs -> child q t' = child q t.
Proof.
  induction 1 as [t | q0 qs t c c' Hc HR | q0 qs t c c' r t' Hc HR _ IH];
    simpl; intros Hq; [reflexivity | |].
  - apply child_set_child_other. tauto.
  - rewrite IH by tauto. apply child_set_child_other. tauto.
Qed.

(** The child asked first is a child afterwards. *)
Lemma tried_first_child {R : QuadTree -> bool -> QuadTree -> Prop} {q qs t r t'} :
  tried R (q :: qs) t r t' -> NoDup (q :: qs) ->
  exists c r0 c', child q t = Some c /\ R c r0 c' /\ child q t' = Some c'.
Proof.
  intros H Hnd. inversion H as [| ? ? ? c c' Hc HR | ? ? ? c c' ? ? Hc HR Hrest]; subst.
  - exists c, true, c'. auto using child_set_child_same.
  - exists c, false, c'. split; [exact Hc | split; [exact HR |]].
    inversion Hnd; subst.
    rewrite (tried_child_kept Hrest) by assumption. apply child_set_child_same.
Qed.

Lemma height_set_child_within q t c' (f : nat) :
  (forall q0 c, child q0 t = Some c -> height c <= f) -> height c' <= f ->
  forall q0 c, child q0 (set_child q t c') = Some c -> height c <= f.
Proof.
  intros Hold Hc' q0 c. rewrite child_set_child.
  destruct (Quadrant_eq_dec q q0); [intros [= <-]; exact Hc' | apply Hold].
Qed.

(** A pass whose calls are exact in the fuel is exact in the fuel:
    [ins0] is the call with enough fuel, [ins] the call with the fuel
    [f]. *)
Lemma tried_exact {ins0} ins (f : nat) {qs t r t'} :
  tried (fun c r c' => ins0 c = Ok (r, c')) qs t r t' -> NoDup qs ->
  (forall c r0 c', ins0 c = Ok (r0, c') -> height c <= f ->
     ins c = at_depth (height c') f (r0, c')) ->
  (forall q c, child q t = Some c -> height c <= f) ->
  try_children ins qs t = at_depth (height t') (S f) (r, t').
Proof.
  unfold at_depth. intros H Hnd Hins.
  induction H as [t | q qs t c c' Hc HR | q qs t c c' r t' Hc HR Hrest IH];
    intros Hold; simpl.
  - now rewrite (proj2 (Nat.leb_le _ _) (height_le t f Hold)).
  - rewrite Hc. simpl. rewrite (Hins c true c' HR (Hold q c Hc)).
    pose proof (height_child q (set_child q t c') c' (child_set_child_same q t c')).
    destruct (Nat.leb_spec (height c') f) as [Hle | Hgt]; simpl.
    + now rewrite (proj2 (Nat.leb_le _ _)
                     (height_le _ f (height_set_child_within q t c' f Hold Hle))).
    + now rewrite (proj2 (Nat.leb_gt _ _)) by lia.
  - rewrite Hc. simpl. rewrite (Hins c false c' HR (Hold q c Hc)).
    inversion Hnd as [| ? ? Hq Hnd']; subst.
    destruct (Nat.leb_spec (height c') f) as [Hle | Hgt]; simpl.
    + apply (IH Hnd'). now apply height_set_child_within.
    + assert (Hk : child q t' = Some c')
        by (rewrite (tried_child_kept Hrest Hq); apply child_set_child_same).
      pose proof (height_child q t' c' Hk).
      now rewrite (proj2 (Nat.leb_gt _ _)) by lia.
Qed.

(** ** One call *)

Lemma height_push_back t p : height (push_back t p) = height t.
Proof. now rewrite (height_eq (push_back t p)), (height_eq t). Qed.

(** The children a node hands the point to are lower than the node,
    or fresh leaves. *)
Lemma ensure_children_within t (f : nat) :
  height t <= S f -> 1 <= f ->
  forall q c, child q (ensure_children t) = Some c -> height c <= f.
Proof.
  intros Ht Hf q c. unfold ensure_children.
  destruct (nw t) eqn:En; cbn [is_null].
  - intros Hq. pose proof (height_child q t c Hq). lia.
  - rewrite child_subdivide. intros [= <-]. now rewrite height_new.
Qed.

(** A call that returns with some fuel, on a tree no higher than the
    fuel [fuel], returns with [fuel] exactly when the tree it leaves is
    no higher than [fuel]. *)
Lemma insert_exact p : forall f0 t r t' fuel,
  insert f0 t p = Ok (r, t') -> height t <= fuel ->
  insert fuel t p = at_depth (height t') fuel (r, t').
Proof.
  unfold at_depth.
  induction f0 as [| f0 IH]; intros t r t' fuel H Hh; [discriminate |].
  destruct fuel as [| f]; [pose proof (height_pos t); lia |].
  rewrite insert_S in H. rewrite insert_S.
  destruct (negb (contains (boundary t) p));
    [inv H; now rewrite (proj2 (Nat.leb_le _ _) Hh) |].
  destruct (size_lt _ _);
    [inv H; now rewrite height_push_back, (proj2 (Nat.leb_le _ _) Hh) |].
  apply try_children_tried in H.
  destruct f as [| f].
  - destruct (tried_first_child H quadrants_NoDup) as (c & r0 & c' & Hc & _ & Hc').
    pose proof (height_child _ _ _ Hc'). pose proof (height_pos c').
    rewrite (proj2 (Nat.leb_gt _ _)) by lia.
    unfold quadrants in *. cbn [try_children]. now rewrite Hc.
  - apply (tried_exact (fun c => insert (S f) c p) (S f) H quadrants_NoDup).
    + intros c r0 c' Hi Hc. now apply IH.
    + apply ensure_children_within; lia.
Qed.

(** ** The loop of insertions *)

Lemma insert_all_exact {f0} (fuel : nat) {data} : forall t t',
  insert_all f0 t data = Ok t' -> shaped t -> height t <= fuel ->
  insert_all fuel t data = at_depth (height t') fuel t'.
Proof.
  unfold at_depth.
  induction data as [| p rest IH]; intros t t' H Hs Hh.
  - inv H. simpl. now rewrite (proj2 (Nat.leb_le _ _) Hh).
  - apply insert_all_Ok_cons in H. destruct H as (r & t1 & Hi & H).
    destruct (insert_shaped_contents _ _ _ _ _ Hi Hs) as [Hs1 _].
    pose proof (extends_height _ _ (insert_all_extends _ _ _ _ H Hs1)) as Hgrow.
    simpl. rewrite (insert_exact p _ _ _ _ fuel Hi Hh). unfold at_depth.
    destruct (Nat.leb_spec (height t1) fuel) as [Hle | Hgt]; simpl.
    + now apply IH.
    + now rewrite (proj2 (Nat.leb_gt _ _)) by lia.
Qed.

(** The build with any fuel, given the index it builds with enough. *)
Lemma build_exact {f0} (fuel : nat) {b : BoundingBox} {k : Z} {data t} :
  build f0 b k data = Ok t -> data <> [] ->
  build fuel b k data = at_depth (height t) fuel t.
Proof.
  unfold build. intros H Hd. destruct fuel as [| fuel].
  - unfold at_depth. pose proof (height_pos t).
    rewrite (proj2 (Nat.leb_gt _ _)) by lia.
    destruct data; [contradiction | reflexivity].
  - apply (insert_all_exact (S fuel) _ _ H); [apply shaped_new | rewrite height_new; lia].
Qed.

(** ** Main theorem *)

(** C12: the index is built with calls nested exactly as deep as it is
    high.  In any arithmetic, for a capacity that is an [int] other
    than 0 and at least one data point, there is one tree [t] such
    that the loop of insertions returns [t] when its calls may nest as
    deep as [t] is high, and does not return when they may not; the
    height is at most one more than the number of data points. *)
Theorem build_depth_exact (b : BoundingBox) (k : Z) data :
  int_range k -> to_size_t k <> 0%Z -> data <> [] ->
  exists t, height t <= 1 + length data /\
    forall fuel, build fuel b k data = (if height t <=? fuel then Ok t else OutOfFuel).
Proof.
  intros Hr Hk Hd. destruct (build_returns b k data Hr Hk) as [t Ht].
  exists t. split; [apply (build_space_bound _ b k data t Hr Hk Ht) |].
  intros fuel. exact (build_exact fuel Ht Hd).
Qed.

End Nesting.

(** ** The theorem at a sample *)

Lemma build_depth_exact_witness :
  exists t, height t <= 1 + length [p10; p20; p90] /\
    forall fuel, build fuel unit_box 1 [p10; p20; p90] =
                 (if height t <=? fuel then Ok t else OutOfFuel).
Proof.
  apply (build_depth_exact unit_box 1 [p10; p20; p90]);
    [exact int_range_1 | vm_compute; discriminate | discriminate].
Defined.

(** The tree of the scenario of the specification has two levels: its
    build runs out of fuel at depth 1 and returns at depth 2; four
    copies of a point need the depth 4. *)
Example build_depth_samples :
  build 1 unit_box 1 [p10; p20; p90] = OutOfFuel /\
  build 2 unit_box 1 [p10; p20; p90] = Ok tree3 /\
  build 3 unit_box 1 (repeat p10 4) = OutOfFuel /\
  (exists t, build 4 unit_box 1 (repeat p10 4) = Ok t /\ height t = 4).
Proof. vm_compute. repeat split. eexists. split; reflexivity. Qed.
