(* ===== verification/Refine.v ===== *)
(** * Refine: the tree implements a bag of points

    What a client of the index may rely on is stated as an interface:
    the class [PointIndex] of the operations (a region, an insertion
    that says whether the point was taken, a query) and the class
    [PointIndexLaws] of their contract, in terms of the bag of points
    that an index holds.  Two implementations are given:

    - [Bag], the specification: a region and a list of points; a point
      inside the region is appended, a query filters the list;
    - [QuadTree], the program: [insert] run with the fuel
      [height t + 1], which is enough, and [queryRange] on an empty
      [results].

    A client is a sequence of insertions and queries, [run].  Proved
    against the interface alone, two lawful implementations started in
    states with the same region and the same bag give the same answers
    to every client, query results being compared as bags
    ([run_simulation]).  The tree is lawful over any covering class of
    boxes, on binary64 as well as in a total order; hence it refines
    the bag. *)

From Stdlib Require Import ZArith Bool List Lia Permutation Morphisms QArith.
From S2P Require Import Prelude Coord CoordFloat CoordQ Geometry Binary64 QuadTree Samples.
From S2P Require Import Insert Invariant Query Acceptance.
Import ListNotations.

#[local] Close Scope Q_scope.
#[local] Open Scope outcome_scope.

Section Refine.
Context {C : Coord}.

(** ** The interface *)

Class PointIndex (I : Type) : Type := {
  idx_region : I -> BoundingBox;
  idx_contents : I -> list Point;
  idx_insert : I -> Point -> outcome (bool * I);
  idx_query : I -> BoundingBox -> outcome (list Point)
}.

(** The contract, on the indexes that satisfy the representation
    invariant [valid]: [insert] returns whether the point lies in the
    region and adds it to the bag if so; a query returns the points of
    the bag in the range. *)
Class PointIndexLaws (I : Type) {P : PointIndex I} (valid : I -> Prop) : Prop := {
  idx_insert_spec : forall (i : I) (p : Point), valid i ->
    exists i', idx_insert i p = Ok (contains (idx_region i) p, i') /\
      valid i' /\ idx_region i' = idx_region i /\
      Permutation (idx_contents i')
        (if contains (idx_region i) p then p :: idx_contents i else idx_contents i);
  idx_query_spec : forall (i : I) (range : BoundingBox), valid i ->
    exists l, idx_query i range = Ok l /\
      Permutation l (filter (contains range) (idx_contents i))
}.

(** ** Clients *)

Inductive op : Type :=
| OpInsert (p : Point)
| OpQuery (range : BoundingBox).

Inductive obs : Type :=
| ObsInsert (r : bool)
| ObsQuery (l : list Point).

(** The client [ops] run on the index [i]: what it observes, and the
    index afterwards. *)
Fixpoint run {I : Type} {P : PointIndex I} (i : I) (ops : list op)
    : outcome (list obs * I) :=
  match ops with
  | [] => Ok ([], i)
  | OpInsert p :: rest =>
      '(r, i1) <- idx_insert i p ;;
      '(os, i2) <- run i1 rest ;;
      Ok (ObsInsert r :: os, i2)
  | OpQuery range :: rest =>
      l <- idx_query i range ;;
      '(os, i2) <- run i rest ;;
      Ok (ObsQuery l :: os, i2)
  end.

(** Observations are compared up to the order of query results. *)
Definition obs_equiv (o o' : obs) : Prop :=
  match o, o' with
  | ObsInsert r, ObsInsert r' => r = r'
  | ObsQuery l, ObsQuery l' => Permutation l l'
  | _, _ => False
  end.

(** Two indexes, of any two implementations, that hold the same bag
    over the same region. *)
Definition sim {I J : Type} {P : PointIndex I} {Q : PointIndex J}
    (vi : I -> Prop) (vj : J -> Prop) (i : I) (j : J) : Prop :=
  vi i /\ vj j /\ idx_region i = idx_region j /\
  Permutation (idx_contents i) (idx_contents j).

(** The representation invariant of the tree over a class [good] of
    boxes. *)
Definition tree_valid (good : BoundingBox -> Prop) (t : QuadTree) : Prop :=
  wf t /\ to_size_t (capacity t) <> 0%Z /\ good (boundary t).

(** ** The specification: a bag *)

Record Bag : Type := mkBag { bag_region : BoundingBox; bag_points : list Point }.

Definition bag_insert (b : Bag) (p : Point) : bool * Bag :=
  if contains (bag_region b) p
  then (true, mkBag (bag_region b) (bag_points b ++ [p]))
  else (false, b).

Definition bag_query (b : Bag) (range : BoundingBox) : list Point :=
  filter (contains range) (bag_points b).

#[export] Instance Bag_index : PointIndex Bag := {|
  idx_region := bag_region;
  idx_contents := bag_points;
  idx_insert := fun b p => Ok (bag_insert b p);
  idx_query := fun b range => Ok (bag_query b range)
|}.

(** ** The program: the tree *)

(** [insert] with the fuel a call on [t] needs at most. *)
Definition insert_total (t : QuadTree) (p : Point) : outcome (bool * QuadTree) :=
  insert (S (height t)) t p.

#[export] Instance QuadTree_index : PointIndex QuadTree := {|
  idx_region := boundary;
  idx_contents := all_points;
  idx_insert := insert_total;
  idx_query := fun t range => queryRange t range []
|}.

(** ** Observations form a setoid *)

#[export] Instance obs_equiv_Equivalence : Equivalence obs_equiv.
Proof.
  split.
  - intros [r | l]; simpl; reflexivity.
  - intros [r | l] [r' | l']; simpl; auto. apply Permutation_sym.
  - intros [r | l] [r' | l'] [r'' | l'']; simpl; try tauto; try congruence.
    apply Permutation_trans.
Qed.

#[export] Instance ObsQuery_Proper : Proper (@Permutation Point ==> obs_equiv) ObsQuery.
Proof. intros l l' H. exact H. Qed.

(** ** Equations of [run] *)

Lemma run_insert {I : Type} {P : PointIndex I} (i i1 i2 : I) p r rest os :
  idx_insert i p = Ok (r, i1) -> run i1 rest = Ok (os, i2) ->
  run i (OpInsert p :: rest) = Ok (ObsInsert r :: os, i2).
Proof. intros H1 H2. simpl. rewrite H1. simpl. now rewrite H2. Qed.

Lemma run_query {I : Type} {P : PointIndex I} (i i2 : I) range l rest os :
  idx_query i range = Ok l -> run i rest = Ok (os, i2) ->
  run i (OpQuery range :: rest) = Ok (ObsQuery l :: os, i2).
Proof. intros H1 H2. simpl. rewrite H1. simpl. now rewrite H2. Qed.

(** ** Any two lawful implementations agree *)

Section Simulation.
Context {I J : Type} {P : PointIndex I} {Q : PointIndex J}.
Context {vi : I -> Prop} {vj : J -> Prop}.
Context {LI : PointIndexLaws I vi} {LJ : PointIndexLaws J vj}.

Lemma sim_insert (i : I) (j : J) p :
  sim vi vj i j ->
  exists r i' j', idx_insert i p = Ok (r, i') /\ idx_insert j p = Ok (r, j') /\
                  sim vi vj i' j'.
Proof.
  intros (Vi & Vj & Er & Ec).
  destruct (idx_insert_spec i p Vi) as (i' & Hi & Vi' & Ei & Ci).
  destruct (idx_insert_spec j p Vj) as (j' & Hj & Vj' & Ej & Cj).
  rewrite <- Er in Hj, Cj. exists (contains (idx_region i) p), i', j'.
  split; [exact Hi | split; [exact Hj |]].
  split; [exact Vi' | split; [exact Vj' | split; [congruence |]]].
  rewrite Ci, Cj. destruct (contains (idx_region i) p); [now constructor | exact Ec].
Qed.

Lemma sim_query (i : I) (j : J) range :
  sim vi vj i j ->
  exists l l', idx_query i range = Ok l /\ idx_query j range = Ok l' /\ Permutation l l'.
Proof.
  intros (Vi & Vj & _ & Ec).
  destruct (idx_query_spec i range Vi) as (l & Hi & Ci).
  destruct (idx_query_spec j range Vj) as (l' & Hj & Cj).
  exists l, l'. split; [exact Hi | split; [exact Hj |]].
  now rewrite Ci, Cj, Ec.
Qed.

Lemma run_simulation (ops : list op) : forall (i : I) (j : J),
  sim vi vj i j ->
  exists os i' os' j',
    run i ops = Ok (os, i') /\ run j ops = Ok (os', j') /\
    Forall2 obs_equiv os os' /\ sim vi vj i' j'.
Proof.
  induction ops as [| [p | range] rest IH]; intros i j S.
  - exists [], i, [], j. auto.
  - destruct (sim_insert i j p S) as (r & i1 & j1 & Hi & Hj & S1).
    destruct (IH i1 j1 S1) as (os & i2 & os' & j2 & Ri & Rj & Ho & S2).
    exists (ObsInsert r :: os), i2, (ObsInsert r :: os'), j2.
    split; [eapply run_insert; eauto | split; [eapply run_insert; eauto |]].
    split; [constructor; [reflexivity | exact Ho] | exact S2].
  - destruct (sim_query i j range S) as (l & l' & Hi & Hj & Hl).
    destruct (IH i j S) as (os & i2 & os' & j2 & Ri & Rj & Ho & S2).
    exists (ObsQuery l :: os), i2, (ObsQuery l' :: os'), j2.
    split; [eapply run_query; eauto | split; [eapply run_query; eauto |]].
    split; [constructor; [exact Hl | exact Ho] | exact S2].
Qed.

End Simulation.

(** ** The bag is lawful *)

#[export] Instance Bag_laws : PointIndexLaws Bag (fun _ => True).
Proof.
  split.
  - intros b p _. cbn [idx_insert idx_region idx_contents Bag_index].
    unfold bag_insert. destruct (contains (bag_region b) p); eexists;
      (split; [reflexivity | split; [exact I | split; [reflexivity |]]]); simpl.
    + symmetry. apply Permutation_cons_append.
    + reflexivity.
  - intros b range _. exists (bag_query b range). split; reflexivity.
Qed.

(** ** The tree is lawful *)

(** The fuel of [insert_total] is enough: it returns what any run that
    returns does. *)
Lemma insert_total_returns t p r t' :
  wf t -> to_size_t (capacity t) <> 0%Z ->
  returns t p r t' -> insert_total t p = Ok (r, t').
Proof.
  intros Hw Hk Hr. unfold insert_total.
  destruct (insert_returns (S (height t)) t p Hw Hk) as [[r1 t1] H1]; [lia |].
  assert (returns t p r1 t1) as Hr1 by (eexists; eauto).
  destruct (returns_deterministic _ _ _ _ _ _ Hr Hr1) as [-> ->]. exact H1.
Qed.

Section Covering.
Context {good : BoundingBox -> Prop} {Cov : Covering good}.

Lemma insert_total_spec t p :
  tree_valid good t ->
  exists t', insert_total t p = Ok (contains (boundary t) p, t') /\
    tree_valid good t' /\ boundary t' = boundary t /\
    Permutation (all_points t')
      (if contains (boundary t) p then p :: all_points t else all_points t).
Proof.
  intros (Hw & Hk & Hg). unfold insert_total.
  destruct (insert_returns (S (height t)) t p Hw Hk) as [[r t'] H]; [lia |].
  pose proof (insert_result_contains _ _ _ _ _ Hw Hk Hg H) as <-.
  destruct (insert_frame _ _ _ _ _ H) as [Eb Ek].
  destruct (insert_shaped_contents _ _ _ _ _ H (wf_shaped t Hw)) as [_ Hc].
  exists t'. split; [exact H | split; [| split; [exact Eb |]]].
  - split; [eapply insert_wf; eauto | split; congruence].
  - unfold contents_step in Hc. destruct r; [| now rewrite Hc].
    symmetry. now apply inserted_at_Permutation.
Qed.

#[export] Instance QuadTree_laws {O : CoordOrder C}
  : PointIndexLaws QuadTree (tree_valid good).
Proof.
  split.
  - intros t p. apply insert_total_spec.
  - intros t range (Hw & _). eexists. split; [apply (queryRange_filter t range [] Hw) |].
    reflexivity.
Qed.

End Covering.

(** ** Main theorems *)

(** C5: the tree refines the bag.  In an ordered arithmetic and over a
    root region of a covering class of boxes (any box in a total order;
    on binary64 any box whose bounds are numbers, not oppositely
    infinite), every client (a sequence of insertions and queries) run
    on a tree freshly constructed with a capacity other than 0 returns,
    and observes what it observes on the bag over the same region: the
    same value from every [insert] and, up to order, the same points
    from every query.  The tree ends holding the points of the bag. *)
Theorem quadtree_refines_bag {O : CoordOrder C}
    {good : BoundingBox -> Prop} {Cov : Covering good}
    (b : BoundingBox) (k : Z) (ops : list op) :
  int_range k -> to_size_t k <> 0%Z -> good b ->
  exists os t os' bag,
    run (QuadTree_new b k) ops = Ok (os, t) /\
    run (mkBag b []) ops = Ok (os', bag) /\
    Forall2 obs_equiv os os' /\
    Permutation (all_points t) (bag_points bag).
Proof.
  intros Hr Hk Hg.
  destruct (run_simulation (vi := tree_valid good) (vj := fun _ => True)
              ops (QuadTree_new b k) (mkBag b []))
    as (os & t & os' & bag & R1 & R2 & Ho & S).
  - split; [split; [now apply wf_new | split; [exact Hk | exact Hg]] |].
    split; [exact I | split; reflexivity].
  - exists os, t, os', bag. destruct S as (_ & _ & _ & Ec). auto.
Qed.

(** The fuel [height t + 1] loses nothing: on a well-formed tree
    of non-zero capacity, whatever a call of [insert] returns with any
    fuel is what [insert_total] returns. *)
Lemma insert_total_complete t p r t' fuel :
  wf t -> to_size_t (capacity t) <> 0%Z ->
  insert fuel t p = Ok (r, t') -> insert_total t p = Ok (r, t').
Proof. intros Hw Hk H. apply insert_total_returns; auto. now exists fuel. Qed.

End Refine.

(** ** The theorems at the samples *)

(** A client on doubles: insertions, one of a point outside the region
    and one of a point with a NaN coordinate among them, then two
    queries. *)
Definition client : list (op (C := Fcoord)) :=
  [OpInsert p10; OpInsert p20; OpInsert p_out; OpInsert p_nan; OpInsert p90;
   OpQuery corner_box; OpQuery unit_box].

Lemma quadtree_refines_bag_witness :
  exists os t os' bag,
    run (QuadTree_new unit_box 1) client = Ok (os, t) /\
    run (mkBag unit_box []) client = Ok (os', bag) /\
    Forall2 obs_equiv os os' /\
    Permutation (all_points t) (bag_points bag).
Proof.
  apply (quadtree_refines_bag (good := fun b => box_num b = true) unit_box 1 client);
    [exact int_range_1 | vm_compute; discriminate | reflexivity].
Defined.

Lemma insert_total_complete_witness : insert_total tree2 p90 = Ok (true, tree3).
Proof.
  apply (insert_total_complete tree2 p90 true tree3 5);
    [exact wf_tree2 | vm_compute; discriminate | vm_compute; reflexivity].
Defined.

(** What the client observes, on the tree and on the bag. *)
Example client_on_tree :
  run (QuadTree_new unit_box 1) client =
  Ok ([ObsInsert true; ObsInsert true; ObsInsert false; ObsInsert false; ObsInsert true;
       ObsQuery [p90]; ObsQuery [p10; p20; p90]], tree3).
Proof. vm_compute. reflexivity. Qed.

Example client_on_bag :
  run (mkBag unit_box []) client =
  Ok ([ObsInsert true; ObsInsert true; ObsInsert false; ObsInsert false; ObsInsert true;
       ObsQuery [p90]; ObsQuery [p10; p20; p90]], mkBag unit_box [p10; p20; p90]).
Proof. vm_compute. reflexivity. Qed.
