(* ===== verification/Workload.v ===== *)
(** * Workload: the experiment of [main]

    [main] (lines 88-138 of [src/Code.cpp]) draws [num_points] random
    points in the square [[min_coord, max_coord]] squared, builds the
    index over that square, and runs [num_queries] queries, each over a
    square of side [query_size] centred at a random point.  It measures
    the time of each query and prints the average.

    The model keeps what the experiment computes, on trees as values;
    the clock, the printing and the destruction of the tree are in
    [Main].  [rand()] is a sequence [g] of integers, the
    state of the generator being the number of calls made so far; the
    parameters are a record, [main_params] holding the values the source
    assigns.  For other values the record describes the program with
    its constants changed, as long as the two counts are not negative:
    a negative count makes the constructor of the vector throw, which
    the model, where the vector is then empty, does not show.  The query loop hands back, for each query, its range and
    the [results] vector the source lets go out of scope.

    The theorems: the experiment is sound, on binary64 as in exact
    arithmetic: it returns, and every query finds exactly the data
    points that lie in the root region and in its range.  In exact
    arithmetic every generated point lies in the root region, so
    although [main] discards the value [insert] returns, no point is
    lost. *)

From Stdlib Require Import ZArith Bool List Lia Permutation QArith Floats.
From S2P Require Import Prelude Coord CoordFloat CoordQ Geometry Binary64 QuadTree Samples.
From S2P Require Import Insert Invariant Query Acceptance Driver.
Import ListNotations.

#[local] Close Scope Q_scope.
#[local] Open Scope outcome_scope.

Section Workload.
Context {C : Coord}.

(** ** The parameters (lines 90-94 and 106) *)

Record Params : Type := mkParams {
  num_points : Z;
  min_coord : coord;
  max_coord : coord;
  num_queries : Z;
  query_size : coord;
  node_capacity : Z
}.

Definition main_params : Params :=
  mkParams 1000000 (cof_int 0) (cof_int 1000) 1000 (cof_int 10) 4.

(** The largest value of [rand()], as glibc defines it. *)
Definition RAND_MAX : Z := 2147483647.

(** ** The random generator *)

Variable g : nat -> Z.

(** [min_coord + (max_coord - min_coord) * rand() / RAND_MAX], for the
    value [r] of [rand()]. *)
Definition rand_coord (P : Params) (r : Z) : coord :=
  scale (min_coord P) (max_coord P) r RAND_MAX.

(** Lines 99-101 and 116-117: two calls of [rand()], the first for [x].
    [s] counts the calls made before. *)
Definition rand_point (P : Params) (s : nat) : Point * nat :=
  (mkPoint (rand_coord P (g s)) (rand_coord P (g (S s))), S (S s)).

(** ** The data set (lines 97-102) *)

(** The points in the order they are drawn. *)

Fixpoint gen_data (P : Params) (n : nat) (s : nat) : list Point * nat :=
  match n with
  | O => ([], s)
  | S n' =>
      let '(p, s1) := rand_point P s in
      let '(ps, s2) := gen_data P n' s1 in
      (p :: ps, s2)
  end.

(** Lines 97-102 as written: the vector is created with [num_points]
    default points, and the loop overwrites the element [i] in turn.
    [k] counts the iterations left. *)
Fixpoint fill_data (P : Params) (k i : nat) (data : list Point) (s : nat)
    : list Point * nat :=
  match k with
  | O => (data, s)
  | S k' =>
      let '(p, s1) := rand_point P s in
      fill_data P k' (S i) (list_set data i p) s1
  end.

Definition data_vector (P : Params) (n : nat) : list Point * nat :=
  fill_data P n 0 (repeat Point_default n) 0.

(** Line 105: the root region. *)
Definition root_region (P : Params) : BoundingBox :=
  mkBoundingBox (min_coord P) (min_coord P) (max_coord P) (max_coord P).

(** ** The queries (lines 115-125) *)

Fixpoint query_loop (P : Params) (t : QuadTree) (n : nat) (s : nat)
    : outcome (list (BoundingBox * list Point)) :=
  match n with
  | O => Ok []
  | S n' =>
      let '(c, s1) := rand_point P s in
      let query_range := query_box (x c) (y c) (query_size P) in
      results <- run_query t query_range ;;
      rest <- query_loop P t n' s1 ;;
      Ok ((query_range, results) :: rest)
  end.

(** ** The experiment (lines 96-125) *)

Definition experiment (P : Params) (fuel : nat)
    : outcome (list (BoundingBox * list Point)) :=
  let '(data, s) := data_vector P (Z.to_nat (num_points P)) in
  qtree <- build fuel (root_region P) (node_capacity P) data ;;
  query_loop P qtree (Z.to_nat (num_queries P)) s.

(** The ranges of the [n] queries that start at the state [s] of the
    generator. *)
Fixpoint query_ranges (P : Params) (n : nat) (s : nat) : list BoundingBox :=
  match n with
  | O => []
  | S n' =>
      query_box (x (fst (rand_point P s))) (y (fst (rand_point P s))) (query_size P)
        :: query_ranges P n' (S (S s))
  end.

(** The data set of the experiment. *)
Definition data_set (P : Params) : list Point :=
  fst (gen_data P (Z.to_nat (num_points P)) 0).

(** ** The generator *)

Lemma gen_data_S (P : Params) (n s : nat) :
  gen_data P (S n) s =
  (fst (rand_point P s) :: fst (gen_data P n (S (S s))), snd (gen_data P n (S (S s)))).
Proof. simpl. now destruct (gen_data P n (S (S s))). Qed.

Lemma gen_data_length (P : Params) (n : nat) : forall s,
  length (fst (gen_data P n s)) = n /\ snd (gen_data P n s) = s + 2 * n.
Proof.
  induction n as [| n IH]; intros s; [simpl; split; lia |].
  rewrite gen_data_S. simpl. destruct (IH (S (S s))). split; lia.
Qed.

(** The loop over the vector leaves the points in the order they were
    drawn. *)
Lemma fill_data_gen_data (P : Params) (k : nat) : forall (pre : list Point) (s : nat),
  fill_data P k (length pre) (pre ++ repeat Point_default k) s =
  (pre ++ fst (gen_data P k s), snd (gen_data P k s)).
Proof.
  induction k as [| k IH]; intros pre s; [simpl; now rewrite !app_nil_r |].
  cbn [fill_data gen_data repeat].
  destruct (rand_point P s) as [p s1]. rewrite list_set_app.
  specialize (IH (pre ++ [p]) s1). rewrite length_app, <- app_assoc in IH.
  simpl in IH. rewrite Nat.add_1_r in IH. rewrite IH.
  destruct (gen_data P k s1) as [ps s2]. simpl. now rewrite <- app_assoc.
Qed.

Lemma data_vector_gen_data (P : Params) (n : nat) : data_vector P n = gen_data P n 0.
Proof.
  unfold data_vector. pose proof (fill_data_gen_data P n [] 0) as H.
  simpl in H. rewrite H. now destruct (gen_data P n 0).
Qed.

Lemma query_loop_S (P : Params) (t : QuadTree) (n s : nat) :
  query_loop P t (S n) s =
  (results <- run_query t (query_box (x (fst (rand_point P s)))
                             (y (fst (rand_point P s))) (query_size P)) ;;
   rest <- query_loop P t n (S (S s)) ;;
   Ok ((query_box (x (fst (rand_point P s))) (y (fst (rand_point P s)))
          (query_size P), results) :: rest)).
Proof. reflexivity. Qed.

(** ** The generated points lie in the root region *)

(** A random coordinate stays in the interval of the parameters [P],
    for the values [rand()] may return. *)
Definition scales_within (P : Params) : Prop :=
  forall r, (0 <= r <= RAND_MAX)%Z ->
    cleb (min_coord P) (rand_coord P r) = true /\
    cleb (rand_coord P r) (max_coord P) = true.

Section Scale.
Variable P : Params.
Hypothesis g_range : forall s, (0 <= g s <= RAND_MAX)%Z.
Hypothesis g_scaled : scales_within P.

Lemma rand_point_inside (s : nat) :
  contains (root_region P) (fst (rand_point P s)) = true.
Proof.
  apply contains_spec. unfold cgeb. simpl.
  destruct (g_scaled (g s) (g_range s)). destruct (g_scaled (g (S s)) (g_range (S s))). auto.
Qed.

Lemma gen_data_inside (n : nat) : forall s,
  Forall (fun p => contains (root_region P) p = true) (fst (gen_data P n s)).
Proof.
  induction n as [| n IH]; intros s; [constructor |].
  rewrite gen_data_S. constructor; [now apply rand_point_inside | now apply IH].
Qed.

(** Every point of the data set lies in the root region, so the filter
    that [insert] applies keeps all of them. *)
Lemma data_set_within :
  Forall (fun p => contains (root_region P) p = true) (data_set P) /\
  filter (contains (root_region P)) (data_set P) = data_set P.
Proof.
  pose proof (gen_data_inside (Z.to_nat (num_points P)) 0) as Hin.
  split; [exact Hin |]. apply filter_all_true. now apply Forall_forall.
Qed.

End Scale.

(** In an arithmetic in which scaling stays inside the interval. *)
Lemma scale_within {Sc : CoordScale C} (P : Params) :
  cleb (min_coord P) (max_coord P) = true -> scales_within P.
Proof. intros H r Hr. apply scale_between; auto. reflexivity. Qed.

(** ** The query loop *)

Lemma query_loop_filter {O : CoordOrder C} (P : Params) (t : QuadTree) (n : nat) :
  wf t -> forall s,
  exists out, query_loop P t n s = Ok out /\ map fst out = query_ranges P n s /\
    Forall (fun o => snd o = filter (contains (fst o)) (all_points t)) out.
Proof.
  intros Hw. induction n as [| n IH]; intros s; [exists []; simpl; auto |].
  destruct (IH (S (S s))) as (out & Hq & Hl & Hf).
  rewrite query_loop_S. unfold run_query.
  rewrite (queryRange_filter t _ [] Hw). simpl. rewrite Hq. simpl.
  eexists. split; [reflexivity | split; [simpl; congruence |]].
  constructor; [reflexivity | exact Hf].
Qed.

(** On a tree of uniform shape every query returns. *)
Lemma query_loop_returns (P : Params) (t : QuadTree) (n : nat) :
  shaped t -> forall s, exists out, query_loop P t n s = Ok out.
Proof.
  intros Hs. induction n as [| n IH]; intros s; [exists []; reflexivity |].
  destruct (IH (S (S s))) as (out & Hq).
  rewrite query_loop_S. unfold run_query.
  rewrite (queryRange_ref t _ Hs). simpl. rewrite Hq. simpl. eauto.
Qed.

(** The experiment returns when the capacity is an [int] other than
    0, in any arithmetic. *)
Lemma experiment_returns (P : Params) :
  int_range (node_capacity P) -> to_size_t (node_capacity P) <> 0%Z ->
  exists t out,
    build (Z.to_nat (num_points P) + 2) (root_region P) (node_capacity P)
      (fst (data_vector P (Z.to_nat (num_points P)))) = Ok t /\
    wf t /\ height t <= Z.to_nat (num_points P) + 1 /\
    experiment P (Z.to_nat (num_points P) + 2) = Ok out.
Proof.
  intros Hr Hk. unfold experiment.
  pose proof (gen_data_length P (Z.to_nat (num_points P)) 0) as [Hl _].
  rewrite <- data_vector_gen_data in Hl.
  destruct (data_vector P (Z.to_nat (num_points P))) as [data s]. simpl in *.
  destruct (build_returns (root_region P) (node_capacity P) data Hr Hk) as (t & Hb).
  rewrite Hl in Hb. exists t. pose proof Hb as Hb'. unfold build in Hb'.
  destruct (insert_all_wf _ _ _ _ Hb' (wf_new _ _ Hr)) as (Hw & _ & _).
  pose proof (insert_all_height _ _ _ _ Hb' (wf_new _ _ Hr) Hk) as Hh.
  rewrite height_new, Hl in Hh.
  destruct (query_loop_returns P t (Z.to_nat (num_queries P)) (wf_shaped _ Hw) s)
    as (out & Hq).
  exists out. rewrite Hb. simpl. repeat split; auto. lia.
Qed.

(** ** The experiment *)

(** The experiment is sound.  In an ordered arithmetic, when the root
    region belongs to a covering class of boxes (any box in a total
    order; on binary64 any box whose bounds are numbers, not oppositely
    infinite) and the capacity is an [int] other than 0, the experiment
    returns, whatever [rand()] returns; the index it builds holds the
    points of the data set that lie in the root region; and each of the
    queries, over the ranges drawn after the data set, finds, up to
    order, the points of the data set that lie in the root region and in
    its range. *)
Lemma experiment_correct
    {O : CoordOrder C} {good : BoundingBox -> Prop} {Cov : Covering good} (P : Params) :
  good (root_region P) ->
  int_range (node_capacity P) -> to_size_t (node_capacity P) <> 0%Z ->
  exists qtree out,
    build (Z.to_nat (num_points P) + 2) (root_region P) (node_capacity P) (data_set P)
      = Ok qtree /\
    Permutation (all_points qtree) (filter (contains (root_region P)) (data_set P)) /\
    experiment P (Z.to_nat (num_points P) + 2) = Ok out /\
    map fst out =
      query_ranges P (Z.to_nat (num_queries P)) (2 * Z.to_nat (num_points P)) /\
    Forall (fun o => Permutation (snd o)
              (filter (contains (fst o))
                 (filter (contains (root_region P)) (data_set P)))) out.
Proof.
  intros Hg Hr Hk. unfold experiment, data_set. rewrite data_vector_gen_data.
  destruct (gen_data_length P (Z.to_nat (num_points P)) 0) as [Hl Hs].
  destruct (gen_data P (Z.to_nat (num_points P)) 0) as [data s]. simpl in *. subst s.
  destruct (build_returns (root_region P) (node_capacity P) data Hr Hk) as (t & Hb).
  rewrite Hl in Hb. exists t.
  destruct (build_contents _ _ _ _ _ Hr Hk Hg Hb) as [Hw Hc].
  destruct (query_loop_filter P t (Z.to_nat (num_queries P)) Hw
              (2 * Z.to_nat (num_points P))) as (out & Hq & Hlen & Hf).
  exists out. rewrite Hb. simpl.
  split; [reflexivity | split; [exact Hc | split; [exact Hq | split; [exact Hlen |]]]].
  eapply Forall_impl; [| exact Hf]. intros [range res] E. simpl in *.
  rewrite E. now apply Permutation_filter.
Qed.

(** ** Main theorems *)

(** No point is lost in exact arithmetic.  When scaling stays
    inside the interval, [min_coord <= max_coord] and [rand()] returns
    values between 0 and [RAND_MAX], every point of the data set lies in
    the root region: all of them are inserted, although [main] discards
    the value [insert] returns. *)
Lemma data_set_inside {Sc : CoordScale C} (P : Params) :
  (forall s, (0 <= g s <= RAND_MAX)%Z) ->
  cleb (min_coord P) (max_coord P) = true ->
  Forall (fun p => contains (root_region P) p = true) (data_set P) /\
  filter (contains (root_region P)) (data_set P) = data_set P.
Proof. intros Hg Hm. apply data_set_within; [exact Hg | now apply scale_within]. Qed.

End Workload.

(** ** The theorem at a sample *)

(** A generator and a small experiment: three points in
    [[0,100] x [0,100]], capacity 1, two queries of side 80. *)
Definition sample_rand (s : nat) : Z :=
  ((Z.of_nat s * 1103515245 + 12345) mod (RAND_MAX + 1))%Z.

Definition qparams : Params (C := Qcoord) :=
  mkParams 3 (cof_int 0) (cof_int 100) 2 (cof_int 80) 1.

Definition fparams : Params (C := Fcoord) :=
  mkParams 3 (cof_int 0) (cof_int 100) 2 (cof_int 80) 1.

(** The parameters of the source, on doubles. *)
Definition double_params : Params (C := Fcoord) := main_params.

Lemma sample_rand_range (s : nat) : (0 <= sample_rand s <= RAND_MAX)%Z.
Proof.
  unfold sample_rand.
  pose proof (Z.mod_pos_bound (Z.of_nat s * 1103515245 + 12345) (RAND_MAX + 1)).
  unfold RAND_MAX in *. lia.
Qed.

Lemma data_set_inside_witness :
  Forall (fun p => contains (root_region qparams) p = true)
    (data_set sample_rand qparams) /\
  filter (contains (root_region qparams)) (data_set sample_rand qparams)
    = data_set sample_rand qparams.
Proof.
  apply (data_set_inside sample_rand qparams); [exact sample_rand_range | reflexivity].
Defined.

(** [main] on IEEE doubles, with the parameters of the source
    (a million points in [[0,1000] x [0,1000]], capacity 4, a thousand
    queries of side 10).  Whatever [rand()] returns, the build returns
    within a recursion depth of a million and two, the index holds the
    points of the data set that lie in the root region, and each of the
    thousand queries, over the ranges drawn after the data set, finds,
    up to order, the points of the data set in the root region and in
    its range. *)
Lemma main_on_doubles (g : nat -> Z) :
  exists qtree out,
    build (Z.to_nat (num_points double_params) + 2)
      (root_region double_params) (node_capacity double_params)
      (data_set g double_params) = Ok qtree /\
    Permutation (all_points qtree)
      (filter (contains (root_region double_params)) (data_set g double_params)) /\
    experiment g double_params (Z.to_nat (num_points double_params) + 2) = Ok out /\
    map fst out =
      query_ranges g double_params (Z.to_nat (num_queries double_params))
        (2 * Z.to_nat (num_points double_params)) /\
    Forall (fun o => Permutation (snd o)
              (filter (contains (fst o))
                 (filter (contains (root_region double_params))
                    (data_set g double_params)))) out.
Proof.
  apply (experiment_correct (good := fun b => box_num b = true) g double_params).
  - reflexivity.
  - unfold int_range, INT_MIN, INT_MAX. simpl. lia.
  - discriminate.
Qed.

(** On binary64 the ends of the range of [rand()] give the ends of the
    interval, with the parameters of the source. *)
Example rand_coord_ends :
  rand_coord (C := Fcoord) main_params 0 = 0%float /\
  rand_coord (C := Fcoord) main_params RAND_MAX = 1000%float.
Proof. vm_compute. split; reflexivity. Qed.

(** Scaling on binary64 can leave the interval.  With the interval
    [[0.3, 0.9]] the difference [0.9 - 0.3] rounds up, and the largest
    value of [rand()] gives a coordinate above 0.9: the point lies
    outside the root region, [insert] refuses it, and [main], which
    discards the value [insert] returns, builds an index without it. *)
Definition narrow_params : Params (C := Fcoord) :=
  mkParams 1 (cdiv (cof_int 3) (cof_int 10)) (cdiv (cof_int 9) (cof_int 10)) 1
    (cof_int 10) 4.

Example rand_coord_leaves_interval :
  cleb (rand_coord narrow_params RAND_MAX) (max_coord narrow_params) = false /\
  length (data_set (fun _ => RAND_MAX) narrow_params) = 1 /\
  exists t, build 3 (root_region narrow_params) (node_capacity narrow_params)
              (data_set (fun _ => RAND_MAX) narrow_params) = Ok t /\
            all_points t = [].
Proof. vm_compute. repeat split. eexists. split; reflexivity. Qed.

(** The small experiment on binary64: both queries find all three
    points. *)
Example experiment_binary64 :
  exists out, experiment sample_rand fparams 5 = Ok out /\
    map (fun o => length (snd o)) out = [3; 3] /\
    map snd out = [data_set sample_rand fparams; data_set sample_rand fparams].
Proof. eexists. vm_compute. repeat split; reflexivity. Qed.
