(* ===== verification/Midpoint.v ===== *)
(** * Midpoint: on doubles [subdivide] cuts a box between its bounds

    [QuadTree::subdivide] (lines 79-80 of [src/Code.cpp]) cuts a node
    at [xMid = (minX + maxX) / 2] and [yMid = (minY + maxY) / 2].  On
    doubles the sum and the quotient are rounded, and the sum of two
    large bounds overflows ([CoordFloat.midpoint_overflow]).  This file
    proves from [Nearest] that nothing else goes wrong: for numbers
    [a <= b] of magnitude below [2 ^ 1023] (the [small] doubles; the
    largest doubles are just below [2 ^ 1024]) the midpoint lies
    between [a] and [b].  Hence the valid boxes with small bounds are
    cut into valid boxes with small bounds that lie within them: they
    form a [Halving] class, and what exact midpoints give for all
    valid boxes holds on doubles for these: the quadrants tile the
    box, every region of a tree lies within the region of its parent,
    and [queryRange] scans exactly the nodes whose region meets the
    range. *)

From Stdlib Require Import ZArith PArith QArith Qpower Lia Lqa Bool List Floats.
From S2P Require Import Prelude Coord CoordFloat Geometry Binary64 Rounding Nearest.
From S2P Require Import QuadTree Samples Insert Invariant Query Traversal Driver.
Import ListNotations.

#[local] Open Scope Z_scope.

(** ** Definitions *)

(** A number of magnitude below [2 ^ 1023]: its double is a number of
    the format. *)
Definition sf_small (x : spec_float) : bool :=
  match x with
  | S754_zero _ => true
  | S754_finite _ _ e => e <? 971
  | _ => false
  end.

Definition small (a : float) : bool := sf_small (Prim2SF a).

(** A valid box with small bounds. *)
Definition box_small (b : BoundingBox (C := Fcoord)) : bool :=
  valid_box b && (small (x1 b) && small (x2 b)) && (small (y1 b) && small (y2 b)).

(** ** Doubles in canonical form *)

Lemma bounded_canonical m e : bounded prec emax m e = true -> canonical m e.
Proof.
  unfold bounded, canonical_mantissa. rewrite andb_true_iff, Z.eqb_eq, Z.leb_le.
  fold (fexp64 (Zpos (digits2_pos m) + e)). rewrite fexp64_eq.
  change (emax - prec) with 971. intros [Hc He].
  pose proof (digits2_pos_bounds m) as [Hl Hu]. set (d := Zpos (digits2_pos m)) in *.
  assert (Hd : d <= 53) by lia.
  assert (2 ^ d <= 2 ^ 53) by (apply Z.pow_le_mono_r; lia).
  repeat split; try lia. intros Hn. assert (d = 53) as Ed by lia.
  rewrite Ed in Hl. exact Hl.
Qed.

Lemma small_canonical x :
  valid_binary x = true -> sf_small x = true -> sf_canonical x.
Proof.
  destruct x as [s | s | | s m e]; cbn [sf_small sf_canonical valid_binary];
    try discriminate; [trivial |]. intros H _. now apply bounded_canonical.
Qed.

Lemma canonical_representable x : sf_canonical x -> representable (sf_val x).
Proof.
  destruct x as [s | s | | s m e]; try contradiction; cbn [sf_canonical].
  - intros _. exists 0, 0. repeat split; try lia.
  - intros (Hu & He & _). exists (cond_Zopp s (Zpos m)), e.
    repeat split; try lia; try (destruct s; cbn [cond_Zopp]; lia). apply sf_val_finite.
Qed.

Lemma small_double_representable x :
  sf_canonical x -> sf_small x = true -> representable (2 * sf_val x).
Proof.
  destruct x as [s | s | | s m e]; try contradiction; cbn [sf_canonical sf_small].
  - intros _ _. exists 0, 0. repeat split; try lia.
  - intros (Hu & He & _) Hs. apply Z.ltb_lt in Hs. exists (cond_Zopp s (Zpos m)), (e + 1).
    repeat split; try lia; try (destruct s; cbn [cond_Zopp]; lia).
    rewrite sf_val_finite. unfold val. rewrite bpow_succ. ring.
Qed.

(** The small numbers are those of magnitude below [2 ^ 1023]. *)
Lemma small_magnitude x :
  sf_canonical x ->
  (sf_small x = true <-> (- bpow 1023 < sf_val x)%Q /\ (sf_val x < bpow 1023)%Q).
Proof.
  pose proof (bpow_pos 1023) as Hp.
  destruct x as [s | s | | s m e]; try contradiction; cbn [sf_canonical sf_small].
  - intros _. cbn [sf_val]. split; [intros _; split; lra | reflexivity].
  - intros (Hu & He & Hn). pose proof (val_pos m e) as Hv.
    assert (Hs : e < 971 -> (val (Zpos m) e < bpow 1023)%Q).
    { intros H. apply (Qlt_le_trans _ (val (2 ^ 53) e)); [now apply val_lt |].
      rewrite val_bpow by lia. apply bpow_le. lia. }
    assert (Hb : 971 <= e -> (bpow 1023 <= val (Zpos m) e)%Q).
    { intros H. apply (Qle_trans _ (val (2 ^ 52) e)); [| apply val_le; lia].
      rewrite val_bpow by lia. apply bpow_le. lia. }
    rewrite Z.ltb_lt. split.
    + intros H. specialize (Hs H). destruct s; cbn [sf_val]; split; lra.
    + intros [H1 H2]. destruct (Z.lt_ge_cases e 971) as [Hlt | Hge]; [exact Hlt |].
      specialize (Hb Hge). destruct s; cbn [sf_val] in *; lra.
Qed.

(** ** The midpoint of two small numbers *)

Lemma val_two : (val (Zpos 4503599627370496) (-51) == 2)%Q.
Proof. reflexivity. Qed.

(** The midpoint of two small numbers lies between them. *)
Lemma sf_mid_between a b :
  sf_canonical a -> sf_canonical b -> sf_small a = true -> sf_small b = true ->
  (sf_val a <= sf_val b)%Q ->
  sf_between (sf_mid a b) (sf_val a) (sf_val b).
Proof.
  intros Ha Hb Sa Sb Hab. unfold sf_mid.
  change (Prim2SF 2) with (S754_finite false 4503599627370496 (-51)).
  destruct (SFadd_between a b (2 * sf_val a) (2 * sf_val b) Ha Hb) as (Hc & H1 & H2);
    auto using small_double_representable; try lra.
  apply SFdiv_between; auto using canonical_representable; cbn [sf_val]; rewrite val_two.
  - apply Qle_shift_div_l; lra.
  - apply Qle_shift_div_r; lra.
Qed.

Lemma sf_between_small a b x :
  sf_canonical a -> sf_canonical b -> sf_small a = true -> sf_small b = true ->
  sf_between x (sf_val a) (sf_val b) -> sf_small x = true.
Proof.
  intros Ha Hb Sa Sb (Hx & H1 & H2).
  apply (small_magnitude a Ha) in Sa. apply (small_magnitude b Hb) in Sb.
  apply (small_magnitude x Hx). split; lra.
Qed.

(** On doubles: the midpoint of two small numbers in order lies between
    them and is small. *)
Lemma midpoint_small (a b : float) :
  small a = true -> small b = true -> cleb a b = true ->
  cleb a (midpoint a b) = true /\
  cleb (midpoint a b) b = true /\
  small (midpoint (C := Fcoord) a b) = true.
Proof.
  unfold small. cbn [cleb Fcoord]. rewrite !leb_spec, midpoint_spec.
  intros Sa Sb Hab.
  pose proof (small_canonical _ (Prim2SF_valid a) Sa) as Ha.
  pose proof (small_canonical _ (Prim2SF_valid b) Sb) as Hb.
  apply (SFleb_val _ _ Ha Hb) in Hab.
  pose proof (sf_mid_between _ _ Ha Hb Sa Sb Hab) as Hm.
  pose proof (sf_between_small _ _ _ Ha Hb Sa Sb Hm) as Sm.
  destruct Hm as (Hc & H1 & H2).
  repeat split; [now apply SFleb_val | now apply SFleb_val | exact Sm].
Qed.

(** ** Boxes with small bounds *)

Lemma small_num (a : float) : small a = true -> sf_num (Prim2SF a) = true.
Proof. unfold small. now destruct (Prim2SF a). Qed.

Lemma small_pair (a b : float) : small a = true -> small b = true -> pair_num a b = true.
Proof. unfold small, pair_num. now destruct (Prim2SF a), (Prim2SF b). Qed.

Lemma box_small_spec (b : BoundingBox) :
  box_small b = true <->
  (cleb (x1 b) (x2 b) = true /\ cleb (y1 b) (y2 b) = true) /\
  (small (x1 b) = true /\ small (x2 b) = true) /\
  (small (y1 b) = true /\ small (y2 b) = true).
Proof. unfold box_small, valid_box. now rewrite !andb_true_iff. Qed.

Lemma box_small_num (b : BoundingBox) : box_small b = true -> box_num b = true.
Proof.
  rewrite box_small_spec. intros (_ & [X1 X2] & [Y1 Y2]).
  unfold box_num. now rewrite !small_pair.
Qed.

Lemma box_small_mid (b : BoundingBox) :
  box_small b = true ->
  (cleb (x1 b) (xMid b) = true /\ cleb (xMid b) (x2 b) = true /\ small (xMid b) = true) /\
  (cleb (y1 b) (yMid b) = true /\ cleb (yMid b) (y2 b) = true /\ small (yMid b) = true).
Proof.
  rewrite box_small_spec. intros ([Vx Vy] & [X1 X2] & [Y1 Y2]).
  split; now apply midpoint_small.
Qed.

Lemma box_small_quadrants (b : BoundingBox) :
  box_small b = true ->
  box_small (quadrant_nw b) = true /\ box_small (quadrant_ne b) = true /\
  box_small (quadrant_sw b) = true /\ box_small (quadrant_se b) = true.
Proof.
  intros H. destruct (box_small_mid b H) as [(A1 & A2 & A3) (B1 & B2 & B3)].
  apply box_small_spec in H. destruct H as ([Vx Vy] & [X1 X2] & [Y1 Y2]).
  rewrite !box_small_spec. cbn [quadrant_nw quadrant_ne quadrant_sw quadrant_se x1 x2 y1 y2].
  tauto.
Qed.

#[export] Instance Binary64_halving : Halving (fun b => box_small b = true).
Proof.
  split.
  - split; try (intros b H; now apply box_small_quadrants).
    intros b p H. now apply box_num_cover, box_small_num.
  - intros b H. apply box_small_spec in H. unfold valid_box. now rewrite andb_true_iff.
  - intros b H. destruct (box_small_mid b H) as [(A1 & A2 & _) _]. now split.
  - intros b H. destruct (box_small_mid b H) as [_ (B1 & B2 & _)]. now split.
Qed.

(** On doubles the quadrants of a valid box with small bounds hold the
    points of the box and no others. *)
Lemma box_small_partition (b : BoundingBox) (p : Point) :
  box_small b = true ->
  contains b p =
  contains (quadrant_nw b) p || contains (quadrant_ne b) p ||
  contains (quadrant_sw b) p || contains (quadrant_se b) p.
Proof. apply (quadrants_partition (good := fun b => box_small b = true)). Qed.

(** Every index built over such a root has its regions within the
    regions of their parents. *)
Lemma build_nested fuel (b : BoundingBox) (k : Z) data t :
  int_range k -> box_small b = true -> build fuel b k data = Ok t ->
  wf t /\ nested t = true /\ Forall (fun r => box_small r = true) (regions t).
Proof.
  intros Hr G Hb. unfold build in Hb.
  destruct (insert_all_wf _ _ _ _ Hb (wf_new _ _ Hr)) as (Hw & Eb & _).
  assert (G' : box_small (boundary t) = true) by now rewrite Eb.
  split; [exact Hw | split].
  - now apply (wf_nested (good := fun b => box_small b = true)).
  - now apply (regions_good (good := fun b => box_small b = true)).
Qed.

(** ** Main theorems *)

(** C22: on doubles the midpoint lies between the bounds.  For two
    doubles [a <= b] that are numbers of magnitude below [2 ^ 1023],
    the midpoint [(a + b) / 2] that [subdivide] computes, with the sum
    and the quotient rounded to nearest, satisfies
    [a <= (a + b) / 2 <= b] and is again a number of magnitude below
    [2 ^ 1023]. *)
Theorem binary64_midpoint_between (a b : float) :
  small a = true -> small b = true -> cleb a b = true ->
  cleb a (midpoint (C := Fcoord) a b) = true /\
  cleb (midpoint (C := Fcoord) a b) b = true /\
  small (midpoint (C := Fcoord) a b) = true.
Proof. apply midpoint_small. Qed.

(** C33: on doubles pruning is exact.  On a well-formed tree over a valid
    root with bounds below [2 ^ 1023] in magnitude, every region of the
    tree is such a box and lies within the region of its parent, and a
    call of [queryRange] scans the buffers of exactly the nodes whose
    region intersects the range, in pre-order. *)
Theorem binary64_query_scans (t : QuadTree (C := Fcoord)) range results tr :
  wf t -> box_small (boundary t) = true ->
  nested t = true /\
  Forall (fun r => box_small r = true) (regions t) /\
  exists res tr',
    queryRange_traced t range (results, tr) = Ok (res, tr ++ tr') /\
    queryRange t range results = Ok res /\
    scanned tr' = filter (fun r => intersects r range) (regions t).
Proof.
  intros Hw G. pose proof (wf_nested t Hw G) as Hn.
  split; [exact Hn | split; [now apply regions_good |]].
  exists (results ++ query_ref t range), (visits t range).
  split; [apply queryRange_traced_visits; now apply wf_shaped |].
  split; [apply queryRange_ref; now apply wf_shaped | now apply scanned_visits].
Qed.

(** ** The theorems at samples *)

(** The doubles nearest to 0.1 and to 0.7. *)
Definition tenth : float := 0x1.999999999999ap-4%float.
Definition seven_tenths : float := 0x1.6666666666666p-1%float.

Lemma binary64_midpoint_between_witness :
  cleb tenth (midpoint (C := Fcoord) tenth seven_tenths) = true /\
  cleb (midpoint (C := Fcoord) tenth seven_tenths) seven_tenths = true /\
  small (midpoint (C := Fcoord) tenth seven_tenths) = true.
Proof. apply (binary64_midpoint_between tenth seven_tenths); reflexivity. Defined.

Lemma binary64_query_scans_witness :
  nested tree3 = true /\
  Forall (fun r => box_small r = true) (regions tree3) /\
  exists res tr',
    queryRange_traced tree3 corner_box ([], []) = Ok (res, [] ++ tr') /\
    queryRange tree3 corner_box [] = Ok res /\
    scanned tr' = filter (fun r => intersects r corner_box) (regions tree3).
Proof. apply (binary64_query_scans tree3 corner_box [] []); [exact wf_tree3 | reflexivity]. Defined.

(** The midpoint where rounding shows: between two neighbouring doubles
    it is one of them; between the two smallest positive doubles it is
    the larger, the quotient being rounded to even; beyond [2 ^ 1023]
    the sum overflows and the midpoint is infinite. *)
Example midpoint_samples :
  (midpoint (C := Fcoord) 1 0x1.0000000000001p+0 = 1 /\
   midpoint (C := Fcoord) 0x1p-1074 0x2p-1074 = 0x2p-1074 /\
   midpoint (C := Fcoord) 0x1p+1023 0x1p+1023 = infinity)%float /\
  small 0x1.fffffffffffffp+1022%float = true /\ small 0x1p+1023%float = false.
Proof. vm_compute. repeat split; reflexivity. Qed.

(** Beyond [2 ^ 1023]: the box [[max / 2, max]] under the largest
    double is cut at infinity; its north-west quadrant reaches beyond
    it and its north-east quadrant is not a valid box. *)
Example overflow_quadrants :
  box_small upper_box = false /\
  inside (quadrant_nw upper_box) upper_box = false /\
  valid_box (quadrant_ne upper_box) = false.
Proof. vm_compute. repeat split; reflexivity. Qed.
