(* ===== verification/Doubles.v ===== *)
(** * Doubles: the data set of [main] on binary64

    [main] (lines 98-102 of [src/Code.cpp]) computes each coordinate as
    [min_coord + (max_coord - min_coord) * rand() / RAND_MAX] and
    discards the value [insert] returns: a point that rounding pushed
    out of the root region would be lost without a trace
    ([Workload.rand_coord_leaves_interval] shows parameters for which
    this happens).  With the parameters of the source it does not
    happen.  The product [1000 * rand()] lies between 0 and
    [1000 * RAND_MAX], which are binary64 numbers, so by [Nearest] the
    rounded product does; its quotient by [RAND_MAX] then lies between
    0 and 1000, and so does the rounded quotient.  Hence every point of the data
    set lies in the root region, every point is inserted, and the
    queries of [main] find exactly the data points in their range.
    By [Midpoint] the regions of the index are cut between their
    bounds all the way down. *)

From Stdlib Require Import ZArith PArith QArith Lia Lqa Bool List Permutation Uint63 Floats.
From S2P Require Import Prelude Coord CoordFloat Geometry Binary64 Rounding Nearest QuadTree.
From S2P Require Import Insert Invariant Query Traversal Driver Workload Midpoint.
Import ListNotations.

#[local] Close Scope Q_scope.
#[local] Open Scope Z_scope.

(** ** Definitions *)

(** The values [rand()] may return. *)
Definition rand_range (g : nat -> Z) : Prop := forall s, 0 <= g s <= RAND_MAX.

(** ** The constants *)

Lemma Prim2SF_1000 : sf_between (Prim2SF 1000%float) 1000 1000.
Proof. vm_compute. repeat split; discriminate. Qed.

Lemma Prim2SF_rand_max :
  Prim2SF (float_of_int RAND_MAX) = S754_finite false (Z.to_pos (RAND_MAX * 2 ^ 22)) (-22) /\
  (sf_val (Prim2SF (float_of_int RAND_MAX)) == inject_Z RAND_MAX)%Q.
Proof. vm_compute. split; reflexivity. Qed.

(** ** The conversion of [rand()] *)

Lemma float_of_int_exact r :
  0 <= r < 2 ^ 53 -> sf_between (Prim2SF (float_of_int r)) (inject_Z r) (inject_Z r).
Proof.
  intros Hr. unfold float_of_int. rewrite (proj2 (Z.ltb_ge r 0)) by lia.
  rewrite of_uint63_spec, Uint63.of_Z_spec, Z.mod_small;
    [apply binary_normalize_int; lia |].
  change wB with (2 ^ 63). assert (2 ^ 53 < 2 ^ 63) by reflexivity. lia.
Qed.

(** ** One coordinate *)

Lemma rand_coord_double r :
  rand_coord double_params r =
  (0 + (1000 * float_of_int r) / float_of_int RAND_MAX)%float.
Proof. reflexivity. Qed.

(** The rounded product [1000 * rand()] lies between 0 and
    [1000 * RAND_MAX], which is a number of the format. *)
Lemma product_between r :
  0 <= r <= RAND_MAX ->
  sf_between (Prim2SF (1000 * float_of_int r)%float) 0 (inject_Z (1000 * RAND_MAX)).
Proof.
  intros Hr. assert (RAND_MAX < 2 ^ 53) by reflexivity.
  destruct (float_of_int_exact r ltac:(lia)) as (Hc & Hv1 & Hv2).
  destruct Prim2SF_1000 as (Hk & Hk1 & Hk2).
  assert (inject_Z 0 <= inject_Z r)%Q by (rewrite <- Zle_Qle; lia).
  assert (inject_Z r <= inject_Z RAND_MAX)%Q by (rewrite <- Zle_Qle; lia).
  rewrite mul_spec.
  apply SFmul_between; auto; try (apply (representable_Z 0); lia);
    try (apply representable_Z; split; reflexivity).
  - set (a := sf_val (Prim2SF 1000)) in *. set (b := sf_val (Prim2SF (float_of_int r))) in *.
    change (inject_Z 0) with 0%Q in *. nra.
  - rewrite inject_Z_mult.
    set (a := sf_val (Prim2SF 1000)) in *. set (b := sf_val (Prim2SF (float_of_int r))) in *.
    change (inject_Z 0) with 0%Q in *. change (inject_Z 1000) with 1000%Q. nra.
Qed.

(** The rounded quotient by [RAND_MAX] lies between 0 and 1000. *)
Lemma quotient_between r :
  0 <= r <= RAND_MAX ->
  sf_between (Prim2SF ((1000 * float_of_int r) / float_of_int RAND_MAX)%float) 0 1000.
Proof.
  intros Hr. destruct (product_between r Hr) as (Hc & H1 & H2).
  destruct Prim2SF_rand_max as [Em Ev]. rewrite div_spec, Em. rewrite Em in Ev.
  apply SFdiv_between; auto; try (apply (representable_Z 0); lia);
    try (apply (representable_Z 1000); lia); rewrite Ev.
  - apply Qle_shift_div_l; [reflexivity | lra].
  - apply Qle_shift_div_r; [reflexivity |]. rewrite inject_Z_mult in H2. exact H2.
Qed.

(** With the parameters of the source a coordinate lies in
    [[0, 1000]], whatever [rand()] returns. *)
Lemma rand_coord_double_within : scales_within double_params.
Proof.
  intros r Hr. destruct (quotient_between r Hr) as (Hc & H1 & H2).
  destruct Prim2SF_1000 as (Hk & Hk1 & Hk2).
  change (min_coord double_params) with 0%float.
  change (max_coord double_params) with 1000%float.
  rewrite rand_coord_double. cbn [cleb Fcoord]. rewrite !leb_spec, add_spec.
  change (Prim2SF 0) with (S754_zero false).
  destruct (SFadd_between (S754_zero false) _ 0 1000 I Hc) as (Hs & Hs1 & Hs2);
    try (apply (representable_Z 0); lia); try (apply (representable_Z 1000); lia);
    cbn [sf_val]; try lra.
  split; apply SFleb_val; auto; cbn [sf_val]; try exact I; lra.
Qed.

(** The root region of [main] is a valid box with small bounds, so the
    regions of its index lie within the regions of their parents, and
    [queryRange] prunes exactly the subtrees that the range misses
    ([Midpoint.binary64_query_scans]). *)
Lemma main_index_nested (g : nat -> Z) fuel qtree :
  build fuel (root_region double_params) (node_capacity double_params)
    (data_set g double_params) = Ok qtree ->
  wf qtree /\ nested qtree = true /\
  Forall (fun r => box_small r = true) (regions qtree).
Proof.
  apply build_nested; [unfold int_range, INT_MIN, INT_MAX; simpl; lia | reflexivity].
Qed.

(** ** Main theorem *)

(** C8: on IEEE doubles and with the parameters of the source no point
    is lost.  Whatever values between 0 and [RAND_MAX] the calls of
    [rand()] return, every coordinate computed by
    [min_coord + (max_coord - min_coord) * rand() / RAND_MAX] lies in
    [[0, 1000]], every point of the data set lies in the root region,
    the index built holds the million points of the data set, and each
    of the thousand queries finds, up to order, the points of the data
    set in its range. *)
Theorem main_on_doubles_loses_no_point (g : nat -> Z) :
  rand_range g ->
  Forall (fun p => contains (root_region double_params) p = true)
    (data_set g double_params) /\
  exists qtree out,
    build (Z.to_nat (num_points double_params) + 2)
      (root_region double_params) (node_capacity double_params)
      (data_set g double_params) = Ok qtree /\
    Permutation (all_points qtree) (data_set g double_params) /\
    experiment g double_params (Z.to_nat (num_points double_params) + 2) = Ok out /\
    Forall (fun o => Permutation (snd o)
              (filter (contains (fst o)) (data_set g double_params))) out.
Proof.
  intros Hg.
  destruct (data_set_within g double_params Hg rand_coord_double_within) as [Hin Hf].
  split; [exact Hin |].
  destruct (experiment_correct (good := fun b => box_num b = true) g double_params)
    as (qtree & out & Hb & Hp & He & _ & Hq);
    [reflexivity | unfold int_range, INT_MIN, INT_MAX; simpl; lia | discriminate |].
  rewrite Hf in Hp, Hq. eauto 10.
Qed.

(** ** The theorem at a sample *)

Lemma sample_rand_in_range : rand_range sample_rand.
Proof. exact sample_rand_range. Qed.

Lemma main_on_doubles_loses_no_point_witness :
  Forall (fun p => contains (root_region double_params) p = true)
    (data_set sample_rand double_params) /\
  exists qtree out,
    build (Z.to_nat (num_points double_params) + 2)
      (root_region double_params) (node_capacity double_params)
      (data_set sample_rand double_params) = Ok qtree /\
    Permutation (all_points qtree) (data_set sample_rand double_params) /\
    experiment sample_rand double_params (Z.to_nat (num_points double_params) + 2) = Ok out /\
    Forall (fun o => Permutation (snd o)
              (filter (contains (fst o)) (data_set sample_rand double_params))) out.
Proof. apply (main_on_doubles_loses_no_point sample_rand). exact sample_rand_in_range. Defined.

(** The coordinates next to the ends of the range of [rand()] lie
    strictly inside the interval. *)
Example rand_coord_next_to_ends :
  PrimFloat.ltb 0 (rand_coord double_params 1) = true /\
  PrimFloat.ltb (rand_coord double_params (RAND_MAX - 1)) 1000 = true.
Proof. vm_compute. split; reflexivity. Qed.
