(* ===== verification/Examples.v ===== *)
(** * Examples: the program on IEEE doubles

    The operations evaluated on binary64, the arithmetic the program
    runs on: the scenario of section 8 of the specification, step by
    step, and the inputs at the edge of the contract (points on shared
    quadrant edges, on the outer boundary, repeated points, NaN).  The
    one general statement is about NaN: a point with a NaN coordinate
    lies in no box, so every tree refuses it and no query asks for
    it. *)

From Stdlib Require Import ZArith Bool List Floats.
From S2P Require Import Prelude Coord CoordFloat Geometry QuadTree Samples.
From S2P Require Import Insert Invariant Query Acceptance Driver.
Import ListNotations.

#[local] Open Scope outcome_scope.

(** ** Further samples *)

(** [tree2] after [insert(p50)]: the north-west child was full, so it
    is subdivided and [p50] goes to its south-east quadrant. *)
Definition tree2_p50 : QuadTree :=
  set_child NW tree2
    (set_child SE (subdivide (quad1 NW [p20]))
       (mkQuadTree (fbox 25 25 50 50) 1 [p50] None None None None)).

(** A chain: [root1] after four insertions of the same point. *)
Definition chain4 : outcome QuadTree := build 5 unit_box 1 [p10; p10; p10; p10].

(** ** NaN *)

(** A point with a NaN coordinate lies in no box. *)
Lemma contains_nan (b : BoundingBox) (p : Point) :
  PrimFloat.is_nan (x p) = true \/ PrimFloat.is_nan (y p) = true ->
  contains b p = false.
Proof.
  unfold contains, cgeb. simpl. intros [H | H].
  - now rewrite (leb_nan_r _ _ H).
  - rewrite (leb_nan_r (y1 b) _ H). now rewrite andb_false_r.
Qed.

(** C40: on binary64 a point with a NaN coordinate is refused by every
    tree, which is left as it was, and lies in the range of no
    query. *)
Theorem insert_refuses_nan (fuel : nat) (t : QuadTree) (p : Point) :
  PrimFloat.is_nan (x p) = true \/ PrimFloat.is_nan (y p) = true ->
  insert (S fuel) t p = Ok (false, t) /\
  forall range, contains range p = false.
Proof.
  intros H. split; [| intros range; now apply contains_nan].
  now rewrite insert_S, (contains_nan (boundary t) p H).
Qed.

Lemma insert_refuses_nan_witness :
  insert 1 tree3 p_nan = Ok (false, tree3) /\
  forall range, contains range p_nan = false.
Proof. apply (insert_refuses_nan 0 tree3 p_nan). left. reflexivity. Defined.

(** ** The scenario of the specification *)

(** The example of section 8 of the specification, on doubles.
    With capacity 1 and the root region [[0,100] x [0,100]]:
    (10,10) is stored in the root, which stays a leaf; (20,20)
    subdivides the root and lands in the north-west child
    [[0,50] x [0,50]]; (90,90) is refused by the first three children
    and lands in the south-east child [[50,100] x [50,100]].  The query
    over the root region returns the three points, the query over
    [[60,100] x [60,100]] returns (90,90) alone, and the query over
    [[200,300] x [200,300]] returns nothing. *)
Example spec_scenario :
  insert 1 root1 p10 = Ok (true, leaf1) /\
  (nw leaf1 = None /\ points leaf1 = [p10]) /\
  insert 2 leaf1 p20 = Ok (true, tree2) /\
  child NW tree2 = Some (mkQuadTree (fbox 0 0 50 50) 1 [p20] None None None None) /\
  insert 2 tree2 p90 = Ok (true, tree3) /\
  child SE tree3 = Some (mkQuadTree (fbox 50 50 100 100) 1 [p90] None None None None) /\
  build 2 unit_box 1 [p10; p20; p90] = Ok tree3 /\
  run_query tree3 unit_box = Ok [p10; p20; p90] /\
  run_query tree3 corner_box = Ok [p90] /\
  run_query tree3 far_box = Ok [].
Proof. vm_compute. repeat split; reflexivity. Qed.

(** ** Points on edges *)

(** The centre of the root lies in all four quadrants and goes to the
    first, however full it is. *)
Example centre_goes_north_west :
  contains (quadrant NW unit_box) p50 && contains (quadrant NE unit_box) p50 &&
  contains (quadrant SW unit_box) p50 && contains (quadrant SE unit_box) p50 = true /\
  insert 3 tree2 p50 = Ok (true, tree2_p50).
Proof. vm_compute. split; reflexivity. Qed.

(** The outer boundary is inclusive: the far corner is accepted, and a
    query box that touches it at that corner alone finds it. *)
Example far_corner_accepted :
  insert 2 leaf1 p100 =
    Ok (true, set_child SE (subdivide leaf1) (quad1 SE [p100])) /\
  run_query (set_child SE (subdivide leaf1) (quad1 SE [p100])) (fbox 100 100 300 300)
    = Ok [p100].
Proof. vm_compute. split; reflexivity. Qed.

(** ** Repeated points *)

(** Nothing removes duplicates: four copies of a point in a tree of
    capacity 1 form a chain of four nodes, each in the north-west
    corner of its parent, and a query returns all four. *)
Example duplicates_chain :
  exists t, chain4 = Ok t /\ height t = 4 /\ node_count t = 13 /\
            run_query t unit_box = Ok [p10; p10; p10; p10].
Proof. eexists. vm_compute. repeat split; reflexivity. Qed.
