(* ===== verification/Heap.v ===== *)
(** * Heap: the tree as objects and pointers

    [src/Code.cpp] builds the tree out of objects on the free store: a
    node holds four raw pointers ([QuadTree *nw, *ne, *sw, *se], line
    35), [subdivide] allocates the children with [new] (lines 81-84),
    the methods go through the pointers, and the destructor (lines
    37-42) releases the children with [delete].  This file models that
    level: a heap of nodes indexed by locations, a pointer being a
    location or null, and the methods of the class as functions on the
    heap, through [this].

    An access through a pointer that holds no live object, and the
    [delete] of one, are the outcome [InvalidPtr]: they are undefined
    behaviour in C++ (use after free, double free).  A failure of [new]
    (an exception the program does not catch) is not modelled: the
    store is unbounded.  Recursive methods take a fuel, as in
    [QuadTree]; on a heap they need it even for [queryRange] and the
    destructor, because a heap can hold a cycle. *)

From Stdlib Require Import ZArith List Floats.
From stdpp Require Import gmap.
Set Warnings "-notation-incompatible-prefix".
From S2P Require Import Prelude Coord CoordFloat Geometry QuadTree Samples.
Set Warnings "notation-incompatible-prefix,-clear-no-such-hyp".

#[local] Open Scope outcome_scope.

(** The address of an object. *)
Abbreviation loc := positive.

Section Heap.
Context {C : Coord}.

(** ** Objects (lines 30-35) *)

Record Node : Type := mkNode {
  n_boundary : BoundingBox;
  n_capacity : Z;
  n_points : list Point;
  n_nw : option loc;
  n_ne : option loc;
  n_sw : option loc;
  n_se : option loc
}.

Abbreviation heap := (gmap loc Node).

(** The object the constructor builds (line 36). *)
Definition Node_new (boundary : BoundingBox) (capacity : Z) : Node :=
  mkNode boundary capacity [] None None None None.

Definition n_child (q : Quadrant) (n : Node) : option loc :=
  match q with
  | NW => n_nw n
  | NE => n_ne n
  | SW => n_sw n
  | SE => n_se n
  end.

(** The object after the assignment [q = c] to one of its pointers. *)
Definition n_set_child (q : Quadrant) (n : Node) (c : option loc) : Node :=
  match q with
  | NW => mkNode (n_boundary n) (n_capacity n) (n_points n) c (n_ne n) (n_sw n) (n_se n)
  | NE => mkNode (n_boundary n) (n_capacity n) (n_points n) (n_nw n) c (n_sw n) (n_se n)
  | SW => mkNode (n_boundary n) (n_capacity n) (n_points n) (n_nw n) (n_ne n) c (n_se n)
  | SE => mkNode (n_boundary n) (n_capacity n) (n_points n) (n_nw n) (n_ne n) (n_sw n) c
  end.

(** The object after [points.push_back(p)] (line 48). *)
Definition n_push_back (n : Node) (p : Point) : Node :=
  mkNode (n_boundary n) (n_capacity n) (n_points n ++ [p])
    (n_nw n) (n_ne n) (n_sw n) (n_se n).

(** ** The store *)

(** The object at [l], for an access [l->...]. *)
Definition load (l : loc) (h : heap) : outcome Node :=
  match h !! l with
  | Some n => Ok n
  | None => InvalidPtr
  end.

(** [new QuadTree(boundary, capacity)]: the object is built at an
    address that holds none. *)
Definition new_QuadTree (boundary : BoundingBox) (capacity : Z) (h : heap)
    : loc * heap :=
  let l := fresh (dom h) in (l, <[l := Node_new boundary capacity]> h).

(** The release of the storage of the object at [l]. *)
Definition free (l : loc) (h : heap) : outcome heap :=
  _ <- load l h ;; Ok (delete l h).

(** ** subdivide (lines 78-85) *)

(** One of the lines 81-84, for the pointer [q] of the object at
    [this]: [q = new QuadTree(BoundingBox(...), capacity);]. *)
Definition new_child (q : Quadrant) (this : loc) (h : heap) : outcome heap :=
  n <- load this h ;;
  let '(c, h1) := new_QuadTree (quadrant q (n_boundary n)) (n_capacity n) h in
  Ok (<[this := n_set_child q n (Some c)]> h1).

Definition subdivide_at (this : loc) (h : heap) : outcome heap :=
  h <- new_child NW this h ;;
  h <- new_child NE this h ;;
  h <- new_child SW this h ;;
  new_child SE this h.

(** ** insert (lines 43-59) *)

(** Lines 54-58, for the pointers [qs] in turn; [ins] is the recursive
    call.  Each line reads the pointer from the object again. *)
Fixpoint try_children_at (ins : loc -> heap -> outcome (bool * heap))
    (qs : list Quadrant) (this : loc) (h : heap) : outcome (bool * heap) :=
  match qs with
  | [] => Ok (false, h)
  | q :: qs' =>
      n <- load this h ;;
      c <- deref (n_child q n) ;;
      '(r, h') <- ins c h ;;
      if r : bool then Ok (true, h') else try_children_at ins qs' this h'
  end.

(** Lines 51-53. *)
Definition ensure_children_at (this : loc) (h : heap) : outcome heap :=
  n <- load this h ;;
  if is_null (n_nw n) then subdivide_at this h else Ok h.

Fixpoint insert_at (fuel : nat) (this : loc) (p : Point) (h : heap)
    : outcome (bool * heap) :=
  match fuel with
  | O => OutOfFuel
  | S fuel' =>
      n <- load this h ;;
      if negb (contains (n_boundary n) p) then Ok (false, h)
      else if size_lt (length (n_points n)) (n_capacity n)
      then Ok (true, <[this := n_push_back n p]> h)
      else
        h <- ensure_children_at this h ;;
        try_children_at (fun c => insert_at fuel' c p) quadrants this h
  end.

(** ** queryRange (lines 60-76) *)

(** [c->queryRange(range, results)] through the pointer [c]. *)
Definition query_ptr (query : loc -> list Point -> outcome (list Point))
    (c : option loc) (results : list Point) : outcome (list Point) :=
  match c with
  | None => NullDeref
  | Some c' => query c' results
  end.

Fixpoint queryRange_at (fuel : nat) (h : heap) (range : BoundingBox)
    (this : loc) (results : list Point) : outcome (list Point) :=
  match fuel with
  | O => OutOfFuel
  | S fuel' =>
      n <- load this h ;;
      if negb (intersects (n_boundary n) range) then Ok results
      else
        let results := push_filter (contains range) (n_points n) results in
        if is_null (n_nw n) then Ok results
        else
          results <- query_ptr (queryRange_at fuel' h range) (n_nw n) results ;;
          results <- query_ptr (queryRange_at fuel' h range) (n_ne n) results ;;
          results <- query_ptr (queryRange_at fuel' h range) (n_sw n) results ;;
          query_ptr (queryRange_at fuel' h range) (n_se n) results
  end.

(** ** The destructor (lines 37-42) *)

(** The body of [~QuadTree] on the object at [this]: the four [delete]
    expressions in turn, [del] being the [delete] of a pointer. *)
Definition destructor (del : option loc -> heap -> outcome heap)
    (this : loc) (h : heap) : outcome heap :=
  n <- load this h ;;
  h <- del (n_nw n) h ;;
  n <- load this h ;;
  h <- del (n_ne n) h ;;
  n <- load this h ;;
  h <- del (n_sw n) h ;;
  n <- load this h ;;
  del (n_se n) h.

(** [delete p]: nothing for a null pointer; otherwise the destructor
    of the object runs and its storage is released. *)
Fixpoint delete_ptr (fuel : nat) (p : option loc) (h : heap) : outcome heap :=
  match p with
  | None => Ok h
  | Some l =>
      match fuel with
      | O => OutOfFuel
      | S fuel' =>
          h <- destructor (delete_ptr fuel') l h ;;
          free l h
      end
  end.

(** ** Equations *)

Lemma insert_at_S (fuel : nat) (this : loc) (p : Point) (h : heap) :
  insert_at (S fuel) this p h =
  (n <- load this h ;;
   if negb (contains (n_boundary n) p) then Ok (false, h)
   else if size_lt (length (n_points n)) (n_capacity n)
   then Ok (true, <[this := n_push_back n p]> h)
   else
     h <- ensure_children_at this h ;;
     try_children_at (fun c => insert_at fuel c p) quadrants this h).
Proof. reflexivity. Qed.

Lemma queryRange_at_S (fuel : nat) (h : heap) (range : BoundingBox)
    (this : loc) (results : list Point) :
  queryRange_at (S fuel) h range this results =
  (n <- load this h ;;
   if negb (intersects (n_boundary n) range) then Ok results
   else
     let results := push_filter (contains range) (n_points n) results in
     if is_null (n_nw n) then Ok results
     else
       results <- query_ptr (queryRange_at fuel h range) (n_nw n) results ;;
       results <- query_ptr (queryRange_at fuel h range) (n_ne n) results ;;
       results <- query_ptr (queryRange_at fuel h range) (n_sw n) results ;;
       query_ptr (queryRange_at fuel h range) (n_se n) results).
Proof. reflexivity. Qed.

Lemma delete_ptr_null (fuel : nat) (h : heap) : delete_ptr fuel None h = Ok h.
Proof. destruct fuel; reflexivity. Qed.

Lemma delete_ptr_S (fuel : nat) (l : loc) (h : heap) :
  delete_ptr (S fuel) (Some l) h =
  (h <- destructor (delete_ptr fuel) l h ;; free l h).
Proof. reflexivity. Qed.

(** ** More fuel never changes a result *)

Lemma try_children_at_mono (ins ins' : loc -> heap -> outcome (bool * heap)) qs :
  (forall c h, ok_le (ins c h) (ins' c h)) ->
  forall this h, ok_le (try_children_at ins qs this h) (try_children_at ins' qs this h).
Proof.
  intros Hins. induction qs as [| q qs IH]; intros this h; [apply ok_le_refl |].
  simpl. apply ok_le_bind; [apply ok_le_refl | intros n].
  apply ok_le_bind; [apply ok_le_refl | intros c].
  apply ok_le_bind; [apply Hins | intros [[] h']]; [apply ok_le_refl | apply IH].
Qed.

Lemma insert_at_mono (p : Point) (fuel fuel' : nat) : fuel <= fuel' ->
  forall this h, ok_le (insert_at fuel this p h) (insert_at fuel' this p h).
Proof.
  revert fuel'. induction fuel as [| fuel IH]; intros fuel' Hle this h;
    [intros a; discriminate |].
  destruct fuel' as [| fuel']; [lia |]. rewrite !insert_at_S.
  apply ok_le_bind; [apply ok_le_refl | intros n].
  destruct (negb _); [apply ok_le_refl |]. destruct (size_lt _ _); [apply ok_le_refl |].
  apply ok_le_bind; [apply ok_le_refl | intros h1].
  apply try_children_at_mono. intros c h2. apply IH. lia.
Qed.

Lemma query_ptr_mono (query query' : loc -> list Point -> outcome (list Point))
    (c : option loc) (results : list Point) :
  (forall l r, ok_le (query l r) (query' l r)) ->
  ok_le (query_ptr query c results) (query_ptr query' c results).
Proof. intros H. destruct c; simpl; [apply H | apply ok_le_refl]. Qed.

Lemma queryRange_at_mono (h : heap) (range : BoundingBox) (fuel fuel' : nat) :
  fuel <= fuel' ->
  forall this results,
    ok_le (queryRange_at fuel h range this results)
          (queryRange_at fuel' h range this results).
Proof.
  revert fuel'. induction fuel as [| fuel IH]; intros fuel' Hle this results;
    [intros a; discriminate |].
  destruct fuel' as [| fuel']; [lia |]. rewrite !queryRange_at_S.
  assert (Hq : forall l r, ok_le (queryRange_at fuel h range l r)
                                 (queryRange_at fuel' h range l r))
    by (intros; apply IH; lia).
  apply ok_le_bind; [apply ok_le_refl | intros n].
  destruct (negb _); [apply ok_le_refl |]. cbv zeta.
  destruct (is_null _); [apply ok_le_refl |].
  repeat (apply ok_le_bind; [now apply query_ptr_mono | intros ?]).
  now apply query_ptr_mono.
Qed.

Lemma destructor_mono (del del' : option loc -> heap -> outcome heap) :
  (forall c h, ok_le (del c h) (del' c h)) ->
  forall this h, ok_le (destructor del this h) (destructor del' this h).
Proof.
  intros H this h. unfold destructor.
  repeat (apply ok_le_bind; [first [apply ok_le_refl | apply H] | intros ?]).
  apply H.
Qed.

Lemma delete_ptr_mono (fuel fuel' : nat) : fuel <= fuel' ->
  forall c h, ok_le (delete_ptr fuel c h) (delete_ptr fuel' c h).
Proof.
  revert fuel'. induction fuel as [| fuel IH]; intros fuel' Hle [l |] h;
    rewrite ?delete_ptr_null; try apply ok_le_refl; [intros a; discriminate |].
  destruct fuel' as [| fuel']; [lia |]. rewrite !delete_ptr_S.
  apply ok_le_bind; [| intros; apply ok_le_refl].
  apply destructor_mono. intros c h1. apply IH. lia.
Qed.

End Heap.

(** ** Sample heaps *)

(** The heaps the sample trees of [Samples] occupy when the program
    builds them on binary64: addresses are handed out in the order of
    the allocations, the root at 1 and the four children of its
    subdivision at 2 to 5.  The witnesses of the theorems on the heap
    are stated on these. *)

#[local] Open Scope positive_scope.

(** The object of a leaf in the quadrant [q] of [unit_box]. *)
Definition leaf_node (q : Quadrant) (pts : list Point) : Node :=
  mkNode (quadrant q unit_box) 1 pts None None None None.

(** The root after its subdivision, with its buffer [pts]. *)
Definition root_node (pts : list Point) : Node :=
  mkNode unit_box 1 pts (Some 2) (Some 3) (Some 4) (Some 5).

(** The heap of [root1]: the root alone, empty. *)
Definition heap1 : gmap loc Node := {[ 1 := Node_new unit_box 1 ]}.

(** The heap of [leaf1]: the root alone, holding (10,10). *)
Definition heap_leaf1 : gmap loc Node := {[ 1 := n_push_back (Node_new unit_box 1) p10 ]}.

(** The heap of [tree2]. *)
Definition heap2 : gmap loc Node :=
  {[ 1 := root_node [p10]; 2 := leaf_node NW [p20]; 3 := leaf_node NE [];
     4 := leaf_node SW []; 5 := leaf_node SE [] ]}.

(** The heap of [tree3]. *)
Definition heap3 : gmap loc Node :=
  {[ 1 := root_node [p10]; 2 := leaf_node NW [p20]; 3 := leaf_node NE [];
     4 := leaf_node SW []; 5 := leaf_node SE [p90] ]}.

(** [heap3] with a second object at 6 whose fields are those of the
    root: what the implicit copy constructor of the class builds from
    the root, the pointers copied as they are. *)
Definition heap_copied : gmap loc Node := <[ 6 := root_node [p10] ]> heap3.

(** A root that no operation builds, which the public pointers allow:
    [nw] is null, [ne] points to a leaf at 2, and the buffer is full. *)
Definition heap_partial : gmap loc Node :=
  {[ 1 := mkNode unit_box 1 [p10] None (Some 2) None None; 2 := leaf_node NE [] ]}.

(** The program builds these heaps. *)
Example heaps_built :
  new_QuadTree unit_box 1 ∅ = (1, heap1) /\
  insert_at 1 1 p10 heap1 = Ok (true, heap_leaf1) /\
  insert_at 2 1 p20 heap_leaf1 = Ok (true, heap2) /\
  insert_at 2 1 p90 heap2 = Ok (true, heap3).
Proof. vm_compute. repeat split; reflexivity. Qed.
