(* ===== verification/HeapRepr.v ===== *)
(** * HeapRepr: the heap that holds a tree

    [repr h t this fp]: in the heap [h] the object at [this] and the
    objects its pointers reach, which occupy the addresses [fp], hold
    the tree [t]: each object has the fields of its node, a null
    pointer stands for an absent child and a pointer for the child it
    leads to, and no object is reached twice.  This is the ownership
    discipline of section 3 of the specification (each node
    exclusively owns its four children; the structure is a strict tree
    with no cycles), as a relation between the two models.

    The lemmas are those of a separation logic, written with
    footprints: a heap that agrees with [h] on [fp] holds the same
    tree, a change inside the footprint of a child leaves its siblings
    alone, and an operation that [grows] the footprint only by fresh
    addresses can be performed in place. *)

From Stdlib Require Import ZArith List.
From stdpp Require Import gmap.
Set Warnings "-notation-incompatible-prefix".
From S2P Require Import Prelude Coord Geometry QuadTree Insert Heap.
Set Warnings "notation-incompatible-prefix,-clear-no-such-hyp".

Section Repr.
Context {C : Coord}.

Abbreviation heap := (gmap loc Node).

Implicit Types (h : heap) (t c : QuadTree) (l this k : loc) (fp : gset loc)
  (f : Quadrant -> gset loc) (q : Quadrant) (n : Node).

(** ** The relation *)

(** The addresses of the four subtrees. *)
Definition kids f : gset loc := f NW ∪ f NE ∪ f SW ∪ f SE.

Definition opt_repr (R : QuadTree -> loc -> gset loc -> Prop)
    (ot : option QuadTree) (ol : option loc) fp : Prop :=
  match ot, ol with
  | None, None => fp = ∅
  | Some t, Some l => R t l fp
  | _, _ => False
  end.

Definition fields_match n t : Prop :=
  n_boundary n = boundary t /\ n_capacity n = capacity t /\ n_points n = points t.

Fixpoint repr h t this fp {struct t} : Prop :=
  exists n f,
    (h !! this = Some n) /\ fields_match n t /\
    (forall q, opt_repr (repr h) (child q t) (n_child q n) (f q)) /\
    fp = {[this]} ∪ kids f /\ (this ∉ kids f) /\
    (forall q q', q <> q' -> f q ## f q').

(** The footprint [fp'] in the heap [h'] extends the footprint [fp] in
    [h]: by addresses that were free in [h], and the heap has changed
    nowhere else. *)
Definition grows h fp h' fp' : Prop :=
  fp ⊆ fp' /\ (fp' ∖ fp) ## dom h /\ (forall k, k ∉ fp' -> (h' !! k = h !! k)).

(** The footprints of the children after the one of [q] has become
    [fq]. *)
Definition set_kid q f (fq : gset loc) : Quadrant -> gset loc :=
  fun q' => if Quadrant_eq_dec q q' then fq else f q'.

(** The heap without the objects at the addresses [fp]. *)
Definition release fp h : heap := filter (fun kn => kn.1 ∉ fp) h.

(** ** Unfolding *)

Lemma repr_eq h t this fp :
  repr h t this fp <->
  exists n f,
    (h !! this = Some n) /\ fields_match n t /\
    (forall q, opt_repr (repr h) (child q t) (n_child q n) (f q)) /\
    fp = {[this]} ∪ kids f /\ (this ∉ kids f) /\
    (forall q q', q <> q' -> f q ## f q').
Proof. destruct t; reflexivity. Qed.

Lemma elem_of_kids k f : k ∈ kids f <-> exists q, k ∈ f q.
Proof.
  unfold kids. rewrite !elem_of_union. split.
  - intros [[[H | H] | H] | H]; eauto.
  - intros [[] H]; auto.
Qed.

Lemma kids_set_kid q f fq : f q ⊆ fq -> kids (set_kid q f fq) = kids f ∪ fq.
Proof. intros H. unfold kids, set_kid. destruct q; simpl; set_solver. Qed.

Lemma opt_repr_Some (R : QuadTree -> loc -> gset loc -> Prop) c ol fp :
  opt_repr R (Some c) ol fp <-> exists l, ol = Some l /\ R c l fp.
Proof.
  destruct ol; simpl; split; try contradiction; eauto.
  - intros (l & [= <-] & H). exact H.
  - intros (l & [=] & _).
Qed.

Lemma opt_repr_None (R : QuadTree -> loc -> gset loc -> Prop) ol fp :
  opt_repr R None ol fp <-> ol = None /\ fp = ∅.
Proof. destruct ol; simpl; split; try contradiction; intuition congruence. Qed.

(** ** Footprints *)

Lemma repr_self h t this fp : repr h t this fp -> this ∈ fp.
Proof. rewrite repr_eq. intros (n & f & _ & _ & _ & -> & _). set_solver. Qed.

Lemma load_Some h l n : h !! l = Some n -> load l h = Ok n.
Proof. unfold load. now intros ->. Qed.

Lemma repr_load h t this fp :
  repr h t this fp -> exists n, (h !! this = Some n) /\ fields_match n t.
Proof. rewrite repr_eq. intros (n & f & Hn & Hm & _). eauto. Qed.

Lemma repr_dom h t : forall this fp, repr h t this fp -> fp ⊆ dom h.
Proof.
  induction t as [t IH] using QuadTree_child_ind. intros this fp.
  rewrite repr_eq. intros (n & f & Hn & _ & Hc & -> & _).
  intros k [->%elem_of_singleton | [q Hk]%elem_of_kids]%elem_of_union.
  - apply elem_of_dom. eauto.
  - specialize (Hc q). destruct (child q t) as [c |] eqn:Eq.
    + apply opt_repr_Some in Hc as (l & _ & Hc). eapply IH; eauto.
    + apply opt_repr_None in Hc as [_ E]. rewrite E in Hk. set_solver.
Qed.

(** ** Frame *)

Lemma repr_frame h h' t : forall this fp,
  repr h t this fp -> (forall k, k ∈ fp -> h' !! k = h !! k) ->
  repr h' t this fp.
Proof.
  induction t as [t IH] using QuadTree_child_ind. intros this fp.
  rewrite !repr_eq. intros (n & f & Hn & Hm & Hc & -> & Hl & Hd) Hh.
  exists n, f. split; [rewrite Hh; [exact Hn | set_solver] |].
  refine (conj Hm (conj _ (conj eq_refl (conj Hl Hd)))).
  intros q. specialize (Hc q).
  destruct (child q t) as [c |] eqn:Eq; [| exact Hc].
  apply opt_repr_Some in Hc as (l & El & Hc). apply opt_repr_Some.
  exists l. split; [exact El |]. eapply IH; eauto.
  intros k Hk. apply Hh. apply elem_of_union_r, elem_of_kids. eauto.
Qed.

(** ** Growth *)

Lemma grows_refl h fp : grows h fp h fp.
Proof. unfold grows. set_solver. Qed.

Lemma grows_trans h fp h1 fp1 h2 fp2 :
  grows h fp h1 fp1 -> grows h1 fp1 h2 fp2 -> grows h fp h2 fp2.
Proof.
  intros (Hs1 & Hd1 & Hf1) (Hs2 & Hd2 & Hf2). split; [set_solver |]. split.
  - intros k [Hk2 Hk]%elem_of_difference Hkh.
    destruct (decide (k ∈ fp1)) as [Hk1 | Hk1]; [set_solver |].
    apply (Hd2 k); [set_solver |].
    apply elem_of_dom. rewrite Hf1 by exact Hk1. now apply elem_of_dom.
  - intros k Hk. rewrite Hf2 by exact Hk. apply Hf1. set_solver.
Qed.

(** Growth of a part is growth of the whole. *)
Lemma grows_lift h fq h' fq' fp :
  grows h fq h' fq' -> fq ⊆ fp -> grows h fp h' (fp ∪ fq').
Proof.
  intros (Hs & Hd & Hf) Hq. split; [set_solver |]. split; [set_solver |].
  intros k Hk. apply Hf. set_solver.
Qed.

(** What an address of the old heap outside the old footprint sees. *)
Lemma grows_outside h fp h' fp' k :
  grows h fp h' fp' -> k ∈ dom h -> k ∉ fp -> (k ∉ fp') /\ (h' !! k = h !! k).
Proof.
  intros (Hs & Hd & Hf) Hk Hn.
  assert (k ∉ fp') by (intros Hk'; apply (Hd k); set_solver). auto.
Qed.

Lemma grows_dom h fp h' fp' : grows h fp h' fp' -> fp' ⊆ dom h' -> dom h' = dom h ∪ fp'.
Proof.
  intros (Hs & Hd & Hf) Hsub. apply set_eq. intros k.
  destruct (decide (k ∈ fp')) as [Hk | Hk]; [set_solver |].
  rewrite elem_of_union, !elem_of_dom, (Hf k Hk). tauto.
Qed.

(** ** Children in context *)

Lemma opt_repr_dom h ot ol fp : opt_repr (repr h) ot ol fp -> fp ⊆ dom h.
Proof.
  destruct ot as [c |].
  - intros (l & _ & H)%opt_repr_Some. eapply repr_dom; eauto.
  - intros [_ ->]%opt_repr_None. set_solver.
Qed.

Lemma opt_repr_frame h h' ot ol fp :
  opt_repr (repr h) ot ol fp -> (forall k, k ∈ fp -> h' !! k = h !! k) ->
  opt_repr (repr h') ot ol fp.
Proof.
  destruct ot as [c |]; [| auto].
  intros (l & -> & H)%opt_repr_Some Hh. simpl. eapply repr_frame; eauto.
Qed.

(** A leaf is held by its object alone. *)
Lemma repr_leaf h l b cap :
  h !! l = Some (Node_new b cap) -> repr h (QuadTree_new b cap) l {[l]}.
Proof.
  intros Hl. apply repr_eq. exists (Node_new b cap), (fun _ => ∅).
  split; [exact Hl |]. split; [repeat split |].
  split; [intros []; reflexivity |]. unfold kids. set_solver.
Qed.

(** A write to the fields of the object at [this] that keeps its
    pointers. *)
Lemma repr_store h t t' this fp n' :
  repr h t this fp -> fields_match n' t' ->
  (forall q, child q t' = child q t) ->
  (forall n, h !! this = Some n -> forall q, n_child q n' = n_child q n) ->
  repr (<[this := n']> h) t' this fp /\ grows h fp (<[this := n']> h) fp.
Proof.
  rewrite !repr_eq. intros (n & f & Hn & _ & Hc & -> & Hl & Hd) Hm Ht Hp.
  split.
  - exists n', f. split; [apply lookup_insert_eq |].
    refine (conj Hm (conj _ (conj eq_refl (conj Hl Hd)))).
    intros q. rewrite Ht, (Hp n Hn). eapply opt_repr_frame; [apply Hc |].
    intros k Hk. apply lookup_insert_ne. intros <-. apply Hl, elem_of_kids. eauto.
  - split; [set_solver |]. split; [set_solver |].
    intros k Hk. apply lookup_insert_ne. set_solver.
Qed.

Lemma n_set_child_same q n cl : n_child q n = Some cl -> n_set_child q n (Some cl) = n.
Proof. destruct n, q; simpl; now intros ->. Qed.

Lemma n_child_set_child q q' n (ol : option loc) :
  n_child q' (n_set_child q n ol) = if Quadrant_eq_dec q q' then ol else n_child q' n.
Proof. destruct q, q'; reflexivity. Qed.

(** The parent with a new child: the object at [this] points to
    [cl], which holds [c'] in [fq'], and the siblings are as they
    were. *)
Lemma repr_put_child h h' t this n f q cl c' fq' :
  fields_match n t ->
  (forall q', opt_repr (repr h) (child q' t) (n_child q' n) (f q')) ->
  this ∉ kids f -> (forall q1 q2, q1 <> q2 -> f q1 ## f q2) ->
  h' !! this = Some (n_set_child q n (Some cl)) ->
  repr h' c' cl fq' -> f q ⊆ fq' -> this ∉ fq' ->
  (forall q' k, q <> q' -> k ∈ f q' -> (k ∉ fq') /\ (h' !! k = h !! k)) ->
  repr h' (set_child q t c') this ({[this]} ∪ kids f ∪ fq').
Proof.
  intros Hm Hc Hl Hd Hn Hr Hsub Hthis Hsib.
  apply repr_eq. exists (n_set_child q n (Some cl)), (set_kid q f fq').
  split; [exact Hn |]. split; [destruct q; exact Hm |]. split; [| split; [| split]].
  - intros q'. rewrite child_set_child, n_child_set_child. unfold set_kid.
    destruct (Quadrant_eq_dec q q') as [<- | Hne]; [exact Hr |].
    eapply opt_repr_frame; [apply Hc |]. intros k Hk. exact (proj2 (Hsib q' k Hne Hk)).
  - rewrite kids_set_kid by exact Hsub. set_solver.
  - rewrite kids_set_kid by exact Hsub. set_solver.
  - intros q1 q2 Hne. unfold set_kid.
    destruct (Quadrant_eq_dec q q1) as [<- | H1], (Quadrant_eq_dec q q2) as [<- | H2];
      [congruence | | | auto].
    + intros k Hk1 Hk2. exact (proj1 (Hsib q2 k H2 Hk2) Hk1).
    + intros k Hk1 Hk2. exact (proj1 (Hsib q1 k H1 Hk1) Hk2).
Qed.

(** The child [q] of a tree in the heap, and how to put the parent
    together again once the child has grown. *)
Lemma repr_child h t this fp q c :
  repr h t this fp -> child q t = Some c ->
  exists n cl fq,
    (h !! this = Some n) /\ n_child q n = Some cl /\ repr h c cl fq /\
    forall h' c' fq',
      grows h fq h' fq' -> repr h' c' cl fq' ->
      (h' !! this = Some n) /\
      repr h' (set_child q t c') this (fp ∪ fq') /\
      grows h fp h' (fp ∪ fq').
Proof.
  rewrite repr_eq. intros (n & f & Hn & Hm & Hc & -> & Hl & Hd) Hq.
  pose proof (Hc q) as Hcq. rewrite Hq in Hcq.
  apply opt_repr_Some in Hcq as (cl & Ecl & Hcl).
  exists n, cl, (f q). do 3 (split; [assumption |]).
  intros h' c' fq' Hg Hr'.
  assert (Hout : forall k, k ∈ dom h -> k ∉ f q -> (k ∉ fq') /\ (h' !! k = h !! k))
    by (intros k; apply grows_outside; exact Hg).
  assert (Hthis : (this ∉ fq') /\ (h' !! this = Some n)).
  { rewrite <- Hn. apply Hout; [apply elem_of_dom; eauto |].
    intros Hk. apply Hl, elem_of_kids. eauto. }
  split; [apply Hthis |]. split.
  - eapply repr_put_child; eauto; [now rewrite n_set_child_same | apply Hg | apply Hthis |].
    intros q' k Hne Hk. apply Hout.
    + eapply opt_repr_dom; [apply (Hc q') | exact Hk].
    + intros Hk'. apply (Hd q q' Hne k); assumption.
  - eapply grows_lift; [exact Hg |].
    intros k Hk. apply elem_of_union_r, elem_of_kids. eauto.
Qed.

(** ** Release *)

Lemma lookup_release fp h k :
  release fp h !! k = if decide (k ∈ fp) then None else h !! k.
Proof.
  unfold release. destruct (decide (k ∈ fp)) as [Hk | Hk].
  - apply map_lookup_filter_None. right. intros n _. simpl. tauto.
  - destruct (h !! k) as [n |] eqn:E.
    + apply map_lookup_filter_Some. auto.
    + apply map_lookup_filter_None. auto.
Qed.

Lemma release_empty h : release ∅ h = h.
Proof. apply map_eq. intros k. rewrite lookup_release. now destruct (decide _). Qed.

Lemma release_release fp fp' h : release fp' (release fp h) = release (fp ∪ fp') h.
Proof.
  apply map_eq. intros k. rewrite !lookup_release.
  repeat destruct (decide _); set_solver.
Qed.

Lemma delete_release l fp h : delete l (release fp h) = release (fp ∪ {[l]}) h.
Proof.
  apply map_eq. intros k. rewrite lookup_delete, !lookup_release.
  repeat destruct (decide _); set_solver.
Qed.

Lemma release_all h : release (dom h) h = ∅.
Proof.
  apply map_eq. intros k. rewrite lookup_release, lookup_empty.
  destruct (decide _) as [| Hk]; [reflexivity |]. now apply not_elem_of_dom.
Qed.

Lemma dom_release fp h : dom (release fp h) = dom h ∖ fp.
Proof.
  apply set_eq. intros k. rewrite elem_of_difference, !elem_of_dom, lookup_release.
  destruct (decide _); [split; [intros [? [=]] | tauto] | tauto].
Qed.

End Repr.
