(* ===== verification/HeapAbs.v ===== *)
(** * HeapAbs: reading the tree off the heap

    [tree_of fuel h this] follows the pointers from [this] to a depth
    of [fuel] and returns the tree the objects hold together with the
    addresses they occupy, or nothing if it meets a pointer to no
    object, reaches an object twice, or runs out of fuel.  It is the
    abstraction function of the refinement: it returns [t] and [fp]
    exactly when the heap holds [t] at [this] in [fp]
    ([HeapRepr.repr]), so the tree a heap holds is unique and can be
    computed. *)

From Stdlib Require Import ZArith List Lia.
From stdpp Require Import gmap.
Set Warnings "-notation-incompatible-prefix".
From S2P Require Import Prelude Coord CoordFloat Geometry QuadTree Samples Insert.
From S2P Require Import Heap HeapRepr.
Set Warnings "notation-incompatible-prefix,-clear-no-such-hyp".

Section Abs.
Context {C : Coord}.

Abbreviation heap := (gmap loc Node).

Implicit Types (h : heap) (t c : QuadTree) (l this k : loc) (fp : gset loc)
  (f : Quadrant -> gset loc) (q : Quadrant) (n : Node).

(** ** The abstraction function *)

(** The object at [this] and the four subtrees lie apart. *)
Definition separate this f : Prop :=
(this ∉ kids f) /\
  f NW ## f NE /\ f NW ## f SW /\ f NW ## f SE /\
  f NE ## f SW /\ f NE ## f SE /\ f SW ## f SE.

#[export] Instance separate_dec this f : Decision (separate this f).
Proof. unfold separate. apply _. Defined.

(** The footprints of the four subtrees, by name. *)
Definition pick (a b c d : gset loc) : Quadrant -> gset loc :=
  fun q => match q with NW => a | NE => b | SW => c | SE => d end.

(** What a pointer leads to: nothing for a null pointer. *)
Definition opt_tree_of (rec : loc -> option (QuadTree * gset loc))
    (ol : option loc) : option (option QuadTree * gset loc) :=
  match ol with
  | None => Some (None, ∅)
  | Some l =>
      match rec l with
      | Some (t, fp) => Some (Some t, fp)
      | None => None
      end
  end.

Fixpoint tree_of (fuel : nat) h this : option (QuadTree * gset loc) :=
  match fuel with
  | O => None
  | S fuel' =>
      match h !! this with
      | None => None
      | Some n =>
          match opt_tree_of (tree_of fuel' h) (n_nw n),
                opt_tree_of (tree_of fuel' h) (n_ne n),
                opt_tree_of (tree_of fuel' h) (n_sw n),
                opt_tree_of (tree_of fuel' h) (n_se n) with
          | Some (a, fa), Some (b, fb), Some (c, fc), Some (d, fd) =>
              if decide (separate this (pick fa fb fc fd))
              then Some (mkQuadTree (n_boundary n) (n_capacity n) (n_points n) a b c d,
                         {[this]} ∪ kids (pick fa fb fc fd))
              else None
          | _, _, _, _ => None
          end
      end
  end.

(** ** Lemmas *)

Lemma separate_spec this f :
  separate this f <-> (this ∉ kids f) /\ forall q q', q <> q' -> f q ## f q'.
Proof.
  unfold separate. split.
  - intros (Hl & H1 & H2 & H3 & H4 & H5 & H6). split; [exact Hl |].
    intros [] [] Hq; try congruence; auto; symmetry; auto.
  - intros (Hl & Hd). repeat split; auto; apply Hd; discriminate.
Qed.

Lemma tree_of_S fuel h this :
  tree_of (S fuel) h this =
  match h !! this with
  | None => None
  | Some n =>
      match opt_tree_of (tree_of fuel h) (n_nw n),
            opt_tree_of (tree_of fuel h) (n_ne n),
            opt_tree_of (tree_of fuel h) (n_sw n),
            opt_tree_of (tree_of fuel h) (n_se n) with
      | Some (a, fa), Some (b, fb), Some (c, fc), Some (d, fd) =>
          if decide (separate this (pick fa fb fc fd))
          then Some (mkQuadTree (n_boundary n) (n_capacity n) (n_points n) a b c d,
                     {[this]} ∪ kids (pick fa fb fc fd))
          else None
      | _, _, _, _ => None
      end
  end.
Proof. reflexivity. Qed.

Lemma opt_tree_of_sound h fuel (ol : option loc) (ot : option QuadTree) fp :
  (forall l t fp, tree_of fuel h l = Some (t, fp) -> repr h t l fp) ->
  opt_tree_of (tree_of fuel h) ol = Some (ot, fp) ->
  opt_repr (repr h) ot ol fp.
Proof.
  intros IH. destruct ol as [l |]; simpl.
  - destruct (tree_of fuel h l) as [[t fp'] |] eqn:E; [| discriminate].
    intros [= <- <-]. simpl. now apply IH.
  - now intros [= <- <-].
Qed.

Lemma tree_of_sound h : forall fuel this t fp,
  tree_of fuel h this = Some (t, fp) -> repr h t this fp.
Proof.
  induction fuel as [| fuel IH]; intros this t fp; [discriminate |].
  rewrite tree_of_S. destruct (h !! this) as [n |] eqn:Hn; [| discriminate].
  destruct (opt_tree_of _ (n_nw n)) as [[a fa] |] eqn:Ea; [| discriminate].
  destruct (opt_tree_of _ (n_ne n)) as [[b fb] |] eqn:Eb; [| discriminate].
  destruct (opt_tree_of _ (n_sw n)) as [[c fc] |] eqn:Ec; [| discriminate].
  destruct (opt_tree_of _ (n_se n)) as [[d fd] |] eqn:Ed; [| discriminate].
  destruct (decide _) as [Hsep |]; [| discriminate]. intros [= <- <-].
  apply separate_spec in Hsep as [Hl Hd].
  apply repr_eq. exists n, (pick fa fb fc fd).
  split; [exact Hn |]. split; [repeat split |].
  split; [| auto]. intros []; simpl; eapply opt_tree_of_sound; eauto.
Qed.

Lemma opt_tree_of_complete h fuel (ol : option loc) (ot : option QuadTree) fp :
  (forall c l, ot = Some c -> repr h c l fp -> tree_of fuel h l = Some (c, fp)) ->
  opt_repr (repr h) ot ol fp ->
  opt_tree_of (tree_of fuel h) ol = Some (ot, fp).
Proof.
  intros IH. destruct ot as [c |].
  - intros (l & -> & Hr)%opt_repr_Some. simpl. now rewrite (IH c l).
  - now intros [-> ->]%opt_repr_None.
Qed.

Lemma tree_of_complete h t : forall this fp fuel,
  repr h t this fp -> height t <= fuel -> tree_of fuel h this = Some (t, fp).
Proof.
  induction t as [t IH] using QuadTree_child_ind. intros this fp fuel Hr Hf.
  destruct fuel as [| fuel]; [pose proof (height_pos t); lia |].
  revert Hr. rewrite repr_eq. intros (n & f & Hn & (Hb & Hk & Hp) & Hc & -> & Hl & Hd).
  assert (Hq : forall q,
    opt_tree_of (tree_of fuel h) (n_child q n) = Some (child q t, f q)).
  { intros q. apply opt_tree_of_complete; [| apply Hc].
    intros c l Hq Hrc. eapply IH; eauto. pose proof (height_child _ _ _ Hq). lia. }
  pose proof (Hq NW) as Hnw. pose proof (Hq NE) as Hne.
  pose proof (Hq SW) as Hsw. pose proof (Hq SE) as Hse. simpl in Hnw, Hne, Hsw, Hse.
  rewrite tree_of_S, Hn, Hnw, Hne, Hsw, Hse.
  rewrite decide_True by (change (separate this f); apply separate_spec; auto).
  change (kids (pick (f NW) (f NE) (f SW) (f SE))) with (kids f).
  rewrite Hb, Hk, Hp. now destruct t.
Qed.

Lemma opt_tree_of_height h fuel (ol : option loc) (ot : option QuadTree) fp :
  (forall l t fp, tree_of fuel h l = Some (t, fp) -> height t <= fuel) ->
  opt_tree_of (tree_of fuel h) ol = Some (ot, fp) -> opt_nat height ot <= fuel.
Proof.
  intros IH. destruct ol as [l |]; simpl.
  - destruct (tree_of fuel h l) as [[t fp'] |] eqn:E; [| discriminate].
    intros [= <- <-]. simpl. eapply IH; eauto.
  - intros [= <- <-]. simpl. lia.
Qed.

Lemma tree_of_height h : forall fuel this t fp,
  tree_of fuel h this = Some (t, fp) -> height t <= fuel.
Proof.
  induction fuel as [| fuel IH]; intros this t fp; [discriminate |].
  rewrite tree_of_S. destruct (h !! this) as [n |]; [| discriminate].
  destruct (opt_tree_of _ (n_nw n)) as [[a fa] |] eqn:Ea; [| discriminate].
  destruct (opt_tree_of _ (n_ne n)) as [[b fb] |] eqn:Eb; [| discriminate].
  destruct (opt_tree_of _ (n_sw n)) as [[c fc] |] eqn:Ec; [| discriminate].
  destruct (opt_tree_of _ (n_se n)) as [[d fd] |] eqn:Ed; [| discriminate].
  destruct (decide _); [| discriminate]. intros [= <- <-].
  pose proof (opt_tree_of_height _ _ _ _ _ IH Ea).
  pose proof (opt_tree_of_height _ _ _ _ _ IH Eb).
  pose proof (opt_tree_of_height _ _ _ _ _ IH Ec).
  pose proof (opt_tree_of_height _ _ _ _ _ IH Ed).
  rewrite height_eq. simpl. lia.
Qed.

(** ** Main theorem *)

(** The abstraction function is exact.  [tree_of] with the fuel
    [fuel] returns the tree [t] and the addresses [fp] exactly when the
    heap holds [t] at [this] in [fp] and [t] is no higher than [fuel].
    So the tree a heap holds at an address, and its footprint, are
    unique, and whether it holds one is decidable. *)
Lemma tree_of_repr (fuel : nat) h this t fp :
  tree_of fuel h this = Some (t, fp) <-> repr h t this fp /\ height t <= fuel.
Proof.
  split.
  - intros H. split; [eapply tree_of_sound | eapply tree_of_height]; eauto.
  - intros [Hr Hf]. now apply tree_of_complete.
Qed.

End Abs.

(** The sample heaps hold the sample trees. *)
Example tree_of_samples :
  tree_of 1 heap1 1 = Some (root1, {[1%positive]}) /\
  tree_of 2 heap2 1 = Some (tree2, {[1; 2; 3; 4; 5]}%positive) /\
  tree_of 2 heap3 1 = Some (tree3, {[1; 2; 3; 4; 5]}%positive) /\
  tree_of 1 heap3 1 = None /\
  tree_of 2 heap3 7 = None.
Proof. vm_compute. repeat split; reflexivity. Qed.

Lemma repr_heap2 : repr heap2 tree2 1 {[1; 2; 3; 4; 5]}%positive.
Proof. apply (tree_of_sound heap2 2). vm_compute. reflexivity. Qed.

Lemma repr_heap3 : repr heap3 tree3 1 {[1; 2; 3; 4; 5]}%positive.
Proof. apply (tree_of_sound heap3 2). vm_compute. reflexivity. Qed.
