(* ===== verification/HeapRefine.v ===== *)
(** * HeapRefine: the methods on the heap implement the methods on trees

    The methods of [Heap], which follow the pointers of [src/Code.cpp],
    against the methods of [QuadTree], which work on the tree as a
    value.  If the heap holds a tree ([HeapRepr.repr]), a call of
    [insert] or [queryRange] through the pointer ends as the call on
    the tree does and leaves a heap that holds the result; it touches
    no object outside the tree, and the objects it adds are new.  In
    particular it never goes through a pointer to no object. *)

From Stdlib Require Import ZArith List.
From stdpp Require Import gmap.
Set Warnings "-notation-incompatible-prefix".
From S2P Require Import Prelude Coord CoordFloat Geometry QuadTree Samples Insert.
From S2P Require Import Heap HeapRepr HeapAbs.
Set Warnings "notation-incompatible-prefix,-clear-no-such-hyp".

#[local] Open Scope outcome_scope.

Section Refine.
Context {C : Coord}.

Abbreviation heap := (gmap loc Node).

Implicit Types (h : heap) (t c : QuadTree) (l this k : loc) (fp : gset loc)
  (q : Quadrant) (n : Node) (p : Point).

(** ** What a call establishes *)

(** The heap [h'] holds at [this] the tree [t'], having grown from the
    heap [h] whose tree occupied [fp]. *)
Definition holds_after h this fp t' h' : Prop :=
  shaped t' /\ exists fp', repr h' t' this fp' /\ grows h fp h' fp'.

(** The result of [insert] on the tree and on the heap. *)
Definition insert_post h this fp (a : bool * QuadTree) (b : bool * heap) : Prop :=
  a.1 = b.1 /\ holds_after h this fp a.2 b.2.

(** ** subdivide *)

Lemma new_child_repr h t this fp q :
  repr h t this fp -> child q t = None ->
  exists h' a,
    new_child q this h = Ok h' /\
    repr h' (set_child q t (QuadTree_new (quadrant q (boundary t)) (capacity t)))
      this (fp ∪ {[a]}) /\
    grows h fp h' (fp ∪ {[a]}).
Proof.
  intros Hr Hq. pose proof (repr_dom _ _ _ _ Hr) as Hdom. revert Hr.
  rewrite repr_eq. intros (n & f & Hn & Hm & Hc & -> & Hl & Hd).
  pose proof (Hc q) as Hcq. rewrite Hq in Hcq. apply opt_repr_None in Hcq as [Hnq Hfq].
  set (a := fresh (dom h)). set (leaf := Node_new (quadrant q (n_boundary n)) (n_capacity n)).
  assert (Hfresh : a ∉ dom h) by apply is_fresh.
  assert (Hne : this <> a) by (intros ->; apply Hfresh, elem_of_dom; eauto).
  exists (<[this := n_set_child q n (Some a)]> (<[a := leaf]> h)), a.
  split; [unfold new_child, load; rewrite Hn; reflexivity |]. split.
  - eapply repr_put_child; eauto; [apply lookup_insert_eq | | set_solver | set_solver |].
    + destruct Hm as (<- & <- & _). apply repr_leaf.
      rewrite lookup_insert_ne by exact Hne. apply lookup_insert_eq.
    + intros q' k Hqq Hk.
      assert (k ∈ dom h) by (apply Hdom, elem_of_union_r, elem_of_kids; eauto).
      assert (k <> this) by (intros ->; apply Hl, elem_of_kids; eauto).
      split; [set_solver |]. rewrite !lookup_insert_ne; [reflexivity | |]; congruence.
  - split; [set_solver |]. split; [set_solver |].
    intros k Hk. rewrite !lookup_insert_ne; [reflexivity | |]; set_solver.
Qed.

Lemma subdivide_set_child t :
  subdivide t =
  set_child SE (set_child SW (set_child NE (set_child NW t
    (QuadTree_new (quadrant NW (boundary t)) (capacity t)))
    (QuadTree_new (quadrant NE (boundary t)) (capacity t)))
    (QuadTree_new (quadrant SW (boundary t)) (capacity t)))
    (QuadTree_new (quadrant SE (boundary t)) (capacity t)).
Proof. reflexivity. Qed.

(** One line of [subdivide] after the lines before it. *)
Lemma new_child_step h0 fp0 h t this fp q :
  repr h t this fp -> grows h0 fp0 h fp -> child q t = None ->
  exists h' fp',
    new_child q this h = Ok h' /\
    repr h' (set_child q t (QuadTree_new (quadrant q (boundary t)) (capacity t)))
      this fp' /\
    grows h0 fp0 h' fp'.
Proof.
  intros Hr Hg Hq. destruct (new_child_repr _ _ _ _ q Hr Hq) as (h' & a & Hn & Hr' & Hg').
  exists h', (fp ∪ {[a]}). eauto using grows_trans.
Qed.

Lemma subdivide_at_repr h t this fp :
  repr h t this fp -> (forall q, child q t = None) ->
  exists h' fp',
    subdivide_at this h = Ok h' /\ repr h' (subdivide t) this fp' /\
    grows h fp h' fp'.
Proof.
  intros Hr Hq. unfold subdivide_at. rewrite subdivide_set_child.
  destruct (new_child_step h fp _ _ _ _ NW Hr (grows_refl _ _) (Hq NW))
    as (h1 & f1 & -> & Hr1 & Hg1).
  destruct (new_child_step h fp _ _ _ _ NE Hr1 Hg1 (Hq NE)) as (h2 & f2 & E2 & Hr2 & Hg2).
  destruct (new_child_step h fp _ _ _ _ SW Hr2 Hg2 (Hq SW)) as (h3 & f3 & E3 & Hr3 & Hg3).
  destruct (new_child_step h fp _ _ _ _ SE Hr3 Hg3 (Hq SE)) as (h4 & f4 & E4 & Hr4 & Hg4).
  exists h4, f4. simpl in *. rewrite E2; simpl. rewrite E3; simpl. auto.
Qed.

(** A node without a north-west child has no child, in a tree of
    uniform shape. *)
Lemma shaped_leaf t : shaped t -> nw t = None -> forall q, child q t = None.
Proof.
  rewrite shaped_eq. intros ([(H1 & H2 & H3 & H4) | (a & b & c & d & H1 & _)] & _) Hn.
  - now intros [].
  - congruence.
Qed.

Lemma ensure_children_at_repr h t this fp :
  shaped t -> repr h t this fp ->
  exists h' fp',
    ensure_children_at this h = Ok h' /\ repr h' (ensure_children t) this fp' /\
    grows h fp h' fp'.
Proof.
  intros Hs Hr. unfold ensure_children_at, ensure_children.
  pose proof Hr as Hr0. rewrite repr_eq in Hr0.
  destruct Hr0 as (n & f & Hn & _ & Hc & _). unfold load. rewrite Hn. simpl.
  specialize (Hc NW). simpl in Hc. destruct (nw t) as [c |] eqn:Enw.
  - apply opt_repr_Some in Hc as (l & -> & _). simpl.
    exists h, fp. auto using grows_refl.
  - apply opt_repr_None in Hc as [-> _]. simpl.
    apply subdivide_at_repr; [exact Hr |]. now apply shaped_leaf.
Qed.

(** ** insert *)

Lemma insert_post_weaken h0 fp0 h this fp a b :
  grows h0 fp0 h fp -> insert_post h this fp a b -> insert_post h0 this fp0 a b.
Proof.
  intros Hg (Hr & Hs & fp' & Hrepr & Hg'). split; [exact Hr |]. split; [exact Hs |].
  exists fp'. eauto using grows_trans.
Qed.

(** Lines 54-58: one pass over the children, given what the recursive
    calls do. *)
Lemma try_children_at_sim (ins : QuadTree -> outcome (bool * QuadTree))
    (insh : loc -> heap -> outcome (bool * heap)) (qs : list Quadrant) :
  (forall c l h fc, shaped c -> repr h c l fc ->
     outcome_rel (insert_post h l fc) (ins c) (insh l h)) ->
  forall t this h fp, shaped t -> repr h t this fp ->
    outcome_rel (insert_post h this fp)
      (try_children ins qs t) (try_children_at insh qs this h).
Proof.
  intros Hins. induction qs as [| q qs IH]; intros t this h fp Hs Hr; simpl.
  - split; [reflexivity |]. split; [exact Hs |]. exists fp. auto using grows_refl.
  - destruct (child q t) as [c |] eqn:Hq.
    + destruct (repr_child _ _ _ _ q _ Hr Hq) as (n & cl & fq & Hn & Hcl & Hrc & Hback).
      unfold load. rewrite Hn. simpl. rewrite Hcl. simpl.
      eapply outcome_rel_bind; [apply Hins; eauto using shaped_child |].
      intros [r c'] [r' h'] (Er & Hs' & fq' & Hr' & Hg). simpl in Er. subst r'. simpl in *.
      destruct (Hback h' c' fq' Hg Hr') as (_ & Hrt & Hgt).
      assert (Hst : shaped (set_child q t c')) by eauto using shaped_set_child.
      destruct r; simpl.
      * split; [reflexivity |]. split; [exact Hst |]. eauto.
      * eapply outcome_rel_mono; [| apply IH; eassumption].
        intros a b. now apply insert_post_weaken.
    + pose proof Hr as Hr0. rewrite repr_eq in Hr0.
      destruct Hr0 as (n & f & Hn & _ & Hc & _). unfold load. rewrite Hn. simpl.
      specialize (Hc q). rewrite Hq in Hc. apply opt_repr_None in Hc as [-> _].
      exact I.
Qed.

Lemma insert_at_sim p : forall fuel t this h fp,
  shaped t -> repr h t this fp ->
  outcome_rel (insert_post h this fp) (insert fuel t p) (insert_at fuel this p h).
Proof.
  induction fuel as [| fuel IH]; intros t this h fp Hs Hr; [exact I |].
  rewrite insert_S, insert_at_S.
  destruct (repr_load _ _ _ _ Hr) as (n & Hn & Hb & Hcap & Hp).
  rewrite (load_Some _ _ _ Hn). cbn [bind]. rewrite Hb, Hcap, Hp.
  destruct (negb (contains (boundary t) p)).
  { split; [reflexivity |]. split; [exact Hs |]. exists fp. auto using grows_refl. }
  destruct (size_lt (length (points t)) (capacity t)).
  { split; [reflexivity |]. split; [now apply shaped_push_back |]. exists fp.
    apply (repr_store _ _ (push_back t p) _ _ (n_push_back n p) Hr);
      [| now intros [] | intros n0 [= <-]%(eq_trans (eq_sym Hn)) []; reflexivity].
    split; [exact Hb |]. split; [exact Hcap |]. simpl. now rewrite Hp. }
  destruct (ensure_children_at_repr _ _ _ _ Hs Hr) as (h1 & fp1 & -> & Hr1 & Hg1).
  cbn [bind]. eapply outcome_rel_mono; [intros a b; apply insert_post_weaken; exact Hg1 |].
  apply try_children_at_sim; auto using shaped_ensure_children.
Qed.

(** ** queryRange *)

(** A call through one of the pointers, given what the recursive calls
    return. *)
Lemma query_ptr_sim h (range : BoundingBox) fuel (ot : option QuadTree)
    (ol : option loc) fp (results : list Point) :
  opt_repr (repr h) ot ol fp ->
  (forall c l, ot = Some c -> repr h c l fp ->
     queryRange_at fuel h range l results = queryRange c range results) ->
  query_ptr (queryRange_at fuel h range) ol results =
  query_child (fun c' => queryRange c' range) ot results.
Proof.
  destruct ot as [c |].
  - intros (l & -> & Hr)%opt_repr_Some IH. simpl. now apply IH.
  - intros [-> _]%opt_repr_None _. reflexivity.
Qed.

Lemma queryRange_at_sim h (range : BoundingBox) t : forall this fp fuel results,
  repr h t this fp -> height t <= fuel ->
  queryRange_at fuel h range this results = queryRange t range results.
Proof.
  induction t as [t IH] using QuadTree_child_ind. intros this fp fuel results Hr Hf.
  destruct fuel as [| fuel]; [pose proof (height_pos t); lia |].
  rewrite queryRange_at_S, queryRange_eq. revert Hr. rewrite repr_eq.
  intros (n & f & Hn & (Hb & _ & Hp) & Hc & _).
  rewrite (load_Some _ _ _ Hn). cbn [bind]. rewrite Hb, Hp.
  destruct (negb (intersects (boundary t) range)); [reflexivity |]. cbv zeta.
  assert (Hq : forall q results,
    query_ptr (queryRange_at fuel h range) (n_child q n) results =
    query_child (fun c' => queryRange c' range) (child q t) results).
  { intros q res. eapply query_ptr_sim; [apply Hc |]. intros c l Hq Hrc.
    eapply IH; eauto. pose proof (height_child _ _ _ Hq). lia. }
  pose proof (Hc NW) as Hcnw. simpl in Hcnw. destruct (nw t) as [c |] eqn:Enw.
  - apply opt_repr_Some in Hcnw as (l & El & _). rewrite El. cbn [is_null].
    rewrite <- El. change (n_nw n) with (n_child NW n).
    apply bind_cong; [rewrite Hq; simpl; now rewrite Enw | intros r1].
    apply bind_cong; [apply (Hq NE) | intros r2].
    apply bind_cong; [apply (Hq SW) | intros r3]. apply (Hq SE).
  - apply opt_repr_None in Hcnw as [-> _]. reflexivity.
Qed.

(** ** A heap that holds no tree *)

(** The pointers being public, a node can be made to point to itself.
    A query that reaches such a node with a range that meets its
    boundary calls itself without end: this is why the methods on the
    heap take a fuel, and what [repr] excludes. *)
Lemma queryRange_at_cycle h this n (range : BoundingBox) :
  h !! this = Some n -> n_nw n = Some this ->
  intersects (n_boundary n) range = true ->
  forall fuel results, queryRange_at fuel h range this results = OutOfFuel.
Proof.
  intros Hn Hnw Hi. induction fuel as [| fuel IH]; intros results; [reflexivity |].
  rewrite queryRange_at_S. unfold load. rewrite Hn. cbn [bind].
  rewrite Hi, Hnw. cbn [negb is_null query_ptr]. now rewrite IH.
Qed.

(** ** Main theorems *)

(** C4: [insert] through the pointer implements [insert] on the tree.
    If the heap holds at [this], in the addresses [fp], a tree [t]
    whose nodes have all or none of their children, the call on the
    heap ends as the call on [t] does: both run out of the same fuel,
    or both return the same value, and then the heap holds at [this]
    the tree the call on [t] leaves, in addresses that extend [fp] by
    addresses that were free; every object outside has its old value.
    The call never goes through a pointer to no object. *)
Theorem insert_at_refines (fuel : nat) t this h fp p :
  shaped t -> repr h t this fp ->
  outcome_rel (insert_post h this fp) (insert fuel t p) (insert_at fuel this p h).
Proof. intros Hs Hr. now apply insert_at_sim. Qed.

(** C24: [queryRange] through the pointer returns what [queryRange] on
    the tree returns, when the heap holds the tree and the fuel is at
    least its height. *)
Theorem queryRange_at_refines (fuel : nat) h (range : BoundingBox) t this fp
    (results : list Point) :
  repr h t this fp -> height t <= fuel ->
  queryRange_at fuel h range this results = queryRange t range results.
Proof. intros Hr Hf. eapply queryRange_at_sim; eauto. Qed.

End Refine.

(** ** The theorems at a sample *)

Lemma insert_at_refines_witness :
  outcome_rel (insert_post heap2 1%positive {[1; 2; 3; 4; 5]}%positive)
    (insert 2 tree2 p90) (insert_at 2 1%positive p90 heap2).
Proof.
  apply (insert_at_refines 2 tree2 1%positive heap2 _ p90);
    [apply shapedb_spec; vm_compute; reflexivity | exact repr_heap2].
Defined.

Lemma queryRange_at_refines_witness :
  queryRange_at 2 heap3 corner_box 1%positive [] = queryRange tree3 corner_box [].
Proof.
  apply (queryRange_at_refines 2 heap3 corner_box tree3 1%positive _ [] repr_heap3).
  vm_compute. lia.
Defined.

(** A subdivision on the heap: the root of [heap_leaf1] is full, the
    four children are allocated at the next addresses, and the point
    goes to the north-west one. *)
Example subdivide_at_heap :
  subdivide_at 1%positive heap_leaf1 =
    Ok (<[1%positive := root_node [p10]]>
          {[ 2%positive := leaf_node NW []; 3%positive := leaf_node NE [];
             4%positive := leaf_node SW []; 5%positive := leaf_node SE [] ]}) /\
  queryRange_at 2 heap3 unit_box 1%positive [] = Ok [p10; p20; p90].
Proof. vm_compute. split; reflexivity. Qed.
