(* ===== verification/Destructor.v ===== *)
(** * Destructor: the release of a tree

    The destructor of [src/Code.cpp] (lines 37-42) deletes the four
    children; [delete] of a pointer runs the destructor of the object
    and releases its storage.  On a heap that holds a tree the
    [delete] of its root releases exactly the objects of the tree, each
    once, and touches nothing else: no object of the tree is left (no
    leak) and none is released twice.  The calls nest exactly as deep
    as the tree is high: the fuel of the model, which bounds the depth
    of nesting, lets the [delete] return if and only if it reaches the
    height.  On a heap in which two objects
    point to the same child, which the public pointer fields and the
    implicit copy constructor of the class allow, the second release of
    the child is undefined behaviour. *)

From Stdlib Require Import ZArith List Lia.
From stdpp Require Import gmap.
Set Warnings "-notation-incompatible-prefix".
From S2P Require Import Prelude Coord CoordFloat Geometry QuadTree Samples Insert.
From S2P Require Import Heap HeapRepr HeapAbs.
Set Warnings "notation-incompatible-prefix,-clear-no-such-hyp".

#[local] Open Scope outcome_scope.

Section Destructor.
Context {C : Coord}.

Abbreviation heap := (gmap loc Node).

Implicit Types (h : heap) (t c : QuadTree) (l this k : loc) (fp D : gset loc)
  (q : Quadrant) (n : Node).

(** [delete] of the root of a tree releases the tree when the fuel, the
    depth to which calls may nest, reaches the height of the tree, and
    runs out of fuel otherwise. *)
Definition deletes t : Prop :=
  forall this fp fuel h,
    repr h t this fp ->
    delete_ptr fuel (Some this) h =
    if height t <=? fuel then Ok (release fp h) else OutOfFuel.

(** [delete] of a pointer of the node, after the objects [D] have been
    released. *)
Lemma delete_ptr_opt h (ot : option QuadTree) (ol : option loc) fq D fuel :
  opt_repr (repr h) ot ol fq -> D ## fq ->
  (forall c, ot = Some c -> deletes c) ->
  delete_ptr fuel ol (release D h) =
  if opt_nat height ot <=? fuel then Ok (release (D ∪ fq) h) else OutOfFuel.
Proof.
  destruct ot as [c |].
  - intros (l & -> & Hr)%opt_repr_Some HD Hc.
    rewrite (Hc c eq_refl l fq fuel (release D h)); [now rewrite release_release |].
    eapply repr_frame; [exact Hr |]. intros k Hk. rewrite lookup_release.
    destruct (decide (k ∈ D)); [set_solver | reflexivity].
  - intros [-> ->]%opt_repr_None _ _. now rewrite delete_ptr_null, union_empty_r_L.
Qed.

Lemma load_release h this n D :
  h !! this = Some n -> this ∉ D -> load this (release D h) = Ok n.
Proof.
  intros Hn HD. apply load_Some. rewrite lookup_release.
  destruct (decide _); [contradiction | exact Hn].
Qed.

(** One [delete] expression of the destructor: the read of the pointer
    through [this], the call, and the case of a subtree higher than the
    fuel, in which the whole call runs out of fuel. *)
Ltac delete_child Hstep Hn :=
  rewrite (load_release _ _ _ _ Hn) by set_solver; cbn [bind];
  rewrite Hstep by set_solver;
  match goal with
  | |- context [bind (if ?a <=? ?f then _ else _)] => destruct (Nat.leb_spec a f)
  end; cbn [bind]; [| now rewrite (proj2 (Nat.leb_gt _ _)) by lia].

Lemma delete_ptr_repr t : deletes t.
Proof.
  induction t as [t IH] using QuadTree_child_ind. intros this fp fuel h Hr.
  destruct fuel as [| fuel].
  { pose proof (height_pos t). now rewrite (proj2 (Nat.leb_gt _ _)) by lia. }
  rewrite delete_ptr_S, (height_eq t). revert Hr. rewrite repr_eq.
  intros (n & f & Hn & _ & Hc & -> & Hl & Hd).
  assert (Hin : forall q, f q ⊆ kids f) by (intros q k Hk; apply elem_of_kids; eauto).
  assert (Hstep : forall q D, D ## f q ->
    delete_ptr fuel (n_child q n) (release D h) =
    if opt_nat height (child q t) <=? fuel then Ok (release (D ∪ f q) h) else OutOfFuel).
  { intros q D HD. eapply delete_ptr_opt; [apply Hc | exact HD |].
    intros c Hq. eapply IH; eauto. }
  pose proof (Hstep NW) as Snw. pose proof (Hstep NE) as Sne.
  pose proof (Hstep SW) as Ssw. pose proof (Hstep SE) as Sse.
  pose proof (Hin NW). pose proof (Hin NE). pose proof (Hin SW). pose proof (Hin SE).
  pose proof (Hd NW NE). pose proof (Hd NW SW). pose proof (Hd NW SE).
  pose proof (Hd NE SW). pose proof (Hd NE SE). pose proof (Hd SW SE).
  simpl in Snw, Sne, Ssw, Sse. clear Hstep IH Hc Hd Hin.
  transitivity (h0 <- destructor (delete_ptr fuel) this (release ∅ h) ;; free this h0);
    [now rewrite release_empty |].
  unfold destructor, free.
  delete_child Snw Hn. delete_child Sne Hn. delete_child Ssw Hn. delete_child Sse Hn.
  rewrite (load_release _ _ _ _ Hn) by set_solver; cbn [bind].
  rewrite delete_release, (proj2 (Nat.leb_le _ _)) by lia.
  do 2 f_equal. unfold kids. set_solver.
Qed.

(** ** Main theorem *)

(** C9: the destructor releases the tree, and nests as deep as the tree
    is high.  If the heap holds a tree at [this] in the addresses [fp],
    [delete this] returns exactly when calls may nest to the height of
    the tree, and then leaves the heap without the objects at [fp] and
    otherwise as it was: every object of the tree is released (no
    leak), none is released twice or accessed after its release, and no
    other object is touched.  With less depth than the height it does
    not return. *)
Theorem delete_releases_tree (fuel : nat) h t this fp :
  repr h t this fp ->
  delete_ptr fuel (Some this) h =
    (if height t <=? fuel then Ok (release fp h) else OutOfFuel) /\
  dom (release fp h) = dom h ∖ fp.
Proof.
  intros Hr. split; [now apply (delete_ptr_repr t) | apply dom_release].
Qed.

End Destructor.

(** ** The theorem at a sample *)

Lemma delete_releases_tree_witness :
  delete_ptr 2 (Some 1%positive) heap3 =
    (if height tree3 <=? 2 then Ok (release {[1; 2; 3; 4; 5]}%positive heap3)
     else OutOfFuel) /\
  dom (release {[1; 2; 3; 4; 5]}%positive heap3) = dom heap3 ∖ {[1; 2; 3; 4; 5]}%positive.
Proof. apply (delete_releases_tree 2 heap3 tree3 1%positive _ repr_heap3). Defined.

(** The heap of [tree3] is empty after the [delete] of its root. *)
Example delete_tree3 : delete_ptr 2 (Some 1%positive) heap3 = Ok ∅.
Proof. vm_compute. reflexivity. Qed.

(** The tree is two nodes high: the same [delete] does not return
    when calls may not nest. *)
Example delete_tree3_depth : delete_ptr 1 (Some 1%positive) heap3 = OutOfFuel.
Proof. vm_compute. reflexivity. Qed.

(** A copy of the root shares its children.  The [delete] of the
    original releases them; the [delete] of the copy then goes through
    a pointer to an object that is gone.  The class declares a
    destructor and neither a copy constructor nor an assignment, and
    its pointers are public. *)
Example copy_double_free :
  tree_of 2 heap_copied 6%positive = Some (tree3, {[6; 2; 3; 4; 5]}%positive) /\
  delete_ptr 2 (Some 1%positive) heap_copied = Ok {[ 6%positive := root_node [p10] ]} /\
  delete_ptr 2 (Some 6%positive) {[ 6%positive := root_node [p10] ]} = InvalidPtr.
Proof. vm_compute. repeat split; reflexivity. Qed.

(** On a node whose [nw] is null and whose [ne] is not, [insert] finds
    [nw] null, subdivides, and overwrites the pointer [ne]: the object
    it pointed to stays in the heap with no pointer to it, and is left
    behind when the tree is destroyed. *)
Example subdivide_leaks_child :
  match insert_at 2 1%positive p20 heap_partial with
  | Ok (r, h) => r = true /\ delete_ptr 2 (Some 1%positive) h = Ok {[ 2%positive := leaf_node NE [] ]}
  | _ => False
  end.
Proof. vm_compute. split; reflexivity. Qed.
