(* ===== verification/Lifetime.v ===== *)
(** * Lifetime: the tree of [main], from construction to destruction

    [main] (lines 105-111 of [src/Code.cpp]) constructs the root
    [qtree], inserts the data, queries the tree, and leaves the scope
    of [qtree] when it returns (line 137), which runs the destructor.
    This file gives these steps on the heap ([build_at],
    [run_query_at], [exit_scope]) and shows that they implement the
    steps on trees of [Driver]: the build ends as the build on trees
    does, the heap then holds the tree built and nothing else, a query
    returns what the query on the tree returns, and at the end of the
    scope every object is released, once.  The root is an object with
    automatic storage; it is given an address in the same store, and
    the end of the scope releases it after its destructor has run. *)

From Stdlib Require Import ZArith List Lia.
From stdpp Require Import gmap.
Set Warnings "-notation-incompatible-prefix".
From S2P Require Import Prelude Coord CoordFloat Geometry QuadTree Samples Insert Invariant Driver.
From S2P Require Import Heap HeapRepr HeapAbs HeapRefine Destructor.
Set Warnings "notation-incompatible-prefix,-clear-no-such-hyp".

#[local] Open Scope outcome_scope.

Section Lifetime.
Context {C : Coord}.

Abbreviation heap := (gmap loc Node).

Implicit Types (h : heap) (t c : QuadTree) (l root k : loc) (fp : gset loc)
  (p : Point) (data : list Point).

(** ** The steps of [main] on the heap *)

(** Lines 109-111: [for (i...) qtree.insert(data[i]);]. *)
Fixpoint insert_all_at (fuel : nat) root data h : outcome heap :=
  match data with
  | [] => Ok h
  | p :: rest =>
      '(_, h') <- insert_at fuel root p h ;;
      insert_all_at fuel root rest h'
  end.

(** Lines 105-111: the root object, then the insertions. *)
Definition build_at (fuel : nat) (boundary : BoundingBox) (capacity : Z) data h
    : outcome (loc * heap) :=
  let '(root, h) := new_QuadTree boundary capacity h in
  h <- insert_all_at fuel root data h ;;
  Ok (root, h).

(** Lines 119-121: a query into a fresh [results]. *)
Definition run_query_at (fuel : nat) h root (range : BoundingBox)
    : outcome (list Point) :=
  queryRange_at fuel h range root [].

(** The end of the scope of [qtree] (line 138): its destructor runs,
    then its storage is released. *)
Definition exit_scope (fuel : nat) root h : outcome heap :=
  h <- destructor (delete_ptr fuel) root h ;;
  free root h.

(** The heap holds the tree and nothing else. *)
Definition owns h root t : Prop := repr h t root (dom h).

(** ** Ownership is kept *)

Lemma holds_after_owns h root t t' h' :
  owns h root t -> holds_after h root (dom h) t' h' -> owns h' root t'.
Proof.
  intros Ho (_ & fp' & Hr & Hg). unfold owns.
  rewrite (grows_dom _ _ _ _ Hg (repr_dom _ _ _ _ Hr)).
  destruct Hg as (Hsub & _). replace (dom h ∪ fp') with fp' by set_solver. exact Hr.
Qed.

(** A call of [insert] that returns on the heap returns the same on
    the tree, and the heap holds the new tree and nothing else. *)
Lemma insert_at_owns fuel h root t p (r : bool) h' :
  shaped t -> owns h root t -> insert_at fuel root p h = Ok (r, h') ->
  exists t', insert fuel t p = Ok (r, t') /\ owns h' root t'.
Proof.
  intros Hs Ho Hi. pose proof (insert_at_sim p fuel t root h (dom h) Hs Ho) as Hsim.
  rewrite Hi in Hsim. destruct (insert fuel t p) as [[r' t'] | | |]; try contradiction.
  destruct Hsim as [Er Hh]. simpl in Er, Hh. subst r'. exists t'.
  split; [reflexivity |]. eapply holds_after_owns; eauto.
Qed.

(** ** The build *)

Lemma holds_after_trans h0 fp0 h fp root t' h' :
  grows h0 fp0 h fp -> holds_after h root fp t' h' -> holds_after h0 root fp0 t' h'.
Proof.
  intros Hg (Hs & fp' & Hr & Hg'). split; [exact Hs |]. exists fp'.
  eauto using grows_trans.
Qed.

Lemma insert_all_at_sim fuel data : forall t root h fp,
  shaped t -> repr h t root fp ->
  outcome_rel (holds_after h root fp)
    (insert_all fuel t data) (insert_all_at fuel root data h).
Proof.
  induction data as [| p rest IH]; intros t root h fp Hs Hr; simpl.
  - split; [exact Hs |]. exists fp. auto using grows_refl.
  - eapply outcome_rel_bind; [apply insert_at_sim; eassumption |].
    intros [r t1] [r' h1] (_ & Hs1 & fp1 & Hr1 & Hg1). simpl in *.
    eapply outcome_rel_mono; [| apply IH; eassumption].
    intros t' h'. now apply holds_after_trans.
Qed.

(** The build on the heap ends as the build on trees, and then the
    heap, empty before, holds the tree built and nothing else. *)
Lemma build_at_sim fuel (b : BoundingBox) (cap : Z) data :
  outcome_rel (fun t rh => shaped t /\ owns rh.2 rh.1 t)
    (build fuel b cap data) (build_at fuel b cap data ∅).
Proof.
  unfold build, build_at, new_QuadTree. set (root := fresh (dom (∅ : heap))).
  set (h1 := <[root := Node_new b cap]> (∅ : heap)).
  assert (Hr1 : repr h1 (QuadTree_new b cap) root {[root]})
    by (apply repr_leaf, lookup_insert_eq).
  eapply outcome_rel_map_r with (R := holds_after h1 root {[root]});
    [apply insert_all_at_sim; [apply shaped_new | exact Hr1] |].
  intros t h (Hs & fp & Hr & Hg). split; [exact Hs |]. unfold owns. simpl.
  rewrite (grows_dom _ _ _ _ Hg (repr_dom _ _ _ _ Hr)).
  replace (dom h1 ∪ fp) with fp; [exact Hr |].
  unfold h1. rewrite dom_insert_L, dom_empty_L. destruct Hg as (Hsub & _). set_solver.
Qed.

(** ** A query *)

Lemma run_query_at_sim fuel h root t (range : BoundingBox) :
  owns h root t -> height t <= fuel ->
  run_query_at fuel h root range = run_query t range.
Proof. intros Hr Hf. unfold run_query_at, run_query. eapply queryRange_at_sim; eauto. Qed.

(** ** The end of the scope *)

(** The destructor of [qtree] nests its calls as deep as the tree is
    high, the call at the end of the scope included. *)
Lemma exit_scope_exact fuel h root t :
  owns h root t ->
  exit_scope fuel root h = if height t <=? S fuel then Ok ∅ else OutOfFuel.
Proof.
  intros Hr. unfold exit_scope. rewrite <- delete_ptr_S.
  rewrite (delete_ptr_repr t root (dom h) (S fuel) h Hr). now rewrite release_all.
Qed.

Lemma exit_scope_releases fuel h root t :
  owns h root t -> height t <= S fuel -> exit_scope fuel root h = Ok ∅.
Proof.
  intros Hr Hf. now rewrite (exit_scope_exact fuel h root t Hr), (proj2 (Nat.leb_le _ _)).
Qed.

Lemma exit_scope_mono fuel1 fuel2 root h :
  fuel1 <= fuel2 -> ok_le (exit_scope fuel1 root h) (exit_scope fuel2 root h).
Proof.
  intros Hle. unfold exit_scope.
  apply ok_le_bind; [| intros; apply ok_le_refl].
  apply destructor_mono. intros c h1. now apply delete_ptr_mono.
Qed.

(** Whatever fuel lets the end of the scope return, it leaves the heap
    empty. *)
Lemma exit_scope_empty fuel h root t h' :
  owns h root t -> exit_scope fuel root h = Ok h' -> h' = ∅.
Proof.
  intros Ho He.
  apply (ok_le_join (m := exit_scope (Nat.max fuel (height t)) root h)
           (m1 := exit_scope fuel root h) (m2 := Ok ∅) (a1 := h') (a2 := ∅));
    [apply exit_scope_mono; lia | | exact He | reflexivity].
  intros a [= <-]. eapply exit_scope_releases; [exact Ho | lia].
Qed.

(** ** Main theorem *)

(** C18: ownership is kept.  If the heap holds a tree with nodes of
    uniform shape at [root] and no other object, a call of [insert]
    through [root] that returns leaves a heap that again holds one tree
    and no other object, and that tree is the one [insert] on the tree
    leaves: every pointer of every object is null or leads to an object
    reached from [root] on no other path, and no object is lost. *)
Theorem insert_at_keeps_ownership (fuel : nat) h root t p (r : bool) h' :
  shaped t -> owns h root t -> insert_at fuel root p h = Ok (r, h') ->
  exists t', insert fuel t p = Ok (r, t') /\ owns h' root t'.
Proof. apply insert_at_owns. Qed.

End Lifetime.

(** ** The theorem at a sample *)

Lemma owns_heap2 : owns heap2 1%positive tree2.
Proof. apply (tree_of_sound heap2 2). vm_compute. reflexivity. Qed.

Lemma insert_at_keeps_ownership_witness :
  exists t', insert 2 tree2 p90 = Ok (true, t') /\ owns heap3 1%positive t'.
Proof.
  apply (insert_at_keeps_ownership 2 heap2 1%positive tree2 p90 true heap3);
    [apply shapedb_spec; vm_compute; reflexivity | exact owns_heap2
    | vm_compute; reflexivity].
Defined.

(** The life of the tree of the scenario of the specification: built
    from nothing, queried, and released to nothing. *)
Example lifetime_sample :
  build_at 2 unit_box 1 [p10; p20; p90] ∅ = Ok (1%positive, heap3) /\
  run_query_at 2 heap3 1%positive corner_box = Ok [p90] /\
  exit_scope 1 1%positive heap3 = Ok ∅.
Proof. vm_compute. repeat split; reflexivity. Qed.
