(* ===== verification/Space.v ===== *)
(** * Space: the objects a tree takes on the free store

    Every node of a tree is one object: the root, constructed by
    [main], and four per subdivision, allocated by [new QuadTree] in
    [subdivide] (lines 40-49 of [src/Code.cpp]).  Nothing is released
    before the destructor runs.  This file counts the objects: a heap
    that holds a tree holds as many objects as the tree has nodes, so
    the bounds of [Bounds] on the nodes of a tree are bounds on the
    memory of the program, a call of [insert] allocates four objects or
    none, and the end of the scope releases as many objects as were
    allocated. *)

From Stdlib Require Import ZArith List Lia.
From stdpp Require Import gmap.
Set Warnings "-notation-incompatible-prefix".
From S2P Require Import Prelude Coord CoordFloat Geometry QuadTree Samples Insert Invariant Driver Bounds.
From S2P Require Import Heap HeapRepr HeapAbs HeapRefine Destructor Lifetime.
Set Warnings "notation-incompatible-prefix,-clear-no-such-hyp".

#[local] Open Scope outcome_scope.

Section Space.
Context {C : Coord}.

Abbreviation heap := (gmap loc Node).

Implicit Types (h : heap) (t c : QuadTree) (l root this : loc) (fp : gset loc)
  (f : Quadrant -> gset loc) (p : Point) (data : list Point).

(** The number of objects in the heap. *)
Definition objects h : nat := size (dom h).

(** ** Footprints and nodes *)

Lemma size_kids f :
  (forall q q', q <> q' -> f q ## f q') ->
  size (kids f) = size (f NW) + size (f NE) + size (f SW) + size (f SE).
Proof.
  intros Hd. unfold kids.
  pose proof (Hd NW NE). pose proof (Hd NW SW). pose proof (Hd NW SE).
  pose proof (Hd NE SW). pose proof (Hd NE SE). pose proof (Hd SW SE).
  rewrite !size_union by set_solver. reflexivity.
Qed.

(** The footprint of a tree has one address per node. *)
Lemma repr_size h t : forall this fp, repr h t this fp -> size fp = node_count t.
Proof.
  induction t as [t IH] using QuadTree_child_ind. intros this fp.
  rewrite repr_eq. intros (n & f & _ & _ & Hc & -> & Hn & Hd).
  assert (Hq : forall q, size (f q) = opt_nat node_count (child q t)).
  { intros q. specialize (Hc q). destruct (child q t) as [c |] eqn:Eq.
    - apply opt_repr_Some in Hc as (l & _ & Hc). simpl. eauto.
    - apply opt_repr_None in Hc as [_ ->]. apply size_empty. }
  rewrite size_union, size_singleton, (size_kids f Hd), !Hq, node_count_eq
    by set_solver.
  reflexivity.
Qed.

Lemma owns_objects h root t : owns h root t -> objects h = node_count t.
Proof. apply repr_size. Qed.

(** ** One call *)

(** A call of [insert] on a heap that holds a well-formed tree of
    non-zero capacity allocates four objects or none. *)
Lemma insert_at_objects {good : BoundingBox -> Prop} {Cov : Covering good}
    (fuel : nat) h root t p (r : bool) h' :
  wf t -> to_size_t (capacity t) <> 0%Z -> good (boundary t) ->
  owns h root t -> insert_at fuel root p h = Ok (r, h') ->
  objects h' = objects h \/ objects h' = objects h + 4.
Proof.
  intros Hw Hk Hg Ho Hi.
  destruct (insert_at_owns fuel h root t p r h' (wf_shaped t Hw) Ho Hi) as (t' & Ht & Ho').
  rewrite (owns_objects _ _ _ Ho), (owns_objects _ _ _ Ho').
  eapply insert_subdivides_once; eauto.
Qed.

(** ** The build *)

Lemma build_at_objects fuel (b : BoundingBox) (k : Z) data root h :
  int_range k -> to_size_t k <> 0%Z ->
  build_at fuel b k data ∅ = Ok (root, h) ->
  exists t, build fuel b k data = Ok t /\ owns h root t /\
    objects h = node_count t /\
    (to_size_t k * (Z.of_nat (objects h) - 1) <= 4 * Z.of_nat (length data))%Z.
Proof.
  intros Hr Hk Hb. pose proof (build_at_sim fuel b k data) as Hsim.
  rewrite Hb in Hsim. destruct (build fuel b k data) as [t | | |] eqn:Et; try contradiction.
  destruct Hsim as [_ Ho]. simpl in Ho. exists t.
  rewrite (owns_objects _ _ _ Ho). repeat split; [exact Ho |].
  pose proof (wf_new b k Hr) as Hw0. unfold build in Et.
  destruct (insert_all_wf _ _ _ _ Et Hw0) as (Hw & _ & Ek). simpl in Ek.
  pose proof (insert_all_length _ _ _ _ Et (wf_shaped _ Hw0)) as Hl. simpl in Hl.
  pose proof (internal_count_points t Hw) as Hi. rewrite Ek in Hi.
  pose proof (node_count_internal t (wf_shaped t Hw)) as Hn.
  pose proof (to_size_t_range k). nia.
Qed.

(** ** Main theorem *)

(** C23: the memory of the index is linear in its data.  When the build
    of [main] on the empty free store returns, for a capacity other
    than 0 and in any arithmetic, the store holds the nodes of the tree
    built and no other object, one object per node, and [capacity]
    times the number of objects besides the root is at most four times
    the number of data points; at the end of the scope all of them are
    released. *)
Theorem build_at_space (fuel : nat) (b : BoundingBox) (k : Z) data root h :
  int_range k -> to_size_t k <> 0%Z ->
  build_at fuel b k data ∅ = Ok (root, h) ->
  (exists t, build fuel b k data = Ok t /\ owns h root t /\ objects h = node_count t) /\
  (to_size_t k * (Z.of_nat (objects h) - 1) <= 4 * Z.of_nat (length data))%Z /\
  (forall h', exit_scope fuel root h = Ok h' -> objects h' = 0).
Proof.
  intros Hr Hk Hb.
  destruct (build_at_objects fuel b k data root h Hr Hk Hb) as (t & Ht & Ho & Hn & Hle).
  split; [eauto |]. split; [exact Hle |].
  intros h' He. now rewrite (exit_scope_empty fuel h root t h' Ho He).
Qed.

End Space.

(** ** The theorem at a sample *)

Lemma build_at_space_witness :
  (exists t, build 2 unit_box 1 [p10; p20; p90] = Ok t /\ owns heap3 1%positive t /\
             objects heap3 = node_count t) /\
  (to_size_t 1 * (Z.of_nat (objects heap3) - 1) <= 4 * Z.of_nat 3)%Z /\
  (forall h', exit_scope 2 1%positive heap3 = Ok h' -> objects h' = 0).
Proof.
  apply (build_at_space 2 unit_box 1 [p10; p20; p90] 1%positive heap3);
    [exact int_range_1 | vm_compute; discriminate
    | vm_compute; reflexivity].
Defined.

(** The heap of the scenario of the specification holds five objects
    for three points: the root and the four children of its one
    subdivision. *)
Example objects_heap3 : objects heap3 = 5 /\ node_count tree3 = 5.
Proof. vm_compute. split; reflexivity. Qed.
