(* ===== verification/Object.v ===== *)
(** * Object: the object [qtree] implements a bag of points

    The class as a client has it: an object on the free store, reached
    through its address, with the methods [insert] and [queryRange]
    (lines 43-75 of [src/Code.cpp]) called through it.  [Object] is the
    third implementation of the interface [PointIndex] of [Refine]:
    its state is the address of the root and the store, its methods
    are [insert_at] and [queryRange_at], run with a fuel of one more
    than the number of objects in the store, which is enough, since a
    tree is no higher than it has nodes.

    The laws of the interface follow from those of the tree through
    the refinement of [HeapRefine]; the theorem proved against the
    interface in [Refine] then applies as it stands: every client run
    on the object observes what it observes on the bag. *)

From Stdlib Require Import ZArith List Lia Permutation.
From stdpp Require Import gmap.
Set Warnings "-notation-incompatible-prefix".
From S2P Require Import Prelude Coord CoordFloat Geometry Binary64 QuadTree Samples Insert Invariant Query Bounds Refine.
From S2P Require Import Heap HeapRepr HeapAbs HeapRefine Destructor Lifetime Space.
Set Warnings "notation-incompatible-prefix,-clear-no-such-hyp".

#[local] Open Scope outcome_scope.

Section Object.
Context {C : Coord}.

Abbreviation heap := (gmap loc Node).

Implicit Types (h : heap) (t : QuadTree) (root : loc) (p : Point)
  (range : BoundingBox).

(** ** The object *)

Record Object : Type := mkObject { obj_root : loc; obj_store : heap }.

Implicit Types (o : Object).

(** [QuadTree qtree(boundary, capacity)] on the empty store. *)
Definition Object_new (boundary : BoundingBox) (capacity : Z) : Object :=
  let '(root, h) := new_QuadTree boundary capacity ∅ in mkObject root h.

(** The depth to which calls through the root may nest. *)
Definition obj_fuel o : nat := S (objects (obj_store o)).

(** [qtree.insert(p)]. *)
Definition obj_insert o p : outcome (bool * Object) :=
  '(r, h') <- insert_at (obj_fuel o) (obj_root o) p (obj_store o) ;;
  Ok (r, mkObject (obj_root o) h').

(** [qtree.queryRange(range, results)] with a fresh [results]. *)
Definition obj_query o range : outcome (list Point) :=
  queryRange_at (obj_fuel o) (obj_store o) range (obj_root o) [].

(** The tree the object holds, read off the store. *)
Definition obj_tree o : option QuadTree :=
  option_map fst (tree_of (obj_fuel o) (obj_store o) (obj_root o)).

Definition obj_region o : BoundingBox :=
  match obj_tree o with
  | Some t => boundary t
  | None => mkBoundingBox czero czero czero czero
  end.

Definition obj_contents o : list Point :=
  match obj_tree o with Some t => all_points t | None => [] end.

#[export] Instance Object_index : PointIndex Object := {|
  idx_region := obj_region;
  idx_contents := obj_contents;
  idx_insert := obj_insert;
  idx_query := obj_query
|}.

(** The representation invariant: the store holds one tree, valid over
    the class [good] of boxes, and nothing else. *)
Definition obj_valid (good : BoundingBox -> Prop) o : Prop :=
  exists t, owns (obj_store o) (obj_root o) t /\ tree_valid good t.

(** ** The abstraction *)

Lemma owns_height h root t : shaped t -> owns h root t -> height t <= objects h.
Proof.
  intros Hs Ho. rewrite (owns_objects h root t Ho).
  pose proof (height_internal t Hs). pose proof (node_count_internal t Hs). lia.
Qed.

Lemma obj_tree_owns o t :
  shaped t -> owns (obj_store o) (obj_root o) t -> obj_tree o = Some t.
Proof.
  intros Hs Ho. unfold obj_tree, obj_fuel.
  rewrite (tree_of_complete _ t _ _ _ Ho); [reflexivity |].
  pose proof (owns_height _ _ t Hs Ho). lia.
Qed.

Lemma Object_new_owns (b : BoundingBox) (k : Z) :
  owns (obj_store (Object_new b k)) (obj_root (Object_new b k)) (QuadTree_new b k).
Proof.
  unfold Object_new, new_QuadTree, owns. simpl.
  rewrite dom_insert_L, dom_empty_L, union_empty_r_L.
  apply repr_leaf, lookup_insert_eq.
Qed.

(** ** The methods *)

Lemma obj_insert_sim o t p r t' :
  wf t -> owns (obj_store o) (obj_root o) t ->
  insert_total t p = Ok (r, t') ->
  exists h', obj_insert o p = Ok (r, mkObject (obj_root o) h') /\
             owns h' (obj_root o) t'.
Proof.
  intros Hw Ho Hi. pose proof (owns_height _ _ _ (wf_shaped t Hw) Ho) as Hh.
  pose proof (insert_fuel_mono _ (obj_fuel o) _ _ _ Hi ltac:(unfold obj_fuel; lia)) as Hi'.
  pose proof (insert_at_sim p (obj_fuel o) t _ _ _ (wf_shaped t Hw) Ho) as Hsim.
  rewrite Hi' in Hsim. unfold obj_insert.
  destruct (insert_at _ _ _ _) as [[r' h'] | | |]; try contradiction.
  destruct Hsim as [Er Hh']. simpl in Er, Hh'. subst r'. exists h'.
  split; [reflexivity |]. eapply holds_after_owns; eauto.
Qed.

Lemma obj_query_sim o t range :
  wf t -> owns (obj_store o) (obj_root o) t ->
  obj_query o range = queryRange t range [].
Proof.
  intros Hw Ho. pose proof (owns_height _ _ _ (wf_shaped t Hw) Ho).
  unfold obj_query, obj_fuel. eapply queryRange_at_sim; [exact Ho | lia].
Qed.

(** ** The object is lawful *)

Section Covering.
Context {O : CoordOrder C} {good : BoundingBox -> Prop} {Cov : Covering good}.

#[export] Instance Object_laws : PointIndexLaws Object (obj_valid good).
Proof.
  split.
  - intros [root h] p (t & Ho & Hv). pose proof Hv as (Hw & _).
    destruct (insert_total_spec t p Hv) as (t' & Hi & Hv' & Eb & Hc).
    destruct (obj_insert_sim _ t p _ t' Hw Ho Hi) as (h' & Hi' & Ho').
    pose proof Hv' as (Hw' & _). exists (mkObject root h').
    cbn [idx_insert idx_region idx_contents Object_index]. unfold obj_region, obj_contents.
    rewrite (obj_tree_owns (mkObject root h) t (wf_shaped t Hw) Ho).
    rewrite (obj_tree_owns (mkObject root h') t' (wf_shaped t' Hw') Ho').
    split; [exact Hi' |]. split; [exists t'; auto |]. auto.
  - intros [root h] range (t & Ho & Hv). pose proof Hv as (Hw & _).
    destruct (idx_query_spec (I := QuadTree) t range Hv) as (l & Hq & Hl).
    exists l. cbn [idx_query idx_contents Object_index]. unfold obj_contents.
    rewrite (obj_tree_owns (mkObject root h) t (wf_shaped t Hw) Ho).
    rewrite (obj_query_sim _ t range Hw Ho). auto.
Qed.

Lemma Object_new_valid (b : BoundingBox) (k : Z) :
  int_range k -> to_size_t k <> 0%Z -> good b -> obj_valid good (Object_new b k).
Proof.
  intros Hr Hk Hg. exists (QuadTree_new b k). split; [apply Object_new_owns |].
  split; [now apply wf_new | split; [exact Hk | exact Hg]].
Qed.

Lemma object_simulation (b : BoundingBox) (k : Z) (ops : list op) :
  int_range k -> to_size_t k <> 0%Z -> good b ->
  exists os o os' bag,
    run (Object_new b k) ops = Ok (os, o) /\
    run (mkBag b []) ops = Ok (os', bag) /\
    Forall2 obs_equiv os os' /\
    sim (obj_valid good) (fun _ => True) o bag.
Proof.
  intros Hr Hk Hg. apply run_simulation.
  split; [now apply Object_new_valid |]. split; [exact I |].
  cbn [idx_region idx_contents Object_index Bag_index]. unfold obj_region, obj_contents.
  rewrite (obj_tree_owns _ _ (shaped_new b k) (Object_new_owns b k)). split; reflexivity.
Qed.

End Covering.

(** ** Main theorem *)

(** C6: the object refines the bag.  In an ordered arithmetic and over
    a root region of a covering class of boxes (any box in a total
    order; on binary64 any box whose bounds are numbers, not oppositely
    infinite), every client (a sequence of insertions and queries) run
    on an object freshly constructed on the empty store with a capacity
    other than 0 returns, with calls nested no deeper than the store
    has objects, and observes what it observes on the bag over the same
    region: the same value from every [insert] and, up to order, the
    same points from every query.  The store then holds one well-formed
    tree with the points of the bag, and no other object. *)
Theorem object_refines_bag {O : CoordOrder C}
    {good : BoundingBox -> Prop} {Cov : Covering good}
    (b : BoundingBox) (k : Z) (ops : list op) :
  int_range k -> to_size_t k <> 0%Z -> good b ->
  exists os o os' bag,
    run (Object_new b k) ops = Ok (os, o) /\
    run (mkBag b []) ops = Ok (os', bag) /\
    Forall2 obs_equiv os os' /\
    exists t, owns (obj_store o) (obj_root o) t /\ wf t /\
              Permutation (all_points t) (bag_points bag).
Proof.
  intros Hr Hk Hg.
  destruct (object_simulation b k ops Hr Hk Hg)
    as (os & o & os' & bag & R1 & R2 & Ho & (t & Hown & Hw & _) & _ & _ & Ec).
  exists os, o, os', bag. repeat (split; [assumption |]). exists t.
  cbn [idx_contents Object_index Bag_index] in Ec. unfold obj_contents in Ec.
  rewrite (obj_tree_owns o t (wf_shaped t Hw) Hown) in Ec. auto.
Qed.

End Object.

(** ** The theorem at a sample *)

Lemma object_refines_bag_witness :
  exists os o os' bag,
    run (Object_new unit_box 1) client = Ok (os, o) /\
    run (mkBag unit_box []) client = Ok (os', bag) /\
    Forall2 obs_equiv os os' /\
    exists t, owns (obj_store o) (obj_root o) t /\ wf t /\
              Permutation (all_points t) (bag_points bag).
Proof.
  apply (object_refines_bag (good := fun b => box_num b = true) unit_box 1 client);
    [exact int_range_1 | vm_compute; discriminate | reflexivity].
Defined.

(** The client of [Refine] on the object: the point outside the region
    and the point with a NaN coordinate are refused, the queries find
    the corner point and all three points, and the store is the heap
    of the scenario of the specification. *)
Example object_client :
  run (Object_new unit_box 1) client =
    Ok ([ObsInsert true; ObsInsert true; ObsInsert false; ObsInsert false;
         ObsInsert true; ObsQuery [p90]; ObsQuery [p10; p20; p90]],
        mkObject 1%positive heap3).
Proof. vm_compute. reflexivity. Qed.
