(* ===== verification/Main.v ===== *)
(** * Main: the program as a whole

    [main] (lines 88-138 of [src/Code.cpp]) with everything it does:
    the data set, the tree on the heap, the queries with the clock read
    before and after each, the vector of query times, their sum and
    average, the line written to [cout], the value returned, and the
    destruction of the tree at the end of the scope.  [Workload] has
    the experiment on trees as values, without the clock and the
    output; here the tree is the one of [Heap], and the theorems relate
    the two.

    The environment is two sequences: [g], the values [rand()] returns,
    and [clock], the readings of [high_resolution_clock::now()]; the
    arithmetic on the readings is that of [Chrono].  The output is the
    list of the items inserted into [cout]; how a [double] is printed
    is not modelled. *)

From Stdlib Require Import ZArith List Lia String Floats QArith.
From stdpp Require Import gmap.
Set Warnings "-notation-incompatible-prefix".
From S2P Require Import Prelude Coord CoordFloat CoordQ Chrono Geometry QuadTree Samples Insert Invariant.
From S2P Require Import Query Driver Workload Heap HeapRepr HeapRefine Destructor Lifetime.
Set Warnings "notation-incompatible-prefix,-clear-no-such-hyp".

#[local] Close Scope Q_scope.
#[local] Open Scope outcome_scope.

Section Main.
Context {C : Coord}.

Abbreviation heap := (gmap loc Node).

(** The values of [rand()] and the readings of the clock, in the order
    of the calls. *)
Variable g : nat -> Z.
Variable clock : nat -> Z.

Implicit Types (P : Params) (h : heap) (t : QuadTree) (root : loc).

(** ** The query loop (lines 115-125) *)

(** [k] iterations from the index [i]; [s] and [c] count the calls of
    [rand()] and of the clock made before.  The loop hands back the
    vector of times and, for each query, its range and the [results]
    the source lets go out of scope. *)
Fixpoint timed_queries P (fuel : nat) h root (k i s c : nat) (query_times : list coord)
    : outcome (list coord * list (BoundingBox * list Point)) :=
  match k with
  | O => Ok (query_times, [])
  | S k' =>
      let '(pt, s1) := rand_point g P s in
      let query_range := query_box (x pt) (y pt) (query_size P) in
      let start_time := clock c in
      results <- run_query_at fuel h root query_range ;;
      let end_time := clock (S c) in
      let duration := duration_us start_time end_time in
      let query_times := list_set query_times i (seconds duration) in
      '(query_times, rest) <-
        timed_queries P fuel h root k' (S i) s1 (S (S c)) query_times ;;
      Ok (query_times, (query_range, results) :: rest)
  end.

(** ** The average (lines 128-132) *)

Definition total_time (query_times : list coord) : coord :=
  fold_left cadd query_times czero.

Definition avg_time P (query_times : list coord) : coord :=
  cdiv (total_time query_times) (cof_int (num_queries P)).

(** ** The output (line 135) *)

Inductive Output : Type :=
| OutString (s : string)
| OutDouble (d : coord)
| OutEndl.

Definition report (avg : coord) : list Output :=
  [OutString "Quad-tree average query time: "; OutDouble avg;
   OutString " seconds"; OutEndl].

(** ** main (lines 88-138) *)

(** What a run of [main] leaves: the value returned, what was written
    to [cout], the heap; and, for the theorems, the answers to the
    queries. *)
Record Run : Type := mkRun {
  exit_code : Z;
  output : list Output;
  final_heap : heap;
  answers : list (BoundingBox * list Point)
}.

Definition main_run P (fuel : nat) : outcome Run :=
  let '(data, s) := data_vector g P (Z.to_nat (num_points P)) in
  '(qtree, h) <- build_at fuel (root_region P) (node_capacity P) data ∅ ;;
  let query_times := repeat czero (Z.to_nat (num_queries P)) in
  '(query_times, answers) <-
    timed_queries P fuel h qtree (Z.to_nat (num_queries P)) 0 s 0 query_times ;;
  let avg_time := avg_time P query_times in
  let out := report avg_time in
  h <- exit_scope fuel qtree h ;;
  Ok (mkRun 0 out h answers).

(** ** The query loop against the loop on trees *)

Lemma timed_queries_spec P (fuel : nat) h root t (k : nat) :
  owns h root t -> height t <= fuel ->
  forall (pre : list coord) (s c : nat),
    timed_queries P fuel h root k (length pre) s c (pre ++ repeat czero k) =
    (rest <- query_loop g P t k s ;; Ok (pre ++ measured clock k c, rest)).
Proof.
  intros Ho Hf. induction k as [| k IH]; intros pre s c.
  - reflexivity.
  - cbn [timed_queries query_loop measured repeat].
    destruct (rand_point g P s) as [pt s1].
    rewrite (run_query_at_sim _ _ _ _ _ Ho Hf).
    destruct (run_query t _) as [results | | |]; cbn [bind]; try reflexivity.
    rewrite list_set_app.
    specialize (IH (pre ++ [seconds (duration_us (clock c) (clock (S c)))]) s1 (S (S c))).
    rewrite length_app, Nat.add_1_r, <- app_assoc in IH. simpl in IH. rewrite IH.
    destruct (query_loop g P t k s1) as [rest | | |]; cbn [bind]; try reflexivity.
    now rewrite <- app_assoc.
Qed.

(** ** main against the experiment on trees *)

(** If the build on trees returns a well-formed tree lower than the
    fuel, [main] ends as the query loop on that tree does, with the
    heap empty. *)
Lemma main_run_spec P (fuel : nat) t :
  build fuel (root_region P) (node_capacity P)
    (fst (data_vector g P (Z.to_nat (num_points P)))) = Ok t ->
  shaped t -> height t <= fuel ->
  main_run P fuel =
  (out <- experiment g P fuel ;;
   Ok (mkRun 0 (report (avg_time P (measured clock (Z.to_nat (num_queries P)) 0))) ∅ out)).
Proof.
  intros Hb Hs Hf. unfold main_run, experiment.
  destruct (data_vector g P (Z.to_nat (num_points P))) as [data s]. simpl in Hb.
  pose proof (build_at_sim fuel (root_region P) (node_capacity P) data) as Hsim.
  rewrite Hb in *. cbn [bind].
  destruct (build_at _ _ _ _ _) as [[root h] | | |]; simpl in Hsim; try contradiction.
  destruct Hsim as [_ Ho]. simpl in Ho. cbn [bind].
  pose proof (timed_queries_spec P fuel h root t (Z.to_nat (num_queries P)) Ho Hf [] s 0)
    as Hq. simpl in Hq. rewrite Hq.
  destruct (query_loop g P t _ s) as [out | | |]; cbn [bind]; try reflexivity.
  rewrite (exit_scope_releases fuel h root t Ho) by lia. reflexivity.
Qed.

(** [main] returns, with the answers of the experiment on trees. *)
Lemma main_run_returns P :
  int_range (node_capacity P) -> to_size_t (node_capacity P) <> 0%Z ->
  exists out,
    experiment g P (Z.to_nat (num_points P) + 2) = Ok out /\
    main_run P (Z.to_nat (num_points P) + 2) =
    Ok (mkRun 0 (report (avg_time P (measured clock (Z.to_nat (num_queries P)) 0))) ∅ out).
Proof.
  intros Hr Hk.
  destruct (experiment_returns g P Hr Hk) as (t & out & Hb & Hw & Hh & He).
  exists out. split; [exact He |].
  rewrite (main_run_spec P _ t Hb (wf_shaped _ Hw)) by lia. now rewrite He.
Qed.

(** ** Main theorem *)

(** [main] returns 0 and leaves nothing behind.  In any arithmetic,
    whatever [rand()] and the clock return, when the capacity is an
    [int] other than 0 the program returns within a recursion depth of
    [num_points + 2]: its value is 0; it has written one line, the
    average of the times measured between the readings [2 i] and
    [2 i + 1] of the clock; every object it allocated is released; and
    the answers to its queries are those of the experiment on trees
    ([Workload.experiment]). *)
Lemma main_returns P :
  int_range (node_capacity P) -> to_size_t (node_capacity P) <> 0%Z ->
  exists out,
    experiment g P (Z.to_nat (num_points P) + 2) = Ok out /\
    main_run P (Z.to_nat (num_points P) + 2) =
    Ok (mkRun 0 (report (avg_time P (measured clock (Z.to_nat (num_queries P)) 0))) ∅ out).
Proof. apply main_run_returns. Qed.

End Main.

(** ** The average in exact arithmetic *)


(** ** The theorem at a sample *)

(** A clock whose readings are 2500 ns, then 12500 ns apart. *)
Definition sample_clock (k : nat) : Z := (Z.of_nat k * Z.of_nat k * 2500)%Z.

Lemma main_returns_witness :
  exists out,
    experiment sample_rand fparams (Z.to_nat (num_points fparams) + 2) = Ok out /\
    main_run sample_rand sample_clock fparams (Z.to_nat (num_points fparams) + 2) =
    Ok (mkRun 0
          (report (avg_time fparams
                     (measured sample_clock (Z.to_nat (num_queries fparams)) 0)))
          ∅ out).
Proof.
  apply (main_returns sample_rand sample_clock fparams);
    [exact int_range_1 | vm_compute; discriminate].
Defined.

(** The cast to microseconds truncates: the two queries of the sample
    take 2 and 12 microseconds, and the average written, 7e-06, lies
    between 2^-18 and 2^-17. *)
Example main_sample_times :
  duration_us (sample_clock 0) (sample_clock 1) = 2%Z /\
  duration_us (sample_clock 2) (sample_clock 3) = 12%Z /\
  (PrimFloat.ltb 0x1p-18 (avg_time fparams (measured sample_clock 2 0)) &&
   PrimFloat.ltb (avg_time fparams (measured sample_clock 2 0)) 0x1p-17)%bool = true.
Proof. vm_compute. repeat split; reflexivity. Qed.

(** The first four readings of the sample clock are in order. *)
Lemma sample_clock_steady : since_epoch sample_clock 4 /\ steady sample_clock 4.
Proof.
  split; intros c Hc;
    do 4 (destruct c as [| c]; [vm_compute; try split; discriminate |]); lia.
Qed.


(** On the sample the mean is 7.5 microseconds and the average written
    7 microseconds. *)
Example average_sample :
  (avg_time qparams (measured sample_clock 2 0) == 7 / 1000000)%Q /\
  (inject_Z (elapsed sample_clock 2 0) / 1000000000 / inject_Z 2 == 75 / 10000000)%Q.
Proof. split; reflexivity. Qed.

(** With no query at all the average is 0 / 0: on doubles [main] writes
    a NaN. *)
Example average_of_no_queries :
  PrimFloat.is_nan
    (avg_time (mkParams (C := Fcoord) 3 (cof_int 0) (cof_int 100) 0 (cof_int 80) 1) []) = true.
Proof. reflexivity. Qed.
