(* ===== verification/Average.v ===== *)
(** * Average: the average query time on binary64

    Lines 121-132 of [src/Code.cpp] on IEEE doubles: each duration, a
    count of microseconds, is converted to a [double] and divided by
    [1e6]; the thousand quotients are summed from 0 and the sum is
    divided by [num_queries].  Every one of these operations rounds.
    [Main.average_within_microsecond] bounds the average in exact
    arithmetic; here it is bounded as the program computes it.

    Rounding to nearest never crosses a number of the format
    ([Nearest]), and the multiples [j * A * 2 ^ k] of a dyadic bound
    with a short mantissa are numbers of the format.  So a bound of
    this form on every recorded time is a bound on each converted
    duration, [j] times the bound is one on the sum of [j] of them,
    and the bound itself is one on the average: the roundings never
    carry the average past the bounds of what was measured.  Whatever
    the clock returns the recorded times are below [2 ^ 34] seconds in
    magnitude, so the average is a number. *)

From Stdlib Require Import ZArith List Lia QArith Lqa Uint63 Floats.
Set Warnings "-notation-incompatible-prefix".
From S2P Require Import Prelude Coord CoordFloat Chrono Rounding Nearest Workload Main.
Set Warnings "notation-incompatible-prefix".
Import ListNotations.

Set Implicit Arguments.

#[local] Close Scope Q_scope.
#[local] Open Scope Z_scope.

(** ** Bounds on what was measured *)

(** Each of the first [n] recorded times, a count of microseconds taken
    between the readings [c + 2 i] and [c + 2 i + 1] of the clock, lies
    between [lo] and [hi] seconds. *)
Definition recorded_between (clock : nat -> Z) (n c : nat) (lo hi : Q) : Prop :=
  forall i, (i < n)%nat ->
    (lo * 1000000 <= inject_Z (duration_us (clock (c + 2 * i)%nat) (clock (S (c + 2 * i)))))%Q /\
    (inject_Z (duration_us (clock (c + 2 * i)%nat) (clock (S (c + 2 * i)))) <= hi * 1000000)%Q.

(** A mantissa short enough for its multiples by a count of queries and
    by [1e6] to be numbers of the format. *)
Definition short (A : Z) : Prop := - 2 ^ 22 <= A <= 2 ^ 22.

(** ** The conversion of a [long long] *)

Lemma SFopp_between x lo hi :
  sf_between x (- hi) (- lo) -> sf_between (SFopp x) lo hi.
Proof.
  unfold sf_between. intros (Hc & H1 & H2).
  destruct x as [s | s | | [] m e]; try contradiction; cbn [SFopp sf_val negb] in *;
    (split; [exact Hc | lra]).
Qed.

Lemma of_Z_between z lo hi :
  0 <= z < 2 ^ 63 -> representable lo -> representable hi ->
  (lo <= inject_Z z)%Q -> (inject_Z z <= hi)%Q ->
  sf_between (Prim2SF (of_uint63 (Uint63.of_Z z))) lo hi.
Proof.
  intros Hz Hlo Hhi H1 H2.
  rewrite of_uint63_spec, Uint63.of_Z_spec, Z.mod_small by exact Hz.
  apply binary_normalize_between; auto; now rewrite val_Z.
Qed.

(** The conversion of an integer of 64 bits rounds, and stays between
    the numbers of the format that the integer lies between. *)
Lemma float_of_int_between z lo hi :
  - 2 ^ 63 < z < 2 ^ 63 -> representable lo -> representable hi ->
  (lo <= inject_Z z)%Q -> (inject_Z z <= hi)%Q ->
  sf_between (Prim2SF (float_of_int z)) lo hi.
Proof.
  intros Hz Hlo Hhi H1 H2. unfold float_of_int. destruct (Z.ltb_spec z 0).
  - rewrite opp_spec. apply SFopp_between.
    apply of_Z_between; auto using representable_opp; try lia;
      rewrite inject_Z_opp; lra.
  - apply of_Z_between; auto; lia.
Qed.

(** A number of the format that is not zero is finite. *)
Lemma between_finite x q :
  sf_between x q q -> ~ (q == 0)%Q ->
  exists s m e, x = S754_finite s m e.
Proof.
  intros (Hc & H1 & H2) Hq.
  destruct x as [s | s | | s m e]; try contradiction; [cbn [sf_val] in *; lra | eauto].
Qed.

Lemma float_of_int_finite n :
  0 < n < 2 ^ 53 ->
  exists s m e, Prim2SF (float_of_int n) = S754_finite s m e /\
    (sf_val (S754_finite s m e) == inject_Z n)%Q.
Proof.
  intros Hn. assert (2 ^ 53 < 2 ^ 63) by reflexivity.
  assert (Hb : sf_between (Prim2SF (float_of_int n)) (inject_Z n) (inject_Z n))
    by (apply float_of_int_between; auto using representable_Z, Qle_refl with lia).
  assert (Hq : ~ (inject_Z n == 0)%Q)
    by (change 0%Q with (inject_Z 0); rewrite inject_Z_injective; lia).
  destruct (between_finite Hb Hq) as (s & m & e & E).
  exists s, m, e. split; [exact E |]. rewrite E in Hb. destruct Hb as (_ & H1 & H2). lra.
Qed.

(** ** Dyadic bounds *)

Lemma representable_val A k :
  - 2 ^ 53 < A < 2 ^ 53 -> -1074 <= k <= 971 -> representable (val A k).
Proof. intros HA Hk. exists A, k. repeat split; try lia. Qed.

Lemma val_million A k : (val (A * 15625) (k + 6) == val A k * 1000000)%Q.
Proof.
  unfold val. rewrite inject_Z_mult, bpow_add. change (bpow 6) with 64%Q.
  change (inject_Z 15625) with 15625%Q. ring.
Qed.

Lemma val_times j A k : (val (j * A) k == inject_Z j * val A k)%Q.
Proof. unfold val. rewrite inject_Z_mult. ring. Qed.

Lemma short_million A : short A -> - 2 ^ 53 < A * 15625 < 2 ^ 53.
Proof. unfold short. change (2 ^ 22) with 4194304. change (2 ^ 53) with 9007199254740992. lia. Qed.

Lemma short_times j A : short A -> 0 <= j <= INT_MAX -> - 2 ^ 53 < j * A < 2 ^ 53.
Proof.
  unfold short, INT_MAX. change (2 ^ 22) with 4194304.
  change (2 ^ 53) with 9007199254740992. change (2 ^ 31 - 1) with 2147483647. nia.
Qed.

(** ** One recorded time (line 124) *)

(** A count of microseconds, as [duration_cast] returns it, fits a
    [long long] with room to spare. *)
Lemma duration_us_range s e : - 2 ^ 63 < 1000 * duration_us s e < 2 ^ 63.
Proof.
  unfold duration_us, duration_cast_us, ticks_per_microsecond, time_sub.
  pose proof (wrap64_range (e - s)) as H. unfold int64_range, INT64_MIN, INT64_MAX in H.
  set (d := wrap64 (e - s)) in *.
  change (2 ^ 63) with 9223372036854775808 in *.
  Z.to_euclidean_division_equations. lia.
Qed.

Lemma Prim2SF_million :
  Prim2SF (float_of_int 1000000) = S754_finite false (Z.to_pos (1000000 * 2 ^ 33)) (-33) /\
  (sf_val (Prim2SF (float_of_int 1000000)) == 1000000)%Q.
Proof. vm_compute. split; reflexivity. Qed.

Lemma seconds_between d A B k :
  - 2 ^ 63 < d < 2 ^ 63 -> short A -> short B -> -1074 <= k <= 965 ->
  (val A k * 1000000 <= inject_Z d)%Q -> (inject_Z d <= val B k * 1000000)%Q ->
  sf_between (Prim2SF (seconds (C := Fcoord) d)) (val A k) (val B k).
Proof.
  intros Hd HA HB Hk H1 H2. unfold seconds. cbn [cdiv cof_int Fcoord].
  destruct Prim2SF_million as [Em Ev]. rewrite div_spec, Em. rewrite Em in Ev.
  pose proof (short_million HA). pose proof (short_million HB).
  destruct (float_of_int_between (z := d) (lo := val (A * 15625) (k + 6))
              (hi := val (B * 15625) (k + 6))) as (Hc & Hv1 & Hv2);
    try (apply representable_val; lia); rewrite ?val_million; auto.
  rewrite val_million in Hv1, Hv2. unfold short in HA, HB.
  apply SFdiv_between; auto; try (apply representable_val; lia); rewrite Ev.
  - apply Qle_shift_div_l; [reflexivity | exact Hv1].
  - apply Qle_shift_div_r; [reflexivity | exact Hv2].
Qed.

(** ** The vector of times (lines 115-125) *)

Lemma measured_between clock A B k n :
  short A -> short B -> -1074 <= k <= 965 ->
  forall c, recorded_between clock n c (val A k) (val B k) ->
  Forall (fun q : float => sf_between (Prim2SF q) (val A k) (val B k))
    (measured (C := Fcoord) clock n c).
Proof.
  intros HA HB Hk. induction n as [| n IH]; intros c H; cbn [measured]; constructor.
  - destruct (H 0%nat ltac:(lia)) as [H1 H2]. rewrite Nat.add_0_r in H1, H2.
    pose proof (duration_us_range (clock c) (clock (S c))).
    apply seconds_between; auto; lia.
  - apply IH. intros i Hi. specialize (H (S i) ltac:(lia)).
    now replace (c + 2 * S i)%nat with (S (S c) + 2 * i)%nat in H by lia.
Qed.

(** ** The sum (lines 128-131) *)

(** After [j] terms the sum lies between [j] times the bounds, as long
    as the loop runs at most [INT_MAX] times. *)
Lemma total_between A B k (l : list float) :
  short A -> short B -> -1074 <= k <= 965 ->
  Forall (fun q : float => sf_between (Prim2SF q) (val A k) (val B k)) l ->
  forall (j : Z) (acc : float),
    0 <= j -> j + Z.of_nat (length l) <= INT_MAX ->
    sf_between (Prim2SF acc) (val (j * A) k) (val (j * B) k) ->
    sf_between (Prim2SF (fold_left PrimFloat.add l acc))
      (val ((j + Z.of_nat (length l)) * A) k) (val ((j + Z.of_nat (length l)) * B) k).
Proof.
  intros HA HB Hk Hl. induction Hl as [| q l Hq _ IH]; intros j acc Hj Hn Hacc.
  - cbn [fold_left length]. now rewrite Z.add_0_r.
  - cbn [fold_left length] in *.
    replace (j + Z.of_nat (S (length l))) with ((j + 1) + Z.of_nat (length l)) by lia.
    apply IH; try lia. destruct Hacc as (Hc & H1 & H2). destruct Hq as (Hc' & H1' & H2').
    pose proof (short_times (j := j + 1) HA ltac:(lia)).
    pose proof (short_times (j := j + 1) HB ltac:(lia)).
    rewrite add_spec. apply SFadd_between; auto; try (apply representable_val; lia);
      rewrite val_times, inject_Z_plus; rewrite val_times in H1, H2;
      change (inject_Z 1) with 1%Q; lra.
Qed.

(** ** The average (line 132) *)

Lemma avg_time_between (P : Params (C := Fcoord)) A B k (l : list float) :
  1 <= num_queries P <= INT_MAX -> Z.of_nat (length l) = num_queries P ->
  short A -> short B -> -1074 <= k <= 965 ->
  Forall (fun q : float => sf_between (Prim2SF q) (val A k) (val B k)) l ->
  sf_between (Prim2SF (avg_time P l)) (val A k) (val B k).
Proof.
  intros Hn El HA HB Hk Hl. unfold avg_time, total_time. cbn [cadd cdiv czero cof_int Fcoord].
  assert (INT_MAX < 2 ^ 53) by reflexivity.
  destruct (float_of_int_finite (n := num_queries P)) as (s & m & e & En & Ev); [lia |].
  destruct (@total_between A B k l HA HB Hk Hl 0 0%float)
    as (Hc & H1 & H2); try lia.
  { cbn [Z.mul]. change (Prim2SF 0) with (S754_zero false).
    repeat split; cbn [sf_val]; rewrite val_0; apply Qle_refl. }
  rewrite Z.add_0_l, El, val_times in H1, H2.
  assert (0 < inject_Z (num_queries P))%Q by (change 0%Q with (inject_Z 0); rewrite <- Zlt_Qlt; lia).
  unfold short in HA, HB. rewrite div_spec, En.
  apply SFdiv_between; auto; try (apply representable_val; lia); rewrite Ev.
  - apply Qle_shift_div_l; [assumption | now rewrite Qmult_comm].
  - apply Qle_shift_div_r; [assumption | now rewrite Qmult_comm].
Qed.

Lemma measured_length {C : Coord} clock n c : length (measured clock n c) = n.
Proof. revert c. induction n as [| n IH]; intros c; cbn [measured length]; auto. Qed.

(** The average lies between the bounds of the recorded times. *)
Lemma average_between clock (P : Params (C := Fcoord)) A B k :
  1 <= num_queries P <= INT_MAX -> short A -> short B -> -1074 <= k <= 965 ->
  recorded_between clock (Z.to_nat (num_queries P)) 0 (val A k) (val B k) ->
  sf_between (Prim2SF (avg_time P (measured clock (Z.to_nat (num_queries P)) 0)))
    (val A k) (val B k).
Proof.
  intros Hn HA HB Hk H. apply avg_time_between; auto.
  - rewrite (measured_length (C := Fcoord)). lia.
  - now apply measured_between.
Qed.

(** Whatever the clock returns, a recorded time is below [2 ^ 34]
    seconds in magnitude. *)
Lemma recorded_always clock n c : recorded_between clock n c (val (-1) 34) (val 1 34).
Proof.
  intros i _. pose proof (duration_us_range (clock (c + 2 * i)%nat) (clock (S (c + 2 * i)))) as H.
  set (d := duration_us _ _) in *.
  change (val (-1) 34 * 1000000)%Q with (inject_Z (- (2 ^ 34 * 1000000))).
  change (val 1 34 * 1000000)%Q with (inject_Z (2 ^ 34 * 1000000)).
  assert (2 ^ 63 < 1000 * (2 ^ 34 * 1000000)) by reflexivity.
  rewrite <- !Zle_Qle. lia.
Qed.

(** C28: the average query time as [main] computes it on IEEE doubles
    (lines 121-132), with the conversion of each duration, each
    quotient by [1e6], each partial sum and the final quotient rounded
    to nearest.  For a number of queries from 1 to [INT_MAX] and
    whatever the clock returns, the average written is a number (not a
    NaN, not an infinity) of at most [2 ^ 34] in magnitude; and if
    every recorded time lies between two dyadic bounds [A 2^k] and
    [B 2^k] seconds with [A] and [B] of at most [2 ^ 22] in magnitude,
    so does the average: the roundings never carry it past the bounds
    of what was measured. *)
Theorem average_on_doubles clock (P : Params (C := Fcoord)) :
  1 <= num_queries P <= INT_MAX ->
  let avg := avg_time P (measured clock (Z.to_nat (num_queries P)) 0) in
  sf_between (Prim2SF avg) (- 2 ^ 34) (2 ^ 34) /\
  forall A B k, short A -> short B -> -1074 <= k <= 965 ->
    recorded_between clock (Z.to_nat (num_queries P)) 0 (val A k) (val B k) ->
    sf_between (Prim2SF avg) (val A k) (val B k).
Proof.
  intros Hn avg. split; [| intros A B k; now apply average_between].
  apply (@average_between clock P (-1) 1 34); auto using recorded_always;
    unfold short; lia.
Qed.

(** ** The theorem at a sample *)

(** The two queries of the sample take 2 and 12 microseconds: both lie
    between 0 and [2 ^ -16] seconds, and so does the average. *)
Lemma average_on_doubles_witness :
  sf_between (Prim2SF (avg_time fparams (measured sample_clock 2 0))) (- 2 ^ 34) (2 ^ 34) /\
  sf_between (Prim2SF (avg_time fparams (measured sample_clock 2 0))) (val 0 (-16)) (val 1 (-16)).
Proof.
  destruct (average_on_doubles sample_clock fparams) as [H1 H2]; [vm_compute; split; discriminate |].
  split; [exact H1 |]. apply H2; try (unfold short; lia).
  intros i Hi. change (Z.to_nat (num_queries fparams)) with 2%nat in Hi. do 2 (destruct i as [| i]; [vm_compute; split; discriminate |]). lia.
Defined.

(** On the sample the average written is the double nearest to
    [7e-06]. *)
Example average_sample_double :
  avg_time fparams (measured sample_clock 2 0) = 0x1.d5c31593e5fb7p-18%float.
Proof. reflexivity. Qed.
