(* ===== verification/Depth.v ===== *)
(** * Depth: how deep the calls of [main] nest

    [insert], [queryRange] and the destructor are recursive, and
    nothing in [src/Code.cpp] bounds the recursion: a call on a node
    calls the same method on a child.  In the model the fuel of a
    method is the depth to which its calls may nest.  [Destructor] shows that the destructor of a tree nests
    exactly as deep as the tree is high, and [Nesting] that the build
    does; here this is put together for [main]: whatever [rand()]
    returns, a run returns exactly when its fuel is at least the height
    of the index it builds.

    The tree is as high as its data make it.  When [rand()] returns the
    same value at every call the data are [num_points] copies of one
    point, the tree is a chain with [capacity] copies per node, and the
    run of [main] returns exactly when its calls may nest
    [(num_points - 1) / capacity + 1] deep: with the parameters of the
    source, a quarter of a million frames of the call stack. *)

From Stdlib Require Import ZArith List Lia String Floats.
From stdpp Require Import gmap.
Set Warnings "-notation-incompatible-prefix".
From S2P Require Import Prelude Coord CoordFloat Chrono Geometry Binary64 QuadTree Samples.
From S2P Require Import Insert Invariant Query Driver Bounds Nesting Workload.
From S2P Require Import Heap HeapRepr HeapRefine Destructor Lifetime Main.
Set Warnings "notation-incompatible-prefix,-clear-no-such-hyp".

#[local] Open Scope outcome_scope.

Section Depth.
Context {C : Coord}.
Variable clock : nat -> Z.

Implicit Types (P : Params) (r : Z) (fuel : nat).

(** A [rand()] that returns [r] at every call, and the point it
    generates. *)
Definition constant_rand r : nat -> Z := fun _ => r.

Definition repeated_point P r : Point :=
  mkPoint (rand_coord P r) (rand_coord P r).

(** ** The data of a constant generator *)

Lemma gen_data_constant P r (n : nat) : forall s,
  fst (gen_data (constant_rand r) P n s) = repeat (repeated_point P r) n.
Proof.
  induction n as [| n IH]; intros s; [reflexivity |].
  rewrite gen_data_S. cbn [fst repeat]. now rewrite IH.
Qed.

Lemma data_vector_constant P r (n : nat) :
  fst (data_vector (constant_rand r) P n) = repeat (repeated_point P r) n.
Proof. rewrite data_vector_gen_data. apply gen_data_constant. Qed.

(** ** The depth of a run is the height of its tree *)

Lemma experiment_build (g : nat -> Z) P fuel t :
  build fuel (root_region P) (node_capacity P)
    (fst (data_vector g P (Z.to_nat (num_points P)))) = Ok t ->
  experiment g P fuel =
  query_loop g P t (Z.to_nat (num_queries P))
    (snd (data_vector g P (Z.to_nat (num_points P)))).
Proof.
  unfold experiment. destruct (data_vector g P _) as [data s]. simpl.
  now intros ->.
Qed.

(** A build that runs out of fuel on trees runs out of fuel on the
    heap, and [main] with it. *)
Lemma main_run_out_of_fuel (g : nat -> Z) P fuel :
  build fuel (root_region P) (node_capacity P)
    (fst (data_vector g P (Z.to_nat (num_points P)))) = OutOfFuel ->
  main_run g clock P fuel = OutOfFuel.
Proof.
  unfold main_run. destruct (data_vector g P _) as [data s]. cbn [fst]. intros Hb.
  pose proof (build_at_sim fuel (root_region P) (node_capacity P) data) as Hsim.
  rewrite Hb in Hsim.
  destruct (build_at fuel _ _ data _) as [[root h] | | |]; simpl in Hsim;
    try contradiction. reflexivity.
Qed.

(** Whatever [rand()] returns, [main] returns exactly when its calls
    may nest as deep as the index it builds is high. *)
Lemma main_run_exact (g : nat -> Z) P :
  int_range (node_capacity P) -> to_size_t (node_capacity P) <> 0%Z ->
  (0 < num_points P)%Z ->
  exists t out,
    build (Z.to_nat (num_points P) + 2) (root_region P) (node_capacity P)
      (fst (data_vector g P (Z.to_nat (num_points P)))) = Ok t /\
    height t <= Z.to_nat (num_points P) + 1 /\
    experiment g P (Z.to_nat (num_points P) + 2) = Ok out /\
    forall fuel,
      main_run g clock P fuel =
      if height t <=? fuel
      then Ok (mkRun 0 (report (avg_time P (measured clock (Z.to_nat (num_queries P)) 0)))
                 ∅ out)
      else OutOfFuel.
Proof.
  intros Hr Hk Hn.
  destruct (experiment_returns g P Hr Hk) as (t & out & Hb & Hw & Hh & He).
  exists t, out. repeat (split; [assumption |]). intros fuel.
  assert (Hd : fst (data_vector g P (Z.to_nat (num_points P))) <> []).
  { pose proof (gen_data_length g P (Z.to_nat (num_points P)) 0) as [Hl _].
    rewrite <- data_vector_gen_data in Hl. intros E. rewrite E in Hl. simpl in Hl. lia. }
  pose proof (build_exact fuel Hb Hd) as Hf. unfold at_depth in Hf.
  destruct (Nat.leb_spec (height t) fuel) as [Hle | Hgt].
  - rewrite (main_run_spec g clock P fuel t Hf (wf_shaped t Hw) Hle).
    rewrite (experiment_build g P fuel t Hf), <- (experiment_build g P _ t Hb), He.
    reflexivity.
  - now apply main_run_out_of_fuel.
Qed.

(** ** Repeated points *)

Section Covering.
Context {good : BoundingBox -> Prop} {Cov : Covering good}.

Lemma repeated_run_exact P r :
  int_range (node_capacity P) -> (0 < node_capacity P)%Z -> (0 < num_points P)%Z ->
  good (root_region P) -> contains (root_region P) (repeated_point P r) = true ->
  exists run, forall fuel,
    main_run (constant_rand r) clock P fuel =
    if ((num_points P - 1) / node_capacity P <? Z.of_nat fuel)%Z
    then Ok run else OutOfFuel.
Proof.
  intros Hr Hk Hn Hg Hc.
  destruct (main_run_exact (constant_rand r) P Hr) as (t & out & Hb & _ & _ & Hrun);
    [rewrite (to_size_t_nonneg Hr); lia | exact Hn |].
  rewrite data_vector_constant in Hb.
  pose proof (repeated_build_height _ _ _ _ _ _ Hr Hk Hg Hc Hb) as Hh.
  eexists. intros fuel. rewrite (Hrun fuel), Hh.
  replace ((num_points P - 1) / node_capacity P)%Z
    with (Z.of_nat ((Z.to_nat (num_points P) - 1) / Z.to_nat (node_capacity P)))
    by (rewrite Nat2Z.inj_div, Nat2Z.inj_sub, !Z2Nat.id by lia; reflexivity).
  destruct (Nat.leb_spec (S ((Z.to_nat (num_points P) - 1) / Z.to_nat (node_capacity P))) fuel),
           (Z.ltb_spec (Z.of_nat ((Z.to_nat (num_points P) - 1) / Z.to_nat (node_capacity P)))
                       (Z.of_nat fuel)); try reflexivity; lia.
Qed.

End Covering.

(** ** Main theorems *)

(** C16: the stack depth of [main] is the height of its index.  In any
    arithmetic, whatever [rand()] and the clock return, with a
    capacity that is an [int] other than 0 and at least one point,
    there is one tree, the index, no higher than [num_points + 1],
    such that [main] returns 0, with its line written, the store empty
    and the answers of the experiment on trees, when its calls may
    nest as deep as the index is high, and does not return when they
    may not. *)
Theorem main_depth_exact (g : nat -> Z) P :
  int_range (node_capacity P) -> to_size_t (node_capacity P) <> 0%Z ->
  (0 < num_points P)%Z ->
  exists t out,
    build (Z.to_nat (num_points P) + 2) (root_region P) (node_capacity P)
      (fst (data_vector g P (Z.to_nat (num_points P)))) = Ok t /\
    height t <= Z.to_nat (num_points P) + 1 /\
    experiment g P (Z.to_nat (num_points P) + 2) = Ok out /\
    forall fuel,
      main_run g clock P fuel =
      if height t <=? fuel
      then Ok (mkRun 0 (report (avg_time P (measured clock (Z.to_nat (num_queries P)) 0)))
                 ∅ out)
      else OutOfFuel.
Proof. apply main_run_exact. Qed.

(** C17: repeated points drive the recursion as deep as there are
    points.  Over a covering class of boxes, with a capacity [k >= 1]
    and a [rand()] that returns the same value at every call, so that
    the data are [num_points] copies of a point of the root region, a
    run of [main] returns exactly when its calls may nest more than
    [(num_points - 1) / k] deep. *)
Theorem main_nests_deep {good : BoundingBox -> Prop} {Cov : Covering good} P r :
  int_range (node_capacity P) -> (0 < node_capacity P)%Z -> (0 < num_points P)%Z ->
  good (root_region P) -> contains (root_region P) (repeated_point P r) = true ->
  exists run, forall fuel,
    main_run (constant_rand r) clock P fuel =
    if ((num_points P - 1) / node_capacity P <? Z.of_nat fuel)%Z
    then Ok run else OutOfFuel.
Proof. apply repeated_run_exact. Qed.

End Depth.

(** ** On doubles *)

(** The program as it is, on doubles and with the parameters of the
    source, when [rand()] returns 0 at every call: the million points
    are the corner (0, 0) of the root region, and [main] returns
    exactly when its calls may nest 250000 deep. *)
Lemma main_on_doubles_depth (clock : nat -> Z) :
  exists run, forall fuel,
    main_run (constant_rand 0) clock double_params fuel =
    if (250000 <=? Z.of_nat fuel)%Z then Ok run else OutOfFuel.
Proof.
  destruct (repeated_run_exact clock (good := fun b => box_num b = true) double_params 0)
    as [run Hrun]; try reflexivity; [vm_compute; split; discriminate |].
  exists run. intros fuel. rewrite (Hrun fuel).
  change ((num_points double_params - 1) / node_capacity double_params)%Z with 249999%Z.
  destruct (Z.ltb_spec 249999 (Z.of_nat fuel)), (Z.leb_spec 250000 (Z.of_nat fuel));
    try reflexivity; lia.
Qed.

(** ** The theorems at a sample *)

Lemma main_depth_exact_witness :
  exists t out,
    build (Z.to_nat (num_points fparams) + 2) (root_region fparams) (node_capacity fparams)
      (fst (data_vector sample_rand fparams (Z.to_nat (num_points fparams)))) = Ok t /\
    height t <= Z.to_nat (num_points fparams) + 1 /\
    experiment sample_rand fparams (Z.to_nat (num_points fparams) + 2) = Ok out /\
    forall fuel,
      main_run sample_rand sample_clock fparams fuel =
      if height t <=? fuel
      then Ok (mkRun 0
                 (report (avg_time fparams
                    (measured sample_clock (Z.to_nat (num_queries fparams)) 0))) ∅ out)
      else OutOfFuel.
Proof.
  apply (main_depth_exact sample_clock sample_rand fparams);
    [exact int_range_1 | vm_compute; discriminate | reflexivity].
Defined.

Lemma main_nests_deep_witness :
  exists run, forall fuel,
    main_run (constant_rand 0) sample_clock fparams fuel =
    if ((num_points fparams - 1) / node_capacity fparams <? Z.of_nat fuel)%Z
    then Ok run else OutOfFuel.
Proof.
  apply (main_nests_deep sample_clock (good := fun b => box_num b = true) fparams 0);
    [exact int_range_1 | reflexivity | reflexivity | reflexivity | vm_compute; reflexivity].
Defined.

(** The run of the sample parameters when [rand()] returns 0: three
    copies of the corner (0, 0) with capacity 1, a chain of three
    nodes; the run returns at depth 3 and not at depth 2. *)
Example repeated_run_depth :
  main_run (constant_rand 0) sample_clock fparams 2 = OutOfFuel /\
  (exists run, main_run (constant_rand 0) sample_clock fparams 3 = Ok run /\
               exit_code run = 0%Z /\ final_heap run = ∅).
Proof. vm_compute. split; [reflexivity |]. eexists. repeat split. Qed.
