(* ===== verification/Machine.v ===== *)
(** * Machine: [main] as a transition system

    [main] (lines 88-138 of [src/Code.cpp]) statement by statement: a
    state holds the place in the program and the values of its
    variables, and a step is one iteration of one of its four loops or
    one of the statements between them.  A call of a method of the
    tree is one step, taken when the call returns; a state in which
    the call does not return has no step.

    The theorems: the steps are deterministic; the run [Main.main_run]
    computes is an execution of the machine, so the two models of
    [main] agree; every execution from the initial state reaches the
    exit with the value 0, the report written and the heap empty; and
    in every state on the way the heap holds exactly one well-formed
    tree. *)

From Stdlib Require Import ZArith List Lia String Floats.
From stdpp Require Import gmap.
Set Warnings "-notation-incompatible-prefix".
From S2P Require Import Prelude Transitions Coord CoordFloat Chrono Geometry QuadTree Samples.
From S2P Require Import Insert Invariant Query Driver Workload.
From S2P Require Import Heap HeapRepr HeapRefine Destructor Lifetime Main.
Set Warnings "notation-incompatible-prefix,-clear-no-such-hyp".

#[local] Open Scope outcome_scope.

Section Machine.
Context {C : Coord}.

Abbreviation heap := (gmap loc Node).

Variable g : nat -> Z.
Variable clock : nat -> Z.
Variable P : Params.

(** The bounds of the loops. *)
Definition N : nat := Z.to_nat (num_points P).
Definition Q : nat := Z.to_nat (num_queries P).

(** ** States *)

(** The places in [main]: the head of each loop with the value of [i],
    the [return], and the end. *)
Inductive Label : Type :=
| AtGenerate (i : nat)
| AtInsert (i : nat)
| AtQuery (i : nat)
| AtSum (i : nat)
| AtReturn
| Exited (code : Z).

Record State : Type := mkState {
  label : Label;
  rand_calls : nat;
  clock_reads : nat;
  data : list Point;
  qtree : option loc;
  store : heap;
  query_times : list coord;
  total : coord;
  written : list Output
}.

(** Line 97: before the first loop the vector [data] holds
    [num_points] default points; nothing else exists yet. *)
Definition initial : State :=
  mkState (AtGenerate 0) 0 0 (repeat Point_default N) None ∅ [] czero [].

(** ** Steps *)

Inductive step : State -> State -> Prop :=
(* lines 98-102: one iteration *)
| step_generate i rc cr data qt st times tot out pt rc' :
    i < N -> rand_point g P rc = (pt, rc') ->
    step (mkState (AtGenerate i) rc cr data qt st times tot out)
         (mkState (AtGenerate (S i)) rc' cr (list_set data i pt) qt st times tot out)
(* lines 105-107: the loop is left and [qtree] constructed *)
| step_construct i rc cr data st times tot out root st' :
    ~ i < N ->
    new_QuadTree (root_region P) (node_capacity P) st = (root, st') ->
    step (mkState (AtGenerate i) rc cr data None st times tot out)
         (mkState (AtInsert 0) rc cr data (Some root) st' times tot out)
(* lines 109-111: one iteration, when the call returns *)
| step_insert i rc cr data root st times tot out p fuel r st' :
    i < N -> nth_error data i = Some p ->
    insert_at fuel root p st = Ok (r, st') ->
    step (mkState (AtInsert i) rc cr data (Some root) st times tot out)
         (mkState (AtInsert (S i)) rc cr data (Some root) st' times tot out)
(* line 114: the loop is left and [query_times] constructed *)
| step_times i rc cr data qt st times tot out :
    ~ i < N ->
    step (mkState (AtInsert i) rc cr data qt st times tot out)
         (mkState (AtQuery 0) rc cr data qt st (repeat czero Q) tot out)
(* lines 115-125: one iteration, when the call returns *)
| step_query i rc cr data root st times tot out pt rc' fuel results :
    i < Q -> rand_point g P rc = (pt, rc') ->
    run_query_at fuel st root (query_box (x pt) (y pt) (query_size P)) = Ok results ->
    step (mkState (AtQuery i) rc cr data (Some root) st times tot out)
         (mkState (AtQuery (S i)) rc' (S (S cr)) data (Some root) st
            (list_set times i (seconds (duration_us (clock cr) (clock (S cr)))))
            tot out)
(* line 128: the loop is left and [total_time] initialised *)
| step_total i rc cr data qt st times tot out :
    ~ i < Q ->
    step (mkState (AtQuery i) rc cr data qt st times tot out)
         (mkState (AtSum 0) rc cr data qt st times czero out)
(* lines 129-131: one iteration *)
| step_sum i rc cr data qt st times tot out t :
    i < Q -> nth_error times i = Some t ->
    step (mkState (AtSum i) rc cr data qt st times tot out)
         (mkState (AtSum (S i)) rc cr data qt st times (cadd tot t) out)
(* lines 132-135: the loop is left, the average computed and written *)
| step_report i rc cr data qt st times tot out :
    ~ i < Q ->
    step (mkState (AtSum i) rc cr data qt st times tot out)
         (mkState AtReturn rc cr data qt st times tot
            (out ++ report (cdiv tot (cof_int (num_queries P)))))
(* lines 137-138: [return 0], and the scope of [qtree] ends *)
| step_exit rc cr data root st times tot out fuel st' :
    exit_scope fuel root st = Ok st' ->
    step (mkState AtReturn rc cr data (Some root) st times tot out)
         (mkState (Exited 0) rc cr data (Some root) st' times tot out).

(** ** Determinism *)

Lemma insert_at_unique fuel1 fuel2 root p (h : heap) a1 a2 :
  insert_at fuel1 root p h = Ok a1 -> insert_at fuel2 root p h = Ok a2 -> a1 = a2.
Proof.
  apply (ok_le_join (m := insert_at (Nat.max fuel1 fuel2) root p h));
    apply insert_at_mono; lia.
Qed.

Lemma exit_scope_unique fuel1 fuel2 root (h : heap) a1 a2 :
  exit_scope fuel1 root h = Ok a1 -> exit_scope fuel2 root h = Ok a2 -> a1 = a2.
Proof.
  apply (ok_le_join (m := exit_scope (Nat.max fuel1 fuel2) root h));
    apply exit_scope_mono; lia.
Qed.

Lemma step_deterministic : deterministic step.
Proof.
  intros s s1 s2 H1 H2.
  destruct H1; inversion H2; subst; try contradiction; try congruence.
  all: repeat match goal with
    | H : nth_error ?d ?i = Some _, H' : nth_error ?d ?i = Some _ |- _ =>
        rewrite H in H'; injection H' as <-
    | H : insert_at _ ?r ?p ?h = Ok _, H' : insert_at _ ?r ?p ?h = Ok _ |- _ =>
        pose proof (insert_at_unique _ _ _ _ _ _ _ H H'); clear H
    | H : exit_scope _ ?r ?h = Ok _, H' : exit_scope _ ?r ?h = Ok _ |- _ =>
        pose proof (exit_scope_unique _ _ _ _ _ _ H H'); clear H
    end; congruence.
Qed.

(** ** The loops, run to their end *)

Abbreviation steps := (star step).

Lemma steps_generate cr qt st times tot out (k : nat) : forall i rc data,
  i + k <= N ->
  steps (mkState (AtGenerate i) rc cr data qt st times tot out)
        (mkState (AtGenerate (i + k)) (snd (fill_data g P k i data rc)) cr
           (fst (fill_data g P k i data rc)) qt st times tot out).
Proof.
  induction k as [| k IH]; intros i rc data Hle; cbn [fill_data].
  - rewrite Nat.add_0_r. apply star_refl.
  - destruct (rand_point g P rc) as [pt rc'] eqn:E.
    eapply star_step; [apply step_generate; [lia | exact E] |].
    rewrite <- Nat.add_succ_comm. apply IH. lia.
Qed.

Lemma steps_insert rc cr data root times tot out (fuel : nat) (rest : list Point) :
  forall i st st',
    skipn i data = rest -> length data = N ->
    insert_all_at fuel root rest st = Ok st' ->
    steps (mkState (AtInsert i) rc cr data (Some root) st times tot out)
          (mkState (AtInsert (i + length rest)) rc cr data (Some root) st' times tot out).
Proof.
  induction rest as [| p rest IH]; intros i st st' Hskip Hlen H; simpl in *.
  - injection H as <-. rewrite Nat.add_0_r. apply star_refl.
  - apply bind_Ok in H. destruct H as ([r st1] & Hi & H).
    destruct (skipn_cons_inv _ _ Hskip) as [Hp Hrest].
    pose proof (skipn_length_cons _ _ Hskip).
    eapply star_step; [eapply step_insert; [lia | exact Hp | exact Hi] |].
    rewrite <- Nat.add_succ_comm. now apply IH.
Qed.

Lemma steps_queries data root st tot out (fuel k : nat) :
  forall i rc cr times times' answers,
    i + k <= Q ->
    timed_queries g clock P fuel st root k i rc cr times = Ok (times', answers) ->
    steps (mkState (AtQuery i) rc cr data (Some root) st times tot out)
          (mkState (AtQuery (i + k)) (rc + 2 * k) (cr + 2 * k) data (Some root) st
             times' tot out).
Proof.
  induction k as [| k IH]; intros i rc cr times times' answers Hle H.
  - injection H as <- _. rewrite !Nat.add_0_r. apply star_refl.
  - cbn [timed_queries] in H. destruct (rand_point g P rc) as [pt rc'] eqn:E.
    assert (rc' = S (S rc)) as -> by (unfold rand_point in E; congruence).
    apply bind_Ok in H. destruct H as (results & Hq & H).
    apply bind_Ok in H. destruct H as ([times1 rest] & Hrec & H). injection H as <- _.
    eapply star_step; [eapply step_query; [lia | exact E | exact Hq] |].
    replace (i + S k) with (S i + k) by lia.
    replace (rc + 2 * S k) with (S (S rc) + 2 * k) by lia.
    replace (cr + 2 * S k) with (S (S cr) + 2 * k) by lia.
    eapply IH; [lia | exact Hrec].
Qed.

Lemma steps_sum rc cr data qt st times out (rest : list coord) : forall i tot,
  skipn i times = rest -> length times = Q ->
  steps (mkState (AtSum i) rc cr data qt st times tot out)
        (mkState (AtSum (i + length rest)) rc cr data qt st times
           (fold_left cadd rest tot) out).
Proof.
  induction rest as [| t rest IH]; intros i tot Hskip Hlen; simpl.
  - rewrite Nat.add_0_r. apply star_refl.
  - destruct (skipn_cons_inv _ _ Hskip) as [Ht Hrest].
    pose proof (skipn_length_cons _ _ Hskip).
    eapply star_step; [eapply step_sum; [lia | exact Ht] |].
    rewrite <- Nat.add_succ_comm. now apply IH.
Qed.

Lemma timed_queries_length (fuel : nat) (st : heap) root (k : nat) :
  forall i rc cr times times' answers,
    timed_queries g clock P fuel st root k i rc cr times = Ok (times', answers) ->
    length times' = length times.
Proof.
  induction k as [| k IH]; intros i rc cr times times' answers H.
  - now injection H as <- _.
  - cbn [timed_queries] in H. destruct (rand_point g P rc) as [pt rc'].
    apply bind_Ok in H. destruct H as (results & _ & H).
    apply bind_Ok in H. destruct H as ([times1 rest] & Hrec & H). injection H as <- _.
    rewrite (IH _ _ _ _ _ _ Hrec). apply list_set_length.
Qed.

(** ** The run of [Main] is an execution *)

Lemma main_run_execution (fuel : nat) (r : Run) :
  main_run g clock P fuel = Ok r ->
  exists s, steps initial s /\ label s = Exited (exit_code r) /\
            store s = final_heap r /\ written s = output r /\
            rand_calls s = 2 * N + 2 * Q /\ clock_reads s = 2 * Q.
Proof.
  unfold main_run. pose proof (data_vector_gen_data g P N) as Ed.
  pose proof (gen_data_length g P N 0) as [Hlen Hrc]. rewrite <- Ed in Hlen, Hrc.
  fold N Q. unfold data_vector in *.
  pose proof (steps_generate 0 None ∅ [] czero [] N 0 0 (repeat Point_default N)
                (le_n _)) as Hgen.
  destruct (fill_data g P N 0 (repeat Point_default N) 0) as [dt rc].
  simpl in Hgen, Hlen, Hrc. subst rc.
  intros H. apply bind_Ok in H. destruct H as ([root h1] & Hb & H).
  unfold build_at in Hb.
  destruct (new_QuadTree (root_region P) (node_capacity P) ∅) as [root0 h0] eqn:Enew.
  apply bind_Ok in Hb. destruct Hb as (h1' & Hins & [= -> ->]).
  apply bind_Ok in H. destruct H as ([times' answers] & Hq & H).
  apply bind_Ok in H. destruct H as (h2 & Hexit & [= <-]). cbn [exit_code final_heap output].
  pose proof (timed_queries_length _ _ _ _ _ _ _ _ _ _ Hq) as Ht.
  rewrite repeat_length in Ht.
  eexists. split.
  - eapply star_trans; [exact Hgen |].
    eapply star_step; [apply step_construct; [lia | exact Enew] |].
    eapply star_trans;
      [eapply steps_insert with (i := 0) (rest := dt); [reflexivity | exact Hlen | exact Hins] |].
    eapply star_step; [apply step_times; simpl; lia |].
    eapply star_trans; [eapply steps_queries with (i := 0); [apply le_n | exact Hq] |].
    eapply star_step; [apply step_total; simpl; lia |].
    eapply star_trans;
      [eapply steps_sum with (i := 0) (rest := times'); [reflexivity | exact Ht] |].
    eapply star_step; [apply step_report; simpl; lia |].
    apply star_one. eapply step_exit. exact Hexit.
  - cbn [label store written rand_calls clock_reads]. auto.
Qed.

(** ** The tree in every state *)

(** The heap holds exactly the tree of [qtree], which is well formed
    and has the boundary and the capacity [main] gave it; before
    [qtree] is constructed and after the exit the heap is empty. *)
Definition tree_intact (s : State) : Prop :=
  match label s, qtree s with
  | Exited _, _ => store s = ∅
  | _, None => store s = ∅
  | _, Some root =>
      exists t, owns (store s) root t /\ wf t /\
                boundary t = root_region P /\ capacity t = node_capacity P
  end.

Lemma new_QuadTree_owns (b : BoundingBox) (cap : Z) root (h : heap) :
  new_QuadTree b cap ∅ = (root, h) -> owns h root (QuadTree_new b cap).
Proof.
  unfold new_QuadTree. intros [= <- <-]. unfold owns.
  rewrite dom_insert_L, dom_empty_L, union_empty_r_L.
  apply repr_leaf, lookup_insert_eq.
Qed.

Lemma step_tree_intact (s s' : State) :
  int_range (node_capacity P) -> tree_intact s -> step s s' -> tree_intact s'.
Proof.
  intros Hr Hi Hs. destruct Hs; unfold tree_intact in *; cbn [label qtree store] in *;
    try exact Hi.
  - subst st. exists (QuadTree_new (root_region P) (node_capacity P)).
    split; [now apply new_QuadTree_owns |]. auto using wf_new.
  - destruct Hi as (t & Ho & Hw & Hb & Hk).
    destruct (insert_at_owns _ _ _ _ _ _ _ (wf_shaped _ Hw) Ho H1) as (t' & Hins & Ho').
    destruct (insert_frame _ _ _ _ _ Hins) as [Eb Ek].
    exists t'. split; [exact Ho' |]. split; [eapply insert_wf; eauto |].
    split; congruence.
  - destruct Hi as (t & Ho & _). eapply exit_scope_empty; eauto.
Qed.

Lemma tree_intact_reachable (s : State) :
  int_range (node_capacity P) -> steps initial s -> tree_intact s.
Proof.
  intros Hr Hs. eapply star_invariant; [| exact Hs | reflexivity].
  intros s1 s2 Hi H12. now apply step_tree_intact with s1.
Qed.

(** ** The exit *)

Lemma exited_terminal (s : State) (code : Z) : label s = Exited code -> terminal step s.
Proof. intros Hl s' Hs. destruct Hs; discriminate. Qed.

(** The states in which [main] has returned 0, having written the
    average of the times measured and released every object, after two
    calls of [rand()] for each point and each query and two readings
    of the clock for each query. *)
Definition exited_ok (s : State) : Prop :=
  label s = Exited 0 /\ store s = ∅ /\
  written s = report (avg_time P (measured clock Q 0)) /\
  rand_calls s = 2 * N + 2 * Q /\ clock_reads s = 2 * Q.

Lemma main_reaches_exit :
  int_range (node_capacity P) -> to_size_t (node_capacity P) <> 0%Z ->
  exists s, steps initial s /\ exited_ok s.
Proof.
  intros Hr Hk. destruct (main_run_returns g clock P Hr Hk) as (out & _ & Hrun).
  destruct (main_run_execution _ _ Hrun) as (s & Hs & Hl & Hst & Hw & Hrc & Hcr).
  exists s. split; [exact Hs |]. repeat split; assumption.
Qed.

(** ** Main theorems *)

(** C7: [main] terminates.  In any arithmetic, whatever [rand()] and
    the clock return, when the capacity is an [int] other than 0 every
    execution of [main] from its initial state reaches the exit: no
    call of [insert], of [queryRange] or of the destructor fails to
    return, no loop runs on, and at the exit the value returned is 0,
    the line written is the average of the times measured, the heap is
    empty, [rand()] has been called twice for each point and each
    query, and the clock read twice for each query. *)
Theorem main_eventually_exits :
  int_range (node_capacity P) -> to_size_t (node_capacity P) <> 0%Z ->
  eventually step exited_ok initial.
Proof.
  intros Hr Hk. destruct (main_reaches_exit Hr Hk) as (s & Hs & Hok).
  eapply star_eventually; [exact step_deterministic | exact Hs | exact Hok].
Qed.

(** C19: the tree is intact in every state.  When the capacity is an
    [int], in every state [main] reaches the heap is empty (before the
    construction of [qtree] and after the exit) or holds exactly one
    tree, rooted at [qtree]: it is well formed, it has the root region
    and the capacity [main] chose, no pointer in it is dangling and no
    object is shared or unreachable. *)
Theorem main_tree_intact (s : State) :
  int_range (node_capacity P) -> steps initial s -> tree_intact s.
Proof. apply tree_intact_reachable. Qed.

(** The two models of [main] agree.  A run that [Main.main_run]
    computes is an execution of the machine: it leads from the initial
    state to a state at the exit with the value, the output and the
    heap of the run.  The steps being deterministic, it is the only
    execution. *)
Lemma main_run_is_execution (fuel : nat) (r : Run) :
  main_run g clock P fuel = Ok r ->
  deterministic step /\
  exists s, steps initial s /\ terminal step s /\ label s = Exited (exit_code r) /\
            store s = final_heap r /\ written s = output r.
Proof.
  intros Hrun. split; [exact step_deterministic |].
  destruct (main_run_execution _ _ Hrun) as (s & Hs & Hl & Hst & Hw & _).
  exists s. repeat split; try assumption. eapply exited_terminal; eauto.
Qed.

End Machine.

(** ** The theorems at a sample *)

Lemma main_eventually_exits_witness :
  eventually (step sample_rand sample_clock fparams)
    (exited_ok sample_clock fparams) (initial fparams).
Proof.
  apply (main_eventually_exits sample_rand sample_clock fparams);
    [exact int_range_1 | vm_compute; discriminate].
Defined.

(** The state of the sample after the data set is drawn and [qtree]
    constructed. *)
Definition sample_constructed : State :=
  mkState (AtInsert 0) 6 0 (fst (data_vector sample_rand fparams 3))
    (Some 1%positive) heap1 [] 0%float [].

Lemma sample_constructed_reachable :
  star (step sample_rand sample_clock fparams) (initial fparams) sample_constructed.
Proof.
  eapply star_snoc.
  - exact (steps_generate sample_rand sample_clock fparams 0 None ∅ [] 0%float [] 3 0 0
             (repeat Point_default 3) (le_n 3)).
  - apply step_construct; [vm_compute; lia | reflexivity].
Qed.

Lemma main_tree_intact_witness : tree_intact fparams sample_constructed.
Proof.
  apply (main_tree_intact sample_rand sample_clock fparams sample_constructed);
    [exact int_range_1 | exact sample_constructed_reachable].
Defined.

(** The run of the sample. *)
Definition sample_run : Run :=
  match main_run sample_rand sample_clock fparams 5 with
  | Ok r => r
  | _ => mkRun 1 [] ∅ []
  end.

Lemma main_run_is_execution_witness :
  deterministic (step sample_rand sample_clock fparams) /\
  exists s, star (step sample_rand sample_clock fparams) (initial fparams) s /\
            terminal (step sample_rand sample_clock fparams) s /\
            label s = Exited (exit_code sample_run) /\
            store s = final_heap sample_run /\ written s = output sample_run.
Proof.
  apply (main_run_is_execution sample_rand sample_clock fparams 5 sample_run).
  vm_compute. reflexivity.
Defined.

Example sample_run_exit : exit_code sample_run = 0%Z /\ final_heap sample_run = ∅.
Proof. vm_compute. split; reflexivity. Qed.
