(* ===== verification/Interaction.v ===== *)
(** * Interaction: what [main] asks of its environment, and in which order

    [main] (lines 88-138 of [src/Code.cpp]) talks to its environment in
    three ways: it calls [rand()], it reads
    [high_resolution_clock::now()], and it inserts items into [cout].
    In [Main] the environment is two sequences and the output a list,
    threaded through the program by hand.  Here the program is an
    interaction tree over the three events, with no environment in
    it: [main_io] is [main] with every call of the environment a
    visible event, in the order of the source.  The index itself is
    not an event; its operations are those of [Heap], with their fuel.

    The environment is a handler ([h_env]): it answers [rand()] and the
    clock from the two sequences, and records every call.  Run against
    it, [main_io] computes what [Main.main_run] computes
    ([main_io_yields]), and the record of a run that returns is
    [main_calls]: two calls of [rand()] per point, then for each query
    two calls of [rand()] and the clock before and after the query,
    then the four items of the line written. *)

From Stdlib Require Import ZArith List Lia String.
From stdpp Require Import gmap.
From ITree Require Import ITree ITreeFacts Events.State Events.StateFacts.
Set Warnings "-notation-incompatible-prefix".
From S2P Require Import Prelude Coord CoordFloat Chrono Geometry QuadTree Samples Driver Workload.
From S2P Require Import Heap Lifetime Main.
Set Warnings "notation-incompatible-prefix,-clear-no-such-hyp".

Declare Scope io_scope.
Delimit Scope io_scope with io.
Notation "x <- m ;; k" := (ITree.bind m (fun x => k))
  (at level 62, m at next level, right associativity) : io_scope.
Notation "m ;;; k" := (ITree.bind m (fun _ => k))
  (at level 62, right associativity) : io_scope.
#[local] Open Scope io_scope.

Section IO.
Context {C : Coord}.

Abbreviation heap := (gmap loc Node).

(** ** The events *)

(** [rand()], [high_resolution_clock::now()] (its reading as a count of
    ticks) and the insertion of an item into [cout]. *)
Variant mainE : Type -> Type :=
| Rand : mainE Z
| Now : mainE Z
| Put (o : Output) : mainE unit.

(** ** The program *)

(** What [main] returns and leaves: its value, the free store, and,
    for the theorems, the answers to the queries. *)
Record Exit : Type := mkExit {
  exit_value : Z;
  exit_heap : heap;
  exit_answers : list (BoundingBox * list Point)
}.

(** A method of the index that does not return ends the program. *)
Definition try_io {A B : Type} (m : outcome A) (k : A -> itree mainE (outcome B))
    : itree mainE (outcome B) :=
  match m with
  | Ok a => k a
  | OutOfFuel => Ret OutOfFuel
  | NullDeref => Ret NullDeref
  | InvalidPtr => Ret InvalidPtr
  end.

(** Lines 99-101 and 116-117: two calls of [rand()], the first for
    [x]. *)
Definition rand_point_io (P : Params) : itree mainE Point :=
  r1 <- ITree.trigger Rand ;;
  r2 <- ITree.trigger Rand ;;
  Ret (mkPoint (rand_coord P r1) (rand_coord P r2)).

(** Lines 97-102: the loop that fills the vector. *)
Fixpoint fill_data_io (P : Params) (k i : nat) (data : list Point) : itree mainE (list Point) :=
  match k with
  | O => Ret data
  | S k' => p <- rand_point_io P ;; fill_data_io P k' (S i) (list_set data i p)
  end.

(** Lines 115-125: the query loop; the clock is read before and after
    the query. *)
Fixpoint timed_queries_io (P : Params) (fuel : nat) (h : heap) (root : loc) (k i : nat)
    (query_times : list coord)
    : itree mainE (outcome (list coord * list (BoundingBox * list Point))) :=
  match k with
  | O => Ret (Ok (query_times, []))
  | S k' =>
      pt <- rand_point_io P ;;
      let query_range := query_box (x pt) (y pt) (query_size P) in
      start_time <- ITree.trigger Now ;;
      try_io (run_query_at fuel h root query_range) (fun results =>
        end_time <- ITree.trigger Now ;;
        let duration := duration_us start_time end_time in
        let query_times := list_set query_times i (seconds duration) in
        r <- timed_queries_io P fuel h root k' (S i) query_times ;;
        Ret (bind r (fun '(query_times, rest) =>
               Ok (query_times, (query_range, results) :: rest))))
  end.

(** Line 135: the items are inserted one after the other. *)
Fixpoint put_all (out : list Output) : itree mainE unit :=
  match out with
  | [] => Ret tt
  | o :: rest => ITree.trigger (Put o) ;;; put_all rest
  end.

(** Lines 88-138. *)
Definition main_io (P : Params) (fuel : nat) : itree mainE (outcome Exit) :=
  let n := Z.to_nat (num_points P) in
  data <- fill_data_io P n 0 (repeat Point_default n) ;;
  try_io (build_at fuel (root_region P) (node_capacity P) data ∅) (fun '(qtree, h) =>
    let query_times := repeat czero (Z.to_nat (num_queries P)) in
    r <- timed_queries_io P fuel h qtree (Z.to_nat (num_queries P)) 0 query_times ;;
    try_io r (fun '(query_times, answers) =>
      let avg_time := avg_time P query_times in
      put_all (report avg_time) ;;;
      Ret (bind (exit_scope fuel qtree h) (fun h => Ok (mkExit 0 h answers))))).

(** ** The environment *)

(** A call of the environment, as the environment records it. *)
Variant Call : Type :=
| CRand
| CNow
| CPut (o : Output).

(** The state of the environment: the calls of [rand()] and the
    readings of the clock answered so far, and the record of all
    calls. *)
Record Env : Type := mkEnv { rand_calls : nat; clock_reads : nat; calls : list Call }.

Variables (g clock : nat -> Z).

(** The environment answers from the sequences [g] and [clock]. *)
Definition h_env : mainE ~> Monads.stateT Env (itree void1) :=
  fun _ e env =>
    match e with
    | Rand => Ret (mkEnv (S (rand_calls env)) (clock_reads env) (calls env ++ [CRand]),
                   g (rand_calls env))
    | Now => Ret (mkEnv (rand_calls env) (S (clock_reads env)) (calls env ++ [CNow]),
                  clock (clock_reads env))
    | Put o => Ret (mkEnv (rand_calls env) (clock_reads env) (calls env ++ [CPut o]), tt)
    end.

(** A program run against the environment. *)
Definition run_io {A : Type} (m : itree mainE A) (env : Env) : itree void1 (Env * A) :=
  interp_state h_env m env.


(** The items written, in order. *)
Definition written (cs : list Call) : list Output :=
  flat_map (fun c => match c with CPut o => [o] | _ => [] end) cs.

(** The calls of one query: two of [rand()], then the clock before and
    after. *)
Definition query_calls : list Call := [CRand; CRand; CNow; CNow].

(** The state of the environment after the calls of [n] points, of [k]
    queries, and of the output. *)
Definition after_data (n : nat) (env : Env) : Env :=
  mkEnv (2 * n + rand_calls env) (clock_reads env) (calls env ++ repeat CRand (2 * n)).

Definition after_queries (k : nat) (env : Env) : Env :=
  mkEnv (2 * k + rand_calls env) (2 * k + clock_reads env)
        (calls env ++ List.concat (List.repeat query_calls k)).

Definition after_output (out : list Output) (env : Env) : Env :=
  mkEnv (rand_calls env) (clock_reads env) (calls env ++ List.map CPut out).

(** [yields m env env' a]: run against the environment in the state
    [env], the program [m] returns [a] and leaves the state [env']. *)
Definition yields {A : Type} (m : itree mainE A) (env env' : Env) (a : A) : Prop :=
  run_io m env ≈ Ret (env', a).

(** The environment before a run. *)
Definition env0 : Env := mkEnv 0 0 [].

(** What a run leaves, from what the program returned and the calls it
    made. *)
Definition run_of (cs : list Call) (x : Exit) : Run :=
  mkRun (exit_value x) (written cs) (exit_heap x) (exit_answers x).

(** The calls of a run of [main] that returns, in order: two calls of
    [rand()] per point, the four calls of each query, and the items of
    the line written. *)
Definition main_calls (P : Params) (out : list Output) : list Call :=
  List.repeat CRand (2 * Z.to_nat (num_points P)) ++
  List.concat (List.repeat query_calls (Z.to_nat (num_queries P))) ++
  List.map CPut out.

Definition main_env (P : Params) (out : list Output) : Env :=
  mkEnv (2 * Z.to_nat (num_points P) + 2 * Z.to_nat (num_queries P))
        (2 * Z.to_nat (num_queries P)) (main_calls P out).

(** ** Runs against the environment *)

Lemma yields_ret {A : Type} (a : A) env : yields (Ret a) env env a.
Proof. unfold yields, run_io. now rewrite interp_state_ret. Qed.

Lemma yields_bind {A B : Type} (m : itree mainE A) (k : A -> itree mainE B) env env1 env2 a b :
  yields m env env1 a -> yields (k a) env1 env2 b -> yields (ITree.bind m k) env env2 b.
Proof.
  unfold yields, run_io. intros H1 H2. now rewrite interp_state_bind, H1, bind_ret_l.
Qed.

Lemma yields_rand env :
  yields (ITree.trigger Rand) env
    (mkEnv (S (rand_calls env)) (clock_reads env) (calls env ++ [CRand])) (g (rand_calls env)).
Proof. unfold yields, run_io. now rewrite interp_state_trigger. Qed.

Lemma yields_now env :
  yields (ITree.trigger Now) env
    (mkEnv (rand_calls env) (S (clock_reads env)) (calls env ++ [CNow]))
    (clock (clock_reads env)).
Proof. unfold yields, run_io. now rewrite interp_state_trigger. Qed.

Lemma yields_put o env :
  yields (ITree.trigger (Put o)) env
    (mkEnv (rand_calls env) (clock_reads env) (calls env ++ [CPut o])) tt.
Proof. unfold yields, run_io. now rewrite interp_state_trigger. Qed.

(** A run has one result. *)
Lemma yields_unique {A : Type} (m : itree mainE A) env env1 env2 a1 a2 :
  yields m env env1 a1 -> yields m env env2 a2 -> env1 = env2 /\ a1 = a2.
Proof.
  unfold yields. intros H1 H2. rewrite H1 in H2. apply eutt_inv_Ret in H2.
  now inversion H2.
Qed.

(** ** The loops *)

Lemma rand_point_io_yields P env :
  yields (rand_point_io P) env (after_data 1 env) (fst (rand_point g P (rand_calls env))).
Proof.
  unfold rand_point_io, after_data.
  eapply yields_bind; [apply yields_rand |]. eapply yields_bind; [apply yields_rand |].
  cbn [rand_calls clock_reads calls]. rewrite <- app_assoc. apply yields_ret.
Qed.

Lemma after_data_S n env : after_data n (after_data 1 env) = after_data (S n) env.
Proof.
  unfold after_data. cbn [rand_calls clock_reads calls]. f_equal; [lia |].
  rewrite <- app_assoc. f_equal. replace (2 * S n) with (2 * 1 + 2 * n) by lia.
  now rewrite repeat_app.
Qed.

Lemma env_nil env : mkEnv (rand_calls env) (clock_reads env) (calls env ++ []) = env.
Proof. destruct env. cbn. now rewrite app_nil_r. Qed.

Lemma fill_data_io_yields P k : forall i data env,
  yields (fill_data_io P k i data) env (after_data k env)
    (fst (fill_data g P k i data (rand_calls env))).
Proof.
  induction k as [| k IH]; intros i data env; cbn [fill_data_io fill_data].
  - unfold after_data. cbn. rewrite env_nil. apply yields_ret.
  - eapply yields_bind; [apply rand_point_io_yields |].
    replace (after_data (S k) env) with (after_data k (after_data 1 env))
      by apply after_data_S.
    apply IH.
Qed.

Lemma put_all_yields out : forall env, yields (put_all out) env (after_output out env) tt.
Proof.
  induction out as [| o out IH]; intros env; cbn [put_all].
  - unfold after_output. cbn. rewrite env_nil. apply yields_ret.
  - eapply yields_bind; [apply yields_put |].
    replace (after_output (o :: out) env) with (after_output out
      (mkEnv (rand_calls env) (clock_reads env) (calls env ++ [CPut o])));
      [apply IH | unfold after_output; cbn; now rewrite <- app_assoc].
Qed.

Lemma after_queries_S k env :
  after_queries k (mkEnv (S (S (rand_calls env))) (S (S (clock_reads env)))
                        (calls env ++ query_calls)) = after_queries (S k) env.
Proof.
  unfold after_queries. cbn [rand_calls clock_reads calls List.repeat List.concat].
  f_equal; [lia | lia | now rewrite <- app_assoc].
Qed.

(** The query loop against the environment computes what
    [Main.timed_queries] computes from the two sequences, and when it
    returns it has made the calls of [k] queries. *)
Lemma timed_queries_io_yields P fuel h root k : forall i query_times env,
  exists env',
    yields (timed_queries_io P fuel h root k i query_times) env env'
      (timed_queries g clock P fuel h root k i (rand_calls env) (clock_reads env)
         query_times) /\
    (forall r, timed_queries g clock P fuel h root k i (rand_calls env) (clock_reads env)
                 query_times = Ok r -> env' = after_queries k env).
Proof.
  induction k as [| k IH]; intros i query_times env; cbn [timed_queries_io timed_queries].
  - exists env. split; [apply yields_ret |]. intros _ _.
    unfold after_queries. cbn. now rewrite env_nil.
  - unfold rand_point.
    set (pt := mkPoint _ _). set (range := query_box _ _ _).
    set (qt := list_set query_times i _).
    destruct (IH (S i) qt (mkEnv (S (S (rand_calls env))) (S (S (clock_reads env)))
                             (calls env ++ query_calls))) as (env' & Hy & Hok).
    cbn [rand_calls clock_reads] in Hy, Hok.
    assert (Hstart : forall (A : Type) (k0 : Point -> Z -> itree mainE A) e a,
              yields (k0 pt (clock (clock_reads env)))
                (mkEnv (S (S (rand_calls env))) (S (clock_reads env))
                   (calls env ++ [CRand; CRand; CNow])) e a ->
              yields (ITree.bind (rand_point_io P) (fun p =>
                        ITree.bind (ITree.trigger Now) (k0 p))) env e a).
    { intros A k0 e a H. eapply yields_bind; [apply rand_point_io_yields |].
      eapply yields_bind; [apply yields_now |].
      unfold after_data. cbn [rand_calls clock_reads calls]. now rewrite <- app_assoc. }
    destruct (run_query_at fuel h root range) as [results | | |] eqn:Eq;
      try (eexists; split; [| discriminate];
           apply (Hstart _ (fun p start_time => try_io _ _)); fold pt range; rewrite Eq;
           apply yields_ret).
    exists env'. split.
    + apply (Hstart _ (fun p start_time => try_io _ _)). fold pt range. rewrite Eq. cbn [try_io].
      eapply yields_bind; [apply yields_now |]. cbn [rand_calls clock_reads calls].
      rewrite <- app_assoc. eapply yields_bind; [exact Hy | apply yields_ret].
    + cbn [bind]. intros r Hr. apply bind_Ok in Hr. destruct Hr as (r' & Hr' & _).
      now rewrite (Hok r' Hr'), after_queries_S.
Qed.

(** ** The items written *)

Lemma written_app cs cs' : written (cs ++ cs') = written cs ++ written cs'.
Proof. unfold written. apply flat_map_app. Qed.

Lemma written_rand n : written (List.repeat CRand n) = [].
Proof. induction n as [| n IH]; [reflexivity | exact IH]. Qed.

Lemma written_queries k : written (List.concat (List.repeat query_calls k)) = [].
Proof. induction k as [| k IH]; [reflexivity | exact IH]. Qed.

Lemma written_put out : written (List.map CPut out) = out.
Proof. unfold written. induction out as [| o out IH]; [reflexivity | cbn; now rewrite IH]. Qed.

(** ** main *)

Lemma main_env_eq P out :
  after_output out
    (after_queries (Z.to_nat (num_queries P)) (after_data (Z.to_nat (num_points P)) env0)) =
  main_env P out.
Proof.
  unfold after_output, after_queries, after_data, main_env, main_calls, env0.
  cbn [rand_calls clock_reads calls app]. f_equal; [lia | lia | now rewrite <- app_assoc].
Qed.

(** [main] against the environment computes what [Main.main_run]
    computes from the two sequences; when it returns, it has made the
    calls [main_calls], in this order. *)
Lemma main_io_yields P fuel :
  exists env r,
    yields (main_io P fuel) env0 env r /\
    bind r (fun x => Ok (run_of (calls env) x)) = main_run g clock P fuel /\
    (forall run, main_run g clock P fuel = Ok run -> env = main_env P (output run)).
Proof.
  unfold main_io, main_run.
  pose proof (fill_data_io_yields P (Z.to_nat (num_points P)) 0
                (List.repeat Point_default (Z.to_nat (num_points P))) env0) as Hd.
  change (fill_data g P _ 0 _ (rand_calls env0))
    with (data_vector g P (Z.to_nat (num_points P))) in Hd.
  pose proof (gen_data_length g P (Z.to_nat (num_points P)) 0) as [_ Hs].
  rewrite <- data_vector_gen_data in Hs.
  destruct (data_vector g P _) as [data s]. cbn [fst snd] in Hd, Hs. subst s.
  set (env1 := after_data (Z.to_nat (num_points P)) env0) in *.
  destruct (build_at fuel _ _ data ∅) as [[qtree h] | | |] eqn:Eb; cbn [bind];
    try (exists env1; eexists; split;
         [eapply yields_bind; [exact Hd | rewrite Eb; apply yields_ret] |
          split; [reflexivity | discriminate]]).
  destruct (timed_queries_io_yields P fuel h qtree (Z.to_nat (num_queries P)) 0
              (List.repeat czero (Z.to_nat (num_queries P))) env1) as (env2 & Hq & Hok).
  replace (rand_calls env1) with (0 + 2 * Z.to_nat (num_points P)) in Hq, Hok
    by (unfold env1, after_data; cbn; lia).
  change (clock_reads env1) with 0 in Hq, Hok.
  destruct (timed_queries g clock P fuel h qtree _ 0 _ 0 _) as [[qt answers] | | |] eqn:Et;
    cbn [bind];
    try (exists env2; eexists; split;
         [eapply yields_bind; [exact Hd |]; rewrite Eb; cbn [try_io];
          eapply yields_bind; [exact Hq | apply yields_ret] |
          split; [reflexivity | discriminate]]).
  rewrite (Hok _ eq_refl) in Hq.
  exists (main_env P (report (avg_time P qt))). eexists. split; [| split].
  - eapply yields_bind; [exact Hd |]. rewrite Eb. cbn [try_io].
    eapply yields_bind; [exact Hq |]. cbn [try_io].
    eapply yields_bind; [apply put_all_yields |]. rewrite main_env_eq. apply yields_ret.
  - unfold main_env, main_calls, run_of. cbn [calls].
    rewrite !written_app, written_rand, written_queries, written_put.
    destruct (exit_scope fuel qtree h); reflexivity.
  - intros run Hr. destruct (exit_scope fuel qtree h); inversion Hr. reflexivity.
Qed.

(** ** Main theorem *)

(** C20: [main] asks its environment for the values of [rand()], the
    readings of the clock and the output of one line, in a fixed
    order.  In any arithmetic, whatever [rand()] and the clock return,
    with a capacity that is an [int] other than 0, the program run
    against its environment returns 0 with every object released and
    the answers of the experiment on trees, and the calls it has made
    are, in order: two calls of [rand()] for each point; for each
    query two calls of [rand()], a reading of the clock before the
    query and one after it; the four items of the line, the average
    among them. *)
Theorem main_interaction P :
  int_range (node_capacity P) -> to_size_t (node_capacity P) <> 0%Z ->
  exists out,
    experiment g P (Z.to_nat (num_points P) + 2) = Ok out /\
    yields (main_io P (Z.to_nat (num_points P) + 2)) env0
      (main_env P (report (avg_time P (measured clock (Z.to_nat (num_queries P)) 0))))
      (Ok (mkExit 0 ∅ out)).
Proof.
  intros Hr Hk. destruct (main_run_returns g clock P Hr Hk) as (out & He & Hm).
  destruct (main_io_yields P (Z.to_nat (num_points P) + 2)) as (env & r & Hy & Hb & Henv).
  exists out. split; [exact He |].
  rewrite (Henv _ Hm) in Hy. rewrite Hm in Hb. cbn [output] in Hy.
  destruct r as [[v h a] | | |]; try discriminate.
  injection Hb as -> _ -> ->. exact Hy.
Qed.

End IO.

(** ** The theorem at a sample *)

Lemma main_interaction_witness :
  exists out,
    experiment sample_rand fparams (Z.to_nat (num_points fparams) + 2) = Ok out /\
    yields sample_rand sample_clock (main_io fparams (Z.to_nat (num_points fparams) + 2)) env0
      (main_env fparams
         (report (avg_time fparams
                    (measured sample_clock (Z.to_nat (num_queries fparams)) 0))))
      (Ok (mkExit 0 ∅ out)).
Proof.
  apply (main_interaction sample_rand sample_clock fparams);
    [exact int_range_1 | vm_compute; discriminate].
Defined.

(** The calls of the sample run, three points and two queries: six
    calls of [rand()], then twice two calls of [rand()] and two readings
    of the clock, then the line. *)
Example sample_calls out :
  main_calls fparams out =
  [CRand; CRand; CRand; CRand; CRand; CRand;
   CRand; CRand; CNow; CNow; CRand; CRand; CNow; CNow] ++ List.map CPut out.
Proof. reflexivity. Qed.
